(* ===== verification/_CoqProject ===== *)
-Q . S2P
Prelude.v
Float64.v
Models.v
Algorithms.v
Preemption.v
Fragmentation.v
Store.v
Interfaces.v
StoreTheorems.v
Config.v
Engine.v
Scenarios.v
EngineLogic.v
EngineFrame.v
Ledger.v
EngineBooks.v
EngineRefinement.v
EngineSafety.v
EngineTick.v
EngineTheorems.v
GoStd.v
GoParse.v
Redis.v
NodeServer.v
NodeServerTheorems.v
RateLimit.v
Api.v
ApiTheorems.v
Leader.v
Agent.v
ConfigLoad.v
Migrations.v
Services.v
Telemetry.v
ApiMiddleware.v
Groups.v
Startup.v
Statements.v
TableInvariants.v
System.v
SystemBooks.v
Races.v
AgentReports.v
