(* ===== verification/Prelude.v ===== *)
(** * GPU cluster scheduler: verification library

    This library verifies the Go services of the GPU cluster scheduler
    ([src/internal], [src/cmd]).  The cluster consists of a scheduler (leader-elected,
    [scheduler/engine.go] driven by [redisx/leader.go], with the node service
    [grpc/server.go] beside it), a REST gateway ([api]), one agent per node
    ([agent]) and a metrics service ([metricsvc]).  They meet in a PostgreSQL
    database ([store]) with the tables jobs, nodes and scheduling_events, and
    in Redis (the leader lease and the log cache).  A user submits a job
    through the gateway (status queued); a scheduling pass ([Engine.Tick])
    assigns it to a node and reserves its resources (scheduled); the agent
    polls its assignments, runs the job and reports (running, completed,
    failed); the node service returns the resources.  Nodes that stop sending
    heartbeats are marked down and their jobs requeued or failed.

    ** Files and the code they model

    - [Prelude] (this file): 64- and 32-bit integers with wrap-around, errors
      and results, the state monad with its Hoare rules, stable sorting and
      its theory ([sort.SliceStable]), lexicographic keys, sums.
    - [Float64]: binary64 arithmetic by the Standard Library's SpecFloat;
      instants and durations in nanoseconds ([time]).
    - [GoStd], [GoParse]: the parts of Go's library that the services call:
      [strconv.Atoi], [ParseBool] and [ParseFloat], [time.ParseDuration],
      [strings.HasPrefix], RFC 3339 formatting.
    - [Models]: [models/job.go], [node.go], [scheduling.go].
    - [Algorithms]: [scheduler/algorithm.go], [placement.go], [strategies.go];
      the class [LawfulAlgorithm] is what the engine relies on, and the four
      policies are instances.
    - [Preemption]: [scheduler/preemption.go].
    - [Fragmentation]: [scheduler/fragmentation.go].
    - [Store]: [store/jobs.go], [nodes.go], [events.go].  A statement is a
      function on tables, run at a server time; the n-th statement may be
      carried out, refused, or carried out with its acknowledgement lost.
    - [Interfaces]: the interfaces [JobStore], [NodeStore], [EventStore] of
      [engine.go] as classes, their contract [StoreContract] on an abstract
      state, and the proof that the repositories meet it.
    - [StoreTheorems]: properties of the repositories.
    - [Config], [ConfigLoad]: [config/config.go], the records and [Validate],
      then [Load] and its getters over the process environment, and the
      settings of [cmd/node-agent/main.go].
    - [Engine]: [scheduler/engine.go], one definition per method, over any
      store and any algorithm.  The tick's node slice and its [running] map are
      explicit state, and a [*Node] is an index into the slice, so that the
      mutations made through the shared pointers are visible to later jobs.
    - [Scenarios]: concrete databases for the witnesses.
    - [EngineLogic], [EngineFrame]: Hoare triples for the engine against the
      contract with a store that may fail, and what a pass may touch.
    - [Ledger], [EngineBooks], [EngineRefinement], [EngineSafety],
      [EngineTick], [EngineTheorems]: resource accounting, the abstract machine
      [place_step] that the placement loop refines, and the theorems on [Tick].
    - [Redis]: list commands, expiry and pipelines; [NodeServer] and
      [NodeServerTheorems]: [grpc/server.go].
    - [RateLimit]: [api/ratelimit.go]; [Api], [ApiTheorems], [ApiMiddleware]:
      [api/handlers.go], [middleware.go], [server.go].
    - [Leader]: [redisx/leader.go] as a step relation over many electors.
    - [Agent]: [agent/agent.go], [agent/executor.go].
    - [Services]: [metricsvc/collector.go], [runtimex/runtimex.go].
    - [Migrations]: [store/postgres.go] (Migrate) and [store/migrations/*.sql].
    - [Telemetry]: [logging/logging.go], [telemetry/metrics.go], [tracing.go],
      and the registry of [metricsvc/collector.go].
    - [Groups]: the functions a service runs until it is stopped
      ([grpc/serve.go], [telemetry/server.go], [Server.Run], [serveMetrics], the
      elector's, the collector's and the agent's [Run]) as tasks of a run group.
    - [Startup]: the four programs of [src/cmd], [store.New], [redisx.New].
    - [Statements], [TableInvariants], [System], [SystemBooks], [Races]: the
      composition.  [Statements] lists the eleven SQL statements that write;
      [System] interleaves passes of the engine, RPCs of the node service and
      HTTP requests on one database, where the statements of the other clients
      may run between any two statements of a pass; [TableInvariants] and
      [SystemBooks] hold the invariants; [Races] holds the interleavings that
      break the accounting; [AgentReports] delivers what an agent's execution
      reports to the node service.

    ** What the theorems show

    - Engine, any lawful algorithm, any store that meets the contract and may
      fail at any statement: the database stays well formed, finished jobs are
      not touched ([run_keeps_wellformed], [run_leaves_finished_jobs]).
    - Engine on a healthy store: a turn of the placement loop refines an
      abstract machine ([placeOne_refines]); a pass never gives a node more
      than it has provided at most one job is entitled to preempt
      ([tick_never_overcommits]), and the proviso is needed
      ([double_preemption_overcommits]); without preemption a job that stays
      queued fits nowhere ([tick_work_conserving]) and each job ends in one of
      the described states ([tick_job_outcomes]); the jobs of dead nodes are
      recovered ([reconcile_dead_nodes]); a plan, once found, gets its job
      scheduled ([preemption_schedules_job]).
    - Policies and planner: the placement each policy chooses and the order it
      attempts the queue in; best-fit leaves the least ([bestFit_tightest]);
      preemption plans cover the request and no prefix of them does
      ([preemption_plan_sound]), are found whenever evicting everybody would do
      ([preemption_plan_complete]), and disrupt no more than any other covering
      prefix of a node's eviction order ([preemption_plan_least]).  These are
      stated by inequalities on the nodes and jobs, not by the comparisons of
      the code.
    - Repositories and servers: round trips and exact effects of each handler,
      with the accounting invariant [accounted] kept by submission,
      cancellation and completion; the assembled SQL of the job list selects
      what the filter says; the log cache keeps the latest lines of a job for
      a day after its last one ([logs_keep_recent_lines]); the gateway's
      guards; the rate limiter isolates clients; the agent does not start a
      job twice.
    - Leader election: one leader at a time as long as no leader sleeps past
      its lease ([single_leader]); without this there can be two
      ([paused_leader_overlaps]).
    - The whole system: every step of every client is a sequence of the eleven
      statements ([system_refines_statements]), so the tables stay well typed
      and linked ([system_tables_ok]) and a row's history only moves forward
      ([system_history]) under arbitrary interleavings and failures.  When the
      steps run one after the other on a healthy database, nodes behave and at
      most one job may preempt per pass, no node is ever overcommitted
      ([system_never_overcommits]); each proviso is needed.  An execution that
      is left alone ends its job and returns its resources once
      ([execution_ends_job]); one whose job is cancelled under it returns them
      twice ([cancelled_execution_overcommits]).
    - Configuration: loading is total, malformed values count as unset
      ([load_ignores_malformed]), printed numbers load back
      ([settings_roundtrip]), every number fits its type ([load_ranges]), and
      [Validate] refuses exactly the insecure configurations
      ([validate_loaded]).
    - Life cycle: after a signal every run of a group is bounded and no task
      hangs, except that the gRPC server waits for its open calls
      ([shutdown_completes]); nothing else stops three of the four services
      ([failed_listener_does_not_stop]), what each start needs
      ([starts_exactly_when]), what an exit leaves open ([exits_and_releases]),
      when a scheduler crashes ([scheduler_ticker_panics]).  The embedded
      migrations, with their guards, can be repeated and interrupted any number
      of times ([migrate_repeatable], [migrate_fresh]).
    - Telemetry: the collectors register without a clash ([metrics_register],
      [collector_registers]); the gateway accounts for every request except
      preflights and those that gin redirects ([gateway_accounts]).
    - Counterexamples proved on concrete data: [double_preemption_overcommits],
      [report_races_with_pass], [failed_write_overcommits],
      [refused_requeue_strands_victim], [reregistration_can_overoffer],
      [double_report_releases_twice], [preemption_may_evict_too_many],
      [paused_leader_overlaps], [error_exit_skips_flush].

    ** Assumptions and bounds

    Code outside the repository is a parameter with its documented laws:
    PostgreSQL's row order, collation and timestamp resolution ([PgEnv]), Redis
    and its client ([RedisLists], [RedisKeys]: expiry in milliseconds, leases
    that Redis refuses), Prometheus registries ([Prometheus]), what gin's router
    finds for a request (fields of [HttpRequest]), the JWT library ([JwtLib]), math/rand
    ([RandSource]), lower-casing of non-ASCII text (an argument of [New]), and
    the conversion of out-of-range floats, which Go leaves to the architecture
    ([GoArch]).  Each class has a concrete instance, used by the witnesses.
    Columns are 32-bit integers, so well-formed amounts are below 2^31 and
    64-bit sums over up to 2^31 of them cannot wrap ([few_nodes], [pp_size]).
    A pass raises a retry count at most twice ([retry_left 2]).  The loops of
    the repository are folds over the lists the code ranges over, without fuel;
    control loops ([Run], [register], the tasks of [Groups]) take the list of
    events that [select] delivers.  The one loop with fuel is that of
    [time.ParseDuration]: each turn consumes a character, so the length of the
    text suffices, and more changes nothing ([duration_loop_fuel],
    [duration_loop_more]).  [shutdown_completes] bounds the events that bring a
    task closer to its return (three per task, and one per gRPC call that clients
    opened) and shows that one is due as long as a task runs; that it is taken
    eventually is Go's scheduling of ready goroutines and [select] cases.  Apart from [System]
    and [Races], a pass runs alone against the database; a call that holds a
    mutex is one step.  An elector that has lost its lease is [Stopping] until
    its callback returns; it does not count as leading.  The SQL of the
    migrations is modelled by the names, columns, keys and references it
    declares and by the guard of each statement; PostgreSQL runs a file as one transaction.  Collectors of the
    Prometheus library have the documented prefixes [go_] and [process_].

    ** Not modelled

    Generated protobuf code; JSON encoding and decoding; response headers; the
    text of log lines beyond the access log and the start-up messages; the
    contents of spans beyond name, route and status; what Prometheus does with
    the samples it is given; deadlines of single calls
    (a call that times out is a failing call); [logging.WithContext],
    [FromContext] and other functions that only hand a library value on.

    ** Plan

    Next: bounds of the utilization and fragmentation floats; the agents as
    clients of the system (many executions at a time, so that the assumption on
    reports becomes one on cancellations and evictions); the elected
    engine in the system, so that at most one pass runs at a time follows from
    the lease; latency of recovery in numbers of passes. *)

From stdpp Require Export base gmap strings list sorting pretty.
From Stdlib Require Export ZArith Lia.

#[global] Open Scope Z_scope.

(** ** Machine integers: Go's [int] and [int64] are 64-bit two's complement *)

Declare Scope go_scope.
Delimit Scope go_scope with go.

Abbreviation two63 := 9223372036854775808 (only parsing).
Abbreviation two64 := 18446744073709551616 (only parsing).

Definition wrap64 (z : Z) : Z := (z + two63) `mod` two64 - two63.
Definition add64 (a b : Z) : Z := wrap64 (a + b).
Definition sub64 (a b : Z) : Z := wrap64 (a - b).
Definition mul64 (a b : Z) : Z := wrap64 (a * b).
Definition neg64 (a : Z) : Z := wrap64 (- a).
(** Conversion [int32(x)] keeps the low 32 bits. *)
Definition wrap32 (z : Z) : Z := (z + 2147483648) `mod` 4294967296 - 2147483648.

Notation "a ⊞ b" := (add64 a b) (at level 50, left associativity) : go_scope.
Notation "a ⊟ b" := (sub64 a b) (at level 50, left associativity) : go_scope.
#[global] Open Scope go_scope.

Definition in_int64 (z : Z) : Prop := - two63 <= z < two63.
(** PostgreSQL's [INTEGER] and protobuf's [int32]. *)
Definition in_int32 (z : Z) : Prop := -2147483648 <= z <= 2147483647.

#[global] Instance in_int32_dec z : Decision (in_int32 z).
Proof. unfold in_int32. apply _. Defined.
#[global] Instance in_int64_dec z : Decision (in_int64 z).
Proof. unfold in_int64. apply _. Defined.

Lemma wrap64_id z : in_int64 z -> wrap64 z = z.
Proof. unfold in_int64, wrap64. intros. rewrite Z.mod_small; lia. Qed.

Lemma wrap32_range z : in_int32 (wrap32 z).
Proof.
  unfold in_int32, wrap32.
  pose proof (Z.mod_pos_bound (z + 2147483648) 4294967296 ltac:(lia)). lia.
Qed.

Lemma wrap32_id z : in_int32 z -> wrap32 z = z.
Proof. unfold in_int32, wrap32. intros. rewrite Z.mod_small; lia. Qed.

Lemma wrap64_range z : in_int64 (wrap64 z).
Proof.
  unfold in_int64, wrap64.
  pose proof (Z.mod_pos_bound (z + two63) two64 ltac:(lia)). lia.
Qed.

Lemma wrap64_add_l a b : wrap64 (wrap64 a + b) = wrap64 (a + b).
Proof.
  unfold wrap64.
  replace ((a + two63) `mod` two64 - two63 + b + two63)
    with ((a + two63) `mod` two64 + b) by lia.
  rewrite Zplus_mod_idemp_l. f_equal. f_equal. lia.
Qed.

Lemma add64_id a b : in_int64 (a + b) -> a ⊞ b = a + b.
Proof. apply wrap64_id. Qed.

Lemma sub64_id a b : in_int64 (a - b) -> a ⊟ b = a - b.
Proof. apply wrap64_id. Qed.

Create HintDb go.

(** [go_arith] removes the wrap-around of every 64-bit sum or difference whose
    operands are bounded by the context and closes the rest by [lia]. *)
Ltac unwrap64 :=
  repeat match goal with
  | |- context [add64 ?a ?b] =>
      rewrite (add64_id a b) by (unfold in_int64, in_int32 in *; lia)
  | |- context [sub64 ?a ?b] =>
      rewrite (sub64_id a b) by (unfold in_int64, in_int32 in *; lia)
  | H : context [add64 ?a ?b] |- _ =>
      rewrite (add64_id a b) in H by (unfold in_int64, in_int32 in *; lia)
  | H : context [sub64 ?a ?b] |- _ =>
      rewrite (sub64_id a b) in H by (unfold in_int64, in_int32 in *; lia)
  end.
Ltac go_arith := unwrap64; unfold in_int64, in_int32 in *; lia.

(** [case_bool] splits the boolean tests of the source and turns them into
    the comparisons they decide. *)
Ltac case_bool :=
  repeat match goal with
  | H : context [if ?b then _ else _] |- _ => destruct b eqn:?
  | |- context [if ?b then _ else _] => destruct b eqn:?
  end.
Ltac bool_prop :=
  repeat match goal with
  | H : _ && _ = true |- _ => apply andb_true_iff in H as [? ?]
  | H : _ && _ = false |- _ => apply andb_false_iff in H
  | H : _ || _ = true |- _ => apply orb_true_iff in H
  | H : _ || _ = false |- _ => apply orb_false_iff in H as [? ?]
  | H : negb _ = true |- _ => apply negb_true_iff in H
  | H : negb _ = false |- _ => apply negb_false_iff in H
  | H : bool_decide _ = true |- _ => apply bool_decide_eq_true in H
  | H : bool_decide _ = false |- _ => apply bool_decide_eq_false in H
  | H : (_ <=? _)%Z = true |- _ => apply Z.leb_le in H
  | H : (_ <=? _)%Z = false |- _ => apply Z.leb_gt in H
  | H : (_ <? _)%Z = true |- _ => apply Z.ltb_lt in H
  | H : (_ <? _)%Z = false |- _ => apply Z.ltb_ge in H
  | H : (_ =? _)%Z = true |- _ => apply Z.eqb_eq in H
  | H : (_ =? _)%Z = false |- _ => apply Z.eqb_neq in H
  | H : String.eqb _ _ = true |- _ => apply String.eqb_eq in H
  | H : String.eqb _ _ = false |- _ => apply String.eqb_neq in H
  end.

(** ** Errors and results: Go's [(T, error)] returns *)

Inductive error :=
| ErrNotFound                    (* store.ErrNotFound *)
| ErrMsg (msg : string).         (* any other error value *)

#[global] Instance error_eq_dec : EqDecision error.
Proof. solve_decision. Defined.

Inductive res (A : Type) :=
| Ok (a : A)
| Err (e : error).
Arguments Ok {A} a.
Arguments Err {A} e.

Definition is_ok {A} (r : res A) : bool := match r with Ok _ => true | Err _ => false end.

(** ** State-passing computations *)

Definition M (S A : Type) : Type := S -> A * S.

#[global] Instance M_ret {S} : MRet (M S) := fun A a s => (a, s).
#[global] Instance M_bind {S} : MBind (M S) := fun A B k m s => let '(a, s') := m s in k a s'.

Definition get {S} : M S S := fun s => (s, s).
Definition put {S} (s : S) : M S unit := fun _ => (tt, s).
Definition modify {S} (f : S -> S) : M S unit := fun s => (tt, f s).

(** Run a computation on a part of the state, given by a getter and setter. *)
Definition zoom {S T A} (gt : T -> S) (st : S -> T -> T) (m : M S A) : M T A :=
  fun t => let '(a, s') := m (gt t) in (a, st s' t).

(** [for _, x := range l { f(x) }] *)
Fixpoint forM {S A} (l : list A) (f : A -> M S unit) : M S unit :=
  match l with
  | [] => mret tt
  | x :: l' => f x ;; forM l' f
  end.

(** Hoare triples over state-passing computations. *)
Definition hoare {S A} (P : S -> Prop) (m : M S A) (Q : A -> S -> Prop) : Prop :=
  forall s, P s -> Q (m s).1 (m s).2.

Section hoare_rules.
Context {S : Type}.
Implicit Types P : S -> Prop.

Lemma hoare_ret {A} P (a : A) (Q : A -> S -> Prop) :
  (forall s, P s -> Q a s) -> hoare P (mret a) Q.
Proof. intros H s Hs. by apply H. Qed.

Lemma hoare_bind {A B} P (m : M S A) (k : A -> M S B) R Q :
  hoare P m R -> (forall a, hoare (R a) (k a) Q) -> hoare P (m ≫= k) Q.
Proof.
  intros Hm Hk s Hs. unfold mbind, M_bind.
  specialize (Hm s Hs). destruct (m s) as [a s']. by apply (Hk a s').
Qed.

Lemma hoare_modify P (f : S -> S) (Q : unit -> S -> Prop) :
  (forall s, P s -> Q tt (f s)) -> hoare P (modify f) Q.
Proof. intros H s Hs. by apply H. Qed.

Lemma hoare_conseq {A} P P' (m : M S A) (Q Q' : A -> S -> Prop) :
  hoare P' m Q' -> (forall s, P s -> P' s) ->
  (forall a s, Q' a s -> Q a s) -> hoare P m Q.
Proof. intros H HP HQ s Hs. apply HQ, H, HP, Hs. Qed.

Lemma hoare_bind_inv {A B} P (m : M S A) (k : A -> M S B) :
  hoare P m (fun _ => P) -> (forall a, hoare P (k a) (fun _ => P)) -> hoare P (m ≫= k) (fun _ => P).
Proof. intros Hm Hk. by eapply hoare_bind. Qed.

(** Loop rule: an assertion indexed by the elements already processed. *)
Lemma hoare_forM {A} (I : list A -> S -> Prop) (f : A -> M S unit) l d0 :
  (forall d x r, d0 ++ l = d ++ x :: r -> hoare (I d) (f x) (fun _ => I (d ++ [x]))) ->
  hoare (I d0) (forM l f) (fun _ => I (d0 ++ l)).
Proof.
  revert d0. induction l as [|x l IH]; intros d0 H; simpl.
  - apply hoare_ret. by rewrite app_nil_r.
  - eapply hoare_bind; [apply (H d0 x l eq_refl)|]. intros [];cbn.
    replace (d0 ++ x :: l) with ((d0 ++ [x]) ++ l) by by rewrite <- app_assoc.
    apply IH. intros d y r Heq. apply H with (r := r).
    by rewrite <- Heq, <- app_assoc.
Qed.

(** A plain loop invariant. *)
Lemma hoare_forM_inv {A} (I : S -> Prop) (f : A -> M S unit) l :
  (forall x, x ∈ l -> hoare I (f x) (fun _ => I)) -> hoare I (forM l f) (fun _ => I).
Proof.
  intros H. apply (hoare_forM (fun _ => I) f l []).
  intros d x r Heq. apply H. simpl in Heq. rewrite Heq. set_solver.
Qed.
End hoare_rules.

Lemma hoare_zoom {S T A} (gt : T -> S) (st : S -> T -> T) (P : S -> Prop) (m : M S A) Q :
  (forall s t, gt (st s t) = s) -> hoare P m Q ->
  hoare (fun t => P (gt t)) (zoom gt st m) (fun a t => Q a (gt t)).
Proof.
  intros Hg Hm t Ht. unfold zoom. specialize (Hm (gt t) Ht). destruct (m (gt t)) as [a s].
  simpl in *. by rewrite Hg.
Qed.

(** ** [sort.SliceStable]

    Go documents the result: sorted by [less], equal elements in their original
    order.  For a strict weak order this determines the list
    ([sort_stable_unique]), so insertion sort stands for Go's block
    insertion and SymMerge. *)

Fixpoint insert_stable {A} (less : A -> A -> bool) (x : A) (l : list A) : list A :=
  match l with
  | [] => [x]
  | y :: l' => if less y x then y :: insert_stable less x l' else x :: y :: l'
  end.

Fixpoint sort_stable {A} (less : A -> A -> bool) (l : list A) : list A :=
  match l with
  | [] => []
  | x :: l' => insert_stable less x (sort_stable less l')
  end.

(** The comparison function of a sort is a strict weak order. *)
Class StrictWeakOrder {A} (less : A -> A -> bool) : Prop := {
  swo_irrefl : forall x, less x x = false;
  swo_trans : forall x y z, less x y = true -> less y z = true -> less x z = true;
  swo_incomp : forall x y z,
    less x y = true -> less x z = true \/ less z y = true
}.

Definition not_after {A} (less : A -> A -> bool) (x y : A) : Prop := less y x = false.
Definition tied {A} (less : A -> A -> bool) (x y : A) : bool :=
  negb (less x y) && negb (less y x).

Section sort_stable.
Context {A : Type} (less : A -> A -> bool).

Lemma insert_stable_perm x l : insert_stable less x l ≡ₚ x :: l.
Proof.
  induction l as [|y l IH]; simpl; [done|].
  destruct (less y x); [|done]. rewrite IH. by constructor.
Qed.

Lemma sort_stable_perm l : sort_stable less l ≡ₚ l.
Proof. induction l as [|x l IH]; simpl; [done|]. by rewrite insert_stable_perm, IH. Qed.

Context `{!StrictWeakOrder less}.

Lemma not_after_trans : Transitive (not_after less).
Proof.
  intros x y z Hxy Hyz. unfold not_after in *.
  destruct (less z x) eqn:E; [|done].
  destruct (swo_incomp z x y E); congruence.
Qed.

Lemma not_after_refl x : not_after less x x.
Proof. apply swo_irrefl. Qed.

Lemma less_asym x y : less x y = true -> less y x = false.
Proof.
  intros H. destruct (less y x) eqn:E; [|done].
  pose proof (swo_trans _ _ _ H E). by rewrite swo_irrefl in *.
Qed.

Lemma insert_stable_sorted x l :
  StronglySorted (not_after less) l -> StronglySorted (not_after less) (insert_stable less x l).
Proof.
  induction 1 as [|y l Hl IH Hall]; simpl.
  - by repeat constructor.
  - destruct (less y x) eqn:E.
    + constructor; [done|]. rewrite insert_stable_perm. constructor; [|done].
      by apply less_asym.
    + constructor; [by constructor|]. constructor; [done|].
      eapply Forall_impl; [exact Hall|]. intros z Hz.
      by apply (not_after_trans _ y).
Qed.

Lemma sort_stable_sorted l : StronglySorted (not_after less) (sort_stable less l).
Proof. induction l; simpl; [constructor|by apply insert_stable_sorted]. Qed.

Lemma tied_less_l x y z : tied less x y = true -> less x z = less y z.
Proof.
  unfold tied. intros H. bool_prop.
  destruct (less x z) eqn:Exz, (less y z) eqn:Eyz; try done.
  - destruct (swo_incomp x z y Exz); congruence.
  - destruct (swo_incomp y z x Eyz); congruence.
Qed.

Lemma insert_stable_filter z x l :
  filter (fun y => tied less z y = true) (insert_stable less x l)
  = filter (fun y => tied less z y = true) (x :: l).
Proof.
  induction l as [|y l IH]; [done|]. simpl insert_stable.
  destruct (less y x) eqn:E; [|done].
  rewrite filter_cons, IH, !filter_cons.
  destruct (decide (tied less z y = true)) as [Hy|Hy]; [|done].
  destruct (decide (tied less z x = true)) as [Hx|]; [|done].
  pose proof (tied_less_l _ _ x Hy) as Hzx. unfold tied in Hx. bool_prop. congruence.
Qed.

Lemma sort_stable_stable z l :
  filter (fun y => tied less z y = true) (sort_stable less l)
  = filter (fun y => tied less z y = true) l.
Proof.
  induction l as [|x l IH]; simpl; [done|].
  by rewrite insert_stable_filter, !filter_cons, IH.
Qed.

Lemma tied_refl x : tied less x x = true.
Proof. unfold tied. by rewrite (swo_irrefl (less:=less) x). Qed.

(** Sortedness and stability determine the list. *)
Lemma sorted_stable_unique l1 l2 :
  StronglySorted (not_after less) l1 -> StronglySorted (not_after less) l2 ->
  (forall z, filter (fun y => tied less z y = true) l1
        = filter (fun y => tied less z y = true) l2) ->
  l1 = l2.
Proof.
  revert l2. induction l1 as [|x l1 IH]; intros l2 Hs1 Hs2 Hf.
  - destruct l2 as [|y l2]; [done|]. specialize (Hf y).
    rewrite filter_nil, filter_cons, decide_True in Hf by apply tied_refl. done.
  - destruct l2 as [|y l2].
    { specialize (Hf x). rewrite filter_nil, filter_cons, decide_True in Hf by apply tied_refl.
      done. }
    apply StronglySorted_inv in Hs1 as [Hs1 Hx]. apply StronglySorted_inv in Hs2 as [Hs2 Hy].
    assert (x ∈ y :: l2) as Hx2.
    { apply (list_elem_of_filter (fun z => tied less x z = true)). rewrite <- Hf.
      rewrite filter_cons, decide_True by apply tied_refl. left. }
    assert (y ∈ x :: l1) as Hy1.
    { apply (list_elem_of_filter (fun z => tied less y z = true)). rewrite Hf.
      rewrite filter_cons, decide_True by apply tied_refl. left. }
    assert (not_after less y x) as Hyx.
    { apply elem_of_cons in Hx2 as [->|Hx2]; [apply not_after_refl|].
      rewrite Forall_forall in Hy. by apply Hy. }
    assert (not_after less x y) as Hxy.
    { apply elem_of_cons in Hy1 as [->|Hy1]; [apply not_after_refl|].
      rewrite Forall_forall in Hx. by apply Hx. }
    assert (tied less x y = true) as Ht.
    { unfold tied. unfold not_after in *. by rewrite Hxy, Hyx. }
    pose proof (Hf x) as Hfx.
    rewrite !filter_cons, decide_True, decide_True in Hfx by (apply tied_refl || done).
    injection Hfx as <- _. f_equal. apply IH; [done..|]. intros z. specialize (Hf z).
    rewrite !filter_cons in Hf. case_decide; [by injection Hf|done].
Qed.
End sort_stable.

(** ** Lexicographic keys

    Every comparison function of the source compares a few keys in turn.
    [lexb] is the strict lexicographic order on lists of integers; a [less]
    that agrees with it on some key is a strict weak order. *)

Fixpoint lexb (a b : list Z) : bool :=
  match a, b with
  | x :: a', y :: b' => if x =? y then lexb a' b' else x <? y
  | [], _ :: _ => true
  | _, [] => false
  end.

Lemma lexb_irrefl a : lexb a a = false.
Proof. induction a; simpl; [done|]. by rewrite Z.eqb_refl. Qed.

Lemma lexb_trans a b c : lexb a b = true -> lexb b c = true -> lexb a c = true.
Proof.
  revert b c. induction a as [|x a IH]; intros [|y b] [|z c]; simpl; try done.
  destruct (Z.eqb_spec x y), (Z.eqb_spec y z), (Z.eqb_spec x z);
    intros; bool_prop; subst; eauto; try lia; apply Z.ltb_lt; lia.
Qed.

Lemma lexb_total a b : lexb a b = true \/ a = b \/ lexb b a = true.
Proof.
  revert b. induction a as [|x a IH]; intros [|y b]; simpl; auto.
  destruct (Z.eqb_spec x y) as [->|].
  - rewrite Z.eqb_refl. destruct (IH b) as [|[->|]]; auto.
  - destruct (Z.eqb_spec y x); [done|]. rewrite !Z.ltb_lt. lia.
Qed.

Lemma swo_key {A} (less : A -> A -> bool) (key : A -> list Z) :
  (forall x y, less x y = lexb (key x) (key y)) -> StrictWeakOrder less.
Proof.
  intros H. split.
  - intros x. rewrite H. apply lexb_irrefl.
  - intros x y z. rewrite !H. apply lexb_trans.
  - intros x y z. rewrite !H. intros Hxy.
    destruct (lexb_total (key x) (key z)) as [|[<-|Hzx]]; [by left|by right|].
    right. by eapply lexb_trans.
Qed.

(** Sorted by a key: earlier elements have a key that is not larger. *)
Definition key_sorted {A} (key : A -> list Z) (l : list A) : Prop :=
  StronglySorted (fun x y => lexb (key y) (key x) = false) l.

Lemma sort_stable_key_sorted {A} (less : A -> A -> bool) (key : A -> list Z) l :
  (forall x y, less x y = lexb (key x) (key y)) -> key_sorted key (sort_stable less l).
Proof.
  intros H. pose proof (swo_key _ _ H).
  pose proof (sort_stable_sorted less l) as Hs. unfold key_sorted.
  induction Hs as [|x l' Hs IH Hall]; constructor; [done|].
  eapply Forall_impl; [exact Hall|]. intros y Hy. unfold not_after in Hy. by rewrite <- H.
Qed.

(** Elements with the same key keep their order. *)
Lemma sort_stable_key_stable {A} (less : A -> A -> bool) (key : A -> list Z) k l :
  (forall x y, less x y = lexb (key x) (key y)) ->
  filter (fun x => key x = k) (sort_stable less l) = filter (fun x => key x = k) l.
Proof.
  intros H. pose proof (swo_key _ _ H) as Hswo.
  destruct (decide (Exists (fun x => key x = k) l)) as [[z [Hz Hk]]%Exists_exists|Hn].
  - assert (forall l' : list A, filter (fun x => key x = k) l'
                  = filter (fun y => tied less z y = true) l') as E.
    { intros l'. apply list_filter_iff. intros x. unfold tied.
      rewrite !H, Hk. destruct (lexb_total k (key x)) as [E|[->|E]].
      - rewrite E. simpl. split; [|done]. intros <-. by rewrite lexb_irrefl in E.
      - by rewrite lexb_irrefl.
      - rewrite E, andb_false_r. split; [|done]. intros <-. by rewrite lexb_irrefl in E. }
    rewrite !E. by apply sort_stable_stable.
  - assert (forall l' : list A, l' ≡ₚ l -> filter (fun x => key x = k) l' = []) as E.
    { intros l' Hp. destruct (filter (fun x => key x = k) l') as [|x f] eqn:F; [done|].
      exfalso. apply Hn. apply Exists_exists. exists x.
      assert (x ∈ filter (fun x => key x = k) l') as [Hx Hin]%list_elem_of_filter
        by (rewrite F; left). split; [by rewrite <- Hp|done]. }
    by rewrite !E by (apply sort_stable_perm || done).
Qed.

(** A sorted and stable arrangement of a list is determined by the list. *)
Definition key_arranged {A} (key : A -> list Z) (l k : list A) : Prop :=
  k ≡ₚ l /\ key_sorted key k
  /\ forall v, filter (fun x => key x = v) k = filter (fun x => key x = v) l.

Lemma sort_stable_arranged {A} (less : A -> A -> bool) (key : A -> list Z) l :
  (forall x y, less x y = lexb (key x) (key y)) -> key_arranged key l (sort_stable less l).
Proof.
  intros H. split_and!; [by apply sort_stable_perm|by apply sort_stable_key_sorted|].
  intros v. by apply sort_stable_key_stable.
Qed.

Lemma key_sorted_unique {A} (key : A -> list Z) (l k : list A) :
  l ≡ₚ k -> key_sorted key l -> key_sorted key k ->
  (forall v, filter (fun x => key x = v) l = filter (fun x => key x = v) k) -> l = k.
Proof.
  revert k. induction l as [|x l IH]; intros [|y k] Hp Hl Hk Hf;
    [done|by apply Permutation_nil_cons in Hp|by apply symmetry, Permutation_nil_cons in Hp|].
  apply StronglySorted_inv in Hl as [Hl Hx]. apply StronglySorted_inv in Hk as [Hk Hy].
  assert (key x = key y) as Exy.
  { assert (x = y \/ x ∈ k) as Hxk.
    { apply elem_of_cons. rewrite <- Hp. left. }
    assert (y = x \/ y ∈ l) as Hyl.
    { apply elem_of_cons. rewrite Hp. left. }
    rewrite Forall_forall in Hx, Hy.
    destruct Hxk as [->|Hxk], Hyl as [?|Hyl]; try congruence.
    specialize (Hx _ Hyl). specialize (Hy _ Hxk).
    destruct (lexb_total (key x) (key y)) as [|[|]]; congruence. }
  assert (x = y) as <-.
  { pose proof (Hf (key x)) as H. rewrite !filter_cons_True in H by done. by simplify_eq. }
  f_equal. apply IH; [by apply Permutation_cons_inv in Hp|done|done|].
  intros v. specialize (Hf v). rewrite !filter_cons in Hf. case_decide; by simplify_eq.
Qed.

Lemma key_arranged_unique {A} (key : A -> list Z) (l k1 k2 : list A) :
  key_arranged key l k1 -> key_arranged key l k2 -> k1 = k2.
Proof.
  intros (P1 & S1 & F1) (P2 & S2 & F2). apply (key_sorted_unique key); [|done..|].
  - by rewrite P1, P2.
  - intros v. by rewrite F1, F2.
Qed.

(** ** Sums of a measure over a list *)

Definition zsum {A} (f : A -> Z) (l : list A) : Z := foldr (fun x acc => f x + acc) 0 l.
Arguments zsum : simpl never.

Lemma zsum_nil {A} (f : A -> Z) : zsum f [] = 0.
Proof. done. Qed.

Lemma zsum_cons {A} (f : A -> Z) x l : zsum f (x :: l) = f x + zsum f l.
Proof. done. Qed.

Lemma zsum_app {A} (f : A -> Z) l k : zsum f (l ++ k) = zsum f l + zsum f k.
Proof. induction l as [|x l IH]; simpl; [done|]. rewrite !zsum_cons, IH. lia. Qed.

Lemma zsum_snoc {A} (f : A -> Z) l x : zsum f (l ++ [x]) = zsum f l + f x.
Proof. rewrite zsum_app, zsum_cons, zsum_nil. lia. Qed.

#[global] Instance zsum_proper {A} (f : A -> Z) : Proper ((≡ₚ) ==> (=)) (zsum f).
Proof. intros l k H. induction H; rewrite ?zsum_cons in *; lia. Qed.

Lemma zsum_zero {A} (f : A -> Z) l : Forall (fun x => f x = 0) l -> zsum f l = 0.
Proof. induction 1; rewrite ?zsum_cons; [done|lia]. Qed.

Lemma zsum_nonneg {A} (f : A -> Z) l : Forall (fun x => 0 <= f x) l -> 0 <= zsum f l.
Proof. induction 1; rewrite ?zsum_cons; [done|lia]. Qed.

Lemma zsum_bound {A} (f : A -> Z) b l :
  Forall (fun x => 0 <= f x <= b) l -> 0 <= zsum f l <= Z.of_nat (length l) * b.
Proof. induction 1; rewrite ?zsum_nil, ?zsum_cons; simpl length; lia. Qed.

(** ** Lists *)

Lemma filter_map {A B} (f : A -> B) (P : B -> Prop) `{!forall x, Decision (P x)} (l : list A) :
  filter P (map f l) = map f (filter (fun x => P (f x)) l).
Proof.
  induction l as [|x l IH]; [done|]. simpl. rewrite !filter_cons.
  destruct (decide (P (f x))); simpl; by rewrite IH.
Qed.

Lemma NoDup_map_filter {A B} (f : A -> B) (P : A -> Prop) `{!forall x, Decision (P x)} l :
  NoDup (map f l) -> NoDup (map f (filter P l)).
Proof.
  induction l as [|x l IH]; simpl; [done|]. intros [Hni Hnd]%NoDup_cons. rewrite filter_cons.
  case_decide; [|by apply IH]. simpl. apply NoDup_cons. split; [|by apply IH].
  intros (y & E & [_ Hy]%list_elem_of_filter)%list_elem_of_fmap. apply Hni. rewrite E.
  by apply list_elem_of_fmap_2.
Qed.
