(* ===== verification/Float64.v ===== *)
(** * Go's [float64] and [time]

    [float64] is IEEE 754 binary64: the operations are those of the Standard
    Library's executable specification [SpecFloat] at precision 53 and maximal
    exponent 1024, so every division, product and sum below is rounded exactly
    as the hardware rounds it.  An instant is a number of nanoseconds, a
    [time.Duration] a 64-bit number of nanoseconds.

    The conversion [int(f)] of a float outside the 64-bit range is left to the
    implementation by the Go specification; it is the field [f2i_oor] of the
    class [GoArch]. *)


From Stdlib Require Export SpecFloat.
From S2P Require Import Prelude.

Abbreviation float64 := spec_float (only parsing).

(** ** Operations *)

Definition f64_add : float64 -> float64 -> float64 := SFadd 53 1024.
Definition f64_sub : float64 -> float64 -> float64 := SFsub 53 1024.
Definition f64_mul : float64 -> float64 -> float64 := SFmul 53 1024.
Definition f64_div : float64 -> float64 -> float64 := SFdiv 53 1024.
Definition f64_lt : float64 -> float64 -> bool := SFltb.
Definition f64_le : float64 -> float64 -> bool := SFleb.
Definition f64_eq : float64 -> float64 -> bool := SFeqb.
(** [float64(z)], rounding to nearest even. *)
Definition f64_of_int (z : Z) : float64 := binary_normalize 53 1024 z 0 false.

Definition f64_zero : float64 := S754_zero false.
Definition f64_one : float64 := f64_of_int 1.

(** The integer part, rounding toward zero. *)
Definition f64_trunc (f : float64) : option Z :=
  match f with
  | S754_zero _ => Some 0
  | S754_finite s m e =>
      let a := if 0 <=? e then Z.pos m * 2 ^ e else Z.pos m / 2 ^ (- e) in
      Some (if s then - a else a)
  | _ => None
  end.

(** What the compiler does with an [int(f)] that does not fit. *)
Class GoArch := {
  f2i_oor : float64 -> Z;
  f2i_oor_range : forall f, in_int64 (f2i_oor f)
}.

Definition f64_to_int `{GoArch} (f : float64) : Z :=
  match f64_trunc f with
  | Some z => if decide (in_int64 z) then z else f2i_oor f
  | None => f2i_oor f
  end.

(** On amd64 the conversion instruction yields the smallest integer. *)
#[export, program] Instance amd64 : GoArch := {| f2i_oor := fun _ => - two63 |}.
Next Obligation. unfold in_int64. lia. Qed.

(** ** Time *)

Abbreviation Time := Z (only parsing).
Abbreviation Duration := Z (only parsing).

Definition Microsecond : Duration := 1000.
Definition Millisecond : Duration := 1000000.
Definition Second : Duration := 1000000000.
Definition Minute : Duration := 60000000000.
Definition Hour : Duration := 3600000000000.

(** [t.Sub(u)] saturates at the extreme durations. *)
Definition time_Sub (t u : Time) : Duration := Z.max (- two63) (Z.min (two63 - 1) (t - u)).
Definition time_Before (t u : Time) : bool := t <? u.
Definition time_After (t u : Time) : bool := u <? t.

Definition Minutes (d : Duration) : float64 :=
  f64_add (f64_of_int (Z.quot d Minute)) (f64_div (f64_of_int (Z.rem d Minute)) (f64_of_int Minute)).
Definition Seconds (d : Duration) : float64 :=
  f64_add (f64_of_int (Z.quot d Second)) (f64_div (f64_of_int (Z.rem d Second)) (f64_of_int Second)).
Definition Milliseconds (d : Duration) : Z := Z.quot d Millisecond.
Definition Microseconds (d : Duration) : Z := Z.quot d Microsecond.

(** ** Order *)

Definition not_nan (f : float64) : Prop := f <> S754_nan.

Lemma pos_compare_cont_eq m n : Pos.compare_cont Eq m n = Pos.compare m n.
Proof. done. Qed.

Lemma SFltb_irrefl x : SFltb x x = false.
Proof.
  destruct x as [s|s| |s m e]; unfold SFltb; simpl; [done|by destruct s|done|].
  rewrite Z.compare_refl, pos_compare_cont_eq, Pos.compare_refl. by destruct s.
Qed.

(** The sign, then exponent and mantissa, as one key that orders like [SFltb]. *)
Definition f64_key (f : float64) : Z * Z * Z :=
  match f with
  | S754_nan => (0, 0, 0)
  | S754_infinity true => (-2, 0, 0)
  | S754_infinity false => (2, 0, 0)
  | S754_zero _ => (0, 0, 0)
  | S754_finite true m e => (-1, - e, Z.neg m)
  | S754_finite false m e => (1, e, Z.pos m)
  end.

Definition key_lt (a b : Z * Z * Z) : Prop :=
  a.1.1 < b.1.1 \/ a.1.1 = b.1.1 /\ (a.1.2 < b.1.2 \/ a.1.2 = b.1.2 /\ a.2 < b.2).

Lemma SFltb_key x y : not_nan x -> not_nan y -> SFltb x y = true <-> key_lt (f64_key x) (f64_key y).
Proof.
  intros Hx Hy. unfold SFltb, key_lt.
  destruct x as [[]|[]| |[] m e], y as [[]|[]| |[] m' e']; try done; simpl;
    try (split; [done || lia| (intros; done) || lia]);
    rewrite ?pos_compare_cont_eq;
    (destruct (Z.compare_spec e e') as [->|?|?]; [destruct (Pos.compare_spec m m') as [->|?|?]|..]);
    simpl; split; intros; (done || lia).
Qed.

Lemma SFeqb_key x y : not_nan x -> not_nan y -> SFeqb x y = true <-> f64_key x = f64_key y.
Proof.
  intros Hx Hy. unfold SFeqb.
  destruct x as [[]|[]| |[] m e], y as [[]|[]| |[] m' e']; try done; simpl;
    rewrite ?pos_compare_cont_eq;
    try (destruct (Z.compare_spec e e') as [->|?|?]; [destruct (Pos.compare_spec m m') as [->|?|?]|..]);
    simpl; split; intros HH; try done; simplify_eq; try lia.
Qed.
