(* ===== verification/Models.v ===== *)
(** * Domain model: [internal/models]

    Jobs, nodes, resource requests, scheduling events, utilization snapshots
    and team quotas with the methods the source gives them.  Statuses are
    Go string types with named constants, and stay strings here: the database
    column is [TEXT] and the REST and gRPC layers convert arbitrary input to
    them.  Resource counters are Go [int]s and wrap at 64 bits. *)

From S2P Require Import Prelude Float64.

#[local] Open Scope string_scope.
#[local] Open Scope list_scope.
#[local] Open Scope Z_scope.

(** ** Job status *)

Abbreviation JobStatus := string (only parsing).

Definition JobStatusQueued : JobStatus := "queued".
Definition JobStatusScheduled : JobStatus := "scheduled".
Definition JobStatusRunning : JobStatus := "running".
Definition JobStatusCompleted : JobStatus := "completed".
Definition JobStatusFailed : JobStatus := "failed".
Definition JobStatusCancelled : JobStatus := "cancelled".
Definition JobStatusPreempted : JobStatus := "preempted".

Definition IsTerminal (s : JobStatus) : bool :=
  String.eqb s JobStatusCompleted || String.eqb s JobStatusFailed
  || String.eqb s JobStatusCancelled.

Definition IsActive (s : JobStatus) : bool :=
  String.eqb s JobStatusScheduled || String.eqb s JobStatusRunning.

(** The states a job row can hold. *)
Definition job_statuses : list JobStatus :=
  [JobStatusQueued; JobStatusScheduled; JobStatusRunning; JobStatusCompleted;
   JobStatusFailed; JobStatusCancelled; JobStatusPreempted].

(** ** Jobs *)

Record ResourceRequest := mkReq { rr_GPU : Z; rr_CPU : Z; rr_MemoryGB : Z }.

Record Job := mkJob {
  j_JobID : string;
  j_Name : string;
  j_UserID : string;
  j_TeamID : string;
  j_Status : JobStatus;
  j_Priority : Z;
  j_GPUCount : Z;
  j_CPUCount : Z;
  j_MemoryGB : Z;
  j_Image : string;
  j_Command : string;
  j_NodeID : string;
  j_RetryCount : Z;
  j_MaxRetries : Z;
  j_CostPerHour : float64;
  j_CreatedAt : Time;
  j_StartedAt : option Time;
  j_CompletedAt : option Time;
  j_EffectivePriority : Z
}.

(** [j.ResourceRequest()] *)
Definition job_request (j : Job) : ResourceRequest :=
  mkReq (j_GPUCount j) (j_CPUCount j) (j_MemoryGB j).

Definition Age (j : Job) (now : Time) : Duration := time_Sub now (j_CreatedAt j).

Record SubmitJobRequest := mkSubmit {
  sr_Name : string;
  sr_UserID : string;
  sr_TeamID : string;
  sr_Priority : Z;
  sr_GPUCount : Z;
  sr_CPUCount : Z;
  sr_MemoryGB : Z;
  sr_Image : string;
  sr_Command : string;
  sr_MaxRetries : Z
}.

(** Field assignments [j.F = v] of the source, as functional updates. *)
Definition set_lifecycle (st node : string) (retry : Z) (started completed : option Time)
    (j : Job) : Job :=
  mkJob (j_JobID j) (j_Name j) (j_UserID j) (j_TeamID j) st (j_Priority j) (j_GPUCount j)
    (j_CPUCount j) (j_MemoryGB j) (j_Image j) (j_Command j) node retry (j_MaxRetries j)
    (j_CostPerHour j) (j_CreatedAt j) started completed (j_EffectivePriority j).

Definition set_EffectivePriority (p : Z) (j : Job) : Job :=
  mkJob (j_JobID j) (j_Name j) (j_UserID j) (j_TeamID j) (j_Status j) (j_Priority j)
    (j_GPUCount j) (j_CPUCount j) (j_MemoryGB j) (j_Image j) (j_Command j) (j_NodeID j)
    (j_RetryCount j) (j_MaxRetries j) (j_CostPerHour j) (j_CreatedAt j) (j_StartedAt j)
    (j_CompletedAt j) p.

(** ** Nodes *)

Abbreviation NodeStatus := string (only parsing).

Definition NodeStatusReady : NodeStatus := "ready".
Definition NodeStatusDraining : NodeStatus := "draining".
Definition NodeStatusCordoned : NodeStatus := "cordoned".
Definition NodeStatusDown : NodeStatus := "down".

Definition Schedulable (s : NodeStatus) : bool := String.eqb s NodeStatusReady.

Record Node := mkNode {
  n_NodeID : string;
  n_Hostname : string;
  n_Status : NodeStatus;
  n_GPUCapacity : Z;
  n_GPUAvailable : Z;
  n_CPUCapacity : Z;
  n_CPUAvailable : Z;
  n_MemoryCapacity : Z;
  n_MemoryAvailable : Z;
  n_GPUModel : string;
  n_CostPerHour : float64;
  n_Spot : bool;
  n_Labels : gmap string string;
  n_LastHeartbeat : Time;
  n_RegisteredAt : Time
}.

Definition set_available (gpu cpu mem : Z) (n : Node) : Node :=
  mkNode (n_NodeID n) (n_Hostname n) (n_Status n) (n_GPUCapacity n) gpu (n_CPUCapacity n) cpu
    (n_MemoryCapacity n) mem (n_GPUModel n) (n_CostPerHour n) (n_Spot n) (n_Labels n)
    (n_LastHeartbeat n) (n_RegisteredAt n).

Definition set_liveness (st : NodeStatus) (hb : Time) (n : Node) : Node :=
  mkNode (n_NodeID n) (n_Hostname n) st (n_GPUCapacity n) (n_GPUAvailable n) (n_CPUCapacity n)
    (n_CPUAvailable n) (n_MemoryCapacity n) (n_MemoryAvailable n) (n_GPUModel n)
    (n_CostPerHour n) (n_Spot n) (n_Labels n) hb (n_RegisteredAt n).

Definition Fits (n : Node) (r : ResourceRequest) : bool :=
  Schedulable (n_Status n) && (rr_GPU r <=? n_GPUAvailable n)
  && (rr_CPU r <=? n_CPUAvailable n) && (rr_MemoryGB r <=? n_MemoryAvailable n).

(** The three utilization methods have one shape. *)
Definition utilization (capacity available : Z) : float64 :=
  if capacity =? 0 then f64_zero
  else f64_div (f64_of_int (capacity ⊟ available)) (f64_of_int capacity).

Definition GPUUtilization (n : Node) : float64 := utilization (n_GPUCapacity n) (n_GPUAvailable n).
Definition CPUUtilization (n : Node) : float64 := utilization (n_CPUCapacity n) (n_CPUAvailable n).
Definition MemoryUtilization (n : Node) : float64 :=
  utilization (n_MemoryCapacity n) (n_MemoryAvailable n).

Definition Reserve (n : Node) (r : ResourceRequest) : Node :=
  set_available (n_GPUAvailable n ⊟ rr_GPU r) (n_CPUAvailable n ⊟ rr_CPU r)
    (n_MemoryAvailable n ⊟ rr_MemoryGB r) n.

(** [x += d; if x > cap { x = cap }] *)
Definition add_clamped (avail d cap : Z) : Z :=
  let a := avail ⊞ d in if cap <? a then cap else a.

Definition Release (n : Node) (r : ResourceRequest) : Node :=
  set_available (add_clamped (n_GPUAvailable n) (rr_GPU r) (n_GPUCapacity n))
    (add_clamped (n_CPUAvailable n) (rr_CPU r) (n_CPUCapacity n))
    (add_clamped (n_MemoryAvailable n) (rr_MemoryGB r) (n_MemoryCapacity n)) n.

(** ** Scheduling events, snapshots and quotas *)

Record SchedulingEvent := mkEvent {
  ev_EventID : string;
  ev_JobID : string;
  ev_SelectedNode : string;
  ev_SchedulingReason : string;
  ev_Algorithm : string;
  ev_LatencyMS : float64;
  ev_Success : bool;
  ev_Timestamp : Time
}.

Record ClusterUtilization := mkUtil {
  cu_TotalGPUs : Z;
  cu_UsedGPUs : Z;
  cu_TotalCPUs : Z;
  cu_UsedCPUs : Z;
  cu_TotalMemoryGB : Z;
  cu_UsedMemoryGB : Z;
  cu_GPUUtilization : float64;
  cu_CPUUtilization : float64;
  cu_MemoryUtilization : float64;
  cu_NodesReady : Z;
  cu_NodesTotal : Z;
  cu_JobsRunning : Z;
  cu_JobsQueued : Z;
  cu_Fragmentation : float64
}.

Record TeamQuota := mkQuota {
  tq_TeamID : string;
  tq_MaxGPUs : Z;
  tq_MaxCPUs : Z;
  tq_MaxMemoryGB : Z;
  tq_UsedGPUs : Z;
  tq_UsedCPUs : Z;
  tq_UsedMemoryGB : Z
}.

Definition HasCapacityFor (q : TeamQuota) (r : ResourceRequest) : bool :=
  (tq_UsedGPUs q ⊞ rr_GPU r <=? tq_MaxGPUs q)
  && (tq_UsedCPUs q ⊞ rr_CPU r <=? tq_MaxCPUs q)
  && (tq_UsedMemoryGB q ⊞ rr_MemoryGB r <=? tq_MaxMemoryGB q).

(** ** Well-formedness

    Counters that come out of the database are [INTEGER]s; a node never offers
    more than it has, and a request never asks for a negative amount. *)

Definition dim_wf (avail cap : Z) : Prop := 0 <= avail <= cap /\ cap <= 2147483647.

Definition node_wf (n : Node) : Prop :=
  dim_wf (n_GPUAvailable n) (n_GPUCapacity n)
  /\ dim_wf (n_CPUAvailable n) (n_CPUCapacity n)
  /\ dim_wf (n_MemoryAvailable n) (n_MemoryCapacity n).

Definition amount_wf (z : Z) : Prop := 0 <= z <= 2147483647.

Definition req_wf (r : ResourceRequest) : Prop :=
  amount_wf (rr_GPU r) /\ amount_wf (rr_CPU r) /\ amount_wf (rr_MemoryGB r).

Definition job_wf (j : Job) : Prop := req_wf (job_request j) /\ in_int32 (j_Priority j).

(** The columns of a job that never change after submission. *)
Definition frozen (j : Job) : Job := set_lifecycle "" "" 0 None None j.

(** The columns of a node that only registration changes. *)
Definition bare (n : Node) : Node := set_liveness "" 0 (set_available 0 0 0 n).

#[global] Instance node_wf_dec n : Decision (node_wf n).
Proof. unfold node_wf, dim_wf. apply _. Defined.
#[global] Instance req_wf_dec r : Decision (req_wf r).
Proof. unfold req_wf, amount_wf. apply _. Defined.
#[global] Instance job_wf_dec j : Decision (job_wf j).
Proof. unfold job_wf. apply _. Defined.
#[global] Instance float64_eq_dec : EqDecision spec_float.
Proof. solve_decision. Defined.
#[global] Instance Job_eq_dec : EqDecision Job.
Proof. solve_decision. Defined.
#[global] Instance Node_eq_dec : EqDecision Node.
Proof. solve_decision. Defined.
#[global] Instance event_eq_dec : EqDecision SchedulingEvent.
Proof. solve_decision. Defined.
#[global] Instance req_eq_dec : EqDecision ResourceRequest.
Proof. solve_decision. Defined.

Ltac unfold_wf :=
  unfold job_wf, node_wf, req_wf, dim_wf, amount_wf, job_request in *; simpl in *.

(** ** Lemmas *)

Lemma Fits_true n r :
  Fits n r = true <->
  n_Status n = NodeStatusReady /\ rr_GPU r <= n_GPUAvailable n
  /\ rr_CPU r <= n_CPUAvailable n /\ rr_MemoryGB r <= n_MemoryAvailable n.
Proof.
  unfold Fits, Schedulable. rewrite !andb_true_iff, String.eqb_eq, !Z.leb_le. tauto.
Qed.

Lemma add_clamped_min a d c : dim_wf a c -> amount_wf d -> add_clamped a d c = Z.min c (a + d).
Proof.
  unfold add_clamped, dim_wf, amount_wf. intros. unwrap64. case_bool; bool_prop; lia.
Qed.

Lemma add_clamped_wf a d c : dim_wf a c -> amount_wf d -> dim_wf (add_clamped a d c) c.
Proof. intros Ha Hd. rewrite add_clamped_min by done. unfold dim_wf, amount_wf in *. lia. Qed.

Lemma sub64_dim a d c : dim_wf a c -> amount_wf d -> a ⊟ d = a - d.
Proof. unfold dim_wf, amount_wf. intros. go_arith. Qed.

Lemma Release_wf n r : node_wf n -> req_wf r -> node_wf (Release n r).
Proof.
  intros (Hg & Hc & Hm) (Rg & Rc & Rm). split_and!; simpl; by apply add_clamped_wf.
Qed.

Lemma Reserve_wf n r : node_wf n -> req_wf r -> Fits n r = true -> node_wf (Reserve n r).
Proof.
  intros (Hg & Hc & Hm) (Rg & Rc & Rm) (_ & ? & ? & ?)%Fits_true.
  split_and!; simpl; erewrite sub64_dim by eassumption; unfold dim_wf, amount_wf in *; lia.
Qed.

#[export] Hint Resolve Release_wf Reserve_wf : go.

Lemma Reserve_status n r : n_Status (Reserve n r) = n_Status n.
Proof. done. Qed.
Lemma Release_status n r : n_Status (Release n r) = n_Status n.
Proof. done. Qed.

Lemma Reserve_available n r : node_wf n -> req_wf r ->
  n_GPUAvailable (Reserve n r) = n_GPUAvailable n - rr_GPU r
  /\ n_CPUAvailable (Reserve n r) = n_CPUAvailable n - rr_CPU r
  /\ n_MemoryAvailable (Reserve n r) = n_MemoryAvailable n - rr_MemoryGB r.
Proof.
  intros (Hg & Hc & Hm) (Rg & Rc & Rm). split_and!; simpl; eapply sub64_dim; eassumption.
Qed.

Lemma Release_available n r : node_wf n -> req_wf r ->
  n_GPUAvailable (Release n r) = Z.min (n_GPUCapacity n) (n_GPUAvailable n + rr_GPU r)
  /\ n_CPUAvailable (Release n r) = Z.min (n_CPUCapacity n) (n_CPUAvailable n + rr_CPU r)
  /\ n_MemoryAvailable (Release n r) = Z.min (n_MemoryCapacity n) (n_MemoryAvailable n + rr_MemoryGB r).
Proof.
  intros (Hg & Hc & Hm) (Rg & Rc & Rm). split_and!; simpl; by apply add_clamped_min.
Qed.

Lemma node_ext n n' :
  set_available 0 0 0 n = set_available 0 0 0 n' ->
  n_GPUAvailable n = n_GPUAvailable n' -> n_CPUAvailable n = n_CPUAvailable n' ->
  n_MemoryAvailable n = n_MemoryAvailable n' -> n = n'.
Proof. destruct n, n'; unfold set_available; simpl; intros H -> -> ->. injection H. intros. by subst. Qed.

Lemma reserve_release n r :
  node_wf n -> req_wf r -> Fits n r = true -> Release (Reserve n r) r = n.
Proof.
  intros Hn Hr Hf. pose proof (Reserve_wf _ _ Hn Hr Hf) as Hn'.
  destruct (Reserve_available n r Hn Hr) as (Eg & Ec & Em).
  destruct (Release_available _ r Hn' Hr) as (Fg & Fc & Fm).
  apply Fits_true in Hf as (_ & ? & ? & ?).
  apply node_ext; [done|..]; rewrite ?Fg, ?Fc, ?Fm, ?Eg, ?Ec, ?Em;
    unfold Reserve; unfold_wf; lia.
Qed.

Lemma IsTerminal_iff s :
  IsTerminal s = true <-> s = JobStatusCompleted \/ s = JobStatusFailed \/ s = JobStatusCancelled.
Proof. unfold IsTerminal. rewrite !orb_true_iff, !String.eqb_eq. tauto. Qed.

Lemma IsActive_iff s : IsActive s = true <-> s = JobStatusScheduled \/ s = JobStatusRunning.
Proof. unfold IsActive. rewrite !orb_true_iff, !String.eqb_eq. tauto. Qed.

(** ** Properties *)

(** C33: Reserving a request that fits keeps the node well formed (every
    availability stays between zero and the capacity), takes exactly the
    request off each dimension, and releasing the same request restores the
    node. *)
Theorem reserve_then_release n r :
  node_wf n -> req_wf r -> Fits n r = true ->
  node_wf (Reserve n r)
  /\ n_GPUAvailable (Reserve n r) = n_GPUAvailable n - rr_GPU r
  /\ n_CPUAvailable (Reserve n r) = n_CPUAvailable n - rr_CPU r
  /\ n_MemoryAvailable (Reserve n r) = n_MemoryAvailable n - rr_MemoryGB r
  /\ Release (Reserve n r) r = n.
Proof.
  intros Hn Hr Hf. destruct (Reserve_available n r Hn Hr) as (? & ? & ?).
  split_and!; auto with go. by apply reserve_release.
Qed.

Definition node_example : Node :=
  mkNode "gpu-01" "gpu-01" NodeStatusReady 8 4 64 32 512 256 "A100" f64_zero false ∅ 0 0.

Lemma reserve_then_release_witness :
  Release (Reserve node_example (mkReq 2 8 64)) (mkReq 2 8 64) = node_example.
Proof.
  apply (reserve_then_release node_example (mkReq 2 8 64)).
  - by apply (bool_decide_unpack _).
  - by apply (bool_decide_unpack _).
  - reflexivity.
Defined.

(** Releasing any well-formed request clamps at the capacity: each
    availability becomes the smaller of the capacity and the sum, and the node
    stays well formed, however often a release is repeated. *)
Theorem release_clamps n r :
  node_wf n -> req_wf r ->
  node_wf (Release n r)
  /\ n_GPUAvailable (Release n r) = Z.min (n_GPUCapacity n) (n_GPUAvailable n + rr_GPU r)
  /\ n_CPUAvailable (Release n r) = Z.min (n_CPUCapacity n) (n_CPUAvailable n + rr_CPU r)
  /\ n_MemoryAvailable (Release n r) = Z.min (n_MemoryCapacity n) (n_MemoryAvailable n + rr_MemoryGB r).
Proof. intros Hn Hr. split; [auto with go|]. by apply Release_available. Qed.

Lemma release_clamps_witness :
  n_GPUAvailable (Release node_example (mkReq 6 0 0)) = 8.
Proof.
  rewrite (proj1 (proj2 (release_clamps node_example (mkReq 6 0 0)
    ltac:(by apply (bool_decide_unpack _)) ltac:(by apply (bool_decide_unpack _))))).
  reflexivity.
Defined.
