(* ===== verification/Algorithms.v ===== *)
(** * Placement and ordering: [internal/scheduler/{algorithm,placement,strategies}.go]

    A [*models.Node] of the tick's node slice is the index of that node in the
    slice: the engine mutates the nodes of the slice in place, and every pointer
    the algorithms return points into it.  [sort.SliceStable] is
    [Prelude.sort_stable].  The [Algorithm] interface is a record of operations;
    [LawfulAlgorithm] is the contract the engine relies on, discharged by the
    four policies. *)

From S2P Require Import Prelude Float64 Models.

#[local] Open Scope string_scope.
#[local] Open Scope list_scope.
#[local] Open Scope Z_scope.

(** ** Placement *)

(** The triple [(node *models.Node, reason string, ok bool)]. *)
Definition Placement : Type := option nat * string * bool.

Definition no_node_reason : string := "no node satisfies the resource request".

Fixpoint firstFit_from (req : ResourceRequest) (i : nat) (nodes : list Node) : Placement :=
  match nodes with
  | [] => (None, no_node_reason, false)
  | n :: nodes' =>
      if Fits n req
      then (Some i, "first-fit: node " +:+ n_Hostname n +:+ " has "
                    +:+ pretty (n_GPUAvailable n) +:+ " free GPUs", true)
      else firstFit_from req (S i) nodes'
  end.

Definition firstFitNode (job : Job) (nodes : list Node) : Placement :=
  firstFit_from (job_request job) 0 nodes.

Record scoreVec := mkScore { sv_gpu : Z; sv_cpu : Z; sv_mem : Z }.

Definition score_less (a b : scoreVec) : bool :=
  if negb (sv_gpu a =? sv_gpu b) then sv_gpu a <? sv_gpu b
  else if negb (sv_cpu a =? sv_cpu b) then sv_cpu a <? sv_cpu b
  else sv_mem a <? sv_mem b.

Definition node_score (n : Node) (req : ResourceRequest) : scoreVec :=
  mkScore (n_GPUAvailable n ⊟ rr_GPU req) (n_CPUAvailable n ⊟ rr_CPU req)
    (n_MemoryAvailable n ⊟ rr_MemoryGB req).

(** The loop variables [best] (the pointer and what it points to) and
    [bestScore]. *)
Fixpoint bestFit_from (req : ResourceRequest) (i : nat) (nodes : list Node)
    (best : option (nat * Node)) (bestScore : scoreVec) : option (nat * Node) * scoreVec :=
  match nodes with
  | [] => (best, bestScore)
  | n :: nodes' =>
      if negb (Fits n req) then bestFit_from req (S i) nodes' best bestScore
      else
        let s := node_score n req in
        if match best with None => true | Some _ => score_less s bestScore end
        then bestFit_from req (S i) nodes' (Some (i, n)) s
        else bestFit_from req (S i) nodes' best bestScore
  end.

Definition bestFitNode (job : Job) (nodes : list Node) : Placement :=
  match bestFit_from (job_request job) 0 nodes None (mkScore 1073741824 1073741824 1073741824) with
  | (None, _) => (None, no_node_reason, false)
  | (Some (i, n), s) =>
      (Some i, "best-fit: node " +:+ n_Hostname n +:+ " leaves " +:+ pretty (sv_gpu s)
               +:+ " GPUs free (tightest pack)", true)
  end.

(** ** Ordering *)

Record OrderContext := mkCtx {
  TeamUsage : option (gmap string float64);   (* [None] is the nil map *)
  AgingFactor : float64
}.

Definition byCreatedAt (jobs : list Job) : list Job :=
  sort_stable (fun a b => time_Before (j_CreatedAt a) (j_CreatedAt b)) jobs.

Section with_arch.
Context `{GoArch}.

Definition EffectivePriority (j : Job) (now : Time) (agingFactor : float64) : Z :=
  let waitMinutes := Minutes (time_Sub now (j_CreatedAt j)) in
  let waitMinutes := if f64_lt waitMinutes f64_zero then f64_zero else waitMinutes in
  j_Priority j ⊞ f64_to_int (f64_mul waitMinutes agingFactor).

Definition priority_less (a b : Job) : bool :=
  if negb (j_EffectivePriority a =? j_EffectivePriority b)
  then j_EffectivePriority b <? j_EffectivePriority a
  else time_Before (j_CreatedAt a) (j_CreatedAt b).

Definition PriorityOrder (now : Time) (jobs : list Job) (ctx : OrderContext) : list Job :=
  sort_stable priority_less
    (map (fun j => set_EffectivePriority (EffectivePriority j now (AgingFactor ctx)) j) jobs).

Definition team_share (ctx : OrderContext) (teamID : string) : float64 :=
  match TeamUsage ctx with
  | None => f64_zero
  | Some m => default f64_zero (m !! teamID)
  end.

Definition fairshare_less (now : Time) (ctx : OrderContext) (a b : Job) : bool :=
  let si := team_share ctx (j_TeamID a) in
  let sk := team_share ctx (j_TeamID b) in
  if negb (f64_eq si sk) then f64_lt si sk
  else
    let pi := EffectivePriority a now (AgingFactor ctx) in
    let pk := EffectivePriority b now (AgingFactor ctx) in
    if negb (pi =? pk) then pk <? pi
    else time_Before (j_CreatedAt a) (j_CreatedAt b).

Definition FairShareOrder (now : Time) (jobs : list Job) (ctx : OrderContext) : list Job :=
  sort_stable (fairshare_less now ctx) jobs.

(** ** The [Algorithm] interface and its four implementations

    [alg_Order] receives the clock reading that the method takes itself with
    [time.Now()]. *)
Record Algorithm := mkAlgorithm {
  alg_Name : string;
  alg_Order : Time -> list Job -> OrderContext -> list Job;
  alg_Place : Job -> list Node -> Placement
}.

Definition FirstFit : Algorithm :=
  mkAlgorithm "first-fit" (fun _ jobs _ => byCreatedAt jobs) firstFitNode.
Definition BestFit : Algorithm :=
  mkAlgorithm "best-fit" (fun _ jobs _ => byCreatedAt jobs) bestFitNode.
Definition Priority : Algorithm := mkAlgorithm "priority" PriorityOrder bestFitNode.
Definition FairShare : Algorithm := mkAlgorithm "fair-share" FairShareOrder bestFitNode.

(** ** [New]

    [strings.ToLower(strings.TrimSpace(name))] on ASCII input; the Unicode
    tables that the two functions consult on other input are a parameter. *)
Context (unicode_lower_trim : string -> string).

Definition is_ascii (c : Ascii.ascii) : bool := Nat.ltb (Ascii.nat_of_ascii c) 128.

Definition is_space (c : Ascii.ascii) : bool :=
  let n := Ascii.nat_of_ascii c in
  Nat.eqb n 32 || (Nat.leb 9 n && Nat.leb n 13).

Definition to_lower (c : Ascii.ascii) : Ascii.ascii :=
  let n := Ascii.nat_of_ascii c in
  if Nat.leb 65 n && Nat.leb n 90 then Ascii.ascii_of_nat (n + 32) else c.

Fixpoint drop_space (l : list Ascii.ascii) : list Ascii.ascii :=
  match l with
  | c :: l' => if is_space c then drop_space l' else l
  | [] => []
  end.

Definition lower_trim (name : string) : string :=
  let l := String.list_ascii_of_string name in
  if forallb is_ascii l
  then String.string_of_list_ascii (map to_lower (rev (drop_space (rev (drop_space l)))))
  else unicode_lower_trim name.

Definition one_of (s : string) (names : list string) : bool := existsb (String.eqb s) names.

Definition New (name : string) : res Algorithm :=
  let s := lower_trim name in
  if one_of s ["first-fit"; "firstfit"; "first_fit"] then Ok FirstFit
  else if one_of s ["best-fit"; "bestfit"; "best_fit"; ""] then Ok BestFit
  else if one_of s ["priority"; "priority-queue"] then Ok Priority
  else if one_of s ["fair-share"; "fairshare"; "fair_share"] then Ok FairShare
  else Err (ErrMsg ("unknown scheduling algorithm " +:+ name)).
End with_arch.

(** ** The contract of an algorithm *)

Definition same_job (j j' : Job) : Prop :=
  set_EffectivePriority 0 j = set_EffectivePriority 0 j'.

Class LawfulAlgorithm (alg : Algorithm) : Prop := {
  (* every queued job is attempted exactly once *)
  lawful_order : forall now jobs ctx,
    map (set_EffectivePriority 0) (alg_Order alg now jobs ctx)
    ≡ₚ map (set_EffectivePriority 0) jobs;
  (* a node is returned exactly when ok, and it fits *)
  lawful_place : forall job nodes i reason ok,
    alg_Place alg job nodes = (i, reason, ok) ->
    match i with
    | Some i => ok = true /\ exists n, nodes !! i = Some n /\ Fits n (job_request job) = true
    | None => ok = false /\ Forall (fun n => Fits n (job_request job) = false) nodes
    end
}.

(** ** Placement lemmas *)

Section placement.
Implicit Types (req : ResourceRequest) (nodes : list Node).

Lemma firstFit_from_spec req k nodes i reason ok :
  firstFit_from req k nodes = (i, reason, ok) ->
  match i with
  | Some i => ok = true /\ exists pre n post,
      nodes = pre ++ n :: post /\ i = (k + length pre)%nat /\ Fits n req = true
      /\ Forall (fun m => Fits m req = false) pre
  | None => ok = false /\ Forall (fun m => Fits m req = false) nodes
  end.
Proof.
  revert k. induction nodes as [|n nodes IH]; intros k; simpl.
  - intros [= <- <- <-]. by split.
  - destruct (Fits n req) eqn:E.
    + intros [= <- <- <-]. split; [done|]. exists [], n, nodes. split_and!; simpl; auto.
    + intros H. specialize (IH (S k) H). destruct i as [i|].
      * destruct IH as (-> & pre & m & post & -> & -> & Hm & Hpre).
        split; [done|]. exists (n :: pre), m, post. split_and!; simpl; auto with lia.
      * destruct IH as [-> IH]. split; [done|]. by constructor.
Qed.

Definition score_key (s : scoreVec) : list Z := [sv_gpu s; sv_cpu s; sv_mem s].

Lemma score_less_key a b : score_less a b = lexb (score_key a) (score_key b).
Proof.
  unfold score_less, score_key. simpl. repeat case_match; bool_prop; try done.
  apply Z.ltb_ge. lia.
Qed.

(** [m] beats [best] strictly before it and is not beaten after it. *)
Definition best_of req (pre : list Node) (n : Node) (post : list Node) : Prop :=
  Fits n req = true
  /\ Forall (fun m => Fits m req = true ->
        score_less (node_score n req) (node_score m req) = true) pre
  /\ Forall (fun m => Fits m req = true ->
        score_less (node_score m req) (node_score n req) = false) post.

Lemma best_of_snoc req pre n post m :
  best_of req pre n post ->
  (Fits m req = true -> score_less (node_score m req) (node_score n req) = false) ->
  best_of req pre n (post ++ [m]).
Proof.
  intros (Hf & Hpre & Hpost) Hm. split_and!; [done..|].
  apply Forall_app. split; [done|]. by constructor.
Qed.

Lemma best_of_replace req pre n post m :
  best_of req pre n post -> Fits m req = true ->
  score_less (node_score m req) (node_score n req) = true ->
  best_of req (pre ++ n :: post) m [].
Proof.
  intros (Hf & Hpre & Hpost) Hm Hless. split_and!; [done| |done].
  rewrite score_less_key in Hless.
  apply Forall_app. split; [|constructor; [by rewrite score_less_key|]].
  - eapply Forall_impl; [exact Hpre|]. intros x Hx Hfx. specialize (Hx Hfx).
    rewrite score_less_key in *. by eapply lexb_trans.
  - eapply Forall_impl; [exact Hpost|]. intros x Hx Hfx. specialize (Hx Hfx).
    rewrite score_less_key in *.
    destruct (lexb_total (score_key (node_score n req)) (score_key (node_score x req)))
      as [E|[E|E]]; [by eapply lexb_trans|by rewrite <- E|congruence].
Qed.

(** What the accumulator says about the prefix [seen] already visited. *)
Definition best_acc req (seen : list Node) (best : option (nat * Node)) (s : scoreVec) : Prop :=
  match best with
  | Some (i, n) => s = node_score n req /\ exists pre post,
      seen = pre ++ n :: post /\ i = length pre /\ best_of req pre n post
  | None => Forall (fun m => Fits m req = false) seen
  end.

Lemma best_acc_step_skip req seen best s m :
  best_acc req seen best s -> Fits m req = false -> best_acc req (seen ++ [m]) best s.
Proof.
  destruct best as [[i n]|]; simpl.
  - intros (-> & pre & post & -> & -> & Hb) Hm. split; [done|].
    exists pre, (post ++ [m]). rewrite <- app_assoc. split_and!; [done..|].
    apply best_of_snoc; [done|]. intros. congruence.
  - intros Hs Hm. apply Forall_app. split; [done|]. by constructor.
Qed.

Lemma bestFit_from_acc req nodes seen best s best' s' :
  best_acc req seen best s ->
  bestFit_from req (length seen) nodes best s = (best', s') ->
  best_acc req (seen ++ nodes) best' s'.
Proof.
  revert seen best s. induction nodes as [|m nodes IH]; intros seen best s Hacc; simpl.
  { intros [= <- <-]. by rewrite app_nil_r. }
  assert (S (length seen) = length (seen ++ [m])) as El by (rewrite length_app; simpl; lia).
  replace (seen ++ m :: nodes) with ((seen ++ [m]) ++ nodes) by by rewrite <- app_assoc.
  destruct (Fits m req) eqn:Hm; simpl.
  - destruct best as [[i n]|]; simpl in Hacc.
    + destruct Hacc as (-> & pre & post & -> & -> & Hb).
      destruct (score_less (node_score m req) (node_score n req)) eqn:Hless;
        rewrite El; apply IH; simpl; (split; [done|]).
      * eexists _, []. split_and!; [done|done|by apply best_of_replace].
      * exists pre, (post ++ [m]). rewrite <- app_assoc. split_and!; [done..|].
        by apply best_of_snoc.
    + rewrite El. apply IH. simpl. split; [done|]. exists seen, [].
      split_and!; [done|done|]. split_and!; [done| |done].
      eapply Forall_impl; [exact Hacc|]. simpl. congruence.
  - rewrite El. apply IH. by apply best_acc_step_skip.
Qed.

Lemma bestFitNode_spec job nodes i reason ok :
  bestFitNode job nodes = (i, reason, ok) ->
  match i with
  | Some i => ok = true /\ exists pre n post,
      nodes = pre ++ n :: post /\ i = length pre /\ best_of (job_request job) pre n post
  | None => ok = false /\ Forall (fun m => Fits m (job_request job) = false) nodes
  end.
Proof.
  unfold bestFitNode. destruct (bestFit_from _ _ _ _ _) as [best s] eqn:E.
  apply (bestFit_from_acc _ _ [] None) in E; [|by constructor]. simpl in E.
  destruct best as [[k n]|]; intros [= <- <- <-]; simpl in *; (split; [done|]); [|exact E].
  destruct E as (_ & pre & post & -> & -> & Hb). by exists pre, n, post.
Qed.
End placement.

(** ** Ordering lemmas *)

Lemma byCreatedAt_perm jobs : byCreatedAt jobs ≡ₚ jobs.
Proof. apply sort_stable_perm. Qed.

Lemma created_less_key a b :
  time_Before (j_CreatedAt a) (j_CreatedAt b) = lexb [j_CreatedAt a] [j_CreatedAt b].
Proof.
  unfold time_Before. simpl. destruct (Z.eqb_spec (j_CreatedAt a) (j_CreatedAt b)); [|done].
  apply Z.ltb_ge. lia.
Qed.

Definition priority_key (j : Job) : list Z := [- j_EffectivePriority j; j_CreatedAt j].

Lemma priority_less_key a b : priority_less a b = lexb (priority_key a) (priority_key b).
Proof.
  unfold priority_less, priority_key, time_Before. simpl.
  destruct (Z.eqb_spec (j_EffectivePriority a) (j_EffectivePriority b)) as [->|]; simpl.
  - rewrite Z.eqb_refl. apply created_less_key.
  - destruct (Z.eqb_spec (- j_EffectivePriority a) (- j_EffectivePriority b)); [lia|].
    destruct (Z.ltb_spec (j_EffectivePriority b) (j_EffectivePriority a)),
      (Z.ltb_spec (- j_EffectivePriority a) (- j_EffectivePriority b)); lia || done.
Qed.

Section orders.
Context `{GoArch}.

Lemma PriorityOrder_perm now jobs ctx :
  map (set_EffectivePriority 0) (PriorityOrder now jobs ctx)
  ≡ₚ map (set_EffectivePriority 0) jobs.
Proof.
  unfold PriorityOrder. rewrite sort_stable_perm, map_map. done.
Qed.

(** Shares that are numbers: [teamShares] divides by a non-zero capacity. *)
Definition shares_ok (ctx : OrderContext) : Prop :=
  forall team, not_nan (team_share ctx team).

Definition fairshare_key now ctx (j : Job) : list Z :=
  let k := f64_key (team_share ctx (j_TeamID j)) in
  [k.1.1; k.1.2; k.2; - EffectivePriority j now (AgingFactor ctx); j_CreatedAt j].

Lemma fairshare_less_key now ctx a b :
  shares_ok ctx ->
  fairshare_less now ctx a b = lexb (fairshare_key now ctx a) (fairshare_key now ctx b).
Proof.
  intros Hok. unfold fairshare_less, fairshare_key, f64_eq, f64_lt.
  set (x := team_share ctx (j_TeamID a)). set (y := team_share ctx (j_TeamID b)).
  pose proof (SFeqb_key x y (Hok _) (Hok _)) as He.
  pose proof (SFltb_key x y (Hok _) (Hok _)) as Hl. unfold key_lt in Hl.
  destruct (f64_key x) as [[x1 x2] x3], (f64_key y) as [[y1 y2] y3]. simpl in *.
  set (p := EffectivePriority a now (AgingFactor ctx)).
  set (q := EffectivePriority b now (AgingFactor ctx)).
  destruct (SFeqb x y) eqn:E; simpl.
  - destruct He as [He _]. injection (He eq_refl) as -> -> ->. rewrite !Z.eqb_refl.
    destruct (Z.eqb_spec p q) as [->|]; simpl.
    + rewrite Z.eqb_refl. apply created_less_key.
    + destruct (Z.eqb_spec (- p) (- q)); [lia|].
      destruct (Z.ltb_spec q p), (Z.ltb_spec (- p) (- q)); lia || done.
  - assert ((x1, x2, x3) <> (y1, y2, y3)) as Hne by (intros Heq; apply He in Heq; congruence).
    destruct (Z.eqb_spec x1 y1); [destruct (Z.eqb_spec x2 y2); [destruct (Z.eqb_spec x3 y3)|]|];
      try congruence;
      (destruct (SFltb x y); symmetry;
       [apply Z.ltb_lt; apply proj1 in Hl; specialize (Hl eq_refl); lia
       |apply Z.ltb_ge, Z.nlt_ge; intros ?; apply proj2 in Hl; discriminate Hl; lia]).
Qed.
End orders.

Lemma one_of_true s names : one_of s names = true <-> s ∈ names.
Proof.
  unfold one_of. rewrite existsb_exists, list_elem_of_In. split.
  - intros (x & Hx & ->%String.eqb_eq). done.
  - intros Hs. exists s. split; [done|]. apply String.eqb_refl.
Qed.

(** ** The four policies are lawful *)

Lemma bestFit_lawful_place job nodes i reason ok :
  bestFitNode job nodes = (i, reason, ok) ->
  match i with
  | Some i => ok = true /\ exists n, nodes !! i = Some n /\ Fits n (job_request job) = true
  | None => ok = false /\ Forall (fun n => Fits n (job_request job) = false) nodes
  end.
Proof.
  intros HH%bestFitNode_spec. destruct i as [i|]; [|done].
  destruct HH as (-> & pre & n & post & -> & -> & Hf & _). split; [done|].
  exists n. split; [by apply list_lookup_middle|done].
Qed.

#[export] Instance FirstFit_lawful : LawfulAlgorithm FirstFit.
Proof.
  split; simpl.
  - intros. apply Permutation_map, byCreatedAt_perm.
  - intros job nodes i reason ok HH. apply firstFit_from_spec in HH.
    destruct i as [i|]; [|done]. destruct HH as (-> & pre & n & post & -> & -> & Hf & _).
    split; [done|]. exists n. split; [by apply list_lookup_middle|done].
Qed.

#[export] Instance BestFit_lawful : LawfulAlgorithm BestFit.
Proof.
  split; simpl; [|apply bestFit_lawful_place].
  intros. apply Permutation_map, byCreatedAt_perm.
Qed.

#[export] Instance Priority_lawful `{GoArch} : LawfulAlgorithm Priority.
Proof. split; simpl; [apply PriorityOrder_perm|apply bestFit_lawful_place]. Qed.

#[export] Instance FairShare_lawful `{GoArch} : LawfulAlgorithm FairShare.
Proof.
  split; simpl; [|apply bestFit_lawful_place].
  intros. apply Permutation_map, sort_stable_perm.
Qed.

(** ** Properties *)

(** First-fit returns the first node of the slice that fits: the node at
    the returned index fits and no earlier node does; it fails exactly when no
    node fits. *)
Theorem firstFit_first job nodes i reason ok :
  firstFitNode job nodes = (i, reason, ok) ->
  match i with
  | Some i => ok = true /\ exists pre n post,
      nodes = pre ++ n :: post /\ i = length pre /\ Fits n (job_request job) = true
      /\ Forall (fun m => Fits m (job_request job) = false) pre
  | None => ok = false /\ Forall (fun m => Fits m (job_request job) = false) nodes
  end.
Proof. apply firstFit_from_spec. Qed.

Definition job_example : Job :=
  mkJob "job-1" "train" "ayush" "research" JobStatusQueued 5 2 8 64 "img" "cmd" "" 0 3
    f64_zero 0 None None 0.

Lemma firstFit_first_witness : exists pre n post,
  [set_available 1 64 512 node_example; node_example] = pre ++ n :: post
  /\ 1%nat = length pre /\ Fits n (job_request job_example) = true
  /\ Forall (fun m => Fits m (job_request job_example) = false) pre.
Proof.
  exact (proj2 (firstFit_first job_example [set_available 1 64 512 node_example; node_example]
                  (Some 1%nat) _ true eq_refl)).
Defined.

(** Node [n] is ready and has the request free in every dimension. *)
Definition has_room (n : Node) (req : ResourceRequest) : Prop :=
  n_Status n = NodeStatusReady /\ rr_GPU req <= n_GPUAvailable n
  /\ rr_CPU req <= n_CPUAvailable n /\ rr_MemoryGB req <= n_MemoryAvailable n.

(** The request would leave less on [n] than on [m]: fewer GPUs, or as many
    GPUs and fewer CPUs, or as many of both and less memory. *)
Definition tighter (req : ResourceRequest) (n m : Node) : Prop :=
  let gpu x := n_GPUAvailable x - rr_GPU req in
  let cpu x := n_CPUAvailable x - rr_CPU req in
  let mem x := n_MemoryAvailable x - rr_MemoryGB req in
  gpu n < gpu m
  \/ gpu n = gpu m /\ (cpu n < cpu m \/ cpu n = cpu m /\ mem n < mem m).

Lemma has_room_Fits n req : has_room n req <-> Fits n req = true.
Proof. by rewrite Fits_true. Qed.

Lemma score_less_tighter req n m :
  node_wf n -> node_wf m -> req_wf req ->
  score_less (node_score n req) (node_score m req) = true <-> tighter req n m.
Proof.
  intros Hn Hm Hr. unfold node_score. unfold_wf.
  unwrap64.
  unfold score_less, tighter. simpl.
  repeat match goal with |- context [?a =? ?b] => destruct (Z.eqb_spec a b); simpl end;
    rewrite Z.ltb_lt; lia.
Qed.

(** C18: Best-fit returns a ready node with room for the request whose leftover
    is minimal (GPUs first, then CPUs, then memory): strictly smaller than that
    of every earlier node with room, and not larger than that of any later one;
    it fails exactly when no node has room. *)
Theorem bestFit_tightest job nodes i reason ok :
  Forall node_wf nodes -> job_wf job ->
  bestFitNode job nodes = (i, reason, ok) ->
  match i with
  | Some i => ok = true /\ exists n, nodes !! i = Some n /\ has_room n (job_request job)
      /\ forall k m, nodes !! k = Some m -> has_room m (job_request job) ->
           ((k < i)%nat -> tighter (job_request job) n m)
           /\ ((i < k)%nat -> ~ tighter (job_request job) m n)
  | None => ok = false /\ forall m, m ∈ nodes -> ~ has_room m (job_request job)
  end.
Proof.
  intros Hwf [Hr _] H%bestFitNode_spec. destruct i as [i|].
  - destruct H as (-> & pre & n & post & -> & -> & Hf & Hpre & Hpost). split; [done|].
    apply Forall_app in Hwf as [Hw1 [Hwn Hw2]%Forall_cons].
    exists n. split_and!; [by rewrite list_lookup_middle|by apply has_room_Fits|].
    rewrite Forall_lookup in Hpre, Hpost, Hw1, Hw2.
    intros k m Hk Hm%has_room_Fits. split; intros Hlt.
    + rewrite lookup_app_l in Hk by done. apply score_less_tighter; [done|by eapply Hw1|done|].
      by eapply Hpre.
    + rewrite lookup_app_r in Hk by lia.
      destruct (k - length pre)%nat as [|d] eqn:Ed; [lia|]. simpl in Hk.
      rewrite <- score_less_tighter by (done || by eapply Hw2).
      by rewrite (Hpost _ _ Hk Hm).
  - destruct H as [-> H]. split; [done|]. intros m Hm. rewrite Forall_forall in H.
    rewrite has_room_Fits. by rewrite (H m Hm).
Qed.

(** Four nodes with room: the first has more GPUs left, the second as many
    GPUs and more CPUs, the last the same leftover as the one chosen. *)
Definition fit_examples : list Node :=
  [node_example; set_available 2 32 64 node_example; set_available 2 16 128 node_example;
   set_available 2 16 64 node_example; set_available 2 16 64 node_example].

Lemma bestFit_tightest_witness :
  exists n, fit_examples !! 3%nat = Some n /\ has_room n (job_request job_example)
  /\ forall k m, fit_examples !! k = Some m -> has_room m (job_request job_example) ->
       ((k < 3)%nat -> tighter (job_request job_example) n m)
       /\ ((3 < k)%nat -> ~ tighter (job_request job_example) m n).
Proof.
  refine (proj2 (bestFit_tightest job_example fit_examples (Some 3%nat) _ true _ _ eq_refl));
    apply (bool_decide_unpack _); vm_compute; exact I.
Defined.

(** The FIFO order of first-fit and best-fit is a rearrangement of the
    queue, sorted by submission time, in which jobs submitted at the same
    instant keep their order. *)
Theorem fifo_order jobs t :
  byCreatedAt jobs ≡ₚ jobs
  /\ key_sorted (fun j => [j_CreatedAt j]) (byCreatedAt jobs)
  /\ filter (fun j => [j_CreatedAt j] = t) (byCreatedAt jobs)
     = filter (fun j => [j_CreatedAt j] = t) jobs.
Proof.
  split_and!.
  - apply byCreatedAt_perm.
  - apply (sort_stable_key_sorted _ (fun j => [j_CreatedAt j])), created_less_key.
  - apply (sort_stable_key_stable _ (fun j => [j_CreatedAt j])), created_less_key.
Qed.

(** C27: The priority order attempts every queued job once, stamps each with its
    aged priority, and is sorted by effective priority (highest first), then by
    submission time (oldest first), equal jobs keeping their order. *)
Theorem priority_order `{GoArch} now jobs ctx k :
  let stamped := map (fun j => set_EffectivePriority
                        (EffectivePriority j now (AgingFactor ctx)) j) jobs in
  PriorityOrder now jobs ctx ≡ₚ stamped
  /\ key_sorted priority_key (PriorityOrder now jobs ctx)
  /\ filter (fun j => priority_key j = k) (PriorityOrder now jobs ctx)
     = filter (fun j => priority_key j = k) stamped.
Proof.
  unfold PriorityOrder. split_and!.
  - apply sort_stable_perm.
  - apply sort_stable_key_sorted, priority_less_key.
  - apply sort_stable_key_stable, priority_less_key.
Qed.

(** C26: When the team shares are numbers, the fair-share order is a
    rearrangement of the queue sorted by the share of the job's team (lowest
    first), then by aged priority (highest first), then by submission time
    (oldest first), equal jobs keeping their order. *)
Theorem fairshare_order `{GoArch} now jobs ctx k :
  shares_ok ctx ->
  FairShareOrder now jobs ctx ≡ₚ jobs
  /\ key_sorted (fairshare_key now ctx) (FairShareOrder now jobs ctx)
  /\ filter (fun j => fairshare_key now ctx j = k) (FairShareOrder now jobs ctx)
     = filter (fun j => fairshare_key now ctx j = k) jobs.
Proof.
  intros Hok. unfold FairShareOrder. split_and!.
  - apply sort_stable_perm.
  - apply sort_stable_key_sorted. intros. by apply fairshare_less_key.
  - apply sort_stable_key_stable. intros. by apply fairshare_less_key.
Qed.

(** Three jobs: the team of the first uses its whole share, the others are equal
    in everything but the time of submission. *)
Definition share_job (id team : string) (created : Time) : Job :=
  mkJob id "train" "ayush" team JobStatusQueued 5 2 8 64 "img" "cmd" "" 0 3
    f64_zero created None None 0.
Definition share_queue : list Job :=
  [share_job "a" "research" 1; share_job "b" "platform" 3; share_job "c" "inference" 2].
Definition share_ctx : OrderContext := mkCtx (Some {["research" := f64_one]}) f64_one.

Lemma share_ctx_ok : shares_ok share_ctx.
Proof.
  intros team. unfold share_ctx, team_share. simpl.
  destruct (decide (team = "research")) as [->|Hne]; [done|].
  by rewrite lookup_singleton_ne.
Qed.

Lemma fairshare_order_witness :
  map j_JobID (FairShareOrder 3 share_queue share_ctx) = ["c"; "b"; "a"]
  /\ key_sorted (fairshare_key 3 share_ctx) (FairShareOrder 3 share_queue share_ctx).
Proof.
  split; [vm_compute; reflexivity|].
  exact (proj1 (proj2 (fairshare_order 3 share_queue share_ctx [] share_ctx_ok))).
Defined.

(** Every policy is found again under the name it reports, whatever the
    surrounding white space and letter case, an empty name selects best-fit,
    and any other name is an error. *)
Theorem algorithm_names `{GoArch} unicode :
  (forall alg, alg ∈ [FirstFit; BestFit; Priority; FairShare] ->
     New unicode (alg_Name alg) = Ok alg)
  /\ New unicode "" = Ok BestFit
  /\ New unicode "  Priority-Queue " = Ok Priority
  /\ (forall name, is_ok (New unicode name) = true <->
       lower_trim unicode name ∈
         ["first-fit"; "firstfit"; "first_fit"; "best-fit"; "bestfit"; "best_fit"; "";
          "priority"; "priority-queue"; "fair-share"; "fairshare"; "fair_share"]).
Proof.
  split_and!; [|done|done|].
  - intros alg Hin. repeat (apply elem_of_cons in Hin as [->|Hin]; [done|]). by apply not_elem_of_nil in Hin.
  - intros name. set (s := lower_trim unicode name).
    transitivity (one_of s ["first-fit"; "firstfit"; "first_fit"]
                  || (one_of s ["best-fit"; "bestfit"; "best_fit"; ""]
                      || (one_of s ["priority"; "priority-queue"]
                          || one_of s ["fair-share"; "fairshare"; "fair_share"])) = true).
    + unfold New. fold s.
      repeat match goal with |- context [one_of s ?l] => destruct (one_of s l) end; done.
    + by rewrite !orb_true_iff, !one_of_true, <- !elem_of_app.
Qed.
