(* ===== verification/Preemption.v ===== *)
(** * Preemption planning: [internal/scheduler/preemption.go]

    [FindPreemption] walks the schedulable nodes, collects on each the running
    jobs of strictly lower priority, evicts them cheapest first until the
    pending job would fit, and keeps the least disruptive plan.  A plan names
    its node by its index in the tick's node slice. *)

From S2P Require Import Prelude Float64 Models.

#[local] Open Scope string_scope.
#[local] Open Scope list_scope.
#[local] Open Scope Z_scope.

Record PreemptionPlan := mkPlan { pp_Node : nat; pp_Victims : list Job }.

(** Evict the lowest priority first, then the newest. *)
Definition victim_less (a b : Job) : bool :=
  if negb (j_Priority a =? j_Priority b) then j_Priority a <? j_Priority b
  else time_After (j_CreatedAt a) (j_CreatedAt b).

Definition eligible (job r : Job) : bool :=
  (j_Priority r <? j_Priority job) && negb (String.eqb (j_UserID r) "").

(** The loop variables [freeGPU], [freeCPU], [freeMem]. *)
Definition enough (free req : ResourceRequest) : bool :=
  (rr_GPU req <=? rr_GPU free) && (rr_CPU req <=? rr_CPU free)
  && (rr_MemoryGB req <=? rr_MemoryGB free).

Definition gain (free : ResourceRequest) (v : Job) : ResourceRequest :=
  mkReq (rr_GPU free ⊞ j_GPUCount v) (rr_CPU free ⊞ j_CPUCount v)
    (rr_MemoryGB free ⊞ j_MemoryGB v).

Fixpoint choose_victims (req : ResourceRequest) (victims : list Job) (free : ResourceRequest)
    (chosen : list Job) : list Job * ResourceRequest :=
  match victims with
  | [] => (chosen, free)
  | v :: victims' =>
      if enough free req then (chosen, free)
      else choose_victims req victims' (gain free v) (chosen ++ [v])
  end.

Definition victimPriority (p : PreemptionPlan) : Z :=
  fold_left (fun sum v => sum ⊞ j_Priority v) (pp_Victims p) 0.

Definition betterPlan (a b : PreemptionPlan) : bool :=
  if negb (Nat.eqb (length (pp_Victims a)) (length (pp_Victims b)))
  then Nat.ltb (length (pp_Victims a)) (length (pp_Victims b))
  else victimPriority a <? victimPriority b.

Definition node_free (n : Node) : ResourceRequest :=
  mkReq (n_GPUAvailable n) (n_CPUAvailable n) (n_MemoryAvailable n).

Definition node_victims (job : Job) (n : Node) (running : gmap string (list Job)) : list Job :=
  sort_stable victim_less
    (filter (fun r => eligible job r = true) (default [] (running !! n_NodeID n))).

(** One iteration of the loop over the nodes: the node's own plan. *)
Definition node_plan (job : Job) (i : nat) (n : Node) (running : gmap string (list Job)) :
    option PreemptionPlan :=
  let req := job_request job in
  if negb (Schedulable (n_Status n)) then None
  else
    let '(chosen, free) := choose_victims req (node_victims job n running) (node_free n) [] in
    if negb (enough free req) then None else Some (mkPlan i chosen).

Fixpoint find_preemption_from (job : Job) (i : nat) (nodes : list Node)
    (running : gmap string (list Job)) (best : option PreemptionPlan) : option PreemptionPlan :=
  match nodes with
  | [] => best
  | n :: nodes' =>
      let best' :=
        match node_plan job i n running with
        | None => best
        | Some plan =>
            match best with
            | None => Some plan
            | Some b => if betterPlan plan b then Some plan else best
            end
        end in
      find_preemption_from job (S i) nodes' running best'
  end.

(** [None] stands for [(PreemptionPlan{}, false)]. *)
Definition FindPreemption (job : Job) (nodes : list Node) (running : gmap string (list Job)) :
    option PreemptionPlan :=
  find_preemption_from job 0 nodes running None.

(** ** Well-formed running sets *)

(** The jobs that occupy a node ask for [INTEGER] amounts, and there are fewer
    than 2^31 of them: sums stay within 64 bits. *)
Definition running_wf (l : list Job) : Prop :=
  Forall job_wf l /\ Z.of_nat (length l) <= 2147483648.

#[global] Instance running_wf_dec l : Decision (running_wf l).
Proof. unfold running_wf. apply _. Defined.

(** The footprint of a list of jobs. *)
Definition footprint (l : list Job) : ResourceRequest :=
  mkReq (zsum j_GPUCount l) (zsum j_CPUCount l) (zsum j_MemoryGB l).

Definition req_add (a b : ResourceRequest) : ResourceRequest :=
  mkReq (rr_GPU a + rr_GPU b) (rr_CPU a + rr_CPU b) (rr_MemoryGB a + rr_MemoryGB b).

(** ** Lemmas *)

Lemma enough_true free req :
  enough free req = true <->
  rr_GPU req <= rr_GPU free /\ rr_CPU req <= rr_CPU free /\ rr_MemoryGB req <= rr_MemoryGB free.
Proof. unfold enough. rewrite !andb_true_iff, !Z.leb_le. tauto. Qed.

Lemma victim_less_key a b :
  victim_less a b = lexb [j_Priority a; - j_CreatedAt a] [j_Priority b; - j_CreatedAt b].
Proof.
  unfold victim_less, time_After. simpl.
  destruct (Z.eqb_spec (j_Priority a) (j_Priority b)); simpl; [|done].
  destruct (Z.eqb_spec (- j_CreatedAt a) (- j_CreatedAt b)),
    (Z.ltb_spec (j_CreatedAt b) (j_CreatedAt a)); try lia.
  all: destruct (Z.ltb_spec (- j_CreatedAt a) (- j_CreatedAt b)); lia || done.
Qed.

Lemma node_victims_elem job n running v :
  v ∈ node_victims job n running <->
  eligible job v = true /\ v ∈ default [] (running !! n_NodeID n).
Proof. unfold node_victims. by rewrite sort_stable_perm, list_elem_of_filter. Qed.

Lemma node_victims_wf job n running :
  running_wf (default [] (running !! n_NodeID n)) -> running_wf (node_victims job n running).
Proof.
  unfold running_wf, node_victims. rewrite sort_stable_perm. intros [Hf Hl]. split.
  - rewrite Forall_forall in *. intros v [_ Hv]%list_elem_of_filter. by apply Hf.
  - pose proof (length_filter (fun r => eligible job r = true)
                  (default [] (running !! n_NodeID n))). lia.
Qed.

Lemma footprint_snoc l v : footprint (l ++ [v]) = req_add (footprint l) (job_request v).
Proof. unfold footprint, req_add. simpl. by rewrite !zsum_snoc. Qed.

Lemma footprint_bound l :
  running_wf l ->
  0 <= rr_GPU (footprint l) <= 2147483648 * 2147483647
  /\ 0 <= rr_CPU (footprint l) <= 2147483648 * 2147483647
  /\ 0 <= rr_MemoryGB (footprint l) <= 2147483648 * 2147483647.
Proof.
  intros [Hf Hl].
  assert (forall f, Forall (fun j => 0 <= f j <= 2147483647) l ->
          0 <= zsum f l <= 2147483648 * 2147483647) as B.
  { intros f Hb. pose proof (zsum_bound f 2147483647 l Hb). lia. }
  simpl. split_and!; apply B; (eapply Forall_impl; [exact Hf|]); intros j Hj; unfold_wf; lia.
Qed.

Lemma running_wf_app l k : running_wf (l ++ k) -> running_wf l.
Proof.
  unfold running_wf. rewrite Forall_app, length_app. intros [[??] ?]. split; [done|lia].
Qed.

(** The victims chosen are the shortest prefix that makes room. *)
Lemma choose_victims_spec req base victims chosen0 chosen free :
  node_wf base -> running_wf (chosen0 ++ victims) ->
  (forall p, p `prefix_of` chosen0 -> p <> chosen0 ->
     enough (req_add (node_free base) (footprint p)) req = false) ->
  choose_victims req victims (req_add (node_free base) (footprint chosen0)) chosen0
    = (chosen, free) ->
  free = req_add (node_free base) (footprint chosen)
  /\ chosen0 `prefix_of` chosen /\ chosen `prefix_of` chosen0 ++ victims
  /\ (chosen = chosen0 ++ victims \/ enough free req = true)
  /\ (forall p, p `prefix_of` chosen -> p <> chosen ->
       enough (req_add (node_free base) (footprint p)) req = false).
Proof.
  intros Hn. revert chosen0. induction victims as [|v victims IH]; intros chosen0 Hwf Hp; simpl.
  { intros [= <- <-]. rewrite app_nil_r. split_and!; auto. }
  destruct (enough (req_add (node_free base) (footprint chosen0)) req) eqn:E.
  { intros [= <- <-]. split_and!; auto. by exists (v :: victims). }
  replace (gain (req_add (node_free base) (footprint chosen0)) v)
    with (req_add (node_free base) (footprint (chosen0 ++ [v]))).
  2: { replace (chosen0 ++ v :: victims) with ((chosen0 ++ [v]) ++ victims) in Hwf
         by by rewrite <- app_assoc.
       pose proof (running_wf_app _ _ Hwf) as Hv.
       pose proof (footprint_bound _ Hv) as Hb.
       rewrite footprint_snoc in *. unfold gain, req_add in *. simpl in *. unfold_wf.
       f_equal; go_arith. }
  intros H. replace (chosen0 ++ v :: victims) with ((chosen0 ++ [v]) ++ victims) in *
    by by rewrite <- app_assoc.
  destruct (IH (chosen0 ++ [v]) Hwf) as (-> & H1 & H2 & H3 & H4); [|done|].
  { intros p [k Hk] Hne. induction k as [|x k _] using rev_ind.
    - rewrite app_nil_r in Hk. congruence.
    - rewrite app_assoc in Hk. apply app_inj_tail in Hk as [Hk <-].
      destruct (decide (p = chosen0)) as [->|]; [done|]. apply Hp; [by exists k|done]. }
  split_and!; auto. etrans; [|exact H1]. by exists [v].
Qed.

Lemma choose_victims_incl req victims free chosen0 chosen free' :
  choose_victims req victims free chosen0 = (chosen, free') ->
  forall v, v ∈ chosen -> v ∈ chosen0 \/ v ∈ victims.
Proof.
  revert free chosen0. induction victims as [|w victims IH]; intros free chosen0; simpl.
  - intros [= <- <-]. auto.
  - destruct (enough free req); [intros [= <- <-]; auto|].
    intros E v Hv. destruct (IH _ _ E v Hv) as [[?|?%list_elem_of_singleton]%elem_of_app|?];
      subst; set_solver.
Qed.

(** What makes [plan] a legal plan for [job]. *)
Definition plan_ok (job : Job) (nodes : list Node) (running : gmap string (list Job))
    (plan : PreemptionPlan) : Prop :=
  exists n, nodes !! pp_Node plan = Some n
  /\ n_Status n = NodeStatusReady
  /\ pp_Victims plan `prefix_of` node_victims job n running
  /\ enough (req_add (node_free n) (footprint (pp_Victims plan))) (job_request job) = true
  /\ (forall p, p `prefix_of` pp_Victims plan -> p <> pp_Victims plan ->
       enough (req_add (node_free n) (footprint p)) (job_request job) = false).

Definition cluster_wf (nodes : list Node) (running : gmap string (list Job)) : Prop :=
  Forall node_wf nodes
  /\ Forall (fun n => running_wf (default [] (running !! n_NodeID n))) nodes.

#[global] Instance cluster_wf_dec nodes running : Decision (cluster_wf nodes running).
Proof. unfold cluster_wf. apply _. Defined.

Lemma node_plan_Some job i n running plan :
  node_wf n -> running_wf (default [] (running !! n_NodeID n)) ->
  node_plan job i n running = Some plan ->
  pp_Node plan = i /\ n_Status n = NodeStatusReady
  /\ pp_Victims plan `prefix_of` node_victims job n running
  /\ enough (req_add (node_free n) (footprint (pp_Victims plan))) (job_request job) = true
  /\ (forall p, p `prefix_of` pp_Victims plan -> p <> pp_Victims plan ->
       enough (req_add (node_free n) (footprint p)) (job_request job) = false).
Proof.
  intros Hn Hr. unfold node_plan, Schedulable.
  destruct (String.eqb_spec (n_Status n) NodeStatusReady) as [Hs|]; simpl; [|done].
  destruct (choose_victims _ _ _ _) as [chosen free] eqn:E.
  assert (node_free n = req_add (node_free n) (footprint [])) as Hz.
  { unfold req_add, node_free. simpl. rewrite !zsum_nil. f_equal; lia. }
  rewrite Hz in E. apply choose_victims_spec in E as (-> & _ & Hpre & _ & Hmin);
    [|done|by apply node_victims_wf|].
  2: { intros p [k Hk] Hne. destruct p; [done|]. simplify_list_eq. }
  destruct (enough _ _) eqn:Ee; simpl; [|done]. intros [= <-]. by split_and!.
Qed.

Lemma node_plan_None job i n running :
  node_wf n -> running_wf (default [] (running !! n_NodeID n)) ->
  node_plan job i n running = None -> n_Status n = NodeStatusReady ->
  enough (req_add (node_free n) (footprint (node_victims job n running))) (job_request job) = false.
Proof.
  intros Hn Hr. unfold node_plan, Schedulable. intros H Hs. rewrite Hs in H. simpl in H.
  destruct (choose_victims _ _ _ _) as [chosen free] eqn:E.
  assert (node_free n = req_add (node_free n) (footprint [])) as Hz.
  { unfold req_add, node_free. simpl. rewrite !zsum_nil. f_equal; lia. }
  rewrite Hz in E. apply choose_victims_spec in E as (-> & _ & Hpre & Hc & Hmin);
    [|done|by apply node_victims_wf|].
  2: { intros p [k Hk] Hne. destruct p; [done|]. simplify_list_eq. }
  destruct (enough _ _) eqn:Ee in H; simpl in H; [done|].
  destruct Hc as [Hc|Hc]; [by rewrite Hc in Ee|congruence].
Qed.

(** The loop keeps the best of the plans of the nodes it has seen. *)
Lemma find_preemption_from_spec job k nodes running best :
  find_preemption_from job k nodes running best = None <->
  best = None /\ forall i n, nodes !! i = Some n -> node_plan job (k + i) n running = None.
Proof.
  revert k best. induction nodes as [|n nodes IH]; intros k best; simpl.
  { split; [intros ->; split; [done|]; intros i n; by rewrite lookup_nil|by intros [-> _]]. }
  rewrite IH. split.
  - intros [Hb Hn]. destruct (node_plan job k n running) as [p|] eqn:E.
    { destruct best as [b|]; [destruct (betterPlan p b)|]; done. }
    split; [done|]. intros [|i] m; simpl.
    + intros [= <-]. by rewrite Nat.add_0_r.
    + intros Hm. replace (k + S i)%nat with (S k + i)%nat by lia. by apply Hn.
  - intros [-> Hn]. pose proof (Hn 0%nat n eq_refl) as H0. rewrite Nat.add_0_r in H0.
    rewrite H0. split; [done|]. intros i m Hm.
    replace (S k + i)%nat with (k + S i)%nat by lia. by apply Hn.
Qed.

Lemma find_preemption_from_elem job k nodes running best plan :
  find_preemption_from job k nodes running best = Some plan ->
  best = Some plan
  \/ exists i n, nodes !! i = Some n /\ node_plan job (k + i) n running = Some plan.
Proof.
  revert k best. induction nodes as [|n nodes IH]; intros k best; simpl; [by left|].
  intros [Hb|(i & m & Hm & Hp)]%IH.
  - destruct (node_plan job k n running) as [p|] eqn:E; [|by left].
    assert (best = Some plan \/ p = plan) as [?| ->].
    { destruct best as [b|]; [destruct (betterPlan p b)|]; simplify_eq; auto. }
    + by left.
    + right. exists 0%nat, n. by rewrite Nat.add_0_r.
  - right. exists (S i), m. split; [done|]. by replace (k + S i)%nat with (S k + i)%nat by lia.
Qed.

Definition plan_key (p : PreemptionPlan) : list Z :=
  [Z.of_nat (length (pp_Victims p)); victimPriority p].

Lemma betterPlan_key a b : betterPlan a b = lexb (plan_key a) (plan_key b).
Proof.
  unfold betterPlan, plan_key. simpl.
  destruct (Nat.eqb_spec (length (pp_Victims a)) (length (pp_Victims b))) as [->|];
    destruct (Z.eqb_spec (Z.of_nat (length (pp_Victims a))) (Z.of_nat (length (pp_Victims b))));
    rewrite ?Z.eqb_refl; simpl; try lia.
  - destruct (Z.eqb_spec (victimPriority a) (victimPriority b)); [|done].
    apply Z.ltb_ge. lia.
  - destruct (Z.eqb_spec (victimPriority a) (victimPriority b)); [|done].
    apply Z.ltb_ge. lia.
  - apply eq_true_iff_eq. rewrite Nat.ltb_lt, Z.ltb_lt. lia.
Qed.

#[export] Instance betterPlan_swo : StrictWeakOrder betterPlan.
Proof. apply (swo_key _ plan_key), betterPlan_key. Qed.

Definition better_or_same (best : option PreemptionPlan) (plan : PreemptionPlan) : Prop :=
  match best with Some b => betterPlan b plan = false | None => True end.

Lemma find_preemption_from_optimal job k nodes running best plan :
  find_preemption_from job k nodes running best = Some plan ->
  better_or_same best plan
  /\ forall i n p, nodes !! i = Some n -> node_plan job (k + i) n running = Some p ->
       betterPlan p plan = false.
Proof.
  revert k best. induction nodes as [|n nodes IH]; intros k best; simpl.
  { intros ->. split; [apply swo_irrefl|]. intros i n p. by rewrite lookup_nil. }
  intros [Hb Hn]%IH.
  assert (better_or_same best plan
          /\ forall p, node_plan job k n running = Some p -> betterPlan p plan = false) as [H1 H2].
  { destruct (node_plan job k n running) as [p|] eqn:E; [|split; [done|congruence]].
    destruct best as [b|]; [destruct (betterPlan p b) eqn:Eb|]; simpl in *.
    - split; [|by intros ? [= <-]].
      destruct (betterPlan b plan) eqn:Ec; [|done].
      pose proof (swo_trans _ _ _ Eb Ec). congruence.
    - split; [done|]. intros ? [= <-].
      destruct (betterPlan p plan) eqn:Ec; [|done].
      destruct (swo_incomp _ _ b Ec); congruence.
    - split; [done|]. by intros ? [= <-]. }
  split; [done|]. intros [|i] m p; simpl.
  - intros [= <-]. rewrite Nat.add_0_r. apply H2.
  - intros Hm. replace (k + S i)%nat with (S k + i)%nat by lia. by apply Hn.
Qed.

Lemma find_preemption_plan_ok job nodes running plan :
  cluster_wf nodes running -> FindPreemption job nodes running = Some plan ->
  plan_ok job nodes running plan.
Proof.
  intros [Hn Hr] H. apply find_preemption_from_elem in H as [?|(i & n & Hi & Hp)]; [done|].
  rewrite Forall_lookup in Hn, Hr.
  apply node_plan_Some in Hp as (Hpn & ? & ? & ? & ?); [|by eapply Hn|by eapply Hr].
  exists n. rewrite Hpn. by split_and!.
Qed.

Lemma footprint_app l k : footprint (l ++ k) = req_add (footprint l) (footprint k).
Proof. unfold footprint, req_add. simpl. by rewrite !zsum_app. Qed.

(** Evicting more frees at least as much. *)
Lemma footprint_app_bound job n running l k :
  running_wf (default [] (running !! n_NodeID n)) -> node_victims job n running = l ++ k ->
  rr_GPU (footprint l) <= rr_GPU (footprint (node_victims job n running))
  /\ rr_CPU (footprint l) <= rr_CPU (footprint (node_victims job n running))
  /\ rr_MemoryGB (footprint l) <= rr_MemoryGB (footprint (node_victims job n running)).
Proof.
  intros Hr Hk. pose proof (node_victims_wf job n running Hr) as [Hf _].
  rewrite Hk in *. apply Forall_app in Hf as [_ Hf]. rewrite footprint_app. simpl.
  assert (forall f : Job -> Z, (forall j, job_wf j -> 0 <= f j) -> 0 <= zsum f k) as Hz.
  { intros f Hfn. apply zsum_nonneg. by eapply Forall_impl. }
  pose proof (Hz j_GPUCount). pose proof (Hz j_CPUCount). pose proof (Hz j_MemoryGB).
  assert (forall j, job_wf j -> 0 <= j_GPUCount j /\ 0 <= j_CPUCount j /\ 0 <= j_MemoryGB j) as Hj.
  { intros j ?. unfold_wf. lia. }
  split_and!; (match goal with H : _ -> 0 <= zsum ?f k |- context [zsum ?f k] =>
    pose proof (H (fun j Hw => ltac:(pose proof (Hj j Hw); lia))) end; lia).
Qed.

(** With no eligible victim a plan evicts nobody, so the job already fits. *)
Lemma plan_without_victims job nodes running plan :
  cluster_wf nodes running -> FindPreemption job nodes running = Some plan ->
  (forall n v, n ∈ nodes -> v ∈ default [] (running !! n_NodeID n) -> j_Priority job <= j_Priority v) ->
  pp_Victims plan = [] /\ exists n, nodes !! pp_Node plan = Some n
    /\ Fits n (job_request job) = true.
Proof.
  intros Hwf H Hlow. destruct (find_preemption_plan_ok _ _ _ _ Hwf H)
    as (n & Hn & Hs & Hpre & He & _).
  assert (pp_Victims plan = []) as Hnil.
  { destruct (pp_Victims plan) as [|v vs]; [done|]. exfalso.
    assert (v ∈ node_victims job n running) as [Hel Hin]%node_victims_elem
      by (eapply elem_of_prefix; [left|exact Hpre]).
    unfold eligible in Hel. bool_prop.
    pose proof (Hlow n v ltac:(by eapply list_elem_of_lookup_2) Hin). lia. }
  split; [done|]. exists n. split; [done|]. apply Fits_true. rewrite Hnil in He.
  apply enough_true in He. simpl in He. rewrite !zsum_nil in He. simpl. split; [done|lia].
Qed.

(** ** What a plan promises, in terms of the jobs and the node alone

    None of these definitions mentions a function of the program. *)

(** Once [vs] are gone, node [n] has room for [req] in every dimension. *)
Definition covers (n : Node) (vs : list Job) (req : ResourceRequest) : Prop :=
  rr_GPU req <= n_GPUAvailable n + zsum j_GPUCount vs
  /\ rr_CPU req <= n_CPUAvailable n + zsum j_CPUCount vs
  /\ rr_MemoryGB req <= n_MemoryAvailable n + zsum j_MemoryGB vs.

(** The running jobs of [n] that [job] may displace. *)
Definition evictable (job : Job) (n : Node) (running : gmap string (list Job)) : list Job :=
  filter (fun r => j_Priority r < j_Priority job /\ j_UserID r <> "")
    (default [] (running !! n_NodeID n)).

(** Their eviction order: lowest priority first, newest first among equals,
    and as listed where both agree. *)
Definition eviction_order (job : Job) (n : Node) (running : gmap string (list Job))
    (order : list Job) : Prop :=
  key_arranged (fun v => [j_Priority v; - j_CreatedAt v]) (evictable job n running) order.

(** Evicting [vs] disrupts no more than evicting [ws]: fewer jobs, or as many
    with a sum of priorities that is not larger. *)
Definition no_more_disruptive (vs ws : list Job) : Prop :=
  (length vs < length ws)%nat
  \/ length vs = length ws /\ zsum j_Priority vs <= zsum j_Priority ws.

#[global] Instance covers_dec n vs req : Decision (covers n vs req).
Proof. unfold covers. apply _. Defined.

Lemma covers_enough n vs req :
  covers n vs req <-> enough (req_add (node_free n) (footprint vs)) req = true.
Proof. by rewrite enough_true. Qed.

Lemma not_covers_enough n vs req :
  ~ covers n vs req <-> enough (req_add (node_free n) (footprint vs)) req = false.
Proof. by rewrite covers_enough, not_true_iff_false. Qed.

Lemma eligible_true job r :
  eligible job r = true <-> j_Priority r < j_Priority job /\ j_UserID r <> "".
Proof.
  unfold eligible. rewrite andb_true_iff, Z.ltb_lt, negb_true_iff.
  destruct (String.eqb_spec (j_UserID r) ""); intuition congruence.
Qed.

Lemma node_victims_order job n running :
  eviction_order job n running (node_victims job n running).
Proof.
  unfold eviction_order, node_victims, evictable.
  erewrite <- list_filter_iff; [apply sort_stable_arranged, victim_less_key|].
  intros v. apply eligible_true.
Qed.

Lemma eviction_order_unique job n running order :
  eviction_order job n running order -> order = node_victims job n running.
Proof. intros H. eapply key_arranged_unique; [exact H|apply node_victims_order]. Qed.

Lemma footprint_perm l k : l ≡ₚ k -> footprint l = footprint k.
Proof. intros H. unfold footprint. by rewrite !H. Qed.

Lemma covers_perm n req l k : l ≡ₚ k -> covers n l req <-> covers n k req.
Proof. intros H. unfold covers. by rewrite !H. Qed.

(** The sum of priorities does not overflow. *)
Lemma victimPriority_sum i l :
  running_wf l -> victimPriority (mkPlan i l) = zsum j_Priority l.
Proof.
  intros Hwf. unfold victimPriority. simpl.
  assert (forall l : list Job, Forall job_wf l ->
          - 2147483648 * Z.of_nat (length l) <= zsum j_Priority l
          <= 2147483648 * Z.of_nat (length l)) as B.
  { induction 1; rewrite ?zsum_nil, ?zsum_cons; simpl length; [lia|].
    unfold_wf. unfold in_int32 in *. lia. }
  induction l as [|v l IH] using rev_ind; [done|].
  rewrite fold_left_app, zsum_snoc. simpl.
  rewrite IH by by eapply running_wf_app.
  destruct Hwf as [Hf Hl]. pose proof (B _ Hf) as Hb. rewrite zsum_snoc in Hb. go_arith.
Qed.

(** The plan of a node evicts the shortest covering prefix of the order. *)
Lemma node_plan_shortest job i n running vs :
  node_wf n -> running_wf (default [] (running !! n_NodeID n)) ->
  n_Status n = NodeStatusReady -> vs `prefix_of` node_victims job n running ->
  covers n vs (job_request job) ->
  exists p, node_plan job i n running = Some p /\ pp_Victims p `prefix_of` vs.
Proof.
  intros Hn Hr Hs Hvs Hc. destruct (node_plan job i n running) as [p|] eqn:E.
  - exists p. split; [done|].
    apply node_plan_Some in E as (_ & _ & Hp & _ & Hmin); [|done..].
    destruct (prefix_weak_total _ _ _ Hp Hvs) as [|Hle]; [done|].
    destruct (decide (vs = pp_Victims p)) as [->|Hne]; [done|].
    apply covers_enough in Hc. rewrite (Hmin vs) in Hc; done.
  - exfalso. apply node_plan_None in E; [|done..]. apply not_covers_enough in E.
    apply E. destruct Hvs as [k Hk].
    pose proof (footprint_app_bound job n running vs k Hr Hk). unfold covers in *. simpl in *. lia.
Qed.

Lemma prefix_no_more_disruptive vs ws : vs `prefix_of` ws -> no_more_disruptive vs ws.
Proof.
  intros [k ->]. unfold no_more_disruptive. rewrite length_app.
  destruct k as [|v k]; simpl; [right; rewrite app_nil_r; lia|left; lia].
Qed.

Lemma betterPlan_false a b :
  running_wf (pp_Victims a) -> running_wf (pp_Victims b) ->
  betterPlan a b = false <-> no_more_disruptive (pp_Victims b) (pp_Victims a).
Proof.
  destruct a as [i l], b as [j k]. intros Hl Hk. unfold betterPlan, no_more_disruptive.
  rewrite !victimPriority_sum by done. simpl.
  destruct (Nat.eqb_spec (length l) (length k)); simpl;
    rewrite ?Z.ltb_ge, ?Nat.ltb_ge; lia.
Qed.

Lemma no_more_disruptive_trans a b c :
  no_more_disruptive a b -> no_more_disruptive b c -> no_more_disruptive a c.
Proof. unfold no_more_disruptive. lia. Qed.

Lemma node_plan_victims_wf job i n running p :
  node_wf n -> running_wf (default [] (running !! n_NodeID n)) ->
  node_plan job i n running = Some p -> running_wf (pp_Victims p).
Proof.
  intros Hn Hr E. apply node_plan_Some in E as (_ & _ & [k Hp] & _); [|done..].
  eapply running_wf_app. rewrite <- Hp. by apply node_victims_wf.
Qed.

(** ** Properties *)

(** C15: A plan returned by [FindPreemption] is legal: its node is schedulable;
    its victims are a prefix of an eviction order of the running jobs of that
    node that have strictly lower priority and an owner (lowest priority first,
    then newest); what is free plus what the victims hold is at least the
    request, in GPUs, in CPUs and in memory; and no shorter prefix would do. *)
Theorem preemption_plan_sound job nodes running plan :
  cluster_wf nodes running -> FindPreemption job nodes running = Some plan ->
  exists n order, nodes !! pp_Node plan = Some n
  /\ n_Status n = NodeStatusReady
  /\ eviction_order job n running order
  /\ pp_Victims plan `prefix_of` order
  /\ covers n (pp_Victims plan) (job_request job)
  /\ (forall p, p `prefix_of` pp_Victims plan -> p <> pp_Victims plan ->
       ~ covers n p (job_request job)).
Proof.
  intros Hwf H. destruct (find_preemption_plan_ok _ _ _ _ Hwf H)
    as (n & Hn & Hs & Hpre & He & Hmin).
  exists n, (node_victims job n running).
  split_and!; [done|done|apply node_victims_order|done|by apply covers_enough|].
  intros p Hp Hne. by apply not_covers_enough, Hmin.
Qed.

(** C16: [FindPreemption] gives up exactly when, on every schedulable node, what
    is free plus what all the evictable jobs of the node hold is less than the
    request in GPUs, in CPUs or in memory. *)
Theorem preemption_plan_complete job nodes running :
  cluster_wf nodes running ->
  FindPreemption job nodes running = None <->
  Forall (fun n => n_Status n = NodeStatusReady ->
    ~ covers n (evictable job n running) (job_request job)) nodes.
Proof.
  intros [Hn Hr]. unfold FindPreemption. rewrite find_preemption_from_spec.
  rewrite Forall_lookup in *.
  assert (forall n, covers n (evictable job n running) (job_request job)
            <-> covers n (node_victims job n running) (job_request job)) as Hv.
  { intros n. apply covers_perm. symmetry. apply node_victims_order. }
  split.
  - intros [_ H] i n Hi Hs. rewrite Hv, not_covers_enough.
    eapply node_plan_None; [by eapply Hn|by eapply Hr|by apply (H i)|done].
  - intros H. split; [done|]. intros i n Hi. simpl.
    destruct (node_plan job i n running) as [p|] eqn:E; [exfalso|done].
    pose proof (node_plan_Some _ _ _ _ _ (Hn _ _ Hi) (Hr _ _ Hi) E) as (_ & Hs & [k Hk] & He & _).
    apply (H i n Hi Hs), Hv. apply covers_enough in He.
    pose proof (footprint_app_bound job n running (pp_Victims p) k (Hr _ _ Hi) Hk).
    unfold covers in *. simpl in *. lia.
Qed.

(** C17: [FindPreemption] keeps a least disruptive plan: take any schedulable
    node, its eviction order and any prefix of it whose eviction would make
    room for the job; then the plan evicts fewer jobs than that prefix, or as
    many with a sum of priorities that is not larger. *)
Theorem preemption_plan_least job nodes running plan n order vs :
  cluster_wf nodes running -> FindPreemption job nodes running = Some plan ->
  n ∈ nodes -> n_Status n = NodeStatusReady ->
  eviction_order job n running order -> vs `prefix_of` order ->
  covers n vs (job_request job) ->
  no_more_disruptive (pp_Victims plan) vs.
Proof.
  intros [Hwn Hwr] H [i Hi]%list_elem_of_lookup Hs ->%eviction_order_unique Hvs Hc.
  rewrite Forall_lookup in Hwn, Hwr.
  destruct (node_plan_shortest job i n running vs) as (p & Hp & Hpv);
    [by eapply Hwn|by eapply Hwr|done..|].
  pose proof (find_preemption_from_elem _ _ _ _ _ _ H) as [?|(k & m & Hk & Hm)]; [done|].
  eapply no_more_disruptive_trans; [|by apply prefix_no_more_disruptive].
  apply betterPlan_false.
  - exact (node_plan_victims_wf _ _ _ _ _ (Hwn _ _ Hi) (Hwr _ _ Hi) Hp).
  - exact (node_plan_victims_wf _ _ _ _ _ (Hwn _ _ Hk) (Hwr _ _ Hk) Hm).
  - apply (find_preemption_from_optimal job 0 nodes running None plan H) with i n; done.
Qed.

(** A job cannot preempt work of its own priority or above: if no running
    job has strictly lower priority than a job that fits on no node, there is
    no plan, however long the job has been starving. *)
Theorem no_preemption_upwards job nodes running :
  cluster_wf nodes running ->
  Forall (fun n => Fits n (job_request job) = false) nodes ->
  (forall n v, n ∈ nodes -> v ∈ default [] (running !! n_NodeID n) ->
     j_Priority job <= j_Priority v) ->
  FindPreemption job nodes running = None.
Proof.
  intros Hwf Hf Hlow. destruct (FindPreemption job nodes running) as [plan|] eqn:E; [|done].
  destruct (plan_without_victims _ _ _ _ Hwf E Hlow) as (_ & n & Hn & Hfit).
  rewrite Forall_lookup in Hf. rewrite (Hf _ _ Hn) in Hfit. done.
Qed.

(** *** Example: one node, two running jobs *)

Definition ex_job (id : string) (gpu prio : Z) : Job :=
  mkJob id id "ayush" "research" JobStatusRunning prio gpu 1 1 "img" "cmd" "gpu-01" 0 3
    f64_zero 0 None None 0.
Definition ex_small : Job := ex_job "small" 1 1.
Definition ex_big : Job := ex_job "big" 4 2.
Definition ex_urgent : Job := ex_job "urgent" 4 9.
Definition ex_node : Node :=
  mkNode "gpu-01" "gpu-01" NodeStatusReady 5 0 64 62 512 510 "A100" f64_zero false ∅ 0 0.
Definition ex_running : gmap string (list Job) := {["gpu-01" := [ex_big; ex_small]]}.

Lemma ex_cluster_wf : cluster_wf [ex_node] ex_running.
Proof. apply (bool_decide_unpack _). vm_compute. exact I. Defined.

(** A second node that would have to give up three jobs, and one that would
    have to give up two jobs of higher priority. *)
Definition ex_on (node : string) (id : string) (gpu prio : Z) : Job :=
  mkJob id id "ayush" "research" JobStatusRunning prio gpu 1 1 "img" "cmd" node 0 3
    f64_zero 0 None None 0.
Definition ex_node_named (id : string) : Node :=
  mkNode id id NodeStatusReady 5 0 64 61 512 509 "A100" f64_zero false ∅ 0 0.
Definition ex_three : list Job :=
  [ex_on "gpu-02" "a" 1 1; ex_on "gpu-02" "b" 1 1; ex_on "gpu-02" "c" 3 1].
Definition ex_two : list Job := [ex_on "gpu-03" "d" 2 2; ex_on "gpu-03" "e" 3 3].
Definition ex_nodes : list Node := [ex_node_named "gpu-02"; ex_node_named "gpu-03"; ex_node].
Definition ex_running3 : gmap string (list Job) :=
  {["gpu-01" := [ex_big; ex_small]; "gpu-02" := ex_three; "gpu-03" := ex_two]}.

Lemma ex_cluster3_wf : cluster_wf ex_nodes ex_running3.
Proof. apply (bool_decide_unpack _). vm_compute. exact I. Defined.

Lemma preemption_plan_sound_witness :
  exists n order, ex_nodes !! 2%nat = Some n
  /\ n_Status n = NodeStatusReady
  /\ eviction_order ex_urgent n ex_running3 order
  /\ [ex_small; ex_big] `prefix_of` order
  /\ covers n [ex_small; ex_big] (job_request ex_urgent)
  /\ (forall p, p `prefix_of` [ex_small; ex_big] -> p <> [ex_small; ex_big] ->
       ~ covers n p (job_request ex_urgent)).
Proof.
  exact (preemption_plan_sound ex_urgent ex_nodes ex_running3 (mkPlan 2 [ex_small; ex_big])
           ex_cluster3_wf eq_refl).
Defined.

(** A job of high priority that asks for more memory than any node has. *)
Definition ex_hungry : Job :=
  mkJob "hungry" "hungry" "ayush" "research" JobStatusQueued 9 1 1 600 "img" "cmd" "" 0 3
    f64_zero 0 None None 0.

Lemma preemption_plan_complete_witness :
  FindPreemption ex_hungry ex_nodes ex_running3 = None.
Proof.
  apply (preemption_plan_complete ex_hungry ex_nodes ex_running3 ex_cluster3_wf).
  apply (bool_decide_unpack _). vm_compute. exact I.
Defined.

Lemma preemption_plan_least_witness : no_more_disruptive [ex_small; ex_big] ex_two.
Proof.
  apply (preemption_plan_least ex_urgent ex_nodes ex_running3 (mkPlan 2 [ex_small; ex_big])
           (ex_node_named "gpu-03") ex_two ex_two ex_cluster3_wf eq_refl).
  - right. left.
  - reflexivity.
  - exact (node_victims_order ex_urgent (ex_node_named "gpu-03") ex_running3).
  - by exists [].
  - apply (bool_decide_unpack _). vm_compute. exact I.
Defined.

Lemma no_preemption_upwards_witness : FindPreemption ex_small [ex_node] ex_running = None.
Proof.
  apply (no_preemption_upwards ex_small [ex_node] ex_running ex_cluster_wf).
  - by repeat constructor.
  - intros n v Hn%list_elem_of_singleton. subst n.
    change (default [] (ex_running !! n_NodeID ex_node)) with [ex_big; ex_small].
    intros Hv. apply elem_of_cons in Hv as [->|Hv%list_elem_of_singleton];
      [|subst v]; vm_compute; discriminate.
Defined.

(** The plan does not always evict the fewest jobs that would do: on this
    node evicting [ex_big] alone makes room for [ex_urgent], but the plan evicts
    the cheaper [ex_small] first and then [ex_big] as well. *)
Theorem preemption_may_evict_too_many :
  cluster_wf [ex_node] ex_running
  /\ FindPreemption ex_urgent [ex_node] ex_running = Some (mkPlan 0 [ex_small; ex_big])
  /\ ex_big ∈ evictable ex_urgent ex_node ex_running
  /\ covers ex_node [ex_big] (job_request ex_urgent).
Proof.
  split_and!; [apply ex_cluster_wf|reflexivity| |apply (bool_decide_unpack _); vm_compute; exact I].
  apply list_elem_of_filter. split; [split; [reflexivity|discriminate]|]. vm_compute. left.
Qed.
