(* ===== verification/Fragmentation.v ===== *)
(** * Cluster snapshots: [internal/scheduler/fragmentation.go]

    The GPU fragmentation index and the aggregate view of the cluster that the
    API and the metrics service publish. *)

From S2P Require Import Prelude Float64 Models.

#[local] Open Scope Z_scope.

(** The loop variables [totalFree] and [maxFree]. *)
Definition frag_step (acc : Z * Z) (n : Node) : Z * Z :=
  let '(totalFree, maxFree) := acc in
  if negb (Schedulable (n_Status n)) then acc
  else (totalFree ⊞ n_GPUAvailable n,
        if maxFree <? n_GPUAvailable n then n_GPUAvailable n else maxFree).

Definition frag_totals (nodes : list Node) : Z * Z := fold_left frag_step nodes (0, 0).

Definition Fragmentation (nodes : list Node) : float64 :=
  let '(totalFree, maxFree) := frag_totals nodes in
  if totalFree =? 0 then f64_zero
  else f64_sub f64_one (f64_div (f64_of_int maxFree) (f64_of_int totalFree)).

Definition ratio (used total : Z) : float64 :=
  if total =? 0 then f64_zero else f64_div (f64_of_int used) (f64_of_int total).

(** The counters the loop of [ClusterSnapshot] accumulates. *)
Record Totals := mkTotals {
  t_NodesTotal : Z; t_NodesReady : Z;
  t_TotalGPUs : Z; t_UsedGPUs : Z;
  t_TotalCPUs : Z; t_UsedCPUs : Z;
  t_TotalMemoryGB : Z; t_UsedMemoryGB : Z
}.

Definition snapshot_step (t : Totals) (n : Node) : Totals :=
  mkTotals (t_NodesTotal t ⊞ 1)
    (if String.eqb (n_Status n) NodeStatusReady then t_NodesReady t ⊞ 1 else t_NodesReady t)
    (t_TotalGPUs t ⊞ n_GPUCapacity n)
    (t_UsedGPUs t ⊞ (n_GPUCapacity n ⊟ n_GPUAvailable n))
    (t_TotalCPUs t ⊞ n_CPUCapacity n)
    (t_UsedCPUs t ⊞ (n_CPUCapacity n ⊟ n_CPUAvailable n))
    (t_TotalMemoryGB t ⊞ n_MemoryCapacity n)
    (t_UsedMemoryGB t ⊞ (n_MemoryCapacity n ⊟ n_MemoryAvailable n)).

Definition ClusterSnapshot (nodes : list Node) (jobsRunning jobsQueued : Z) : ClusterUtilization :=
  let t := fold_left snapshot_step nodes (mkTotals 0 0 0 0 0 0 0 0) in
  mkUtil (t_TotalGPUs t) (t_UsedGPUs t) (t_TotalCPUs t) (t_UsedCPUs t) (t_TotalMemoryGB t)
    (t_UsedMemoryGB t)
    (ratio (t_UsedGPUs t) (t_TotalGPUs t)) (ratio (t_UsedCPUs t) (t_TotalCPUs t))
    (ratio (t_UsedMemoryGB t) (t_TotalMemoryGB t))
    (t_NodesReady t) (t_NodesTotal t) jobsRunning jobsQueued (Fragmentation nodes).

(** ** Lemmas *)

Definition ready_nodes (nodes : list Node) : list Node :=
  filter (fun n => n_Status n = NodeStatusReady) nodes.

(** Fewer than 2^31 nodes: no counter of the loop overflows. *)
Definition few_nodes (nodes : list Node) : Prop :=
  Forall node_wf nodes /\ Z.of_nat (length nodes) <= 2147483648.

#[global] Instance few_nodes_dec nodes : Decision (few_nodes nodes).
Proof. unfold few_nodes. apply _. Defined.

Definition max_free (nodes : list Node) : Z := foldr (fun n a => Z.max (n_GPUAvailable n) a) 0 nodes.

Lemma ready_nodes_cons n nodes :
  ready_nodes (n :: nodes)
  = if Schedulable (n_Status n) then n :: ready_nodes nodes else ready_nodes nodes.
Proof.
  unfold ready_nodes, Schedulable. rewrite filter_cons.
  destruct (String.eqb_spec (n_Status n) NodeStatusReady); case_decide; done.
Qed.

Lemma max_free_nonneg nodes : 0 <= max_free nodes.
Proof. induction nodes; simpl; lia. Qed.

Lemma frag_totals_from nodes tot mx :
  Forall node_wf nodes -> 0 <= tot -> 0 <= mx ->
  tot + Z.of_nat (length nodes) * 2147483647 < two63 ->
  fold_left frag_step nodes (tot, mx)
  = (tot + zsum n_GPUAvailable (ready_nodes nodes), Z.max mx (max_free (ready_nodes nodes))).
Proof.
  intros Hw. revert tot mx. induction Hw as [|n nodes Hn Hw IH]; intros tot mx Ht Hm Hb.
  { simpl. f_equal; unfold max_free, zsum; simpl; lia. }
  simpl length in Hb. rewrite ready_nodes_cons. 
  change (fold_left frag_step (n :: nodes) (tot, mx))
    with (fold_left frag_step nodes (frag_step (tot, mx) n)). cbv [frag_step].
  fold frag_step.
  destruct (Schedulable (n_Status n)); simpl negb; cbv iota beta.
  - unfold_wf. unwrap64. rewrite IH by (case_bool; bool_prop; lia).
    rewrite zsum_cons. simpl max_free. f_equal; [lia|]. case_bool; bool_prop; lia.
  - apply IH; lia.
Qed.

Lemma frag_totals_spec nodes :
  few_nodes nodes ->
  frag_totals nodes = (zsum n_GPUAvailable (ready_nodes nodes), max_free (ready_nodes nodes)).
Proof.
  intros [Hw Hl]. unfold frag_totals. rewrite frag_totals_from by (done || lia).
  pose proof (max_free_nonneg (ready_nodes nodes)). f_equal; lia.
Qed.

Lemma max_free_le_sum nodes :
  Forall node_wf nodes -> 0 <= max_free nodes <= zsum n_GPUAvailable nodes.
Proof.
  induction 1 as [|n nodes Hn Hw IH]; simpl; [rewrite zsum_nil; lia|].
  rewrite zsum_cons. unfold_wf. lia.
Qed.

(** The nodes with a free GPU. *)
Definition with_free (nodes : list Node) : list Node := filter (fun n => 0 < n_GPUAvailable n) nodes.

Lemma no_free_sum nodes : Forall node_wf nodes ->
  with_free nodes = [] <-> zsum n_GPUAvailable nodes = 0.
Proof.
  unfold with_free. induction 1 as [|n nodes Hn Hw IH]; [done|]. rewrite filter_cons, zsum_cons.
  pose proof (max_free_le_sum _ Hw). unfold_wf. case_decide; [split; [done|lia]|].
  rewrite IH. lia.
Qed.

Lemma max_is_sum nodes : Forall node_wf nodes ->
  max_free nodes = zsum n_GPUAvailable nodes <-> (length (with_free nodes) <= 1)%nat.
Proof.
  induction 1 as [|n nodes Hn Hw IH]; [split; [simpl; lia|done]|].
  pose proof (max_free_le_sum _ Hw) as Hm. pose proof (no_free_sum _ Hw) as Hz.
  unfold with_free in *. rewrite filter_cons, zsum_cons. simpl max_free. unfold_wf.
  case_decide; simpl length.
  - transitivity (zsum n_GPUAvailable nodes = 0); [lia|]. rewrite <- Hz.
    destruct (filter _ nodes); simpl; [split; [lia|done]|split; [done|lia]].
  - rewrite <- IH. lia.
Qed.

(** The counters of [ClusterSnapshot] as sums. *)
Definition sums (nodes : list Node) : Totals :=
  mkTotals (Z.of_nat (length nodes)) (Z.of_nat (length (ready_nodes nodes)))
    (zsum n_GPUCapacity nodes) (zsum (fun n => n_GPUCapacity n - n_GPUAvailable n) nodes)
    (zsum n_CPUCapacity nodes) (zsum (fun n => n_CPUCapacity n - n_CPUAvailable n) nodes)
    (zsum n_MemoryCapacity nodes) (zsum (fun n => n_MemoryCapacity n - n_MemoryAvailable n) nodes).

Definition totals_add (a b : Totals) : Totals :=
  mkTotals (t_NodesTotal a + t_NodesTotal b) (t_NodesReady a + t_NodesReady b)
    (t_TotalGPUs a + t_TotalGPUs b) (t_UsedGPUs a + t_UsedGPUs b)
    (t_TotalCPUs a + t_TotalCPUs b) (t_UsedCPUs a + t_UsedCPUs b)
    (t_TotalMemoryGB a + t_TotalMemoryGB b) (t_UsedMemoryGB a + t_UsedMemoryGB b).

(** Every counter is between zero and [b]. *)
Definition totals_within (b : Z) (t : Totals) : Prop :=
  Forall (fun z => 0 <= z <= b)
    [t_NodesTotal t; t_NodesReady t; t_TotalGPUs t; t_UsedGPUs t; t_TotalCPUs t; t_UsedCPUs t;
     t_TotalMemoryGB t; t_UsedMemoryGB t].

Lemma snapshot_step_exact b t n :
  node_wf n -> totals_within b t -> b + 2147483647 < two63 ->
  snapshot_step t n = totals_add t (sums [n]) /\ totals_within (b + 2147483647) (snapshot_step t n).
Proof.
  intros Hn Ht Hb. assert (snapshot_step t n = totals_add t (sums [n])) as E.
  { unfold totals_within in Ht. rewrite !Forall_cons in Ht.
    unfold snapshot_step, totals_add, sums. rewrite ready_nodes_cons. unfold Schedulable.
    rewrite !zsum_cons, !zsum_nil. unfold_wf.
    destruct (String.eqb (n_Status n) NodeStatusReady); simpl; f_equal; unwrap64; lia. }
  split; [done|]. rewrite E. unfold totals_within in *. rewrite !Forall_cons in Ht |- *.
  unfold totals_add, sums. rewrite ready_nodes_cons. unfold Schedulable.
  rewrite !zsum_cons, !zsum_nil. unfold_wf.
  destruct (String.eqb (n_Status n) NodeStatusReady); simpl; split_and!; try lia; done.
Qed.

Lemma totals_add_assoc a b c : totals_add (totals_add a b) c = totals_add a (totals_add b c).
Proof. unfold totals_add. simpl. f_equal; lia. Qed.

Lemma sums_cons n nodes : sums (n :: nodes) = totals_add (sums [n]) (sums nodes).
Proof.
  unfold sums, totals_add. rewrite !ready_nodes_cons, !zsum_cons, !zsum_nil. simpl length.
  destruct (Schedulable (n_Status n)); simpl; f_equal; lia.
Qed.

Lemma snapshot_fold nodes b t :
  Forall node_wf nodes -> totals_within b t -> b + Z.of_nat (length nodes) * 2147483647 < two63 ->
  fold_left snapshot_step nodes t = totals_add t (sums nodes)
  /\ totals_within (b + Z.of_nat (length nodes) * 2147483647) (fold_left snapshot_step nodes t).
Proof.
  intros Hw. revert b t. induction Hw as [|n nodes Hn Hw IH]; intros b t Ht Hb; simpl fold_left.
  { simpl length in *. change (Z.of_nat 0) with 0. rewrite Z.mul_0_l, Z.add_0_r.
    split; [|done]. destruct t. unfold totals_add, sums. simpl.
    rewrite !zsum_nil. f_equal; lia. }
  simpl length in Hb. destruct (snapshot_step_exact b t n Hn Ht) as [E Hin]; [lia|].
  destruct (IH (b + 2147483647) (snapshot_step t n) Hin) as [E' Hin']; [lia|].
  split; [by rewrite E', E, (sums_cons n nodes), totals_add_assoc|].
  replace (b + Z.of_nat (length (n :: nodes)) * 2147483647)
    with (b + 2147483647 + Z.of_nat (length nodes) * 2147483647) by (simpl length; lia). done.
Qed.

(** The cluster snapshot adds up: for up to 2^31 well-formed nodes no
    counter overflows; totals and used amounts are the sums over the nodes of
    the capacity and of capacity minus availability, used never exceeds total,
    and the node counts are exact. *)
Theorem snapshot_exact nodes running queued :
  few_nodes nodes ->
  let u := ClusterSnapshot nodes running queued in
  cu_TotalGPUs u = zsum n_GPUCapacity nodes
  /\ cu_UsedGPUs u = zsum (fun n => n_GPUCapacity n - n_GPUAvailable n) nodes
  /\ 0 <= cu_UsedGPUs u <= cu_TotalGPUs u
  /\ cu_UsedCPUs u = zsum (fun n => n_CPUCapacity n - n_CPUAvailable n) nodes
  /\ cu_UsedMemoryGB u = zsum (fun n => n_MemoryCapacity n - n_MemoryAvailable n) nodes
  /\ cu_NodesTotal u = Z.of_nat (length nodes)
  /\ cu_NodesReady u = Z.of_nat (length (ready_nodes nodes)).
Proof.
  intros [Hw Hl].
  destruct (snapshot_fold nodes 0 (mkTotals 0 0 0 0 0 0 0 0) Hw) as [E _]; [|lia|].
  { unfold totals_within. by rewrite !Forall_cons. }
  unfold ClusterSnapshot. rewrite E. simpl. split_and!; try done.
  - apply zsum_nonneg. eapply Forall_impl; [exact Hw|]. intros n Hn. unfold_wf. lia.
  - clear E Hl. induction Hw as [|n nodes Hn Hw IH]; [done|]. rewrite !zsum_cons. unfold_wf. lia.
Qed.

(** The fragmentation index is one minus the largest number of free GPUs on
    a ready node over all free GPUs of ready nodes, and zero when there are
    none; the largest share is the whole exactly when at most one ready node
    has a free GPU. *)
Theorem fragmentation_exact nodes :
  few_nodes nodes ->
  let ready := ready_nodes nodes in
  let free := zsum n_GPUAvailable ready in
  let largest := max_free ready in
  Fragmentation nodes = (if free =? 0 then f64_zero
                         else f64_sub f64_one (f64_div (f64_of_int largest) (f64_of_int free)))
  /\ 0 <= largest <= free
  /\ (largest = free <-> (length (with_free ready) <= 1)%nat).
Proof.
  intros Hf ready free largest. unfold Fragmentation. rewrite frag_totals_spec by done.
  assert (Forall node_wf ready) as Hw.
  { apply Forall_forall. intros n [_ Hn]%list_elem_of_filter. destruct Hf as [Hw _].
    rewrite Forall_forall in Hw. by apply Hw. }
  split; [done|]. split; [by apply max_free_le_sum|by apply max_is_sum].
Qed.

Lemma snapshot_exact_witness :
  cu_UsedGPUs (ClusterSnapshot [node_example; node_example] 0 0) = 8.
Proof.
  rewrite (proj1 (proj2 (snapshot_exact [node_example; node_example] 0 0
    ltac:(by apply (bool_decide_unpack _); vm_compute)))).
  reflexivity.
Defined.

Lemma fragmentation_exact_witness :
  0 <= max_free (ready_nodes [node_example; node_example])
    <= zsum n_GPUAvailable (ready_nodes [node_example; node_example]).
Proof.
  apply (fragmentation_exact [node_example; node_example]).
  by apply (bool_decide_unpack _); vm_compute.
Defined.
