(* ===== verification/Store.v ===== *)
(** * PostgreSQL repositories: [internal/store]

    The tables of [migrations/0001] are finite maps keyed by their primary key.
    Every SQL statement of the repositories is a function on the tables, with
    the constraints of the schema that make a statement fail: primary keys, the
    foreign key [jobs.node_id], and the 32-bit [INTEGER] columns.  A repository
    method runs its statement with [exec], which also asks the environment for
    the server's clock and for the fate of the round trip: the statement may be
    carried out, may be refused (connection, encoding, timeout), or may be
    carried out while its acknowledgement is lost, in which case Go sees an
    error although the tables changed.

    What PostgreSQL leaves open or decides by configuration is the class
    [PgEnv]: the timestamp resolution, the interval of a number of seconds, the
    text collation, and the order of rows that [ORDER BY] does not separate. *)

From S2P Require Import Prelude Float64 Models.

#[local] Open Scope string_scope.
#[local] Open Scope list_scope.
#[local] Open Scope Z_scope.

(** ** The database *)

Record JobRow := mkJobRow {
  row_job : Job;                    (* the NOT NULL columns and the timestamps *)
  row_node_id : option string       (* the nullable foreign key *)
}.

Record Tables := mkTables {
  tb_jobs : gmap string JobRow;
  tb_nodes : gmap string Node;
  tb_events : gmap string SchedulingEvent
}.

Inductive Outcome := Carried | Refused | LostAck.

Record Db := mkDb {
  db_tables : Tables;
  db_stmt : nat;                    (* statements sent so far *)
  db_clock : nat -> Time;           (* the server's now() for each statement *)
  db_outcome : nat -> Outcome       (* the fate of each statement *)
}.

Definition set_jobs (m : gmap string JobRow) (t : Tables) : Tables :=
  mkTables m (tb_nodes t) (tb_events t).
Definition set_nodes (m : gmap string Node) (t : Tables) : Tables :=
  mkTables (tb_jobs t) m (tb_events t).
Definition set_events (m : gmap string SchedulingEvent) (t : Tables) : Tables :=
  mkTables (tb_jobs t) (tb_nodes t) m.

Definition after_stmt (t : Tables) (db : Db) : Db :=
  mkDb t (S (db_stmt db)) (db_clock db) (db_outcome db).

Definition conn_error : error := ErrMsg "connection error".

(** [pool.Exec], [pool.Query], [pool.QueryRow] *)
Definition exec {A} (body : Time -> Tables -> res A * Tables) : M Db (res A) :=
  fun db =>
    let now := db_clock db (db_stmt db) in
    let '(r, t) := body now (db_tables db) in
    match db_outcome db (db_stmt db) with
    | Carried => (r, after_stmt t db)
    | Refused => (Err conn_error, after_stmt (db_tables db) db)
    | LostAck => (Err conn_error, after_stmt t db)
    end.

Definition wrap_err {A} (prefix : string) (r : res A) : res A :=
  match r with
  | Err (ErrMsg msg) => Err (ErrMsg (prefix +:+ msg))
  | _ => r
  end.

(** [fmt.Errorf("prefix: %w", err)] around the error of a statement. *)
Definition with_prefix {A} (prefix : string) (m : M Db (res A)) : M Db (res A) :=
  fun db => let '(r, db') := m db in (wrap_err prefix r, db').

Class PgEnv := {
  pg_timestamp : Time -> Time;
  pg_interval : float64 -> Duration;
  pg_collate : string -> string -> bool;
  pg_order : forall A, (A -> A -> bool) -> list A -> list A;
  pg_order_perm : forall A less (l : list A), pg_order A less l ≡ₚ l;
  pg_order_sorted : forall A less (l : list A), StrictWeakOrder less ->
    StronglySorted (not_after less) (pg_order A less l);
  pg_collate_swo : StrictWeakOrder pg_collate
}.
Arguments pg_order {_ A} less l.

Section repositories.
Context `{PgEnv}.

(** A query without [ORDER BY] returns the rows in some order. *)
Definition rows {A} (l : list A) : list A := pg_order (fun _ _ => false) l.

(** ** Scanning rows *)

Definition scanJob (r : JobRow) : Job :=
  let j := row_job r in
  set_EffectivePriority 0
    (set_lifecycle (j_Status j) (default "" (row_node_id r)) (j_RetryCount j)
       (j_StartedAt j) (j_CompletedAt j) j).

Definition collectJobs (l : list JobRow) : list Job := map scanJob l.

(** ** Jobs *)

Definition job_ints_ok (j : Job) : bool :=
  forallb (fun z => bool_decide (in_int32 z))
    [j_Priority j; j_GPUCount j; j_CPUCount j; j_MemoryGB j; j_RetryCount j; j_MaxRetries j].

(** The row an INSERT stores: [node_id], [started_at] and [completed_at] are
    not among its columns. *)
Definition new_row (j : Job) : JobRow :=
  mkJobRow
    (mkJob (j_JobID j) (j_Name j) (j_UserID j) (j_TeamID j) (j_Status j) (j_Priority j)
       (j_GPUCount j) (j_CPUCount j) (j_MemoryGB j) (j_Image j) (j_Command j) ""
       (j_RetryCount j) (j_MaxRetries j) (j_CostPerHour j) (pg_timestamp (j_CreatedAt j))
       None None 0)
    None.

Definition job_Create (j : Job) : M Db (res unit) :=
  with_prefix "insert job: " (exec (fun _ t =>
    if negb (job_ints_ok j) then (Err (ErrMsg "integer out of range"), t)
    else match tb_jobs t !! j_JobID j with
    | Some _ => (Err (ErrMsg "duplicate key"), t)
    | None => (Ok tt, set_jobs (<[j_JobID j := new_row j]> (tb_jobs t)) t)
    end)).

Definition job_Get (id : string) : M Db (res Job) :=
  exec (fun _ t =>
    match tb_jobs t !! id with
    | Some r => (Ok (scanJob r), t)
    | None => (Err ErrNotFound, t)          (* pgx.ErrNoRows *)
    end).

(** *** The dynamic query of [List] *)

Record JobFilter := mkFilter {
  jf_Status : JobStatus;
  jf_UserID : string;
  jf_TeamID : string;
  jf_Statuses : list JobStatus;
  jf_Limit : Z
}.

Inductive Column := ColStatus | ColUserID | ColTeamID.

(** [col = $n] and [col IN ($n, ...)] *)
Inductive Clause := ClauseEq (c : Column) (n : nat) | ClauseIn (c : Column) (ns : list nat).

Inductive Arg := ArgText (s : string) | ArgInt (z : Z).

(** The variables [clauses], [args] and [i]. *)
Record QueryBuilder := mkQB { qb_clauses : list Clause; qb_args : list Arg; qb_i : nat }.

Definition add_eq (c : Column) (v : string) (q : QueryBuilder) : QueryBuilder :=
  mkQB (qb_clauses q ++ [ClauseEq c (qb_i q)]) (qb_args q ++ [ArgText v]) (S (qb_i q)).

(** The loop over [f.Statuses]: one placeholder and one argument each. *)
Fixpoint add_placeholders (ss : list string) (args : list Arg) (i : nat) (phs : list nat) :
    list nat * list Arg * nat :=
  match ss with
  | [] => (phs, args, i)
  | s :: ss' => add_placeholders ss' (args ++ [ArgText s]) (S i) (phs ++ [i])
  end.

Definition add_in (c : Column) (ss : list string) (q : QueryBuilder) : QueryBuilder :=
  let '(phs, args, i) := add_placeholders ss (qb_args q) (qb_i q) [] in
  mkQB (qb_clauses q ++ [ClauseIn c phs]) args i.

Record Query := mkQuery {
  q_where : list Clause;
  q_limit : option nat;             (* the placeholder of LIMIT *)
  q_args : list Arg
}.

Definition filter_builder (f : JobFilter) : QueryBuilder :=
  let q := mkQB [] [] 1 in
  let q := if String.eqb (jf_Status f) "" then q else add_eq ColStatus (jf_Status f) q in
  let q := match jf_Statuses f with [] => q | ss => add_in ColStatus ss q end in
  let q := if String.eqb (jf_UserID f) "" then q else add_eq ColUserID (jf_UserID f) q in
  if String.eqb (jf_TeamID f) "" then q else add_eq ColTeamID (jf_TeamID f) q.

Definition build_query (f : JobFilter) : Query :=
  let q := filter_builder f in
  if 0 <? jf_Limit f
  then mkQuery (qb_clauses q) (Some (qb_i q)) (qb_args q ++ [ArgInt (jf_Limit f)])
  else mkQuery (qb_clauses q) None (qb_args q).

Definition column (c : Column) (r : JobRow) : string :=
  match c with
  | ColStatus => j_Status (row_job r)
  | ColUserID => j_UserID (row_job r)
  | ColTeamID => j_TeamID (row_job r)
  end.

(** [$n] is the n-th argument, counting from one. *)
Definition text_arg (args : list Arg) (n : nat) : option string :=
  match n with
  | O => None
  | S k => match args !! k with Some (ArgText s) => Some s | _ => None end
  end.

Definition eval_clause (args : list Arg) (r : JobRow) (c : Clause) : bool :=
  match c with
  | ClauseEq c n => bool_decide (text_arg args n = Some (column c r))
  | ClauseIn c ns => existsb (fun n => bool_decide (text_arg args n = Some (column c r))) ns
  end.

Definition created_desc (a b : JobRow) : bool :=
  time_After (j_CreatedAt (row_job a)) (j_CreatedAt (row_job b)).
Definition created_asc (a b : JobRow) : bool :=
  time_Before (j_CreatedAt (row_job a)) (j_CreatedAt (row_job b)).

Definition limit_rows {A} (q : Query) (l : list A) : list A :=
  match q_limit q with
  | Some (S k) => match q_args q !! k with Some (ArgInt z) => take (Z.to_nat z) l | _ => l end
  | _ => l
  end.

Definition run_query (q : Query) (t : Tables) : list JobRow :=
  limit_rows q
    (pg_order created_desc
       (filter (fun r => forallb (eval_clause (q_args q) r) (q_where q) = true)
          (map snd (map_to_list (tb_jobs t))))).

Definition job_List (f : JobFilter) : M Db (res (list Job)) :=
  with_prefix "query jobs: " (exec (fun _ t => (Ok (collectJobs (run_query (build_query f) t)), t))).

Definition job_ListByStatuses (statuses : list JobStatus) : M Db (res (list Job)) :=
  job_List (mkFilter "" "" "" statuses 0).

Definition job_ListScheduledForNode (nodeID : string) : M Db (res (list Job)) :=
  with_prefix "query assignments: " (exec (fun _ t =>
    (Ok (collectJobs (pg_order created_asc
       (filter (fun r => row_node_id r = Some nodeID
                         /\ j_Status (row_job r) = JobStatusScheduled)
          (map snd (map_to_list (tb_jobs t)))))), t))).

Definition update_row (st : string) (node : option string) (retry : Z)
    (started completed : option Time) (r : JobRow) : JobRow :=
  mkJobRow (set_lifecycle st "" retry started completed (row_job r)) node.

Definition sql_update_status (now : Time) (status : JobStatus) (r : JobRow) : JobRow :=
  let j := row_job r in
  update_row status (row_node_id r) (j_RetryCount j)
    (if String.eqb status JobStatusRunning && bool_decide (j_StartedAt j = None)
     then Some now else j_StartedAt j)
    (if IsTerminal status then Some now else j_CompletedAt j) r.

Definition job_UpdateStatus (id : string) (status : JobStatus) : M Db (res unit) :=
  exec (fun now t => (Ok tt, set_jobs (alter (sql_update_status now status) id (tb_jobs t)) t)).

Definition sql_schedule (nodeID : string) (r : JobRow) : JobRow :=
  let j := row_job r in
  update_row JobStatusScheduled (Some nodeID) (j_RetryCount j) (j_StartedAt j) (j_CompletedAt j) r.

(** The foreign key is checked when a row is updated. *)
Definition job_Schedule (id nodeID : string) : M Db (res unit) :=
  exec (fun _ t =>
    match tb_jobs t !! id, tb_nodes t !! nodeID with
    | Some _, None => (Err (ErrMsg "violates foreign key constraint"), t)
    | _, _ => (Ok tt, set_jobs (alter (sql_schedule nodeID) id (tb_jobs t)) t)
    end).

Definition sql_requeue (status : JobStatus) (r : JobRow) : JobRow :=
  let j := row_job r in
  update_row status None (j_RetryCount j + 1) None (j_CompletedAt j) r.

Definition job_Requeue (id : string) (status : JobStatus) : M Db (res unit) :=
  exec (fun _ t =>
    match tb_jobs t !! id with
    | Some r =>
        if bool_decide (in_int32 (j_RetryCount (row_job r) + 1))
        then (Ok tt, set_jobs (alter (sql_requeue status) id (tb_jobs t)) t)
        else (Err (ErrMsg "integer out of range"), t)
    | None => (Ok tt, t)
    end).

Definition job_CountByStatus (status : JobStatus) : M Db (res Z) :=
  exec (fun _ t =>
    (Ok (Z.of_nat (length (filter (fun r => j_Status (row_job r) = status)
           (map snd (map_to_list (tb_jobs t)))))), t)).

(** [SELECT team_id, SUM(gpu_count) ... GROUP BY team_id] *)
Definition sql_team_usage (t : Tables) : gmap string Z :=
  foldr (fun r acc => <[j_TeamID r := j_GPUCount r + default 0 (acc !! j_TeamID r)]> acc) ∅
    (map row_job (filter (fun r => IsActive (j_Status (row_job r)) = true)
       (map snd (map_to_list (tb_jobs t))))).

Definition job_TeamGPUUsage : M Db (res (gmap string Z)) :=
  exec (fun _ t => (Ok (sql_team_usage t), t)).

(** ** Nodes *)

Definition node_ints_ok (n : Node) : bool :=
  forallb (fun z => bool_decide (in_int32 z))
    [n_GPUCapacity n; n_GPUAvailable n; n_CPUCapacity n; n_CPUAvailable n;
     n_MemoryCapacity n; n_MemoryAvailable n].

(** [ON CONFLICT DO UPDATE]: status, availability and [registered_at] of the
    existing row stay. *)
Definition sql_reregister (now : Time) (n old : Node) : Node :=
  mkNode (n_NodeID old) (n_Hostname n) (n_Status old) (n_GPUCapacity n) (n_GPUAvailable old)
    (n_CPUCapacity n) (n_CPUAvailable old) (n_MemoryCapacity n) (n_MemoryAvailable old)
    (n_GPUModel n) (n_CostPerHour n) (n_Spot n) (n_Labels n) now (n_RegisteredAt old).

Definition sql_register (now : Time) (n : Node) : Node :=
  mkNode (n_NodeID n) (n_Hostname n) (n_Status n) (n_GPUCapacity n) (n_GPUAvailable n)
    (n_CPUCapacity n) (n_CPUAvailable n) (n_MemoryCapacity n) (n_MemoryAvailable n)
    (n_GPUModel n) (n_CostPerHour n) (n_Spot n) (n_Labels n) now now.

Definition node_Upsert (n : Node) : M Db (res unit) :=
  exec (fun now t =>
    if negb (node_ints_ok n) then (Err (ErrMsg "integer out of range"), t)
    else (Ok tt, set_nodes
      (<[n_NodeID n := match tb_nodes t !! n_NodeID n with
                       | Some old => sql_reregister now n old
                       | None => sql_register now n
                       end]> (tb_nodes t)) t)).

Definition node_Get (id : string) : M Db (res Node) :=
  exec (fun _ t =>
    match tb_nodes t !! id with
    | Some n => (Ok n, t)
    | None => (Err ErrNotFound, t)
    end).

Definition node_List : M Db (res (list Node)) :=
  with_prefix "query nodes: " (exec (fun _ t =>
    (Ok (pg_order (fun a b => pg_collate (n_Hostname a) (n_Hostname b))
           (map snd (map_to_list (tb_nodes t)))), t))).

Definition node_UpdateAvailability (id : string) (gpu cpu mem : Z) : M Db (res unit) :=
  exec (fun _ t =>
    if negb (forallb (fun z => bool_decide (in_int32 z)) [gpu; cpu; mem])
    then (Err (ErrMsg "integer out of range"), t)
    else (Ok tt, set_nodes (alter (set_available gpu cpu mem) id (tb_nodes t)) t)).

Definition sql_heartbeat (now : Time) (n : Node) : Node :=
  set_liveness (if String.eqb (n_Status n) NodeStatusDown then NodeStatusReady else n_Status n)
    now n.

Definition node_Heartbeat (id : string) : M Db (res unit) :=
  exec (fun now t =>
    match tb_nodes t !! id with
    | Some n => (Ok tt, set_nodes (<[id := sql_heartbeat now n]> (tb_nodes t)) t)
    | None => (Err ErrNotFound, t)          (* RowsAffected() == 0 *)
    end).

Definition node_SetStatus (id : string) (status : NodeStatus) : M Db (res unit) :=
  exec (fun _ t =>
    (Ok tt, set_nodes (alter (fun n => set_liveness status (n_LastHeartbeat n) n) id
                         (tb_nodes t)) t)).

Definition is_stale (now : Time) (ttl : Duration) (n : Node) : bool :=
  (String.eqb (n_Status n) NodeStatusReady || String.eqb (n_Status n) NodeStatusDraining
   || String.eqb (n_Status n) NodeStatusCordoned)
  && (n_LastHeartbeat n <? now - pg_interval (Seconds ttl)).

Definition mark_down (n : Node) : Node := set_liveness NodeStatusDown (n_LastHeartbeat n) n.

Definition node_MarkStaleDown (ttl : Duration) : M Db (res (list string)) :=
  exec (fun now t =>
    (Ok (rows (map fst (filter (fun kv => is_stale now ttl kv.2 = true)
                          (map_to_list (tb_nodes t))))),
     set_nodes ((fun n => if is_stale now ttl n then mark_down n else n) <$> tb_nodes t) t)).

(** ** Scheduling events *)

Definition event_row (e : SchedulingEvent) : SchedulingEvent :=
  mkEvent (ev_EventID e) (ev_JobID e) (ev_SelectedNode e) (ev_SchedulingReason e)
    (ev_Algorithm e) (ev_LatencyMS e) (ev_Success e) (pg_timestamp (ev_Timestamp e)).

Definition event_Record (e : SchedulingEvent) : M Db (res unit) :=
  with_prefix "insert scheduling event: " (exec (fun _ t =>
    match tb_events t !! ev_EventID e with
    | Some _ => (Err (ErrMsg "duplicate key"), t)
    | None => (Ok tt, set_events (<[ev_EventID e := event_row e]> (tb_events t)) t)
    end)).

Definition event_List (limit : Z) : M Db (res (list SchedulingEvent)) :=
  let limit := if limit <=? 0 then 100 else limit in
  with_prefix "query scheduling events: " (exec (fun _ t =>
    (Ok (take (Z.to_nat limit)
           (pg_order (fun a b => time_After (ev_Timestamp a) (ev_Timestamp b))
              (map snd (map_to_list (tb_events t))))), t))).
End repositories.

#[global] Instance JobRow_inhabited : Inhabited JobRow :=
  populate (mkJobRow (mkJob "" "" "" "" "" 0 0 0 0 "" "" "" 0 0 f64_zero 0 None None 0) None).

(** ** The query builder

    Every placeholder of the query that [List] assembles refers to the argument
    appended for it, so the query selects exactly the rows of the filter. *)

Definition filter_matches (f : JobFilter) (r : JobRow) : bool :=
  (String.eqb (jf_Status f) "" || String.eqb (j_Status (row_job r)) (jf_Status f))
  && (match jf_Statuses f with [] => true | ss => existsb (String.eqb (j_Status (row_job r))) ss end)
  && (String.eqb (jf_UserID f) "" || String.eqb (j_UserID (row_job r)) (jf_UserID f))
  && (String.eqb (jf_TeamID f) "" || String.eqb (j_TeamID (row_job r)) (jf_TeamID f)).

Section query_builder.
Context (r : JobRow).

(** The builder [q] stands for the test [b] on row [r], whatever arguments are
    appended later. *)
Definition denotes (q : QueryBuilder) (b : bool) : Prop :=
  qb_i q = S (length (qb_args q))
  /\ forall extra, forallb (eval_clause (qb_args q ++ extra) r) (qb_clauses q) = b.

Lemma text_arg_middle args v extra :
  text_arg ((args ++ [ArgText v]) ++ extra) (S (length args)) = Some v.
Proof. unfold text_arg. rewrite <- app_assoc. simpl. by rewrite list_lookup_middle by done. Qed.

Lemma string_eqb_decide (a b : string) : bool_decide (Some a = Some b) = String.eqb b a.
Proof.
  destruct (String.eqb_spec b a) as [->|]; [by apply bool_decide_eq_true|].
  apply bool_decide_eq_false. congruence.
Qed.

Lemma denotes_eq q b c v :
  denotes q b -> denotes (add_eq c v q) (b && String.eqb (column c r) v).
Proof.
  intros [Hi Hd]. split; simpl.
  - rewrite length_app, Hi. simpl. lia.
  - intros extra. rewrite forallb_app. simpl. rewrite <- app_assoc, Hd. f_equal.
    rewrite andb_true_r, Hi. unfold eval_clause. rewrite app_assoc, text_arg_middle.
    apply string_eqb_decide.
Qed.

Lemma add_placeholders_spec ss args i phs :
  add_placeholders ss args i phs
  = (phs ++ seq i (length ss), args ++ map ArgText ss, (i + length ss)%nat).
Proof.
  revert args i phs. induction ss as [|s ss IH]; intros args i phs; simpl.
  - by rewrite !app_nil_r, Nat.add_0_r.
  - rewrite IH, <- !app_assoc. simpl. do 2 f_equal. lia.
Qed.

Lemma eval_in_spec args ss extra c :
  existsb (fun n => bool_decide (text_arg ((args ++ map ArgText ss) ++ extra) n
                                 = Some (column c r))) (seq (S (length args)) (length ss))
  = existsb (String.eqb (column c r)) ss.
Proof.
  revert args. induction ss as [|s ss IH]; intros args; simpl; [done|].
  replace ((args ++ ArgText s :: map ArgText ss) ++ extra)
    with ((args ++ [ArgText s]) ++ map ArgText ss ++ extra) by by rewrite <- !app_assoc.
  pose proof (text_arg_middle args s (map ArgText ss ++ extra)) as Ha.
  unfold text_arg in Ha. rewrite Ha, string_eqb_decide. f_equal.
  specialize (IH (args ++ [ArgText s])). rewrite length_app, <- !app_assoc in IH. simpl in IH.
  rewrite Nat.add_1_r in IH. rewrite <- !app_assoc. simpl. exact IH.
Qed.

Lemma denotes_in q b c ss :
  denotes q b -> denotes (add_in c ss q) (b && existsb (String.eqb (column c r)) ss).
Proof.
  intros [Hi Hd]. unfold add_in. rewrite add_placeholders_spec. simpl. split; simpl.
  - rewrite length_app, length_map, Hi. lia.
  - intros extra. rewrite forallb_app. simpl. rewrite <- app_assoc, Hd. f_equal.
    rewrite andb_true_r, Hi, app_assoc. apply eval_in_spec.
Qed.

Lemma denotes_if q b b' c v :
  denotes q b -> b' = (String.eqb v "" || String.eqb (column c r) v) ->
  denotes (if String.eqb v "" then q else add_eq c v q) (b && b').
Proof.
  intros Hq ->. destruct (String.eqb v ""); simpl; [by rewrite andb_true_r|].
  by apply denotes_eq.
Qed.

Lemma filter_builder_denotes f : denotes (filter_builder f) (filter_matches f r).
Proof.
  unfold filter_builder, filter_matches.
  set (q0 := mkQB [] [] 1). assert (denotes q0 true) as D0 by by split.
  pose proof (denotes_if q0 true _ ColStatus (jf_Status f) D0 eq_refl) as D1.
  set (q1 := if String.eqb (jf_Status f) "" then q0 else _) in *.
  apply (denotes_if _ _ _ ColTeamID); [|done]. apply (denotes_if _ _ _ ColUserID); [|done].
  destruct (jf_Statuses f); [by rewrite andb_true_r|]. by apply (denotes_in q1 _ ColStatus).
Qed.

Lemma build_query_matches f :
  forallb (eval_clause (q_args (build_query f)) r) (q_where (build_query f))
  = filter_matches f r.
Proof.
  destruct (filter_builder_denotes f) as [_ D]. unfold build_query.
  destruct (0 <? jf_Limit f); simpl; [apply D|].
  rewrite <- (app_nil_r (qb_args _)). apply D.
Qed.

End query_builder.

(** The LIMIT placeholder refers to the limit, which is the last argument. *)
Lemma build_query_limit f {A} (l : list A) :
  limit_rows (build_query f) l
  = if 0 <? jf_Limit f then take (Z.to_nat (jf_Limit f)) l else l.
Proof.
  destruct (filter_builder_denotes inhabitant f) as [D _]. unfold build_query.
  destruct (0 <? jf_Limit f); [|done]. unfold limit_rows. simpl.
  by rewrite D, list_lookup_middle by done.
Qed.

(** ** A concrete server

    Microsecond timestamps, byte-order collation, ties in scan order. *)

Definition codes (s : string) : list Z :=
  map (fun c => Z.of_nat (Ascii.nat_of_ascii c)) (String.list_ascii_of_string s).

#[program] Definition pg_reference : PgEnv := {|
  pg_timestamp := fun t => t / 1000 * 1000;
  pg_interval := fun secs =>
    match f64_trunc (f64_mul secs (f64_of_int 1000000)) with Some us => us * 1000 | None => 0 end;
  pg_collate := fun a b => lexb (codes a) (codes b);
  pg_order := fun A less l => sort_stable less l
|}.
Next Obligation. intros. apply sort_stable_perm. Qed.
Next Obligation. intros. by apply sort_stable_sorted. Qed.
Next Obligation. by apply (swo_key _ codes). Qed.

(** A server that carries out every statement, [secs] seconds after the epoch. *)
Definition healthy_db (t : Tables) (now : Time) : Db := mkDb t 0 (fun _ => now) (fun _ => Carried).
