(* ===== verification/Interfaces.v ===== *)
(** * The store interfaces of the engine: [JobStore], [NodeStore], [EventStore]

    [engine.go] declares three interfaces and the engine is written against
    them.  Here they are classes over the type of the store's state, and
    [StoreContract] is what they promise, stated on an abstract state: the
    jobs, nodes and events a client would read.  A write that returns [Ok] took
    effect; a write that returns an error may or may not have.  The repositories
    of [Store] implement the contract ([Db_contract]). *)

From S2P Require Import Prelude Float64 Models Store.

#[local] Open Scope string_scope.
#[local] Open Scope list_scope.
#[local] Open Scope Z_scope.

(** ** The interfaces *)

Class JobStore (S : Type) := {
  ListByStatuses : list JobStatus -> M S (res (list Job));
  Schedule : string -> string -> M S (res unit);
  Requeue : string -> JobStatus -> M S (res unit);
  UpdateStatus : string -> JobStatus -> M S (res unit);
  TeamGPUUsage : M S (res (gmap string Z));
  CountByStatus : JobStatus -> M S (res Z)
}.

Class NodeStore (S : Type) := {
  ListNodes : M S (res (list Node));
  UpdateAvailability : string -> Z -> Z -> Z -> M S (res unit);
  MarkStaleDown : Duration -> M S (res (list string))
}.

Class EventStore (S : Type) := {
  RecordEvent : SchedulingEvent -> M S (res unit)
}.

(** ** Abstract state *)

Record AState := mkA {
  a_jobs : gmap string Job;
  a_nodes : gmap string Node;
  a_events : gmap string SchedulingEvent
}.

Definition on_job (f : Job -> Job) (id : string) (a : AState) : AState :=
  mkA (alter f id (a_jobs a)) (a_nodes a) (a_events a).
Definition on_node (f : Node -> Node) (id : string) (a : AState) : AState :=
  mkA (a_jobs a) (alter f id (a_nodes a)) (a_events a).

Definition scheduled_on (nodeID : string) (j : Job) : Job :=
  set_lifecycle JobStatusScheduled nodeID (j_RetryCount j) (j_StartedAt j) (j_CompletedAt j) j.
Definition requeued (st : JobStatus) (j : Job) : Job :=
  set_lifecycle st "" (j_RetryCount j + 1) None (j_CompletedAt j) j.
Definition moved_to (now : Time) (st : JobStatus) (j : Job) : Job :=
  set_lifecycle st (j_NodeID j) (j_RetryCount j)
    (if String.eqb st JobStatusRunning && bool_decide (j_StartedAt j = None)
     then Some now else j_StartedAt j)
    (if IsTerminal st then Some now else j_CompletedAt j) j.

Definition mark_all_down (ids : list string) (a : AState) : AState :=
  mkA (a_jobs a)
    (map_imap (fun k n => Some (if bool_decide (k ∈ ids) then mark_down n else n)) (a_nodes a))
    (a_events a).

Definition record_event (e : SchedulingEvent) (a : AState) : AState :=
  mkA (a_jobs a) (a_nodes a) (<[ev_EventID e := e]> (a_events a)).

(** The rows that [status IN (...)] selects; no status means no clause. *)
Definition has_status (sts : list JobStatus) (j : Job) : Prop := sts = [] \/ j_Status j ∈ sts.
#[global] Instance has_status_dec sts j : Decision (has_status sts j).
Proof. unfold has_status. destruct sts; [by do 2 left|apply _]. Defined.

Definition jobs_with (sts : list JobStatus) (a : AState) : list Job :=
  filter (has_status sts) (map snd (map_to_list (a_jobs a))).

(** Rows are keyed by their own identifier. *)
Definition astate_keyed (a : AState) : Prop :=
  map_Forall (fun id j => j_JobID j = id) (a_jobs a)
  /\ map_Forall (fun id n => n_NodeID n = id) (a_nodes a).

(** ** The contract *)

Section contract_defs.
Context {S : Type} (view : S -> AState) (healthy : S -> Prop).

(** A read leaves the state alone; if it answers, [Q] holds of the answer. *)
Definition read_spec {A} (m : M S (res A)) (Q : AState -> A -> Prop) : Prop :=
  forall s, view (m s).2 = view s
  /\ (forall a, (m s).1 = Ok a -> Q (view s) a)
  /\ (healthy s -> healthy (m s).2 /\ exists a, (m s).1 = Ok a).

(** A write answers [Ok] only if the effect [f] took place, and an error leaves
    either the old or the new state; it succeeds on a healthy store if [pre]. *)
Definition write_spec {A} (m : M S (res A)) (pre : AState -> Prop)
    (f : A -> AState -> AState -> Prop) : Prop :=
  forall s,
    (forall a, (m s).1 = Ok a -> f a (view s) (view (m s).2))
    /\ (forall e, (m s).1 = Err e ->
          view (m s).2 = view s \/ exists a, f a (view s) (view (m s).2))
    /\ (healthy s -> healthy (m s).2 /\ (pre (view s) -> exists a, (m s).1 = Ok a)).
End contract_defs.

Class StoreContract (S : Type) `{JobStore S, NodeStore S, EventStore S} := {
  view : S -> AState;
  healthy : S -> Prop;
  ListByStatuses_ok : forall sts,
    read_spec view healthy (ListByStatuses sts) (fun a l => l ≡ₚ jobs_with sts a);
  ListNodes_ok :
    read_spec view healthy ListNodes (fun a l => l ≡ₚ map snd (map_to_list (a_nodes a)));
  TeamGPUUsage_ok : read_spec view healthy TeamGPUUsage (fun _ _ => True);
  Schedule_ok : forall id nodeID,
    write_spec view healthy (Schedule id nodeID)
      (fun a => is_Some (a_nodes a !! nodeID))
      (fun _ a a' => a' = on_job (scheduled_on nodeID) id a);
  Requeue_ok : forall id st,
    write_spec view healthy (Requeue id st)
      (fun a => forall j, a_jobs a !! id = Some j -> in_int32 (j_RetryCount j + 1))
      (fun _ a a' => a' = on_job (requeued st) id a);
  UpdateStatus_ok : forall id st,
    write_spec view healthy (UpdateStatus id st) (fun _ => True)
      (fun _ a a' => exists now, a' = on_job (moved_to now st) id a);
  UpdateAvailability_ok : forall id gpu cpu mem,
    write_spec view healthy (UpdateAvailability id gpu cpu mem)
      (fun _ => in_int32 gpu /\ in_int32 cpu /\ in_int32 mem)
      (fun _ a a' => a' = on_node (set_available gpu cpu mem) id a);
  MarkStaleDown_ok : forall ttl,
    write_spec view healthy (MarkStaleDown ttl) (fun _ => True)
      (fun ids a a' => a' = mark_all_down ids a
         /\ Forall (fun id => exists n, a_nodes a !! id = Some n
                              /\ n_Status n <> NodeStatusDown) ids);
  RecordEvent_ok : forall e,
    write_spec view healthy (RecordEvent e) (fun a => a_events a !! ev_EventID e = None)
      (fun _ a a' => a_events a !! ev_EventID e = None
         /\ exists ts, a' = record_event (mkEvent (ev_EventID e) (ev_JobID e) (ev_SelectedNode e)
              (ev_SchedulingReason e) (ev_Algorithm e) (ev_LatencyMS e) (ev_Success e) ts) a)
}.

(** ** The repositories implement the contract *)

Section db_instance.
Context `{PgEnv}.

#[export] Instance Db_JobStore : JobStore Db := {|
  ListByStatuses := job_ListByStatuses;
  Schedule := job_Schedule;
  Requeue := job_Requeue;
  UpdateStatus := job_UpdateStatus;
  TeamGPUUsage := job_TeamGPUUsage;
  CountByStatus := job_CountByStatus
|}.

#[export] Instance Db_NodeStore : NodeStore Db := {|
  ListNodes := node_List;
  UpdateAvailability := node_UpdateAvailability;
  MarkStaleDown := node_MarkStaleDown
|}.

#[export] Instance Db_EventStore : EventStore Db := {| RecordEvent := event_Record |}.

Definition view_tables (t : Tables) : AState :=
  mkA (scanJob <$> tb_jobs t) (tb_nodes t) (tb_events t).
Definition db_view (db : Db) : AState := view_tables (db_tables db).
Definition db_healthy (db : Db) : Prop := forall k, db_outcome db k = Carried.

Lemma exec_read {A} (body : Time -> Tables -> res A * Tables) (Q : AState -> A -> Prop) :
  (forall now t, exists a, body now t = (Ok a, t) /\ Q (view_tables t) a) ->
  read_spec db_view db_healthy (exec body) Q.
Proof.
  intros Hb db. unfold exec, db_view, db_healthy.
  destruct (Hb (db_clock db (db_stmt db)) (db_tables db)) as (a & -> & HQ).
  destruct (db_outcome db (db_stmt db)) eqn:E; simpl; split_and!; try done; try congruence.
  all: intros; simplify_eq; eauto. all: exfalso; congruence.
Qed.

Lemma exec_write {A} (body : Time -> Tables -> res A * Tables) (pre : AState -> Prop)
    (f : A -> AState -> AState -> Prop) :
  (forall now t a, (body now t).1 = Ok a -> f a (view_tables t) (view_tables (body now t).2)) ->
  (forall now t e, (body now t).1 = Err e -> (body now t).2 = t) ->
  (forall now t, pre (view_tables t) -> exists a, (body now t).1 = Ok a) ->
  write_spec db_view db_healthy (exec body) pre f.
Proof.
  intros Hok Herr Hpre db. unfold exec, db_view, db_healthy.
  set (now := db_clock db (db_stmt db)). set (t := db_tables db).
  specialize (Hok now t). specialize (Herr now t). specialize (Hpre now t).
  destruct (body now t) as [r t']. simpl in *.
  destruct (db_outcome db (db_stmt db)) eqn:E; simpl; split_and!; try done; try congruence.
  all: try (intros HH; exfalso; specialize (HH (db_stmt db)); congruence); intros.
  - left. by rewrite (Herr e).
  - by left.
  - destruct r as [a|e']; [right; by eauto|left; by rewrite (Herr e')].
Qed.

Lemma prefix_read {A} p (m : M Db (res A)) Q :
  read_spec db_view db_healthy m Q -> read_spec db_view db_healthy (with_prefix p m) Q.
Proof.
  intros Hm db. specialize (Hm db). unfold with_prefix. destruct (m db) as [[a|[|msg]] db'];
    simpl in *; destruct Hm as (? & ? & Hh); split_and!; try done.
  all: intros ?; destruct Hh as (? & ? & ?); done.
Qed.

Lemma prefix_write {A} p (m : M Db (res A)) pre f :
  write_spec db_view db_healthy m pre f -> write_spec db_view db_healthy (with_prefix p m) pre f.
Proof.
  intros Hm db. specialize (Hm db). unfold with_prefix. destruct (m db) as [[a|[|msg]] db'];
    simpl in *; destruct Hm as (? & ? & Hh); split_and!; try done; try congruence; eauto.
  all: intros ?; (split; [by apply Hh|]); intros ?; destruct Hh as [_ [? ?]]; done.
Qed.

Lemma view_alter f g id t :
  (forall r, scanJob (f r) = g (scanJob r)) ->
  view_tables (set_jobs (alter f id (tb_jobs t)) t) = on_job g id (view_tables t).
Proof.
  intros Hfg. unfold view_tables, on_job. simpl. f_equal.
  apply map_eq. intros k. rewrite lookup_fmap, !lookup_alter, !lookup_fmap.
  case_decide; [|done]. destruct (tb_jobs t !! id); simpl; [|done]. by rewrite Hfg.
Qed.

Lemma view_lookup t id r : tb_jobs t !! id = Some r -> a_jobs (view_tables t) !! id = Some (scanJob r).
Proof. intros Hr. simpl. by rewrite lookup_fmap, Hr. Qed.

Lemma alter_absent {A} (f : A -> A) id (m : gmap string A) : m !! id = None -> alter f id m = m.
Proof.
  intros Hn. apply map_eq. intros k. rewrite lookup_alter. case_decide; [|done].
  subst. by rewrite Hn.
Qed.

Lemma map_snd_fmap (m : gmap string JobRow) :
  map snd (map_to_list (scanJob <$> m)) ≡ₚ map scanJob (map snd (map_to_list m)).
Proof.
  rewrite map_to_list_fmap. change (prod_map id scanJob <$> map_to_list m)
    with (map (prod_map id scanJob) (map_to_list m)).
  by rewrite !map_map.
Qed.

Lemma statuses_match sts r :
  filter_matches (mkFilter "" "" "" sts 0) r = true <-> has_status sts (scanJob r).
Proof.
  unfold filter_matches, has_status.
  destruct sts as [|st sts]; [naive_solver|].
  transitivity (existsb (String.eqb (j_Status (row_job r))) (st :: sts) = true).
  { simpl. by rewrite !andb_true_r. }
  rewrite existsb_exists. setoid_rewrite String.eqb_eq. setoid_rewrite list_elem_of_In.
  split; [intros (x & Hx & <-); by right|intros [|Hin]; [done|by eauto]].
Qed.

Lemma ListByStatuses_db sts :
  read_spec db_view db_healthy (ListByStatuses sts) (fun a l => l ≡ₚ jobs_with sts a).
Proof.
  apply prefix_read, exec_read. intros _ t. eexists. split; [done|].
  unfold run_query, collectJobs, jobs_with. rewrite build_query_limit.
  change (0 <? jf_Limit (mkFilter "" "" "" sts 0)) with false. cbv iota.
  simpl a_jobs. rewrite pg_order_perm, map_snd_fmap, (filter_map scanJob).
  apply Permutation_map.
  rewrite (list_filter_iff _ (fun x => has_status sts (scanJob x))); [done|].
  intros r. cbv beta. rewrite build_query_matches. apply statuses_match.
Qed.

Lemma ListNodes_db :
  read_spec db_view db_healthy ListNodes (fun a l => l ≡ₚ map snd (map_to_list (a_nodes a))).
Proof.
  apply prefix_read, exec_read. intros _ t. eexists. split; [done|]. apply pg_order_perm.
Qed.

Lemma MarkStaleDown_db ttl :
  write_spec db_view db_healthy (MarkStaleDown ttl) (fun _ => True)
    (fun ids a a' => a' = mark_all_down ids a
       /\ Forall (fun id => exists n, a_nodes a !! id = Some n
                            /\ n_Status n <> NodeStatusDown) ids).
Proof.
  apply exec_write; [|done|by eauto]. simpl. intros now t ids [= <-].
  assert (forall k n, tb_nodes t !! k = Some n ->
    k ∈ rows (map fst (filter (fun kv => is_stale now ttl kv.2 = true) (map_to_list (tb_nodes t))))
    <-> is_stale now ttl n = true) as Hids.
  { intros k n Hk. unfold rows. rewrite pg_order_perm, list_elem_of_fmap. split.
    - intros ([k' n'] & -> & [Hs Hin%elem_of_map_to_list]%list_elem_of_filter).
      simpl in *. congruence.
    - intros Hs. exists (k, n). split; [done|]. apply list_elem_of_filter.
      by rewrite elem_of_map_to_list. }
  split.
  - unfold mark_all_down, view_tables. simpl. f_equal. apply map_eq. intros k.
    rewrite lookup_fmap, map_lookup_imap. destruct (tb_nodes t !! k) as [n|] eqn:E; [|done].
    simpl. f_equal. specialize (Hids k n E). case_bool_decide as Hb.
    + apply Hids in Hb. by rewrite Hb.
    + destruct (is_stale now ttl n); [|done]. by destruct Hb; apply Hids.
  - unfold rows. rewrite pg_order_perm. apply Forall_forall.
    intros k ([k' n] & -> & [Hs Hin%elem_of_map_to_list]%list_elem_of_filter)%list_elem_of_fmap.
    exists n. split; [done|]. simpl in Hs. intros Hd. unfold is_stale in Hs.
    by rewrite Hd in Hs.
Qed.

Lemma RecordEvent_db e :
  write_spec db_view db_healthy (RecordEvent e) (fun a => a_events a !! ev_EventID e = None)
    (fun _ a a' => a_events a !! ev_EventID e = None
       /\ exists ts, a' = record_event (mkEvent (ev_EventID e) (ev_JobID e) (ev_SelectedNode e)
            (ev_SchedulingReason e) (ev_Algorithm e) (ev_LatencyMS e) (ev_Success e) ts) a).
Proof.
  apply prefix_write, exec_write; simpl.
  - intros _ t []. destruct (tb_events t !! ev_EventID e) eqn:E; simpl; [done|].
    intros _. split; [done|]. by eexists.
  - intros _ t err. by destruct (tb_events t !! ev_EventID e).
  - intros _ t ->. by eexists.
Qed.

Lemma Schedule_db id nodeID :
  write_spec db_view db_healthy (Schedule id nodeID)
    (fun a => is_Some (a_nodes a !! nodeID))
    (fun _ a a' => a' = on_job (scheduled_on nodeID) id a).
Proof.
  apply exec_write; simpl.
  - intros _ t [] Hok.
    destruct (tb_jobs t !! id) eqn:Ej, (tb_nodes t !! nodeID) eqn:En; try done;
      apply view_alter; done.
  - intros _ t e. by destruct (tb_jobs t !! id), (tb_nodes t !! nodeID).
  - intros _ t [n ->]. destruct (tb_jobs t !! id); by eexists.
Qed.

Lemma Requeue_db id st :
  write_spec db_view db_healthy (Requeue id st)
    (fun a => forall j, a_jobs a !! id = Some j -> in_int32 (j_RetryCount j + 1))
    (fun _ a a' => a' = on_job (requeued st) id a).
Proof.
  apply exec_write; simpl.
  - intros _ t []. destruct (tb_jobs t !! id) as [r|] eqn:Ej; simpl.
    + case_bool_decide; [|done]. intros _. by apply view_alter.
    + intros _. unfold on_job, view_tables. simpl. f_equal. symmetry.
      apply alter_absent. by rewrite lookup_fmap, Ej.
  - intros _ t e. destruct (tb_jobs t !! id); [|done]. by case_bool_decide.
  - intros _ t Hpre. destruct (tb_jobs t !! id) as [r|] eqn:Ej; [|by eexists].
    specialize (Hpre _ (view_lookup _ _ _ Ej)). simpl in Hpre.
    rewrite bool_decide_eq_true_2 by done. by eexists.
Qed.

Lemma UpdateAvailability_db id gpu cpu mem :
  write_spec db_view db_healthy (UpdateAvailability id gpu cpu mem)
    (fun _ => in_int32 gpu /\ in_int32 cpu /\ in_int32 mem)
    (fun _ a a' => a' = on_node (set_available gpu cpu mem) id a).
Proof.
  apply exec_write; simpl.
  - intros _ t []. by repeat case_bool_decide.
  - intros _ t e. by repeat case_bool_decide.
  - intros _ t (? & ? & ?). rewrite !bool_decide_eq_true_2 by done. by eexists.
Qed.

#[export] Instance Db_contract : StoreContract Db.
Proof.
  refine {| view := db_view; healthy := db_healthy |}.
  - apply ListByStatuses_db.
  - apply ListNodes_db.
  - apply exec_read. intros _ t. by eexists.
  - apply Schedule_db.
  - apply Requeue_db.
  - intros id st. apply exec_write; [|done|by eauto]. simpl.
    intros now t [] _. exists now. by apply view_alter.
  - apply UpdateAvailability_db.
  - apply MarkStaleDown_db.
  - apply RecordEvent_db.
Defined.
End db_instance.
