(* ===== verification/StoreTheorems.v ===== *)
(** * Properties of the repositories on a healthy server *)

From S2P Require Import Prelude Float64 Models Store Interfaces.

#[local] Open Scope string_scope.
#[local] Open Scope list_scope.
#[local] Open Scope Z_scope.

Section healthy.
Context `{PgEnv}.

Lemma exec_healthy {A} (body : Time -> Tables -> res A * Tables) db :
  db_healthy db ->
  exec body db = ((body (db_clock db (db_stmt db)) (db_tables db)).1,
                  after_stmt (body (db_clock db (db_stmt db)) (db_tables db)).2 db).
Proof. intros Hh. unfold exec. rewrite Hh. by destruct (body _ _). Qed.

Lemma update_status_view id st db :
  db_healthy db ->
  (job_UpdateStatus id st db).1 = Ok tt
  /\ exists now, db_view (job_UpdateStatus id st db).2 = on_job (moved_to now st) id (db_view db).
Proof.
  intros Hh. unfold job_UpdateStatus. rewrite exec_healthy by done. split; [done|].
  eexists. unfold db_view. simpl. by apply view_alter.
Qed.

(** Create, then Get: a job whose numbers fit the columns and whose
    identifier is new is stored and read back with every field as it was,
    except what the insert does not store: the timestamp has the server's
    resolution, and the job has no node, no start and no end. *)
Theorem create_get_roundtrip j db :
  db_healthy db -> tb_jobs (db_tables db) !! j_JobID j = None -> job_ints_ok j = true ->
  let db' := (job_Create j db).2 in
  (job_Create j db).1 = Ok tt
  /\ (job_Get (j_JobID j) db').1
     = Ok (mkJob (j_JobID j) (j_Name j) (j_UserID j) (j_TeamID j) (j_Status j) (j_Priority j)
             (j_GPUCount j) (j_CPUCount j) (j_MemoryGB j) (j_Image j) (j_Command j) ""
             (j_RetryCount j) (j_MaxRetries j) (j_CostPerHour j) (pg_timestamp (j_CreatedAt j))
             None None 0)
  /\ forall id, id <> j_JobID j -> (job_Get id db').1 = (job_Get id db).1.
Proof.
  intros Hh Hfree Hints. unfold job_Create, with_prefix. rewrite exec_healthy by done.
  rewrite Hints, Hfree. simpl. split; [done|]. unfold job_Get. split.
  - rewrite exec_healthy by done. simpl. by rewrite lookup_insert_eq.
  - intros id Hne. rewrite !exec_healthy by done. simpl. rewrite lookup_insert_ne by done.
    by destruct (tb_jobs (db_tables db) !! id).
Qed.

(** Stale nodes: on a healthy server [MarkStaleDown] puts down exactly the
    nodes that were ready, draining or cordoned and whose last heartbeat is
    older than the TTL, returns exactly their identifiers, and touches nothing
    else. *)
Theorem mark_stale_exact ttl db :
  db_healthy db ->
  exists now ids, (node_MarkStaleDown ttl db).1 = Ok ids
  /\ tb_jobs (db_tables (node_MarkStaleDown ttl db).2) = tb_jobs (db_tables db)
  /\ forall id n, tb_nodes (db_tables db) !! id = Some n ->
       (id ∈ ids <-> (n_Status n = NodeStatusReady \/ n_Status n = NodeStatusDraining
                      \/ n_Status n = NodeStatusCordoned)
                     /\ n_LastHeartbeat n < now - pg_interval (Seconds ttl))
       /\ tb_nodes (db_tables (node_MarkStaleDown ttl db).2) !! id
          = Some (if bool_decide (id ∈ ids) then mark_down n else n).
Proof.
  intros Hh. unfold node_MarkStaleDown. rewrite exec_healthy by done. simpl.
  exists (db_clock db (db_stmt db)). eexists. split; [done|]. split; [done|]. intros id n Hn.
  set (now := db_clock db (db_stmt db)).
  assert (id ∈ rows (map fst (filter (fun kv => is_stale now ttl kv.2 = true)
            (map_to_list (tb_nodes (db_tables db))))) <-> is_stale now ttl n = true) as Hids.
  { unfold rows. rewrite pg_order_perm, list_elem_of_fmap. split.
    - intros ([k m] & -> & [Hs Hin%elem_of_map_to_list]%list_elem_of_filter). simpl in *. congruence.
    - intros Hs. exists (id, n). split; [done|]. apply list_elem_of_filter.
      by rewrite elem_of_map_to_list. }
  split.
  - rewrite Hids. unfold is_stale. rewrite andb_true_iff, !orb_true_iff, !String.eqb_eq, Z.ltb_lt. tauto.
  - rewrite lookup_fmap, Hn. simpl. f_equal. case_bool_decide as Hb.
    + apply Hids in Hb. by rewrite Hb.
    + destruct (is_stale now ttl n); [|done]. by destruct Hb; apply Hids.
Qed.
End healthy.

(** ** Witnesses *)

#[local] Existing Instance pg_reference.

Definition stored_job : Job :=
  mkJob "j" "train" "alice" "ml" JobStatusQueued 5 2 8 64 "img" "run" "" 0 3 f64_zero 1500 None None 0.

Definition empty_db : Db := healthy_db (mkTables ∅ {["n" := node_example]} ∅) (60 * Second).

Lemma create_get_roundtrip_witness : (job_Create stored_job empty_db).1 = Ok tt.
Proof.
  refine (proj1 (create_get_roundtrip stored_job empty_db _ _ _)); [by intros k|reflexivity..].
Defined.

Lemma mark_stale_exact_witness : exists ids,
  (node_MarkStaleDown (30 * Second) empty_db).1 = Ok ids.
Proof.
  destruct (mark_stale_exact (30 * Second) empty_db) as (now & ids & E & _).
  - by intros k.
  - by exists ids.
Defined.
