(* ===== verification/Config.v ===== *)
(** * Configuration records: [internal/config/config.go]

    The structures every service is configured with. *)

From S2P Require Import Prelude Float64.

Record HTTPConfig := mkHTTP {
  hc_Addr : string;
  hc_MetricsAddr : string;
  hc_ReadTimeout : Duration;
  hc_WriteTimeout : Duration;
  hc_ShutdownTimeout : Duration;
  hc_RateLimitRPS : Z;
  hc_RateLimitBurst : Z
}.

Record GRPCConfig := mkGRPC {
  gc_SchedulerAddr : string;
  gc_SchedulerListen : string;
  gc_AgentAddr : string;
  gc_MetricsAddr : string
}.

Record PostgresConfig := mkPostgres {
  pc_DSN : string;
  pc_MaxConns : Z;
  pc_MinConns : Z;
  pc_MaxConnLife : Duration
}.

Record RedisConfig := mkRedis {
  rc_Addr : string;
  rc_Password : string;
  rc_DB : Z
}.

Record SchedulerConfig := mkSched {
  sc_Algorithm : string;
  sc_Interval : Duration;
  sc_AgingFactor : float64;
  sc_StarvationThreshold : Duration;
  sc_EnablePreemption : bool;
  sc_HeartbeatTTL : Duration;
  sc_LeaderTTL : Duration;
  sc_MaxRetries : Z
}.

Record TelemetryConfig := mkTelemetry {
  tc_OTLPEndpoint : string;
  tc_TracingEnable : bool;
  tc_SampleRatio : float64
}.

Record AuthConfig := mkAuth {
  ac_JWTSecret : string;
  ac_Enabled : bool
}.

Record Config := mkConfig {
  c_Env : string;
  c_LogLevel : string;
  c_ServiceName : string;
  c_HTTP : HTTPConfig;
  c_GRPC : GRPCConfig;
  c_Postgres : PostgresConfig;
  c_Redis : RedisConfig;
  c_Scheduler : SchedulerConfig;
  c_Telemetry : TelemetryConfig;
  c_Auth : AuthConfig
}.

(** [Validate] *)
Definition dev_secret : string := "dev-insecure-secret-change-me".

Definition Validate (c : Config) : res unit :=
  if String.eqb (pc_DSN (c_Postgres c)) "" then Err (ErrMsg "postgres DSN is required")
  else if ac_Enabled (c_Auth c) && String.eqb (ac_JWTSecret (c_Auth c)) dev_secret
  then Err (ErrMsg "JWT_SECRET must be set when auth is enabled")
  else Ok tt.
