(* ===== verification/Engine.v ===== *)
(** * The scheduling engine: [internal/scheduler/engine.go]

    The engine is a state-passing computation over its environment [Env]: the
    store behind the interfaces of [Interfaces], the process clock, the UUID
    source, and the metrics it emits.  The metrics are the calls made on the
    Prometheus collectors, in order; a nil [*telemetry.Metrics] is [None].
    During the placement loop of one [Tick] the state also has the slice of
    node structs, which [Reserve] and [Release] mutate in place, and the map
    [running].

    Log lines are not modelled.  [Order] gets the clock reading that it takes
    itself in the source. *)

From S2P Require Import Prelude Float64 Models Config Algorithms Preemption Fragmentation Store Interfaces.

#[local] Open Scope string_scope.
#[local] Open Scope list_scope.
#[local] Open Scope Z_scope.

(** ** Metrics *)

Inductive MetricOp :=
| IncJobsTotal (status : string)
| IncFailedSchedules
| IncPreemptions
| IncSchedRuns
| ObserveSchedLatency (seconds : float64)
| SetQueueDepth (band : string) (v : float64)
| SetNodeGPUUtil (host : string) (v : float64)
| SetNodeCPUUtil (host : string) (v : float64)
| SetNodeMemUtil (host : string) (v : float64)
| SetNodesReady (v : float64)
| SetNodesTotal (v : float64)
| SetFragmentation (v : float64)
| IncHTTPRequests (method route status : string)
| ObserveHTTPLatency (method route : string) (seconds : float64).

(** ** The environment *)

Record Env (St : Type) := mkEnv {
  env_store : St;
  env_clock : nat -> Time;          (* successive readings of time.Now() *)
  env_reads : nat;
  env_uuid : nat -> string;         (* successive uuid.NewString() *)
  env_uuids : nat;
  env_metrics : option (list MetricOp)
}.
Arguments mkEnv {St}.
Arguments env_store {St}.
Arguments env_clock {St}.
Arguments env_reads {St}.
Arguments env_uuid {St}.
Arguments env_uuids {St}.
Arguments env_metrics {St}.

Record TickState (St : Type) := mkTick {
  ts_env : Env St;
  ts_nodes : list Node;
  ts_running : gmap string (list Job)
}.
Arguments mkTick {St}.
Arguments ts_env {St}.
Arguments ts_nodes {St}.
Arguments ts_running {St}.

Section engine.
Context `{GoArch} {St : Type} `{JobStore St, NodeStore St, EventStore St}.
Context (alg : Algorithm) (cfg : SchedulerConfig).

Definition set_store (s : St) (e : Env St) : Env St :=
  mkEnv s (env_clock e) (env_reads e) (env_uuid e) (env_uuids e) (env_metrics e).

Definition on_store {A} (m : M St A) : M (Env St) A := zoom env_store set_store m.

Definition time_Now : M (Env St) Time := fun e =>
  (env_clock e (env_reads e),
   mkEnv (env_store e) (env_clock e) (S (env_reads e)) (env_uuid e) (env_uuids e) (env_metrics e)).

Definition new_uuid : M (Env St) string := fun e =>
  (env_uuid e (env_uuids e),
   mkEnv (env_store e) (env_clock e) (env_reads e) (env_uuid e) (S (env_uuids e)) (env_metrics e)).

(** [if e.metrics != nil { op }] *)
Definition emit (ops : list MetricOp) : M (Env St) unit := fun e =>
  (tt, mkEnv (env_store e) (env_clock e) (env_reads e) (env_uuid e) (env_uuids e)
         ((fun l => l ++ ops) <$> env_metrics e)).

Definition set_env (e : Env St) (t : TickState St) : TickState St :=
  mkTick e (ts_nodes t) (ts_running t).

Definition on_env {A} (m : M (Env St) A) : M (TickState St) A := zoom ts_env set_env m.

(** [node.F()] through the pointer [i]. *)
Definition on_node_at (f : Node -> Node) (i : nat) : M (TickState St) unit :=
  modify (fun t => mkTick (ts_env t) (alter f i (ts_nodes t)) (ts_running t)).

(** [running[id] = append(running[id], job)] *)
Definition append_running (id : string) (job : Job) (m : gmap string (list Job)) :
    gmap string (list Job) :=
  <[id := default [] (m !! id) ++ [job]]> m.

(** ** Recording decisions *)

Definition recordEvent (job : Job) (nodeID reason : string) (success : bool) (start : Time) :
    M (Env St) unit :=
  t ← time_Now;
  let latency := time_Sub t start in
  emit [ObserveSchedLatency (Seconds latency)];;
  id ← new_uuid;
  ts ← time_Now;
  _ ← on_store (RecordEvent (mkEvent id (j_JobID job) nodeID reason (alg_Name alg)
        (f64_div (f64_of_int (Microseconds latency)) (f64_of_int 1000)) success ts));
  mret tt.

(** ** Placement *)

Definition commitPlacement (job : Job) (i : nat) (reason : string) (start : Time) :
    M (TickState St) unit :=
  let req := job_request job in
  on_node_at (fun n => Reserve n req) i;;
  t ← get;
  match ts_nodes t !! i with
  | None => mret tt                      (* the pointer is never nil *)
  | Some node =>
      modify (fun t => mkTick (ts_env t) (ts_nodes t)
                         (append_running (n_NodeID node) job (ts_running t)));;
      r ← on_env (on_store (Schedule (j_JobID job) (n_NodeID node)));
      match r with
      | Err _ => on_node_at (fun n => Release n req) i
      | Ok _ =>
          _ ← on_env (on_store (UpdateAvailability (n_NodeID node) (n_GPUAvailable node)
                (n_CPUAvailable node) (n_MemoryAvailable node)));
          on_env (recordEvent job (n_NodeID node) reason true start);;
          on_env (emit [IncJobsTotal "scheduled"])
      end
  end.

Definition evict (i : nat) (v : Job) : M (TickState St) unit :=
  on_node_at (fun n => Release n (job_request v)) i;;
  r ← on_env (on_store (Requeue (j_JobID v) JobStatusPreempted));
  match r with
  | Err _ => mret tt
  | Ok _ =>
      _ ← on_env (on_store (UpdateStatus (j_JobID v) JobStatusQueued));
      on_env (emit [IncPreemptions; IncJobsTotal "preempted"])
  end.

Definition applyPreemption (plan : PreemptionPlan) : M (TickState St) unit :=
  forM (pp_Victims plan) (evict (pp_Node plan));;
  t ← get;
  match ts_nodes t !! pp_Node plan with
  | None => mret tt
  | Some n =>
      _ ← on_env (on_store (UpdateAvailability (n_NodeID n) (n_GPUAvailable n)
            (n_CPUAvailable n) (n_MemoryAvailable n)));
      mret tt
  end.

Definition shouldPreempt (job : Job) (now : Time) : bool :=
  if sc_StarvationThreshold cfg <=? Age job now then true else 8 <=? j_Priority job.

(** The end of [placeOne]: the job stays queued. *)
Definition leave_queued (job : Job) (reason : string) (start : Time) : M (TickState St) unit :=
  on_env (recordEvent job "" ("no capacity: " +:+ reason) false start);;
  on_env (emit [IncFailedSchedules]).

Definition placeOne (job : Job) (now : Time) : M (TickState St) unit :=
  start ← on_env time_Now;
  t ← get;
  match alg_Place alg job (ts_nodes t) with
  | (Some i, reason, true) => commitPlacement job i reason start
  | (_, reason, _) =>
      if sc_EnablePreemption cfg && shouldPreempt job now then
        match FindPreemption job (ts_nodes t) (ts_running t) with
        | Some plan =>
            applyPreemption plan;;
            t' ← get;
            match alg_Place alg job (ts_nodes t') with
            | (Some i, reason', true) =>
                commitPlacement job i ("preemption: " +:+ reason') start
            | (_, reason', _) => leave_queued job reason' start
            end
        | None => leave_queued job reason start
        end
      else leave_queued job reason start
  end.

(** ** Dead nodes *)

Definition reconcile_job (dead : list string) (job : Job) : M (Env St) unit :=
  if negb (bool_decide (j_NodeID job ∈ dead)) then mret tt
  else if j_MaxRetries job <=? j_RetryCount job then
    _ ← on_store (UpdateStatus (j_JobID job) JobStatusFailed);
    emit [IncJobsTotal "failed"]
  else
    _ ← on_store (Requeue (j_JobID job) JobStatusQueued);
    mret tt.

Definition reconcileDeadNodes : M (Env St) unit :=
  r ← on_store (MarkStaleDown (sc_HeartbeatTTL cfg));
  match r with
  | Err _ => mret tt
  | Ok [] => mret tt
  | Ok dead =>
      ra ← on_store (ListByStatuses [JobStatusScheduled; JobStatusRunning]);
      match ra with
      | Err _ => mret tt
      | Ok active => forM active (reconcile_job dead)
      end
  end.

(** ** Shares and gauges *)

Definition total_gpus (nodes : list Node) : Z :=
  fold_left (fun total n => total ⊞ n_GPUCapacity n) nodes 0.

Definition teamShares (nodes : list Node) : M (Env St) (option (gmap string float64)) :=
  let total := total_gpus nodes in
  r ← on_store TeamGPUUsage;
  mret match r with
       | Err _ => None
       | Ok usage =>
           if total =? 0 then None
           else Some ((fun gpus => f64_div (f64_of_int gpus) (f64_of_int total)) <$> usage)
       end.

Definition count_jobs (f : Job -> bool) (l : list Job) : Z :=
  Z.of_nat (length (filter (fun j => f j = true) l)).

Definition band_high (j : Job) : bool := 8 <=? j_Priority j.
Definition band_normal (j : Job) : bool := negb (band_high j) && (4 <=? j_Priority j).
Definition band_low (j : Job) : bool := negb (band_high j) && negb (band_normal j).

Definition node_gauges (n : Node) : list MetricOp :=
  [SetNodeGPUUtil (n_Hostname n) (GPUUtilization n);
   SetNodeCPUUtil (n_Hostname n) (CPUUtilization n);
   SetNodeMemUtil (n_Hostname n) (MemoryUtilization n)].

Definition publishGauges (nodes : list Node) (queued : list Job) : M (Env St) unit :=
  emit ([SetQueueDepth "low" (f64_of_int (count_jobs band_low queued));
         SetQueueDepth "normal" (f64_of_int (count_jobs band_normal queued));
         SetQueueDepth "high" (f64_of_int (count_jobs band_high queued))]
        ++ concat (map node_gauges nodes)
        ++ [SetNodesReady (f64_of_int (Z.of_nat (length (ready_nodes nodes))));
            SetNodesTotal (f64_of_int (Z.of_nat (length nodes)));
            SetFragmentation (Fragmentation nodes)]).

(** ** One scheduling pass *)

Definition build_running (active : list Job) : gmap string (list Job) :=
  fold_left (fun m j => if String.eqb (j_NodeID j) "" then m else append_running (j_NodeID j) j m)
    active ∅.

(** The placement loop, on the tick's own node slice and running map. *)
Definition place_all (ordered : list Job) (now : Time) (nodes : list Node)
    (running : gmap string (list Job)) : M (Env St) unit := fun e =>
  let '(_, t) := forM ordered (fun job => placeOne job now) (mkTick e nodes running) in
  (tt, ts_env t).

Definition Tick : M (Env St) (res unit) :=
  emit [IncSchedRuns];;
  reconcileDeadNodes;;
  rn ← on_store ListNodes;
  match rn with
  | Err e => mret (Err e)
  | Ok nodes =>
      rq ← on_store (ListByStatuses [JobStatusQueued]);
      match rq with
      | Err e => mret (Err e)
      | Ok queued =>
          ra ← on_store (ListByStatuses [JobStatusScheduled; JobStatusRunning]);
          match ra with
          | Err e => mret (Err e)
          | Ok active =>
              publishGauges nodes queued;;
              match queued with
              | [] => mret (Ok tt)
              | _ =>
                  shares ← teamShares nodes;
                  t0 ← time_Now;
                  let ordered := alg_Order alg t0 queued (mkCtx shares (sc_AgingFactor cfg)) in
                  now ← time_Now;
                  place_all ordered now nodes (build_running active);;
                  mret (Ok tt)
              end
          end
      end
  end.

(** ** The control loop *)

(** What [select] delivers to [Run]. *)
Inductive LoopEvent := TickerFired | CtxDone.

(** [Run] returns (true) when the context is cancelled; a failed tick is logged
    and the loop goes on. *)
Fixpoint Run (events : list LoopEvent) : M (Env St) bool :=
  match events with
  | [] => mret false
  | CtxDone :: _ => mret true
  | TickerFired :: events' => _ ← Tick; Run events'
  end.
End engine.
