(* ===== verification/Scenarios.v ===== *)
(** * Concrete databases

    Small clusters on a concrete PostgreSQL server, on which witnesses run the
    engine and the servers. *)

From S2P Require Import Prelude Float64 Models Config Algorithms Preemption Fragmentation Store Interfaces Engine.

#[local] Open Scope string_scope.
#[local] Open Scope list_scope.
#[local] Open Scope Z_scope.

#[export] Existing Instance pg_reference.

Definition node_of (id : string) (gpu cpu mem : Z) : Node :=
  mkNode id id NodeStatusReady gpu gpu cpu cpu mem mem "A100" f64_zero false ∅ 0 0.

Definition job_of (id : string) (gpu cpu mem prio : Z) : Job :=
  mkJob id id "user" "team" JobStatusQueued prio gpu cpu mem "image" "" "" 0 3 f64_zero 0 None None 0.

Definition running_on (node : string) (j : Job) : Job :=
  set_lifecycle JobStatusRunning node 0 (Some 0) None j.

Definition finished (j : Job) : Job := set_lifecycle JobStatusCompleted "" 0 (Some 0) (Some 0) j.

(** The node after the requests of its running jobs were reserved. *)
Definition with_jobs (l : list Job) (n : Node) : Node :=
  fold_left (fun n j => Reserve n (job_request j)) l n.

Definition row_of (j : Job) : JobRow :=
  mkJobRow (set_lifecycle (j_Status j) "" (j_RetryCount j) (j_StartedAt j) (j_CompletedAt j) j)
    (if String.eqb (j_NodeID j) "" then None else Some (j_NodeID j)).

Definition tables_of (js : list Job) (ns : list Node) : Tables :=
  mkTables (list_to_map (map (fun j => (j_JobID j, row_of j)) js))
    (list_to_map (map (fun n => (n_NodeID n, n)) ns)) ∅.

Definition env_of (db : Db) : Env Db :=
  mkEnv db (fun _ => 0) 0 (fun k => "event-" +:+ pretty (Z.of_nat k)) 0 (Some []).

(** The defaults of [config.Load]. *)
Definition cfg_default : SchedulerConfig :=
  mkSched "best-fit" (2 * Second) f64_one (5 * Minute) true (30 * Second) (15 * Second) 3.

Definition cfg_no_preemption : SchedulerConfig :=
  mkSched "best-fit" (2 * Second) f64_one (5 * Minute) false (30 * Second) (15 * Second) 3.

(** Two nodes, one of them full; jobs in several states. *)
Definition victim : Job := running_on "n1" (job_of "victim" 4 8 64 1).

Definition mixed_tables : Tables :=
  tables_of [victim; job_of "a" 4 8 64 9; job_of "b" 1 2 8 5; finished (job_of "done" 2 4 16 5)]
    [with_jobs [victim] (node_of "n1" 4 8 64); node_of "n2" 2 8 64].

Definition healthy_env : Env Db := env_of (healthy_db mixed_tables 0).

(** A server that refuses every third statement and loses the acknowledgement
    of every fifth. *)
Definition flaky (k : nat) : Outcome :=
  if (Nat.modulo k 3 =? 2)%nat then Refused
  else if (Nat.modulo k 5 =? 4)%nat then LostAck else Carried.

Definition flaky_env : Env Db := env_of (mkDb mixed_tables 0 (fun _ => 0) flaky).
