(* ===== verification/EngineLogic.v ===== *)
(** * Reasoning about engine computations

    Hoare rules for the engine's operations, for any store that meets
    [StoreContract].  An assertion speaks of the jobs and nodes a client of the
    store would read.  In strict mode the store is healthy, so the writes whose
    precondition holds succeed; in the other mode every write may fail, with or
    without its effect. *)

From S2P Require Import Prelude Float64 Models Config Algorithms Preemption Fragmentation Store Interfaces Engine.

#[local] Open Scope string_scope.
#[local] Open Scope list_scope.
#[local] Open Scope Z_scope.

Abbreviation Jobs := (gmap string Job) (only parsing).
Abbreviation Nodes := (gmap string Node) (only parsing).

Section logic.
Context `{GoArch} {St : Type} `{StoreContract St}.
Implicit Types (strict : bool) (J : Jobs -> Nodes -> Prop).
Implicit Types (K : list Node -> gmap string (list Job) -> Jobs -> Nodes -> Prop).

Definition holds strict J (s : St) : Prop :=
  (strict = true -> healthy s) /\ J (a_jobs (view s)) (a_nodes (view s)).

Definition on_env_store (R : St -> Prop) (e : Env St) : Prop := R (env_store e).

(** Triples over the environment and over the state of the placement loop. *)
Definition env_triple {A} strict J (m : M (Env St) A) (Q : A -> Jobs -> Nodes -> Prop) : Prop :=
  hoare (on_env_store (holds strict J)) m (fun a => on_env_store (holds strict (Q a))).

Definition tick_holds strict K (t : TickState St) : Prop :=
  holds strict (K (ts_nodes t) (ts_running t)) (env_store (ts_env t)).

Definition tick_triple {A} strict K (m : M (TickState St) A)
    (Q : A -> list Node -> gmap string (list Job) -> Jobs -> Nodes -> Prop) : Prop :=
  hoare (tick_holds strict K) m (fun a => tick_holds strict (Q a)).

Lemma env_ret {A} strict J (a : A) Q :
  (forall js ns, J js ns -> Q a js ns) -> env_triple strict J (mret a) Q.
Proof. intros HQ. apply hoare_ret. intros e [Hh HJ]. split; [done|by apply HQ]. Qed.

Lemma env_bind {A B} strict J (m : M (Env St) A) (k : A -> M (Env St) B) R Q :
  env_triple strict J m R -> (forall a, env_triple strict (R a) (k a) Q) ->
  env_triple strict J (m ≫= k) Q.
Proof. apply hoare_bind. Qed.

Lemma env_conseq {A} strict J J' (m : M (Env St) A) Q Q' :
  env_triple strict J' m Q' -> (forall js ns, J js ns -> J' js ns) ->
  (forall a js ns, Q' a js ns -> Q a js ns) -> env_triple strict J m Q.
Proof.
  intros Hm HJ HQ. eapply hoare_conseq; [exact Hm|..].
  - intros e [? ?]. split; auto.
  - intros a e [? ?]. split; auto.
Qed.

(** Assumptions that do not mention the state move out of the precondition. *)
Lemma env_pure {A} strict (P : Prop) J (m : M (Env St) A) Q :
  (P -> env_triple strict J m Q) -> env_triple strict (fun js ns => P /\ J js ns) m Q.
Proof. intros Hm e [Hh [HP HJ]]. by apply (Hm HP). Qed.

Lemma env_time_Now strict J : env_triple strict J time_Now (fun _ => J).
Proof. by intros e ?. Qed.

Lemma env_new_uuid strict J : env_triple strict J new_uuid (fun _ => J).
Proof. by intros e ?. Qed.

Lemma env_emit strict J ops : env_triple strict J (emit ops) (fun _ => J).
Proof. by intros e ?. Qed.

Lemma env_forM {A} strict J (f : A -> M (Env St) unit) l :
  (forall x, x ∈ l -> env_triple strict J (f x) (fun _ => J)) ->
  env_triple strict J (forM l f) (fun _ => J).
Proof. intros Hf. by apply (hoare_forM_inv (on_env_store (holds strict J))). Qed.

(** A read answers about the current state; in strict mode it does answer. *)
Lemma env_read {A} strict J (m : M St (res A)) Q0 Q :
  read_spec view healthy m Q0 ->
  (forall a x, J (a_jobs a) (a_nodes a) -> Q0 a x -> Q (Ok x) (a_jobs a) (a_nodes a)) ->
  (strict = false -> forall e js ns, J js ns -> Q (Err e) js ns) ->
  env_triple strict J (on_store m) Q.
Proof.
  intros Hm Hok Herr e [Hh HJ]. unfold on_store, zoom, on_env_store, holds in *.
  destruct (Hm (env_store e)) as (Hv & Ha & Hs).
  destruct (m (env_store e)) as [r s']; simpl in *. rewrite Hv.
  split; [intros E; apply Hs, Hh, E|].
  destruct r as [x|err]; [by apply Hok; [|apply Ha]|].
  destruct strict; [|by apply Herr]. destruct Hs as [_ [? ?]]; [by apply Hh|done].
Qed.

(** A write that answers [Ok] took effect; in strict mode the error branch is
    excluded by the precondition of the contract. *)
Lemma env_write {A} strict J (m : M St (res A)) pre f Q :
  write_spec view healthy m pre f ->
  (forall a x a', J (a_jobs a) (a_nodes a) -> f x a a' -> Q (Ok x) (a_jobs a') (a_nodes a')) ->
  (strict = true -> forall a, J (a_jobs a) (a_nodes a) -> pre a) ->
  (strict = false -> forall a e, J (a_jobs a) (a_nodes a) ->
     Q (Err e) (a_jobs a) (a_nodes a)
     /\ forall x a', f x a a' -> Q (Err e) (a_jobs a') (a_nodes a')) ->
  env_triple strict J (on_store m) Q.
Proof.
  intros Hm Hok Hpre Herr e [Hh HJ]. unfold on_store, zoom, on_env_store, holds in *.
  destruct (Hm (env_store e)) as (Ha & He & Hs).
  destruct (m (env_store e)) as [r s']; simpl in *.
  split; [intros E; apply Hs, Hh, E|].
  destruct r as [x|err]; [by eapply Hok; [|apply Ha]|].
  destruct strict.
  - destruct Hs as [_ Hs]; [by apply Hh|]. destruct Hs as [? ?]; [by apply Hpre|done].
  - specialize (Herr eq_refl _ err HJ) as [Hsame Happ].
    destruct (He err eq_refl) as [->|[x Hx]]; [done|by eapply Happ].
Qed.

(** Recording an event leaves jobs and nodes alone, whether it succeeds or not.
    In strict mode the event store may still refuse a duplicate identifier. *)
Lemma env_recordEvent alg strict J job nodeID reason success start :
  env_triple strict J (recordEvent alg job nodeID reason success start) (fun _ => J).
Proof.
  unfold recordEvent.
  eapply env_bind; [apply env_time_Now|]. intros t. simpl.
  eapply env_bind; [apply env_emit|]. intros []. simpl.
  eapply env_bind; [apply env_new_uuid|]. intros id. simpl.
  eapply env_bind; [apply env_time_Now|]. intros ts. simpl.
  eapply env_bind with (R := fun _ => J); [|intros r; by apply env_ret].
  intros e [Hh HJ]. unfold on_store, zoom, on_env_store, holds in *. simpl.
  match goal with |- context [RecordEvent ?ev] =>
    destruct (RecordEvent_ok ev (env_store e)) as (Ha & He & Hs);
    destruct (RecordEvent ev (env_store e)) as [r s'] end; simpl in *.
  split; [intros E; apply Hs, Hh, E|].
  assert (a_jobs (view s') = a_jobs (view (env_store e))
          /\ a_nodes (view s') = a_nodes (view (env_store e))) as [-> ->]; [|done].
  destruct r as [x|err].
  - destruct (Ha x eq_refl) as (_ & ts' & ->). done.
  - destruct (He err eq_refl) as [->|(x & _ & ts' & ->)]; done.
Qed.

(** ** The placement loop *)

Lemma tick_ret {A} strict K (a : A) Q :
  (forall ns run js nds, K ns run js nds -> Q a ns run js nds) -> tick_triple strict K (mret a) Q.
Proof. intros HQ. apply hoare_ret. intros t [Hh HJ]. split; [done|by apply HQ]. Qed.

Lemma tick_bind {A B} strict K (m : M (TickState St) A) (k : A -> M (TickState St) B) R Q :
  tick_triple strict K m R -> (forall a, tick_triple strict (R a) (k a) Q) ->
  tick_triple strict K (m ≫= k) Q.
Proof. apply hoare_bind. Qed.

Lemma tick_conseq {A} strict K K' (m : M (TickState St) A) Q Q' :
  tick_triple strict K' m Q' -> (forall ns run js nds, K ns run js nds -> K' ns run js nds) ->
  (forall a ns run js nds, Q' a ns run js nds -> Q a ns run js nds) -> tick_triple strict K m Q.
Proof.
  intros Hm HJ HQ. eapply hoare_conseq; [exact Hm|..].
  - intros e [? ?]. split; auto.
  - intros a e [? ?]. split; auto.
Qed.

(** The state read by [get] is the current one. *)
Lemma tick_get {A} strict K (k : TickState St -> M (TickState St) A) Q :
  (forall t, tick_triple strict (fun ns run js nds => ns = ts_nodes t /\ run = ts_running t
               /\ K ns run js nds) (k t) Q) ->
  tick_triple strict K (get ≫= k) Q.
Proof. intros Hk t [Hh HJ]. apply (Hk t t). split; [done|]. by split_and!. Qed.

Lemma tick_on_env {A} strict K (m : M (Env St) A)
    (Q : A -> list Node -> gmap string (list Job) -> Jobs -> Nodes -> Prop) :
  (forall ns run, env_triple strict (K ns run) m (fun a => Q a ns run)) ->
  tick_triple strict K (on_env m) Q.
Proof.
  intros Hm t Ht. specialize (Hm (ts_nodes t) (ts_running t) (ts_env t) Ht).
  unfold on_env, zoom, tick_holds. by destruct (m (ts_env t)).
Qed.

Lemma tick_modify strict K f Q :
  (forall t, env_store (ts_env (f t)) = env_store (ts_env t)) ->
  (forall t js nds, K (ts_nodes t) (ts_running t) js nds ->
     Q tt (ts_nodes (f t)) (ts_running (f t)) js nds) ->
  tick_triple strict K (modify f) Q.
Proof.
  intros Hs HQ t [Hh HJ]. unfold tick_holds, holds in *. simpl. rewrite Hs.
  split; [done|by apply HQ].
Qed.

Lemma tick_pure {A} strict (P : Prop) K (m : M (TickState St) A) Q :
  (P -> tick_triple strict K m Q) ->
  tick_triple strict (fun ns run js nds => P /\ K ns run js nds) m Q.
Proof. intros Hm t [Hh [HP HJ]]. by apply (Hm HP). Qed.

Lemma tick_forM {A} strict K (f : A -> M (TickState St) unit) l :
  (forall x, x ∈ l -> tick_triple strict K (f x) (fun _ => K)) ->
  tick_triple strict K (forM l f) (fun _ => K).
Proof. intros Hf. by apply (hoare_forM_inv (tick_holds strict K)). Qed.
End logic.
