(* ===== verification/EngineFrame.v ===== *)
(** * What a scheduling pass may touch

    For any lawful algorithm and any store that meets the contract, with
    arbitrary failures of the store: a [Tick] changes nothing but the lifecycle
    columns of jobs that were queued or active and the status and availability
    of nodes, and the availabilities it writes stay between zero and the
    capacity. *)

From S2P Require Import Prelude Float64 Models Config Algorithms Preemption Fragmentation Store Interfaces Engine Scenarios EngineLogic.

#[local] Open Scope string_scope.
#[local] Open Scope list_scope.
#[local] Open Scope Z_scope.

(** The jobs a pass may act on: queued, scheduled or running. *)
Definition live (js : Jobs) (id : string) : Prop :=
  exists j, js !! id = Some j /\ (j_Status j = JobStatusQueued \/ IsActive (j_Status j) = true).

(** A database a pass can start from. *)
Definition base_ok (js : Jobs) (ns : Nodes) : Prop :=
  map_Forall (fun id j => j_JobID j = id /\ job_wf j) js
  /\ map_Forall (fun id n => n_NodeID n = id /\ node_wf n) ns.

#[global] Instance base_ok_dec js ns : Decision (base_ok js ns).
Proof. unfold base_ok. apply _. Defined.

#[global] Instance live_dec js id : Decision (live js id).
Proof.
  unfold live. destruct (js !! id) as [j|].
  - destruct (decide (j_Status j = JobStatusQueued \/ IsActive (j_Status j) = true)).
    + left. by exists j.
    + right. by intros (j' & [= <-] & ?).
  - right. by intros (j' & ? & _).
Defined.

Section frame.
Context (js0 : Jobs) (ns0 : Nodes) (Hbase : base_ok js0 ns0).

Record frame (js : Jobs) (ns : Nodes) : Prop := {
  fr_jobs : frozen <$> js = frozen <$> js0;
  fr_nodes : bare <$> ns = bare <$> ns0;
  fr_wf : map_Forall (fun _ n => node_wf n) ns;
  fr_still : forall id, ~ live js0 id -> js !! id = js0 !! id
}.

Definition slice_ok (n : Node) : Prop :=
  node_wf n /\ exists n0, ns0 !! n_NodeID n = Some n0 /\ bare n = bare n0.

Definition job_ok (j : Job) : Prop := req_wf (job_request j) /\ live js0 (j_JobID j).

Lemma frame_start : frame js0 ns0.
Proof. split; try done. by intros id n [_ ?]%(proj2 Hbase). Qed.

Lemma fmap_alter_same {A B} (g : A -> B) (f : A -> A) k (m : gmap string A) :
  (forall x, g (f x) = g x) -> g <$> alter f k m = g <$> m.
Proof.
  intros Hg. apply map_eq. intros i. rewrite !lookup_fmap, lookup_alter.
  case_decide; [|done]. subst. destruct (m !! _); simpl; [by rewrite Hg|done].
Qed.

Lemma frame_job js ns f id :
  frame js ns -> (forall j, frozen (f j) = frozen j) -> live js0 id ->
  frame (alter f id js) ns.
Proof.
  intros [Hj Hn Hw Hs] Hf Hl. split; try done.
  - by rewrite fmap_alter_same.
  - intros k Hk. rewrite lookup_alter. case_decide as E; [by destruct Hk; subst|by apply Hs].
Qed.

Lemma bare_lookup ns id n : bare <$> ns = bare <$> ns0 -> ns !! id = Some n ->
  exists n0, ns0 !! id = Some n0 /\ bare n = bare n0.
Proof.
  intros Hb Hn. assert ((bare <$> ns) !! id = Some (bare n)) as E by by rewrite lookup_fmap, Hn.
  rewrite Hb, lookup_fmap in E. destruct (ns0 !! id) as [n0|]; [|done]. apply (inj Some) in E. by exists n0.
Qed.

Lemma frozen_fields j j' : frozen j = frozen j' ->
  j_JobID j = j_JobID j' /\ job_request j = job_request j'.
Proof.
  intros E. split; [exact (f_equal j_JobID E)|]. unfold job_request.
  f_equal; [exact (f_equal j_GPUCount E)|exact (f_equal j_CPUCount E)|exact (f_equal j_MemoryGB E)].
Qed.

Lemma bare_caps n n' : bare n = bare n' ->
  n_NodeID n = n_NodeID n' /\ n_GPUCapacity n = n_GPUCapacity n'
  /\ n_CPUCapacity n = n_CPUCapacity n' /\ n_MemoryCapacity n = n_MemoryCapacity n'.
Proof.
  intros E. split_and!; [exact (f_equal n_NodeID E)|exact (f_equal n_GPUCapacity E)
    |exact (f_equal n_CPUCapacity E)|exact (f_equal n_MemoryCapacity E)].
Qed.

(** Writing back the availability of a node of the slice. *)
Lemma frame_avail js ns n :
  frame js ns -> slice_ok n ->
  frame js (alter (set_available (n_GPUAvailable n) (n_CPUAvailable n) (n_MemoryAvailable n))
              (n_NodeID n) ns).
Proof.
  intros [Hj Hn Hw Hs] [Hwf (n0 & Hn0 & Hb)]. split; try done.
  - by rewrite fmap_alter_same.
  - intros k m. rewrite lookup_alter. case_decide as E; [|apply Hw]. subst k.
    destruct (ns !! n_NodeID n) as [n'|] eqn:En; [|done]. intros [= <-].
    destruct (bare_lookup _ _ _ Hn En) as (n0' & Hn0' & Hb').
    assert (n0' = n0) as -> by congruence.
    destruct (bare_caps _ _ Hb) as (_ & ? & ? & ?).
    destruct (bare_caps _ _ Hb') as (_ & ? & ? & ?). unfold_wf. lia.
Qed.

Lemma frame_mark js ns ids a :
  frame js ns -> a_jobs a = js -> a_nodes a = ns ->
  frame (a_jobs (mark_all_down ids a)) (a_nodes (mark_all_down ids a)).
Proof.
  intros [Hj Hn Hw Hs] <- <-. split; try done; simpl.
  - rewrite <- Hn. apply map_eq. intros k. rewrite !lookup_fmap, map_lookup_imap.
    destruct (a_nodes a !! k); simpl; [|done]. by case_bool_decide.
  - intros k n. rewrite map_lookup_imap. destruct (a_nodes a !! k) as [m|] eqn:E; [|done].
    simpl. intros [= <-]. specialize (Hw _ _ E). by case_bool_decide.
Qed.

Lemma frame_job_ok js ns id j :
  frame js ns -> js !! id = Some j -> j_Status j = JobStatusQueued \/ IsActive (j_Status j) = true ->
  j_JobID j = id /\ job_ok j.
Proof.
  intros Hf Hj Hst.
  assert ((frozen <$> js) !! id = Some (frozen j)) as E by by rewrite lookup_fmap, Hj.
  rewrite (fr_jobs _ _ Hf), lookup_fmap in E.
  destruct (js0 !! id) as [j0|] eqn:Ej; [|done]. apply (inj Some) in E.
  destruct (proj1 Hbase _ _ Ej) as [Hid [Hw _]].
  destruct (frozen_fields _ _ E) as [Hid' Hreq]. rewrite Hid in Hid'. symmetry in Hid'.
  split; [done|]. split; [by rewrite <- Hreq|].
  rewrite Hid'. destruct (decide (live js0 id)) as [|Hn]; [done|].
  rewrite (fr_still _ _ Hf _ Hn) in Hj. by exists j.
Qed.

Lemma frame_base_ok js ns : frame js ns -> base_ok js ns.
Proof.
  intros Hf. split.
  - intros id j Hj.
    assert ((frozen <$> js) !! id = Some (frozen j)) as E by by rewrite lookup_fmap, Hj.
    rewrite (fr_jobs _ _ Hf), lookup_fmap in E.
    destruct (js0 !! id) as [j0|] eqn:Ej; [|done]. apply (inj Some) in E.
    destruct (proj1 Hbase _ _ Ej) as [Hid [Hw Hp]].
    destruct (frozen_fields _ _ E) as [Hid' Hreq].
    unfold job_wf. rewrite <- Hreq, <- Hid'. split_and!; [done..|].
    pose proof (f_equal j_Priority E) as Ep. simpl in Ep. by rewrite <- Ep.
  - intros id n Hn. destruct (bare_lookup _ _ _ (fr_nodes _ _ Hf) Hn) as (n0 & Hn0 & Hb).
    split; [|by eapply (fr_wf _ _ Hf)].
    rewrite (proj1 (bare_caps _ _ Hb)). by apply (proj2 Hbase).
Qed.
End frame.

Lemma live_lookup js js' id : js !! id = js' !! id -> live js id -> live js' id.
Proof. intros E (j & Hj & Hs). exists j. by rewrite <- E. Qed.

Lemma frame_trans js0 ns0 js1 ns1 js2 ns2 :
  frame js0 ns0 js1 ns1 -> frame js1 ns1 js2 ns2 -> frame js0 ns0 js2 ns2.
Proof.
  intros [Hj Hn Hw Hs] [Hj' Hn' Hw' Hs']. split; [by rewrite Hj'|by rewrite Hn'|done|].
  intros id Hl. rewrite Hs'; [by apply Hs|]. intros Hl'. apply Hl.
  eapply live_lookup; [|exact Hl']. by apply Hs.
Qed.

(** ** The operations of a pass keep the frame *)

Section tick_frame.
Context `{GoArch} {St : Type} `{StoreContract St}.
Context (alg : Algorithm) `{!LawfulAlgorithm alg} (cfg : SchedulerConfig).
Context (js0 : Jobs) (ns0 : Nodes) (Hbase : base_ok js0 ns0).

Abbreviation Fr := (frame js0 ns0).

Definition tick_frame (ns : list Node) (run : gmap string (list Job)) (js : Jobs) (nds : Nodes) :
    Prop :=
  Fr js nds /\ Forall (slice_ok ns0) ns /\ map_Forall (fun _ l => Forall (job_ok js0) l) run.

(** A write of the engine that keeps the frame, whether or not it succeeds. *)
Lemma frame_write {A} (m : M St (res A)) pre f :
  write_spec view healthy m pre f ->
  (forall a x a', Fr (a_jobs a) (a_nodes a) -> f x a a' -> Fr (a_jobs a') (a_nodes a')) ->
  env_triple false Fr (on_store m) (fun _ => Fr).
Proof. intros Hm Hf. eapply env_write; [exact Hm|exact Hf|done|]. intros _ a e Ha. eauto. Qed.

Lemma frame_Schedule id nodeID : live js0 id -> env_triple false Fr (on_store (Schedule id nodeID)) (fun _ => Fr).
Proof.
  intros Hl. eapply frame_write; [apply Schedule_ok|]. intros a _ a' Ha ->. by apply frame_job.
Qed.

Lemma frame_Requeue id st : live js0 id -> env_triple false Fr (on_store (Requeue id st)) (fun _ => Fr).
Proof.
  intros Hl. eapply frame_write; [apply Requeue_ok|]. intros a _ a' Ha ->. by apply frame_job.
Qed.

Lemma frame_UpdateStatus id st :
  live js0 id -> env_triple false Fr (on_store (UpdateStatus id st)) (fun _ => Fr).
Proof.
  intros Hl. eapply frame_write; [apply UpdateStatus_ok|].
  intros a _ a' Ha [now ->]. by apply frame_job.
Qed.

Lemma frame_UpdateAvailability n : slice_ok ns0 n ->
  env_triple false Fr (on_store (UpdateAvailability (n_NodeID n) (n_GPUAvailable n)
    (n_CPUAvailable n) (n_MemoryAvailable n))) (fun _ => Fr).
Proof.
  intros Hn. eapply frame_write; [apply UpdateAvailability_ok|].
  intros a _ a' Ha ->. by apply frame_avail.
Qed.

Lemma slice_ok_Reserve n r : slice_ok ns0 n -> req_wf r -> Fits n r = true -> slice_ok ns0 (Reserve n r).
Proof. intros [Hw Hb] Hr Hf. split; [auto with go|done]. Qed.

Lemma slice_ok_Release n r : slice_ok ns0 n -> req_wf r -> slice_ok ns0 (Release n r).
Proof. intros [Hw Hb] Hr. split; [auto with go|done]. Qed.

(** Lift an [Env] operation that keeps the frame into the loop. *)
Lemma tick_frame_env {A} (m : M (Env St) A) :
  env_triple false Fr m (fun _ => Fr) ->
  tick_triple false tick_frame (on_env m) (fun _ => tick_frame).
Proof.
  intros Hm. apply tick_on_env. intros ns run. intros e [Hh (Hf & Hn & Hr)].
  destruct (Hm e (conj Hh Hf)) as [Hh' Hf']. by split; [|split_and!].
Qed.

Lemma tick_frame_release i r : req_wf r ->
  tick_triple false tick_frame (on_node_at (fun n => Release n r) i) (fun _ => tick_frame).
Proof.
  intros Hr. apply tick_modify; [done|]. intros t js nds (Hf & Hn & Hrun).
  split_and!; [done| |done]. apply Forall_alter; [done|]. intros n _ Hok. by apply slice_ok_Release.
Qed.

Lemma append_running_ok id job run :
  job_ok js0 job -> map_Forall (fun _ l => Forall (job_ok js0) l) run ->
  map_Forall (fun _ l => Forall (job_ok js0) l) (append_running id job run).
Proof.
  intros Hj Hr. apply map_Forall_insert_2; [|done]. apply Forall_app. split; [|by constructor].
  destruct (run !! id) as [l|] eqn:E; simpl; [by eapply Hr|done].
Qed.

Lemma tick_frame_commit job i reason start :
  job_ok js0 job ->
  tick_triple false
    (fun ns run js nds => tick_frame ns run js nds
       /\ exists n, ns !! i = Some n /\ Fits n (job_request job) = true)
    (commitPlacement alg job i reason start) (fun _ => tick_frame).
Proof.
  intros Hj. pose proof Hj as [Hr Hl]. unfold commitPlacement.
  eapply tick_bind with (R := fun _ => tick_frame).
  { apply tick_modify; [done|]. intros t js nds ((Hf & Hn & Hrun) & n & Hi & Hfit).
    split_and!; [done| |done]. apply Forall_alter; [done|]. intros n' Hi' Hok.
    rewrite Hi in Hi'. injection Hi' as <-. by apply slice_ok_Reserve. }
  intros []. apply tick_get. intros t. destruct (ts_nodes t !! i) as [node|] eqn:Hi.
  2: { apply tick_ret. tauto. }
  eapply tick_bind with (R := fun _ ns run js nds => slice_ok ns0 node /\ tick_frame ns run js nds).
  { apply tick_modify; [done|]. intros t' js nds (Ens & _ & Hf & Hn & Hrun).
    assert (slice_ok ns0 node) as Hok.
    { rewrite Forall_lookup in Hn. rewrite Ens in Hn. by eapply Hn. }
    split; [done|]. split_and!; [done..|]. by apply append_running_ok. }
  intros []. apply tick_pure. intros Hok.
  eapply tick_bind; [by apply tick_frame_env, frame_Schedule|]. intros [x|e]; simpl.
  - eapply tick_bind; [by apply tick_frame_env, frame_UpdateAvailability|]. intros r. simpl.
    eapply tick_bind; [apply tick_frame_env, env_recordEvent|]. intros []. simpl.
    apply tick_frame_env, env_emit.
  - by apply tick_frame_release.
Qed.

Lemma tick_frame_evict i v : job_ok js0 v ->
  tick_triple false tick_frame (evict i v) (fun _ => tick_frame).
Proof.
  intros [Hr Hl]. unfold evict. eapply tick_bind; [by apply tick_frame_release|]. intros []. simpl.
  eapply tick_bind; [by apply tick_frame_env, frame_Requeue|]. intros [x|e]; simpl.
  - eapply tick_bind; [by apply tick_frame_env, frame_UpdateStatus|]. intros r.
    apply tick_frame_env, env_emit.
  - by apply tick_ret.
Qed.

Lemma tick_frame_preempt plan : Forall (job_ok js0) (pp_Victims plan) ->
  tick_triple false tick_frame (applyPreemption plan) (fun _ => tick_frame).
Proof.
  intros Hv. unfold applyPreemption. eapply tick_bind.
  { apply tick_forM. intros v Hin. apply tick_frame_evict. rewrite Forall_forall in Hv. by apply Hv. }
  intros []. apply tick_get. intros t.
  destruct (ts_nodes t !! pp_Node plan) as [n|] eqn:Hi; [|apply tick_ret; tauto].
  eapply tick_bind with (R := fun _ => tick_frame); [|intros r; by apply tick_ret].
  eapply tick_conseq with (K' := fun ns run js nds => slice_ok ns0 n /\ tick_frame ns run js nds)
    (Q' := fun _ => tick_frame); [| |done].
  - apply tick_pure. intros Hok. by apply tick_frame_env, frame_UpdateAvailability.
  - intros ns run js nds (-> & _ & Hf & Hn & Hrun). split; [|done].
    rewrite Forall_lookup in Hn. by eapply Hn.
Qed.

Lemma tick_frame_leave job reason start :
  tick_triple false tick_frame (leave_queued alg job reason start) (fun _ => tick_frame).
Proof.
  unfold leave_queued. eapply tick_bind; [apply tick_frame_env, env_recordEvent|]. intros [].
  apply tick_frame_env, env_emit.
Qed.

(** Victims are running jobs. *)
Lemma plan_victims_running job nodes running plan :
  FindPreemption job nodes running = Some plan ->
  Forall (fun v => exists id l, running !! id = Some l /\ v ∈ l) (pp_Victims plan).
Proof.
  intros [?|(k & n & _ & Hp)]%find_preemption_from_elem; [done|].
  unfold node_plan in Hp. destruct (choose_victims _ _ _ _) as [chosen free] eqn:E.
  assert (pp_Victims plan = chosen) as -> by (case_bool; by simplify_eq/=).
  apply Forall_forall. intros v Hv.
  destruct (choose_victims_incl _ _ _ _ _ _ E v Hv) as [?%elem_of_nil|Hin]; [done|]. apply node_victims_elem in Hin as [_ Hin].
  exists (n_NodeID n). destruct (running !! n_NodeID n) as [l|]; [by exists l|].
  by apply elem_of_nil in Hin.
Qed.

(** The frame, in the tick state [t] that [get] returned. *)
Definition frame_at (t : TickState St) (ns : list Node) (run : gmap string (list Job))
    (js : Jobs) (nds : Nodes) : Prop :=
  ns = ts_nodes t /\ run = ts_running t /\ tick_frame ns run js nds.

Lemma tick_frame_commit_at t job i reason reason' ok start : job_ok js0 job ->
  alg_Place alg job (ts_nodes t) = (Some i, reason, ok) ->
  tick_triple false (frame_at t) (commitPlacement alg job i reason' start) (fun _ => tick_frame).
Proof.
  intros Hj (_ & n & Hn & Hfit)%lawful_place.
  eapply tick_conseq; [by apply tick_frame_commit| |done].
  intros ns run js nds (-> & _ & Hf). split; [done|]. by exists n.
Qed.

Lemma tick_frame_leave_at t job reason start :
  tick_triple false (frame_at t) (leave_queued alg job reason start) (fun _ => tick_frame).
Proof. eapply tick_conseq; [apply tick_frame_leave|unfold frame_at; tauto|done]. Qed.

Lemma tick_frame_plan_at t job plan :
  FindPreemption job (ts_nodes t) (ts_running t) = Some plan ->
  tick_triple false (frame_at t) (applyPreemption plan) (fun _ => tick_frame).
Proof.
  intros Hplan. eapply tick_conseq with (Q' := fun _ => tick_frame)
    (K' := fun ns run js nds => Forall (job_ok js0) (pp_Victims plan) /\ tick_frame ns run js nds);
    [|intros ns run js nds (_ & -> & Hf)|done].
  - apply tick_pure. intros Hv. by apply tick_frame_preempt.
  - split; [|done]. destruct Hf as (_ & _ & Hrun).
    eapply Forall_impl; [by eapply plan_victims_running|].
    intros v (id & l & Hl & Hin). specialize (Hrun _ _ Hl). rewrite Forall_forall in Hrun.
    by apply Hrun.
Qed.

Lemma tick_frame_place job now : job_ok js0 job ->
  tick_triple false tick_frame (placeOne alg cfg job now) (fun _ => tick_frame).
Proof.
  intros Hj. unfold placeOne. eapply tick_bind; [apply tick_frame_env, env_time_Now|].
  intros start. apply tick_get. intros t. fold (frame_at t).
  destruct (alg_Place alg job (ts_nodes t)) as [[[i|] reason] [|]] eqn:Hp;
    [by eapply tick_frame_commit_at|..];
    (destruct (sc_EnablePreemption cfg && shouldPreempt cfg job now); [|apply tick_frame_leave_at];
     destruct (FindPreemption job (ts_nodes t) (ts_running t)) as [plan|] eqn:Hplan;
     [|apply tick_frame_leave_at];
     (eapply tick_bind; [by eapply tick_frame_plan_at|]); intros []; apply tick_get; intros t';
     fold (frame_at t');
     destruct (alg_Place alg job (ts_nodes t')) as [[[i'|] reason'] [|]] eqn:Hp';
     try apply tick_frame_leave_at; by eapply tick_frame_commit_at).
Qed.

(** ** Dead nodes *)

Lemma jobs_with_elem sts a j :
  j ∈ jobs_with sts a -> has_status sts j /\ exists id, a_jobs a !! id = Some j.
Proof.
  intros [Hs Hin]%list_elem_of_filter. split; [done|].
  apply list_elem_of_fmap in Hin as ([id j'] & -> & Hin%elem_of_map_to_list). by exists id.
Qed.

(** The jobs that a query for queued or active jobs returns may be acted on. *)
Lemma frame_list sts :
  sts = [JobStatusQueued] \/ sts = [JobStatusScheduled; JobStatusRunning] ->
  env_triple false Fr (on_store (ListByStatuses sts))
    (fun r js ns => match r with Ok l => Forall (job_ok js0) l | Err _ => True end /\ Fr js ns).
Proof.
  intros Hsts. eapply env_read; [apply ListByStatuses_ok| |done].
  intros a l Hf Hl. split; [|done]. rewrite Hl. apply Forall_forall. intros j Hj.
  apply jobs_with_elem in Hj as [[->|Hst] [id Hid]]; [by destruct Hsts|].
  eapply frame_job_ok; [done|exact Hf|exact Hid|]. rewrite IsActive_iff.
  destruct Hsts as [-> | ->]; rewrite ?elem_of_cons, elem_of_nil in Hst; tauto.
Qed.

Lemma frame_reconcile_job dead job : job_ok js0 job ->
  env_triple false Fr (reconcile_job dead job) (fun _ => Fr).
Proof.
  intros [_ Hl]. unfold reconcile_job. case_bool_decide; simpl; [|by apply env_ret].
  destruct (j_MaxRetries job <=? j_RetryCount job).
  - eapply env_bind; [by apply frame_UpdateStatus|]. intros r. apply env_emit.
  - eapply env_bind; [by apply frame_Requeue|]. intros r. by apply env_ret.
Qed.

Lemma frame_reconcile : env_triple false Fr (reconcileDeadNodes cfg) (fun _ => Fr).
Proof.
  unfold reconcileDeadNodes. eapply env_bind.
  { eapply frame_write; [apply MarkStaleDown_ok|]. intros a ids a' Hf [-> _].
    by eapply frame_mark. }
  intros [[|id dead]|e]; simpl; try by apply env_ret.
  eapply env_bind; [apply frame_list; by right|]. intros [active|e]; simpl;
    apply env_pure; [|intros _; by apply env_ret].
  intros Hok. apply env_forM. intros j Hj. apply frame_reconcile_job.
  rewrite Forall_forall in Hok. by apply Hok.
Qed.

(** ** The whole pass *)

Lemma frame_slice_ok js ns id n : frame js0 ns0 js ns -> ns !! id = Some n -> slice_ok ns0 n.
Proof.
  intros Hf Hin. destruct (bare_lookup _ _ _ _ (fr_nodes _ _ _ _ Hf) Hin) as (n0 & Hn0 & Hb).
  split; [by eapply (fr_wf _ _ _ _ Hf)|]. exists n0. split; [|done].
  destruct (bare_caps _ _ Hb) as [-> _]. destruct (proj2 Hbase _ _ Hn0) as [-> _]. done.
Qed.

Lemma frame_nodes : env_triple false Fr (on_store ListNodes)
  (fun r js ns => match r with Ok l => Forall (slice_ok ns0) l | Err _ => True end /\ Fr js ns).
Proof.
  eapply env_read; [apply ListNodes_ok| |done]. intros a l Hf Hl. split; [|done].
  rewrite Hl. apply Forall_forall. intros n Hn.
  apply list_elem_of_fmap in Hn as ([id n'] & -> & Hin%elem_of_map_to_list).
  by eapply frame_slice_ok.
Qed.

Lemma build_running_from_ok active run :
  Forall (job_ok js0) active -> map_Forall (fun _ l => Forall (job_ok js0) l) run ->
  map_Forall (fun _ l => Forall (job_ok js0) l)
    (fold_left (fun m j => if String.eqb (j_NodeID j) "" then m
                           else append_running (j_NodeID j) j m) active run).
Proof.
  intros Ha. revert run. induction Ha as [|j l Hj Ha IH]; intros run Hr; simpl; [done|].
  apply IH. destruct (String.eqb _ _); [done|]. by apply append_running_ok.
Qed.

Lemma ordered_ok now queued ctx :
  Forall (job_ok js0) queued -> Forall (job_ok js0) (alg_Order alg now queued ctx).
Proof.
  intros Hq. pose proof (lawful_order now queued ctx) as Hp. rewrite Forall_forall in *.
  intros j Hj. assert (set_EffectivePriority 0 j ∈ map (set_EffectivePriority 0) queued) as Hin.
  { rewrite <- Hp. by apply list_elem_of_fmap_2. }
  apply list_elem_of_fmap in Hin as (j' & E & Hj'). specialize (Hq j' Hj') as [Hr Hl].
  assert (job_request j = job_request j') as Er.
  { unfold job_request. f_equal; [exact (f_equal j_GPUCount E)|exact (f_equal j_CPUCount E)
      |exact (f_equal j_MemoryGB E)]. }
  assert (j_JobID j = j_JobID j') as Ei by exact (f_equal j_JobID E).
  unfold job_ok. by rewrite Er, Ei.
Qed.

Lemma frame_place_all ordered now nodes active :
  Forall (job_ok js0) ordered -> Forall (slice_ok ns0) nodes -> Forall (job_ok js0) active ->
  env_triple false Fr (place_all alg cfg ordered now nodes (build_running active)) (fun _ => Fr).
Proof.
  intros Ho Hn Ha e [Hh Hf]. unfold place_all, on_env_store.
  assert (tick_triple false tick_frame (forM ordered (fun job => placeOne alg cfg job now))
            (fun _ => tick_frame)) as Hloop.
  { apply tick_forM. intros j Hj. apply tick_frame_place. rewrite Forall_forall in Ho. by apply Ho. }
  specialize (Hloop (mkTick e nodes (build_running active))).
  assert (tick_holds false tick_frame (mkTick e nodes (build_running active))) as Hstart.
  { split; [done|]. split; [exact Hf|]. split; [exact Hn|]. by apply build_running_from_ok. }
  specialize (Hloop Hstart). destruct (forM _ _ _) as [[] t].
  destruct Hloop as [Hh' (Hf' & _ & _)]. by split.
Qed.

Lemma frame_Tick : env_triple false Fr (Tick alg cfg) (fun _ => Fr).
Proof.
  unfold Tick. eapply env_bind; [apply env_emit|]. intros [].
  eapply env_bind; [apply frame_reconcile|]. intros [].
  eapply env_bind; [apply frame_nodes|]. intros [nodes|e]; simpl;
    apply env_pure; [intros Hn|intros _; by apply env_ret].
  eapply env_bind; [apply frame_list; by left|]. intros [queued|e]; simpl;
    apply env_pure; [intros Hq|intros _; by apply env_ret].
  eapply env_bind; [apply frame_list; by right|]. intros [active|e]; simpl;
    apply env_pure; [intros Ha|intros _; by apply env_ret].
  eapply env_bind; [apply env_emit|]. intros [].
  destruct queued as [|q0 queued]; [by apply env_ret|].
  eapply env_bind with (R := fun _ => Fr).
  { unfold teamShares. eapply env_bind with (R := fun _ => Fr); [|intros r; by apply env_ret].
    eapply env_read; [apply TeamGPUUsage_ok|done|done]. }
  intros shares. eapply env_bind; [apply env_time_Now|]. intros t0. simpl.
  eapply env_bind; [apply env_time_Now|]. intros now.
  eapply env_bind; [by apply frame_place_all; [apply ordered_ok|..]|]. intros []. by apply env_ret.
Qed.
End tick_frame.

(** ** Any number of passes *)

Section run_frame.
Context `{GoArch} {St : Type} `{StoreContract St}.
Context (alg : Algorithm) `{!LawfulAlgorithm alg} (cfg : SchedulerConfig).

Definition env_jobs (e : Env St) : gmap string Job := a_jobs (view (env_store e)).
Definition env_nodes (e : Env St) : gmap string Node := a_nodes (view (env_store e)).

Lemma run_frame events (e : Env St) :
  base_ok (env_jobs e) (env_nodes e) ->
  frame (env_jobs e) (env_nodes e) (env_jobs (Run alg cfg events e).2)
    (env_nodes (Run alg cfg events e).2).
Proof.
  revert e. induction events as [|[] events IH]; intros e Hb; simpl; try by apply frame_start.
  unfold mbind, M_bind.
  assert (on_env_store (holds false (frame (env_jobs e) (env_nodes e))) e) as Hst.
  { split; [done|]. by apply frame_start. }
  destruct (frame_Tick alg cfg _ _ Hb e Hst) as [_ Hf].
  destruct (Tick alg cfg e) as [r e1]. simpl in Hf.
  eapply frame_trans; [exact Hf|]. apply IH. by eapply frame_base_ok.
Qed.

(** C4: However the store fails, any number of scheduling passes keep the
    database well formed: jobs keep their identity, request, owner and
    priority, nodes keep their identity, hardware and labels, and every
    availability stays between zero and the node's capacity. *)
Theorem run_keeps_wellformed events (e : Env St) :
  base_ok (env_jobs e) (env_nodes e) ->
  let e' := (Run alg cfg events e).2 in
  base_ok (env_jobs e') (env_nodes e')
  /\ frozen <$> env_jobs e' = frozen <$> env_jobs e
  /\ bare <$> env_nodes e' = bare <$> env_nodes e.
Proof.
  intros Hb. pose proof (run_frame events e Hb) as Hf.
  split; [by eapply frame_base_ok|]. split; apply Hf.
Qed.

Lemma run_leaves_others events (e : Env St) id j :
  base_ok (env_jobs e) (env_nodes e) -> env_jobs e !! id = Some j ->
  j_Status j <> JobStatusQueued -> IsActive (j_Status j) = false ->
  env_jobs (Run alg cfg events e).2 !! id = Some j.
Proof.
  intros Hb Hj Hq Hi. rewrite (fr_still _ _ _ _ (run_frame events e Hb)); [done|].
  intros (j' & Hj' & Hs). rewrite Hj in Hj'. injection Hj' as <-. destruct Hs; congruence.
Qed.

(** C9: However the store fails, scheduling passes do not touch a job that is
    neither queued nor active when they start: a completed, failed or cancelled
    job stays exactly as it is, and so does one in the status preempted. *)
Theorem run_leaves_finished_jobs events (e : Env St) id j :
  base_ok (env_jobs e) (env_nodes e) ->
  env_jobs e !! id = Some j -> IsTerminal (j_Status j) = true \/ j_Status j = JobStatusPreempted ->
  env_jobs (Run alg cfg events e).2 !! id = Some j.
Proof.
  intros Hb Hj Ht. apply run_leaves_others; [done|done|..];
    by destruct Ht as [[->|[->| ->]]%IsTerminal_iff| ->].
Qed.
End run_frame.

Lemma run_keeps_wellformed_witness :
  base_ok (env_jobs (Run Priority cfg_default [TickerFired; TickerFired; CtxDone] flaky_env).2)
    (env_nodes (Run Priority cfg_default [TickerFired; TickerFired; CtxDone] flaky_env).2).
Proof.
  refine (proj1 (run_keeps_wellformed Priority cfg_default [TickerFired; TickerFired; CtxDone]
    flaky_env _)).
  apply (bool_decide_unpack _). vm_compute. exact I.
Defined.

Lemma run_leaves_finished_jobs_witness :
  env_jobs (Run Priority cfg_default [TickerFired; TickerFired; CtxDone] flaky_env).2 !! "done"
  = Some (finished (job_of "done" 2 4 16 5)).
Proof.
  apply (run_leaves_finished_jobs Priority cfg_default [TickerFired; TickerFired; CtxDone]
    flaky_env "done" (finished (job_of "done" 2 4 16 5))).
  - apply (bool_decide_unpack _). vm_compute. exact I.
  - vm_compute. reflexivity.
  - by left.
Defined.
