(* ===== verification/Ledger.v ===== *)
(** * Resource accounting

    The load of a node is what its scheduled and running jobs ask for.  A node
    is accounted for when what it still offers plus its load does not exceed
    its capacity, in each of the three dimensions; then the jobs assigned to it
    fit on it together.  This file has the effect of every update that the
    engine and the node service make on loads and availabilities. *)

From S2P Require Import Prelude Float64 Models Store Interfaces.

#[local] Open Scope string_scope.
#[local] Open Scope list_scope.
#[local] Open Scope Z_scope.

(** ** Dimensions *)

Inductive Dim := DGPU | DCPU | DMemory.

#[global] Instance Dim_eq_dec : EqDecision Dim.
Proof. solve_decision. Defined.

Definition asked (d : Dim) (r : ResourceRequest) : Z :=
  match d with DGPU => rr_GPU r | DCPU => rr_CPU r | DMemory => rr_MemoryGB r end.
Definition offered (d : Dim) (n : Node) : Z :=
  match d with
  | DGPU => n_GPUAvailable n | DCPU => n_CPUAvailable n | DMemory => n_MemoryAvailable n
  end.
Definition capacity (d : Dim) (n : Node) : Z :=
  match d with
  | DGPU => n_GPUCapacity n | DCPU => n_CPUCapacity n | DMemory => n_MemoryCapacity n
  end.

Lemma asked_wf d r : req_wf r -> amount_wf (asked d r).
Proof. intros (? & ? & ?). by destruct d. Qed.

Lemma node_wf_dim n : node_wf n <-> forall d, dim_wf (offered d n) (capacity d n).
Proof.
  split.
  - intros (? & ? & ?) d. by destruct d.
  - intros Hd. split_and!; [apply (Hd DGPU)|apply (Hd DCPU)|apply (Hd DMemory)].
Qed.

Lemma offered_Reserve d n r :
  node_wf n -> req_wf r -> offered d (Reserve n r) = offered d n - asked d r.
Proof. intros Hn Hr. destruct (Reserve_available n r Hn Hr) as (? & ? & ?). by destruct d. Qed.

Lemma offered_Release d n r :
  node_wf n -> req_wf r ->
  offered d (Release n r) = Z.min (capacity d n) (offered d n + asked d r).
Proof. intros Hn Hr. destruct (Release_available n r Hn Hr) as (? & ? & ?). by destruct d. Qed.

Lemma Fits_offered d n r : Fits n r = true -> asked d r <= offered d n.
Proof. intros (_ & ? & ? & ?)%Fits_true. by destruct d. Qed.

Lemma Fits_dim n r :
  Fits n r = true <-> n_Status n = NodeStatusReady /\ forall d, asked d r <= offered d n.
Proof.
  rewrite Fits_true. split; [intros (? & ? & ? & ?); split; [done|by intros []]|].
  intros [? Hd]. split_and!; [done|apply (Hd DGPU)|apply (Hd DCPU)|apply (Hd DMemory)].
Qed.

Lemma offered_in_int32 d n : node_wf n -> in_int32 (offered d n).
Proof. rewrite node_wf_dim. intros Hn. specialize (Hn d). unfold dim_wf, in_int32 in *. lia. Qed.

(** ** Sums over a table *)

Definition msum {A} (f : A -> Z) (m : gmap string A) : Z :=
  zsum (fun kv => f kv.2) (map_to_list m).

Lemma msum_delete {A} (f : A -> Z) k x (m : gmap string A) :
  m !! k = Some x -> msum f m = f x + msum f (delete k m).
Proof.
  intros Hx. unfold msum.
  rewrite <- (insert_delete_id m k x Hx) at 1.
  rewrite map_to_list_insert by apply lookup_delete_eq. by rewrite zsum_cons.
Qed.

Lemma msum_insert_fresh {A} (f : A -> Z) k x (m : gmap string A) :
  m !! k = None -> msum f (<[k:=x]> m) = f x + msum f m.
Proof. intros Hk. unfold msum. by rewrite map_to_list_insert, zsum_cons. Qed.

Lemma msum_alter {A} (f : A -> Z) g k x (m : gmap string A) :
  m !! k = Some x -> msum f (alter g k m) = msum f m - f x + f (g x).
Proof.
  intros Hx. rewrite (msum_delete f k x m Hx), (msum_delete f k (g x)).
  - replace (delete k (alter g k m)) with (delete k m); [lia|].
    apply map_eq. intros i. rewrite !lookup_delete, lookup_alter.
    by repeat case_decide.
  - rewrite lookup_alter. by rewrite decide_True, Hx.
Qed.

Lemma alter_twice {A} (f g : A -> A) k (m : gmap string A) :
  alter f k (alter g k m) = alter (f ∘ g) k m.
Proof.
  apply map_eq. intros i. rewrite !lookup_alter. case_decide; [|done].
  rewrite decide_True by done. subst. by destruct (m !! _).
Qed.

Lemma msum_nonneg {A} (f : A -> Z) (m : gmap string A) :
  map_Forall (fun _ x => 0 <= f x) m -> 0 <= msum f m.
Proof.
  intros Hf. apply zsum_nonneg, Forall_forall. intros [k x] Hin%elem_of_map_to_list.
  by eapply Hf.
Qed.

(** ** Loads *)

Definition job_on (id : string) (j : Job) : bool :=
  IsActive (j_Status j) && String.eqb (j_NodeID j) id.

Definition weight (d : Dim) (id : string) (j : Job) : Z :=
  if job_on id j then asked d (job_request j) else 0.

Definition load (d : Dim) (id : string) (js : gmap string Job) : Z := msum (weight d id) js.

Definition accounted_node (js : gmap string Job) (n : Node) : Prop :=
  forall d, offered d n + load d (n_NodeID n) js <= capacity d n.

Definition accounted (js : gmap string Job) (ns : gmap string Node) : Prop :=
  map_Forall (fun _ => accounted_node js) ns.

#[global] Instance accounted_node_dec js n : Decision (accounted_node js n).
Proof.
  refine (cast_if (decide
    (Forall (fun d => offered d n + load d (n_NodeID n) js <= capacity d n) [DGPU; DCPU; DMemory])));
    rewrite !Forall_cons in *; unfold accounted_node.
  - intros []; tauto.
  - intros Hd. apply n0. split_and!; by auto.
Defined.

#[global] Instance accounted_dec js ns : Decision (accounted js ns).
Proof. unfold accounted. apply _. Defined.

(** The jobs on an accounted node fit on it together. *)
Lemma accounted_fits js n :
  node_wf n -> accounted_node js n -> forall d, load d (n_NodeID n) js <= capacity d n.
Proof.
  rewrite node_wf_dim. intros Hw Ha d. specialize (Hw d). specialize (Ha d).
  unfold dim_wf in Hw. lia.
Qed.

Lemma job_on_true id j : job_on id j = true <-> IsActive (j_Status j) = true /\ j_NodeID j = id.
Proof. unfold job_on. by rewrite andb_true_iff, String.eqb_eq. Qed.

Lemma weight_idle d id j : IsActive (j_Status j) = false -> weight d id j = 0.
Proof. unfold weight, job_on. by intros ->. Qed.

Lemma weight_nonneg d id j : req_wf (job_request j) -> 0 <= weight d id j.
Proof.
  intros Hr. pose proof (asked_wf d _ Hr) as Ha. unfold weight, amount_wf in *.
  destruct (job_on id j); lia.
Qed.

Lemma load_alter d id f k j js :
  js !! k = Some j -> load d id (alter f k js) = load d id js - weight d id j + weight d id (f j).
Proof. apply msum_alter. Qed.

Lemma load_alter_absent d id f k (js : gmap string Job) :
  js !! k = None -> load d id (alter f k js) = load d id js.
Proof. intros Hk. by rewrite alter_absent. Qed.

(** Assigning an idle job adds its request to its node and to no other. *)
Lemma load_scheduled d id nodeID k j js :
  js !! k = Some j -> IsActive (j_Status j) = false ->
  load d id (alter (scheduled_on nodeID) k js)
  = load d id js + if String.eqb nodeID id then asked d (job_request j) else 0.
Proof.
  intros Hj Hi. rewrite (load_alter _ _ _ _ _ _ Hj), weight_idle by done.
  replace (weight d id (scheduled_on nodeID j))
    with (if String.eqb nodeID id then asked d (job_request j) else 0) by done. lia.
Qed.

(** Taking a job off its node removes its request from that node's load. *)
Lemma load_idle d id f k j js :
  js !! k = Some j -> IsActive (j_Status (f j)) = false ->
  load d id (alter f k js) = load d id js - weight d id j.
Proof. intros Hj Hi. rewrite (load_alter _ _ _ _ _ _ Hj), (weight_idle _ _ (f j)) by done. lia. Qed.

(** An update that leaves every row it meets idle never adds load. *)
Lemma load_idle_le d id f k js :
  (forall j, js !! k = Some j -> req_wf (job_request j) /\ IsActive (j_Status (f j)) = false) ->
  load d id (alter f k js) <= load d id js.
Proof.
  intros Hf. destruct (js !! k) as [j|] eqn:Hj; [|by rewrite load_alter_absent].
  destruct (Hf j eq_refl) as [Hr Hi]. rewrite (load_idle _ _ _ _ _ _ Hj Hi).
  pose proof (weight_nonneg d id j Hr). lia.
Qed.

(** A job's request is part of the load of its node. *)
Lemma job_on_load d id k j js :
  map_Forall (fun _ j => req_wf (job_request j)) js -> js !! k = Some j -> job_on id j = true ->
  asked d (job_request j) <= load d id js.
Proof.
  intros Hw Hj Hon. unfold load. rewrite (msum_delete _ _ _ _ Hj).
  assert (0 <= msum (weight d id) (delete k js)).
  { apply msum_nonneg. intros k' x [_ Hx]%lookup_delete_Some. eapply weight_nonneg, Hw, Hx. }
  unfold weight at 1. rewrite Hon. lia.
Qed.

Lemma accounted_node_le js js' n :
  (forall d, load d (n_NodeID n) js' <= load d (n_NodeID n) js) ->
  accounted_node js n -> accounted_node js' n.
Proof. intros Hl Ha d. specialize (Hl d). specialize (Ha d). lia. Qed.

Lemma accounted_le js js' ns :
  (forall d id, load d id js' <= load d id js) -> accounted js ns -> accounted js' ns.
Proof. intros Hl Ha id n Hn. eapply accounted_node_le; [|by eapply Ha]. intros d. apply Hl. Qed.
