(* ===== verification/EngineBooks.v ===== *)
(** * The engine keeps the books

    On a healthy store: what [commitPlacement] and [applyPreemption] do to the
    tick's slice and to the database, and the proof that a scheduling pass
    never assigns to a node more than it has. *)

From S2P Require Import Prelude Float64 Models Config Algorithms Preemption Fragmentation Store Interfaces Engine Scenarios EngineLogic EngineFrame Ledger.

#[local] Open Scope string_scope.
#[local] Open Scope list_scope.
#[local] Open Scope Z_scope.

Section effects.
Context `{GoArch} {St : Type} `{StoreContract St}.
Context (alg : Algorithm) (cfg : SchedulerConfig).
Implicit Types (J : Jobs -> Nodes -> Prop) (N : list Node) (R : gmap string (list Job)).

(** The assertion that pins the slice and the running map. *)
Definition at_state N R J : list Node -> gmap string (list Job) -> Jobs -> Nodes -> Prop :=
  fun ns run js nds => ns = N /\ run = R /\ J js nds.

Lemma at_env {A} strict N R J (m : M (Env St) A) Q :
  env_triple strict J m Q ->
  tick_triple strict (at_state N R J) (on_env m) (fun a => at_state N R (Q a)).
Proof.
  intros Hm. apply tick_on_env. intros ns run e [Hh (-> & -> & HJ)].
  destruct (Hm e (conj Hh HJ)) as [Hh' HQ]. by split.
Qed.

Lemma at_modify strict N R N' R' J f :
  (forall t, env_store (ts_env (f t)) = env_store (ts_env t)) ->
  (forall t, ts_nodes t = N -> ts_running t = R ->
     ts_nodes (f t) = N' /\ ts_running (f t) = R') ->
  tick_triple strict (at_state N R J) (modify f) (fun _ => at_state N' R' J).
Proof.
  intros Hs Hf. apply tick_modify; [done|]. intros t js nds (En & Er & HJ).
  destruct (Hf t En Er) as [-> ->]. by split_and!.
Qed.

Lemma at_get {A} strict N R J (k : TickState St -> M (TickState St) A) Q :
  (forall t, ts_nodes t = N -> ts_running t = R -> tick_triple strict (at_state N R J) (k t) Q) ->
  tick_triple strict (at_state N R J) (get ≫= k) Q.
Proof.
  intros Hk t [Hh (En & Er & HJ)]. apply (Hk t En Er t). split; [done|]. by split_and!.
Qed.

(** Conjoining what is known in general with what holds on a healthy store. *)
Lemma tick_conj {A} K K' (m : M (TickState St) A) Q Q' :
  tick_triple false K m Q -> tick_triple true K' m Q' ->
  tick_triple true (fun ns run js nds => K ns run js nds /\ K' ns run js nds) m
    (fun a ns run js nds => Q a ns run js nds /\ Q' a ns run js nds).
Proof.
  intros Hm Hm' t [Hh [HK HK']].
  destruct (Hm t) as [_ HQ]; [by split|]. destruct (Hm' t) as [Hh' HQ']; [by split|].
  by split.
Qed.

Lemma env_conj {A} strict J J' (m : M (Env St) A) Q Q' :
  env_triple strict J m Q -> env_triple true J' m Q' ->
  env_triple true (fun js nds => J js nds /\ J' js nds) m
    (fun a js nds => Q a js nds /\ Q' a js nds).
Proof.
  intros Hm Hm' t [Hh [HK HK']].
  destruct (Hm t) as [_ HQ]; [split; [by intros _; apply Hh|done]|].
  destruct (Hm' t) as [Hh' HQ']; [by split|]. by split.
Qed.

(** A write to a healthy store that may still be turned down. *)
Lemma env_write_may {A} J (m : M St (res A)) pre f (Q : Jobs -> Nodes -> Prop) :
  write_spec view healthy m pre f ->
  (forall js nds, J js nds -> Q js nds) ->
  (forall a x a', J (a_jobs a) (a_nodes a) -> f x a a' -> Q (a_jobs a') (a_nodes a')) ->
  env_triple true J (on_store m) (fun _ => Q).
Proof.
  intros Hm Hsame Hf e [Hh HJ]. unfold on_store, zoom, on_env_store, holds in *.
  destruct (Hm (env_store e)) as (Ha & He & Hs).
  destruct (m (env_store e)) as [[x|err] s']; simpl in *.
  - split; [intros E; by apply Hs, Hh|]. by eapply Hf; [|apply Ha].
  - split; [intros E; by apply Hs, Hh|].
    destruct (He err eq_refl) as [->|[x Hx]]; [by apply Hsame|by eapply Hf].
Qed.

(** ** Committing a placement *)

Definition after_commit (n : Node) (job : Job) J : Jobs -> Nodes -> Prop := fun js' nds' =>
  exists js nds, J js nds
  /\ js' = alter (scheduled_on (n_NodeID n)) (j_JobID job) js
  /\ nds' = alter (set_available (n_GPUAvailable n) (n_CPUAvailable n) (n_MemoryAvailable n))
              (n_NodeID n) nds.

Lemma commit_effect N R J i n job reason start :
  N !! i = Some n -> node_wf (Reserve n (job_request job)) ->
  (forall js nds, J js nds -> is_Some (nds !! n_NodeID n)) ->
  tick_triple true (at_state N R J) (commitPlacement alg job i reason start)
    (fun _ => at_state (alter (fun n => Reserve n (job_request job)) i N)
       (append_running (n_NodeID n) job R) (after_commit (Reserve n (job_request job)) job J)).
Proof.
  intros Hi Hw Hn. unfold commitPlacement. set (n' := Reserve n (job_request job)) in *.
  set (N' := alter _ i N). set (R' := append_running _ job R).
  eapply tick_bind; [apply (at_modify true N R N' R J); [done|]; by intros t -> ->|].
  intros []. apply at_get. intros t -> _.
  assert (N' !! i = Some n') as -> by (unfold N'; by rewrite list_lookup_alter_eq, Hi).
  eapply tick_bind; [apply (at_modify true N' R N' R' J);
                     [done|]; by intros t' -> ->|].
  intros []. eapply tick_bind.
  { apply at_env. eapply env_write with (Q := fun r js' nds => exists js, r = Ok tt
      /\ J js nds /\ js' = alter (scheduled_on (n_NodeID n')) (j_JobID job) js);
      [apply Schedule_ok| |intros _ a HJ; by apply Hn in HJ|done].
    intros a [] a' HJ ->. by eexists. }
  intros [[]|e].
  2: { intros t' [_ (_ & _ & js & [=] & _)]. }
  eapply tick_bind with (R := fun _ => at_state N' R' (after_commit n' job J)).
  { apply (at_env true N' R' _ _ (fun _ => after_commit n' job J)). eapply env_write; [apply UpdateAvailability_ok| | |done].
    - intros a x a' (js & _ & HJ & E) ->. simpl. exists js, (a_nodes a). by rewrite E.
    - intros _ a _. split_and!; [apply (offered_in_int32 DGPU)|apply (offered_in_int32 DCPU)
        |apply (offered_in_int32 DMemory)]; done. }
  intros r. eapply tick_bind; [apply at_env, env_recordEvent|]. intros []. apply at_env, env_emit.
Qed.

(** ** Evicting a victim *)

Definition after_evict (v : Job) J : Jobs -> Nodes -> Prop := fun js' nds =>
  exists js now, J js nds
  /\ js' = alter (moved_to now JobStatusQueued ∘ requeued JobStatusPreempted) (j_JobID v) js.

Lemma evict_effect N R J i v :
  (forall js nds j, J js nds -> js !! j_JobID v = Some j -> in_int32 (j_RetryCount j + 1)) ->
  tick_triple true (at_state N R J) (evict i v)
    (fun _ => at_state (alter (fun n => Release n (job_request v)) i N) R (after_evict v J)).
Proof.
  intros Hr. unfold evict. set (N' := alter _ i N).
  eapply tick_bind; [apply (at_modify true N R N' R J); [done|]; by intros t -> ->|].
  intros []. eapply tick_bind.
  { apply at_env. eapply env_write with (Q := fun r js' nds => exists js, r = Ok tt
      /\ J js nds /\ js' = alter (requeued JobStatusPreempted) (j_JobID v) js);
      [apply Requeue_ok| |intros _ a HJ j; by eapply Hr|done].
    intros a [] a' HJ ->. by eexists. }
  intros [[]|e].
  2: { intros t' [_ (_ & _ & js & [=] & _)]. }
  eapply tick_bind with (R := fun _ => at_state N' R (after_evict v J)).
  { apply (at_env true N' R _ _ (fun _ => after_evict v J)). eapply env_write; [apply UpdateStatus_ok| |done|done].
    intros a x a' (js & _ & HJ & E) [now ->]. simpl. exists js, now. split; [done|].
    by rewrite E, alter_twice. }
  intros r. apply at_env, env_emit.
Qed.
End effects.

(** ** The books of the placement loop *)

(** A job of the order that has not had its turn. *)
Definition waiting (js : Jobs) (j : Job) : Prop :=
  exists j', js !! j_JobID j = Some j' /\ j_Status j' = JobStatusQueued
             /\ job_request j' = job_request j.

Record books (todo : list Job) (ns : list Node) (js : Jobs) (nds : Nodes) : Prop := {
  bk_slice : Forall (accounted_node js) ns;
  bk_db : accounted js nds;
  bk_nodes : NoDup (map n_NodeID ns);
  bk_todo : Forall (waiting js) todo;
  bk_jobs : NoDup (map j_JobID todo)
}.

Section books.
Context (js0 : Jobs) (ns0 : Nodes) (Hbase : base_ok js0 ns0).
Implicit Types (N : list Node) (js : Jobs) (nds : Nodes).

Lemma bare_capacity d n n' : bare n = bare n' -> capacity d n = capacity d n'.
Proof. intros (_ & ? & ? & ?)%bare_caps. by destruct d. Qed.

Lemma slice_db js nds n :
  frame js0 ns0 js nds -> slice_ok ns0 n ->
  exists n', nds !! n_NodeID n = Some n' /\ bare n' = bare n.
Proof.
  intros Hf [_ (n0 & Hn0 & Hb)].
  assert ((bare <$> nds) !! n_NodeID n = Some (bare n0)) as E.
  { by rewrite (fr_nodes _ _ _ _ Hf), lookup_fmap, Hn0. }
  rewrite lookup_fmap in E. destruct (nds !! n_NodeID n) as [n'|]; [|done].
  apply (inj Some) in E. exists n'. by rewrite E, Hb.
Qed.

Lemma slice_distinct N i k n m :
  NoDup (map n_NodeID N) -> N !! i = Some n -> N !! k = Some m -> i <> k ->
  n_NodeID n <> n_NodeID m.
Proof.
  intros Hnd Hi Hk Hne E. apply Hne. eapply NoDup_lookup; [exact Hnd| |].
  - change (map n_NodeID N) with (n_NodeID <$> N). rewrite list_lookup_fmap, Hi. simpl. by f_equal.
  - change (map n_NodeID N) with (n_NodeID <$> N). rewrite list_lookup_fmap, Hk. simpl. by f_equal.
Qed.

Lemma slice_ids f i N : (forall n, n_NodeID (f n) = n_NodeID n) ->
  map n_NodeID (alter f i N) = map n_NodeID N.
Proof.
  intros Hf. change (n_NodeID <$> alter f i N = n_NodeID <$> N).
  apply list_eq. intros k. rewrite !list_lookup_fmap, list_lookup_alter.
  case_decide; [|done]. subst. destruct (N !! k); simpl; [by rewrite Hf|done].
Qed.

(** Books are kept slice entry by slice entry. *)
Lemma slice_accounted N i f js js' n :
  NoDup (map n_NodeID N) -> N !! i = Some n -> Forall (accounted_node js) N ->
  accounted_node js' (f n) ->
  (forall d id, id <> n_NodeID n -> load d id js' <= load d id js) ->
  Forall (accounted_node js') (alter f i N).
Proof.
  intros Hnd Hi Ha Hn Ho. apply Forall_lookup. intros k m. rewrite list_lookup_alter.
  case_decide as E.
  - subst k. rewrite Hi. simpl. by intros [= <-].
  - intros Hk. eapply accounted_node_le; [intros d; apply Ho|by eapply (Forall_lookup_1 _ _ _ _ Ha)].
    intros E'. by eapply (slice_distinct N i k).
Qed.

Lemma accounted_reserved js n job j :
  node_wf n -> req_wf (job_request job) -> js !! j_JobID job = Some j ->
  j_Status j = JobStatusQueued -> job_request j = job_request job -> accounted_node js n ->
  accounted_node (alter (scheduled_on (n_NodeID n)) (j_JobID job) js) (Reserve n (job_request job)).
Proof.
  intros Hw Hr Hj Hq Er Ha d. rewrite offered_Reserve by done.
  erewrite (load_scheduled d _ _ _ _ _ Hj) by by rewrite Hq.
  replace (capacity d (Reserve n (job_request job))) with (capacity d n) by by destruct d.
  simpl n_NodeID. rewrite String.eqb_refl, Er. specialize (Ha d). lia.
Qed.

Lemma load_elsewhere d id n job j js :
  js !! j_JobID job = Some j -> j_Status j = JobStatusQueued -> id <> n_NodeID n ->
  load d id (alter (scheduled_on (n_NodeID n)) (j_JobID job) js) = load d id js.
Proof.
  intros Hj Hq Hne. erewrite (load_scheduled d _ _ _ _ _ Hj) by by rewrite Hq.
  destruct (String.eqb_spec (n_NodeID n) id); [congruence|lia].
Qed.

Lemma accounted_write_back js nds n m id :
  (exists n', nds !! n_NodeID n = Some n' /\ bare n' = bare n) -> accounted_node js n ->
  (forall id' m', id' <> n_NodeID n -> nds !! id' = Some m' -> accounted_node js m') ->
  alter (set_available (n_GPUAvailable n) (n_CPUAvailable n) (n_MemoryAvailable n)) (n_NodeID n) nds
    !! id = Some m ->
  accounted_node js m.
Proof.
  intros (n' & Hn' & Hb) Ha Ho. rewrite lookup_alter. case_decide as E; [|by apply Ho].
  rewrite Hn'. simpl. intros [= <-] d. specialize (Ha d).
  pose proof (bare_capacity d _ _ Hb) as Hc. destruct (bare_caps _ _ Hb) as [Hid _].
  destruct d; simpl in *; rewrite ?Hid, ?Hc; lia.
Qed.

Lemma todo_other f job todo js :
  NoDup (map j_JobID (job :: todo)) -> Forall (waiting js) todo ->
  Forall (waiting (alter f (j_JobID job) js)) todo.
Proof.
  simpl. rewrite NoDup_cons. intros [Hni _] Ht. rewrite Forall_forall in *.
  intros j Hj. destruct (Ht j Hj) as (j' & Hj' & ?). exists j'. split; [|done].
  rewrite lookup_alter_ne; [done|]. intros E. apply Hni. rewrite E.
  by apply list_elem_of_fmap_2.
Qed.

Lemma books_commit job todo N js nds i n :
  frame js0 ns0 js nds -> Forall (slice_ok ns0) N -> req_wf (job_request job) ->
  books (job :: todo) N js nds -> N !! i = Some n ->
  let n' := Reserve n (job_request job) in
  books todo (alter (fun n => Reserve n (job_request job)) i N)
    (alter (scheduled_on (n_NodeID n)) (j_JobID job) js)
    (alter (set_available (n_GPUAvailable n') (n_CPUAvailable n') (n_MemoryAvailable n'))
       (n_NodeID n) nds).
Proof.
  intros Hf Hs Hr [Hsl Hdb Hnd Htd Hjd] Hi n'.
  pose proof (Forall_lookup_1 _ _ _ _ Hs Hi) as Hok.
  pose proof (Forall_lookup_1 _ _ _ _ Hsl Hi) as Han.
  apply Forall_cons in Htd as [(j & Hj & Hq & Er) Htd].
  pose proof (accounted_reserved js n job j (proj1 Hok) Hr Hj Hq Er Han) as Han'.
  split.
  - eapply slice_accounted; [done..|]. intros d id Hne. by rewrite (load_elsewhere d id n job j).
  - intros id m Hm. eapply (accounted_write_back _ nds n'); [exact (slice_db _ _ _ Hf Hok)|done| |exact Hm].
    intros id' m' Hne Hm'. eapply accounted_node_le; [|by eapply Hdb].
    intros d. rewrite (load_elsewhere d _ n job j); [done..|].
    by rewrite (proj1 (proj2 (frame_base_ok _ _ Hbase _ _ Hf) _ _ Hm')).
  - by rewrite slice_ids.
  - by eapply todo_other.
  - simpl in Hjd. by apply NoDup_cons in Hjd as [_ ?].
Qed.

(** ** Evictions *)

(** The row of [v] occupies node [id] and has room for one more retry. *)
Definition holding js (id : string) (v : Job) : Prop :=
  exists j, js !! j_JobID v = Some j /\ job_on id j = true /\ job_request j = job_request v
            /\ in_int32 (j_RetryCount j + 1).

Definition evicted (now : Time) : Job -> Job :=
  moved_to now JobStatusQueued ∘ requeued JobStatusPreempted.

Lemma load_evicted d id now v j js :
  js !! j_JobID v = Some j ->
  load d id (alter (evicted now) (j_JobID v) js) = load d id js - weight d id j.
Proof. intros Hj. by rewrite (load_idle _ _ _ _ _ _ Hj). Qed.

Lemma holding_load d js id v :
  map_Forall (fun _ j => req_wf (job_request j)) js -> holding js id v ->
  asked d (job_request v) <= load d id js.
Proof.
  intros Hw (j & Hj & Hon & <- & _). by eapply job_on_load.
Qed.

Lemma holding_other js id v w now :
  j_JobID v <> j_JobID w -> holding js id w -> holding (alter (evicted now) (j_JobID v) js) id w.
Proof. intros Hne (j & Hj & ?). exists j. by rewrite lookup_alter_ne. Qed.

Lemma books_evict now v todo N js nds i n :
  Forall (slice_ok ns0) N -> req_wf (job_request v) ->
  map_Forall (fun _ j => req_wf (job_request j)) js ->
  books todo N js nds -> N !! i = Some n -> holding js (n_NodeID n) v ->
  books todo (alter (fun n => Release n (job_request v)) i N)
    (alter (evicted now) (j_JobID v) js) nds.
Proof.
  intros Hs Hr Hjw [Hsl Hdb Hnd Htd Hjd] Hi (j & Hj & Hon & Er & _).
  pose proof (Forall_lookup_1 _ _ _ _ Hs Hi) as [Hw _].
  assert (forall d id, load d id (alter (evicted now) (j_JobID v) js) <= load d id js) as Hle.
  { intros d id. rewrite (load_evicted _ _ _ _ _ _ Hj).
    pose proof (weight_nonneg d id j (Hjw _ _ Hj)). lia. }
  split.
  - eapply slice_accounted; [done..| |by auto]. intros d. rewrite offered_Release by done.
    pose proof (Forall_lookup_1 _ _ _ _ Hsl Hi d) as Hd. simpl n_NodeID.
    replace (capacity d (Release n (job_request v))) with (capacity d n) by by destruct d.
    rewrite (load_evicted _ _ _ _ _ _ Hj). unfold weight. rewrite Hon, Er. lia.
  - by eapply accounted_le.
  - by rewrite slice_ids.
  - rewrite Forall_forall in *. intros w Hin. destruct (Htd w Hin) as (w' & Hw' & Hq & ?).
    exists w'. split; [|done]. rewrite lookup_alter_ne; [done|]. intros E.
    rewrite <- E, Hj in Hw'. injection Hw' as <-. apply job_on_true in Hon as [Ha _].
    by rewrite Hq in Ha.
  - done.
Qed.

(** The released request is not clamped away. *)
Lemma evict_room d v js n :
  node_wf n -> req_wf (job_request v) -> map_Forall (fun _ j => req_wf (job_request j)) js ->
  accounted_node js n -> holding js (n_NodeID n) v ->
  offered d (Release n (job_request v)) = offered d n + asked d (job_request v).
Proof.
  intros Hw Hr Hj Ha Hh. rewrite offered_Release by done.
  pose proof (holding_load d _ _ _ Hj Hh). specialize (Ha d). lia.
Qed.
End books.
