(* ===== verification/EngineRefinement.v ===== *)
(** * The placement loop as a transition system

    On a healthy store one turn of the placement loop is a step on four
    things: the tick's slice of nodes, its [running] map, the jobs and the
    nodes in the database.  [place_step] is that abstract machine, without
    clocks, events, metrics or error handling; [placeOne] refines it. *)

From S2P Require Import Prelude Float64 Models Config Algorithms Preemption Fragmentation Store Interfaces Engine Scenarios EngineLogic EngineFrame Ledger EngineBooks.

#[local] Open Scope string_scope.
#[local] Open Scope list_scope.
#[local] Open Scope Z_scope.

Record LState := mkL {
  l_slice : list Node;
  l_run : gmap string (list Job);
  l_jobs : gmap string Job;
  l_nodes : gmap string Node
}.

(** The database row of a node gets the availability of the slice entry. *)
Definition write_back (n : Node) (nds : Nodes) : Nodes :=
  alter (set_available (n_GPUAvailable n) (n_CPUAvailable n) (n_MemoryAvailable n)) (n_NodeID n) nds.

Definition commit_step (job : Job) (i : nat) (n : Node) (s : LState) : LState :=
  mkL (alter (fun n => Reserve n (job_request job)) i (l_slice s))
    (append_running (n_NodeID n) job (l_run s))
    (alter (scheduled_on (n_NodeID n)) (j_JobID job) (l_jobs s))
    (write_back (Reserve n (job_request job)) (l_nodes s)).

Definition evict_step (now : Time) (i : nat) (v : Job) (s : LState) : LState :=
  mkL (alter (fun n => Release n (job_request v)) i (l_slice s)) (l_run s)
    (alter (evicted now) (j_JobID v) (l_jobs s)) (l_nodes s).

Inductive evictions (i : nat) : list Job -> LState -> LState -> Prop :=
| evictions_nil s : evictions i [] s s
| evictions_cons v vs now s s' :
    evictions i vs (evict_step now i v s) s' -> evictions i (v :: vs) s s'.

Inductive preempt_step (plan : PreemptionPlan) (s s' : LState) : Prop :=
| preempt_intro s1 n :
    evictions (pp_Node plan) (pp_Victims plan) s s1 ->
    l_slice s1 !! pp_Node plan = Some n ->
    s' = mkL (l_slice s1) (l_run s1) (l_jobs s1) (write_back n (l_nodes s1)) ->
    preempt_step plan s s'.

Section step.
Context (alg : Algorithm) (cfg : SchedulerConfig) (now : Time).

Definition may_preempt (job : Job) : bool := sc_EnablePreemption cfg && shouldPreempt cfg job now.

Inductive place_or_wait (job : Job) (s : LState) : LState -> Prop :=
| pw_place i n reason :
    alg_Place alg job (l_slice s) = (Some i, reason, true) -> l_slice s !! i = Some n ->
    Fits n (job_request job) = true -> place_or_wait job s (commit_step job i n s)
| pw_wait :
    Forall (fun n => Fits n (job_request job) = false) (l_slice s) -> place_or_wait job s s.

Inductive place_step (job : Job) (s : LState) : LState -> Prop :=
| ps_direct s' :
    may_preempt job = false \/ FindPreemption job (l_slice s) (l_run s) = None
    \/ (exists i reason, alg_Place alg job (l_slice s) = (Some i, reason, true)) ->
    place_or_wait job s s' -> place_step job s s'
| ps_preempt plan s1 s' :
    Forall (fun n => Fits n (job_request job) = false) (l_slice s) ->
    may_preempt job = true -> FindPreemption job (l_slice s) (l_run s) = Some plan ->
    preempt_step plan s s1 -> place_or_wait job s1 s' -> place_step job s s'.
End step.

(** What a turn relies on: the slice is well formed and names rows of the
    database, and the victims of a plan are distinct rows with room for one
    more retry. *)
Definition slice_ready (s : LState) : Prop :=
  Forall (fun n => node_wf n /\ is_Some (l_nodes s !! n_NodeID n)) (l_slice s).

Definition victims_ready (vs : list Job) (js : Jobs) : Prop :=
  NoDup (map j_JobID vs)
  /\ Forall (fun v => req_wf (job_request v)
       /\ forall j, js !! j_JobID v = Some j -> in_int32 (j_RetryCount j + 1)) vs.

Record turn_ready (cfg : SchedulerConfig) (now : Time) (job : Job) (s : LState) : Prop := {
  tr_slice : slice_ready s;
  tr_req : req_wf (job_request job);
  tr_plan : forall plan, may_preempt cfg now job = true ->
    FindPreemption job (l_slice s) (l_run s) = Some plan ->
    victims_ready (pp_Victims plan) (l_jobs s) /\ is_Some (l_slice s !! pp_Node plan)
}.

(** ** The engine refines the machine *)

Section refinement.
Context `{GoArch} {St : Type} `{StoreContract St}.
Context (alg : Algorithm) `{!LawfulAlgorithm alg} (cfg : SchedulerConfig).
Implicit Types (P : LState -> Prop).

Definition on_l P : list Node -> gmap string (list Job) -> Jobs -> Nodes -> Prop :=
  fun ns run js nds => P (mkL ns run js nds).

(** To prove a triple it is enough to prove it from one state at a time. *)
Definition from_l (s : LState) : list Node -> gmap string (list Job) -> Jobs -> Nodes -> Prop :=
  on_l (eq s).

Lemma tick_from {A} strict P (m : M (TickState St) A) Q :
  (forall s, P s -> tick_triple strict (from_l s) m Q) -> tick_triple strict (on_l P) m Q.
Proof. intros Hm t [Hh HP]. apply (Hm _ HP). by split. Qed.

Lemma from_at strict {A} s (m : M (TickState St) A) Q :
  tick_triple strict (at_state (l_slice s) (l_run s)
    (fun js nds => js = l_jobs s /\ nds = l_nodes s)) m Q ->
  tick_triple strict (from_l s) m Q.
Proof.
  intros Hm. eapply tick_conseq; [exact Hm| |done]. unfold from_l, on_l, at_state.
  intros ns run js nds ->. done.
Qed.

Lemma slice_ready_after s f i js nds run :
  slice_ready s -> (forall n, n_NodeID (f n) = n_NodeID n) ->
  (forall n, l_slice s !! i = Some n -> node_wf (f n)) -> dom nds = dom (l_nodes s) ->
  slice_ready (mkL (alter f i (l_slice s)) run js nds).
Proof.
  intros Hs Hid Hw Hdom. unfold slice_ready in *. simpl.
  assert (forall id, is_Some (l_nodes s !! id) -> is_Some (nds !! id)) as Hd.
  { intros id. by rewrite <- !elem_of_dom, Hdom. }
  apply Forall_lookup. intros k n. rewrite list_lookup_alter.
  rewrite Forall_lookup in Hs. case_decide as E; [subst k|by intros Hk; destruct (Hs _ _ Hk); auto].
  destruct (l_slice s !! i) as [m|] eqn:Hm; [|done]. simpl. intros [= <-]. rewrite Hid.
  destruct (Hs _ _ Hm) as [? ?]. auto.
Qed.

Lemma dom_write_back n nds : dom (write_back n nds) = dom nds.
Proof. unfold write_back. by rewrite dom_alter_L. Qed.

Lemma refine_commit job s i n reason start :
  slice_ready s -> req_wf (job_request job) -> l_slice s !! i = Some n ->
  Fits n (job_request job) = true ->
  tick_triple true (from_l s) (commitPlacement alg job i reason start)
    (fun _ => from_l (commit_step job i n s)).
Proof.
  intros Hs Hr Hi Hf. destruct (Forall_lookup_1 _ _ _ _ Hs Hi) as [Hw Hn]. apply from_at.
  eapply tick_conseq; [eapply commit_effect; [exact Hi|by apply Reserve_wf|]|done|].
  - by intros js nds [_ ->].
  - intros [] ns run js nds (-> & -> & js' & nds' & [-> ->] & -> & ->). done.
Qed.

Lemma refine_leave job s reason start :
  tick_triple true (from_l s) (leave_queued alg job reason start) (fun _ => from_l s).
Proof.
  apply from_at. unfold leave_queued.
  eapply tick_conseq with (Q' := fun _ => at_state (l_slice s) (l_run s)
    (fun js nds => js = l_jobs s /\ nds = l_nodes s)); [|done|].
  - eapply tick_bind; [apply at_env, env_recordEvent|]. intros []. apply at_env, env_emit.
  - intros [] ns run js nds (-> & -> & -> & ->). by destruct s.
Qed.

Lemma refine_evict s i v :
  (forall j, l_jobs s !! j_JobID v = Some j -> in_int32 (j_RetryCount j + 1)) ->
  tick_triple true (from_l s) (evict i v)
    (fun _ => on_l (fun s' => exists now, s' = evict_step now i v s)).
Proof.
  intros Hr. apply from_at.
  eapply tick_conseq; [apply (evict_effect (l_slice s) (l_run s) (fun js nds => js = l_jobs s /\ nds = l_nodes s));
                       intros js nds j [-> _]; apply Hr|done|].
  intros [] ns run js nds (-> & -> & js' & now & [-> ->] & ->). by exists now.
Qed.

Lemma victims_ready_evict now i v vs s :
  victims_ready (v :: vs) (l_jobs s) -> victims_ready vs (l_jobs (evict_step now i v s)).
Proof.
  intros [[Hni Hnd]%NoDup_cons [_ Hv]%Forall_cons]. split; [done|].
  rewrite Forall_forall in *. intros w Hw. destruct (Hv w Hw) as [Hr Hj]. split; [done|].
  intros j. simpl. rewrite lookup_alter_ne; [apply Hj|]. intros E. apply Hni. rewrite E.
  by apply list_elem_of_fmap_2.
Qed.

Lemma refine_evictions i vs s :
  victims_ready vs (l_jobs s) ->
  tick_triple true (from_l s) (forM vs (evict i)) (fun _ => on_l (evictions i vs s)).
Proof.
  revert s. induction vs as [|v vs IH]; intros s Hv; simpl.
  { apply tick_ret. intros ns run js nds E. unfold on_l. rewrite <- E. constructor. }
  destruct Hv as [Hnd Hf]. pose proof Hf as [[_ Hr] _]%Forall_cons.
  eapply tick_bind; [by apply refine_evict|]. intros [].
  apply tick_from. intros s1 [now ->].
  eapply tick_conseq; [apply IH|done|]; [by eapply victims_ready_evict|].
  intros [] ns run js nds. apply evictions_cons.
Qed.

Lemma evictions_slice i vs s s' : evictions i vs s s' ->
  slice_ready s -> Forall (fun v => req_wf (job_request v)) vs ->
  slice_ready s' /\ (is_Some (l_slice s !! i) -> is_Some (l_slice s' !! i)).
Proof.
  induction 1 as [s|v vs now s s' _ IH]; intros Hs Hv; [done|].
  apply Forall_cons in Hv as [Hr Hv]. destruct IH as [Hs' Hi']; [|done|].
  - apply slice_ready_after; [done..| |done]. intros n Hn.
    destruct (Forall_lookup_1 _ _ _ _ Hs Hn). by apply Release_wf.
  - split; [done|]. intros [n Hn]. apply Hi'. simpl. rewrite list_lookup_alter_eq, Hn. by eexists.
Qed.

Lemma preempt_slice plan s s' : preempt_step plan s s' ->
  slice_ready s -> Forall (fun v => req_wf (job_request v)) (pp_Victims plan) -> slice_ready s'.
Proof.
  intros [s1 n He Hn ->] Hs Hv. destruct (evictions_slice _ _ _ _ He Hs Hv) as [Hs1 _].
  unfold slice_ready in *. simpl. eapply Forall_impl; [exact Hs1|]. intros m [? Hm].
  split; [done|]. by rewrite <- elem_of_dom, dom_write_back, elem_of_dom.
Qed.

Lemma refine_preempt plan s :
  slice_ready s -> victims_ready (pp_Victims plan) (l_jobs s) ->
  is_Some (l_slice s !! pp_Node plan) ->
  tick_triple true (from_l s) (applyPreemption plan) (fun _ => on_l (preempt_step plan s)).
Proof.
  intros Hs Hv Hi. unfold applyPreemption. eapply tick_bind; [by apply refine_evictions|].
  intros []. apply tick_from. intros s1 He. apply from_at.
  assert (Forall (fun v => req_wf (job_request v)) (pp_Victims plan)) as Hr.
  { eapply Forall_impl; [apply Hv|]. by intros v [? _]. }
  destruct (evictions_slice _ _ _ _ He Hs Hr) as [Hs1 Hi1]. destruct (Hi1 Hi) as [n Hn].
  destruct (Forall_lookup_1 _ _ _ _ Hs1 Hn) as [Hw _].
  apply at_get. intros t -> _. rewrite Hn.
  eapply tick_bind with (R := fun _ => on_l (preempt_step plan s)); [|intros r; by apply tick_ret].
  eapply tick_conseq; [apply (at_env true (l_slice s1) (l_run s1)
    (fun js nds => js = l_jobs s1 /\ nds = l_nodes s1) _ (fun _ js nds => js = l_jobs s1 /\ nds = write_back n (l_nodes s1)))|done|].
  - eapply env_write; [apply UpdateAvailability_ok| | |done].
    + intros a x a' [E1 E2] ->. simpl. by rewrite E1, E2.
    + intros _ a _. split_and!; [apply (offered_in_int32 DGPU)|apply (offered_in_int32 DCPU)
        |apply (offered_in_int32 DMemory)]; done.
  - intros r ns run js nds (-> & -> & -> & ->). by econstructor.
Qed.

Lemma refine_place_or_wait job s pre start :
  slice_ready s -> req_wf (job_request job) ->
  tick_triple true (from_l s)
    (match alg_Place alg job (l_slice s) with
     | (Some i, reason, true) => commitPlacement alg job i (pre +:+ reason) start
     | (_, reason, _) => leave_queued alg job reason start
     end) (fun _ => on_l (place_or_wait alg job s)).
Proof.
  intros Hs Hr. destruct (alg_Place alg job (l_slice s)) as [[[i|] reason] ok] eqn:Hp;
    pose proof (lawful_place _ _ _ _ _ Hp) as Hl.
  - destruct Hl as (-> & n & Hn & Hf).
    eapply tick_conseq; [by eapply refine_commit|done|].
    intros [] ns run js nds E. unfold on_l. rewrite <- E. by eapply pw_place.
  - destruct Hl as [-> Hno]. eapply tick_conseq; [apply refine_leave|done|].
    intros [] ns run js nds E. unfold on_l. rewrite <- E. by apply pw_wait.
Qed.

(** [placeOne] refines [place_step]. *)
Lemma refine_placeOne job now s :
  turn_ready cfg now job s ->
  tick_triple true (from_l s) (placeOne alg cfg job now)
    (fun _ => on_l (place_step alg cfg now job s)).
Proof.
  intros [Hs Hr Hp]. unfold placeOne.
  eapply tick_bind with (R := fun _ => from_l s).
  { apply tick_on_env. intros ns run. apply env_time_Now. }
  intros start. apply from_at. apply at_get. intros t -> Er. rewrite Er. clear t Er.
  eapply tick_conseq with (K' := from_l s) (Q' := fun _ => on_l (place_step alg cfg now job s));
    [|intros ns run js nds (-> & -> & -> & ->); by destruct s|done].
  assert (forall s', place_or_wait alg job s s' -> (may_preempt cfg now job = false
    \/ FindPreemption job (l_slice s) (l_run s) = None
    \/ exists i reason, alg_Place alg job (l_slice s) = (Some i, reason, true)) ->
    place_step alg cfg now job s s') as Hdirect by (intros; by apply ps_direct).
  pose proof (refine_place_or_wait job s "" start Hs Hr) as Hpw.
  destruct (alg_Place alg job (l_slice s)) as [[[i|] reason] ok] eqn:Hpl;
    pose proof (lawful_place _ _ _ _ _ Hpl) as Hl.
  { destruct Hl as (-> & _). eapply tick_conseq; [exact Hpw|done|].
    intros [] ns run js nds Hst. apply Hdirect; [done|]. right. right. by exists i, reason. }
  destruct Hl as [-> Hno]. fold (may_preempt cfg now job).
  destruct (may_preempt cfg now job) eqn:Hm.
  2: { eapply tick_conseq; [exact Hpw|done|]. intros [] ns run js nds Hst. by apply Hdirect; auto. }
  destruct (FindPreemption job (l_slice s) (l_run s)) as [plan|] eqn:Hplan.
  2: { eapply tick_conseq; [exact Hpw|done|]. intros [] ns run js nds Hst. by apply Hdirect; auto. }
  destruct (Hp plan eq_refl eq_refl) as [Hv Hi].
  eapply tick_bind; [by apply refine_preempt|]. intros []. apply tick_from. intros s1 Hs1.
  assert (slice_ready s1) as Hsr.
  { eapply preempt_slice; [done..|]. eapply Forall_impl; [apply Hv|]. by intros v [? _]. }
  apply from_at, at_get. intros t -> _.
  eapply tick_conseq; [apply (refine_place_or_wait job s1 "preemption: " start Hsr Hr)| |].
  - intros ns run js nds (-> & -> & -> & ->). by destruct s1.
  - intros [] ns run js nds Hst. by eapply ps_preempt.
Qed.
End refinement.
