(* ===== verification/EngineSafety.v ===== *)
(** * No node is given more than it has

    The abstract machine of [EngineRefinement] keeps the books of [Ledger], so
    the engine does on a healthy store.  With preemption the [running] map must
    still describe the database when a plan is computed; the engine does not
    remove victims from it, so this holds for the first preemption of a pass. *)

From S2P Require Import Prelude Float64 Models Config Algorithms Preemption Fragmentation Store Interfaces Engine Scenarios EngineLogic EngineFrame Ledger EngineBooks EngineRefinement.

#[local] Open Scope string_scope.
#[local] Open Scope list_scope.
#[local] Open Scope Z_scope.

Section loop.
Context `{GoArch} {St : Type} `{StoreContract St}.
Context (alg : Algorithm) `{!LawfulAlgorithm alg} (cfg : SchedulerConfig).
Context (js0 : Jobs) (ns0 : Nodes) (Hbase : base_ok js0 ns0).

Definition framed (s : LState) : Prop :=
  tick_frame js0 ns0 (l_slice s) (l_run s) (l_jobs s) (l_nodes s).

Lemma framed_slice_ready s : framed s -> slice_ready s.
Proof.
  intros (Hf & Hs & _). eapply Forall_impl; [exact Hs|]. intros n Hn.
  split; [apply Hn|]. destruct (slice_db _ _ _ _ n Hf Hn) as (n' & -> & _). by eexists.
Qed.

Lemma framed_rows s : framed s ->
  map_Forall (fun id j => j_JobID j = id /\ job_wf j) (l_jobs s).
Proof. intros (Hf & _). apply (frame_base_ok _ _ Hbase _ _ Hf). Qed.

(** An assertion kept by the abstract machine is kept by the loop. *)
Lemma loop_rule (P : list Job -> LState -> Prop) ordered now :
  Forall (job_ok js0) ordered ->
  (forall job todo s, job_ok js0 job -> framed s -> P (job :: todo) s -> turn_ready cfg now job s) ->
  (forall job todo s s', job_ok js0 job -> framed s -> P (job :: todo) s ->
     place_step alg cfg now job s s' -> P todo s') ->
  tick_triple true (on_l (fun s => framed s /\ P ordered s))
    (forM ordered (fun job => placeOne alg cfg job now))
    (fun _ => on_l (fun s => framed s /\ P [] s)).
Proof.
  intros Ho Hready Hstep. induction Ho as [|job todo Hj Ho IH]; simpl.
  { by apply tick_ret. }
  eapply tick_bind with (R := fun _ => on_l (fun s => framed s /\ P todo s)); [|intros []; exact IH].
  apply tick_from. intros s [Hf HP].
  eapply tick_conseq with (K' := fun ns run js nds => tick_frame js0 ns0 ns run js nds
      /\ from_l s ns run js nds)
    (Q' := fun _ ns run js nds => tick_frame js0 ns0 ns run js nds
      /\ on_l (place_step alg cfg now job s) ns run js nds).
  - apply tick_conj; [by apply tick_frame_place|]. apply refine_placeOne; [done|]. by eapply Hready.
  - intros ns run js nds E. split; [|done]. unfold from_l, on_l in E. by subst s.
  - intros [] ns run js nds [Hf' Hst]. split; [done|]. by eapply Hstep.
Qed.
End loop.

(** ** Evictions keep the books and make room *)

Section evictions.
Context (js0 : Jobs) (ns0 : Nodes) (Hbase : base_ok js0 ns0).
Implicit Types s : LState.

Record evict_ok (todo vs : list Job) (i : nat) (n : Node) (s : LState) : Prop := {
  eo_frame : framed js0 ns0 s;
  eo_books : books todo (l_slice s) (l_jobs s) (l_nodes s);
  eo_node : l_slice s !! i = Some n;
  eo_jobs : Forall (job_ok js0) vs;
  eo_hold : Forall (holding (l_jobs s) (n_NodeID n)) vs;
  eo_nodup : NoDup (map j_JobID vs)
}.

Lemma frame_rows_req s : framed js0 ns0 s ->
  map_Forall (fun _ j => req_wf (job_request j)) (l_jobs s).
Proof. intros Hf id j Hj. by destruct (framed_rows _ _ Hbase _ Hf _ _ Hj) as [_ [? _]]. Qed.

Lemma evict_step_ok todo v vs i n s now :
  evict_ok todo (v :: vs) i n s ->
  evict_ok todo vs i (Release n (job_request v)) (evict_step now i v s)
  /\ forall d, offered d (Release n (job_request v)) = offered d n + asked d (job_request v).
Proof.
  intros [Hf Hb Hn [Hj Hjs]%Forall_cons [Hh Hhs]%Forall_cons Hnd].
  simpl in Hnd. apply NoDup_cons in Hnd as [Hni Hnd].
  pose proof (frame_rows_req s Hf) as Hrows. destruct Hf as (Hf & Hs & Hrun).
  pose proof (Forall_lookup_1 _ _ _ _ Hs Hn) as [Hw _].
  pose proof (Forall_lookup_1 _ _ _ _ (bk_slice _ _ _ _ Hb) Hn) as Ha.
  split; [|intros d; eapply evict_room; by try apply Hj].
  split; [|by eapply books_evict; try apply Hj| |done| |done]; simpl.
  - split_and!; [|by apply Forall_alter; [|intros m _ Hm; apply slice_ok_Release; try apply Hj]|done].
    apply frame_job; [done|done|apply Hj].
  - by rewrite list_lookup_alter_eq, Hn.
  - rewrite Forall_forall in *. intros w Hin. apply holding_other; [|by apply Hhs].
    intros E. apply Hni. rewrite E. by apply list_elem_of_fmap_2.
Qed.

Lemma evictions_ok todo vs i n s s' :
  evictions i vs s s' -> evict_ok todo vs i n s ->
  exists n', evict_ok todo [] i n' s' /\ n_Status n' = n_Status n
  /\ (forall d, offered d n' = offered d n + zsum (fun v => asked d (job_request v)) vs).
Proof.
  intros He. revert n. induction He as [s|v vs now s s' _ IH]; intros n Hok.
  - exists n. split_and!; [done..|]. intros d. rewrite zsum_nil. lia.
  - destruct (evict_step_ok _ _ _ _ _ _ now Hok) as [Hok' Hroom].
    destruct (IH _ Hok') as (n' & Hn' & Hst & Hoff). exists n'. split_and!; [done..|].
    intros d. rewrite Hoff, Hroom, zsum_cons. lia.
Qed.

(** After a preemption the slice and the database agree on the node. *)
Lemma preempt_ok todo plan n s s' :
  preempt_step plan s s' -> evict_ok todo (pp_Victims plan) (pp_Node plan) n s ->
  framed js0 ns0 s' /\ books todo (l_slice s') (l_jobs s') (l_nodes s')
  /\ exists n', l_slice s' !! pp_Node plan = Some n' /\ n_Status n' = n_Status n
  /\ (forall d, offered d n' = offered d n
                 + zsum (fun v => asked d (job_request v)) (pp_Victims plan)).
Proof.
  intros [s1 n1 He Hn1 ->] Hok. destruct (evictions_ok _ _ _ _ _ _ He Hok) as (n' & Hok' & Hst & Hoff).
  destruct Hok' as [(Hf & Hs & Hr) [Hsl Hdb Hnd Htd Hjd] Hn' _ _ _]. rewrite Hn1 in Hn'.
  injection Hn' as ->. pose proof (Forall_lookup_1 _ _ _ _ Hs Hn1) as Hok1.
  split; [|split; [|by exists n']].
  - split_and!; [|done|done]. by apply frame_avail.
  - split; [done| |done|done|done]. intros id m Hm.
    eapply (accounted_write_back _ (l_nodes s1) n'); [by eapply slice_db| | |exact Hm].
    + by eapply (Forall_lookup_1 _ _ _ _ Hsl).
    + intros id' m' _. by apply Hdb.
Qed.
End evictions.

(** ** The running map describes the database *)

Definition fresh (run : gmap string (list Job)) (js : Jobs) : Prop :=
  map_Forall (fun id l => NoDup (map j_JobID l)
                          /\ Forall (fun v => holding js id v /\ job_wf v) l) run.

Definition retry_room (js : Jobs) : Prop :=
  map_Forall (fun _ j => in_int32 (j_RetryCount j + 1)) js.

Lemma holding_scheduled js job j id v nodeID :
  js !! j_JobID job = Some j -> j_Status j = JobStatusQueued -> holding js id v ->
  j_JobID v <> j_JobID job /\ holding (alter (scheduled_on nodeID) (j_JobID job) js) id v.
Proof.
  intros Hj Hq (j' & Hj' & Hon & Hrest).
  assert (j_JobID v <> j_JobID job) as Hne.
  { intros E. rewrite E, Hj in Hj'. injection Hj' as <-. apply job_on_true in Hon as [Ha _].
    by rewrite Hq in Ha. }
  split; [done|]. exists j'. by rewrite lookup_alter_ne by done.
Qed.

Lemma fresh_commit run js job j nodeID :
  fresh run js -> js !! j_JobID job = Some j -> j_Status j = JobStatusQueued ->
  job_request j = job_request job -> in_int32 (j_RetryCount j + 1) -> job_wf job ->
  fresh (append_running nodeID job run) (alter (scheduled_on nodeID) (j_JobID job) js).
Proof.
  intros Hfr Hj Hq Er Hret Hwf.
  assert (forall id l, run !! id = Some l -> NoDup (map j_JobID l)
    /\ (j_JobID job ∉ map j_JobID l)
    /\ Forall (fun v => holding (alter (scheduled_on nodeID) (j_JobID job) js) id v /\ job_wf v) l)
    as Hold.
  { intros id l Hl. destruct (Hfr _ _ Hl) as [Hnd Hf]. split; [done|].
    rewrite Forall_forall in Hf. split.
    - intros (v & E & Hv)%list_elem_of_fmap. destruct (Hf v Hv) as [Hh _].
      by destruct (holding_scheduled _ _ _ _ _ nodeID Hj Hq Hh) as [[] _].
    - apply Forall_forall. intros v Hv. destruct (Hf v Hv) as [Hh Hw].
      by destruct (holding_scheduled _ _ _ _ _ nodeID Hj Hq Hh). }
  apply map_Forall_insert_2; [|by intros id l Hl; destruct (Hold id l Hl) as (? & _ & ?)].
  assert (holding (alter (scheduled_on nodeID) (j_JobID job) js) nodeID job) as Hnew.
  { exists (scheduled_on nodeID j). rewrite lookup_alter_eq, Hj. split_and!; [done| |done|done].
    apply job_on_true. by split. }
  destruct (run !! nodeID) as [l|] eqn:El; simpl.
  - destruct (Hold _ _ El) as (Hnd & Hni & Hf). rewrite map_app. split.
    + apply NoDup_app. split; [done|]. split; [|apply NoDup_singleton].
      intros x Hx ->%list_elem_of_singleton. by apply Hni.
    + apply Forall_app. split; [done|]. by apply Forall_singleton.
  - split; [apply NoDup_singleton|]. by apply Forall_singleton.
Qed.

Lemma fresh_running_wf run js id :
  fresh run js -> Z.of_nat (size js) <= 2147483648 -> running_wf (default [] (run !! id)).
Proof.
  intros Hfr Hsz. destruct (run !! id) as [l|] eqn:El; simpl.
  2: { split; [done|]. simpl. lia. }
  destruct (Hfr _ _ El) as [Hnd Hf]. split; [eapply Forall_impl; [exact Hf|]; by intros v [_ ?]|].
  assert (list_to_set (map j_JobID l) ⊆ dom js) as Hsub.
  { intros x Hx%elem_of_list_to_set. apply list_elem_of_fmap in Hx as (v & -> & Hv).
    rewrite Forall_forall in Hf. destruct (Hf v Hv) as [(j & Hj & _) _].
    apply elem_of_dom. by exists j. }
  apply subseteq_size in Hsub. rewrite size_list_to_set, length_map, size_dom in Hsub by done. lia.
Qed.

Lemma fresh_cluster_wf ns0 run js ns :
  fresh run js -> Z.of_nat (size js) <= 2147483648 -> Forall (slice_ok ns0) ns -> cluster_wf ns run.
Proof.
  intros Hfr Hsz Hs. split; (eapply Forall_impl; [exact Hs|]); intros n Hn; [apply Hn|].
  by eapply fresh_running_wf.
Qed.

(** The victims of a plan occupy the plan's node. *)
Lemma plan_holding job ns run js plan :
  fresh run js -> cluster_wf ns run -> FindPreemption job ns run = Some plan ->
  exists n, ns !! pp_Node plan = Some n /\ n_Status n = NodeStatusReady
  /\ NoDup (map j_JobID (pp_Victims plan))
  /\ Forall (fun v => holding js (n_NodeID n) v /\ job_wf v
                      /\ v ∈ default [] (run !! n_NodeID n)) (pp_Victims plan)
  /\ forall d, asked d (job_request job)
       <= offered d n + zsum (fun v => asked d (job_request v)) (pp_Victims plan).
Proof.
  intros Hfr Hwf Hp. destruct (find_preemption_plan_ok _ _ _ _ Hwf Hp)
    as (n & Hn & Hst & [rest Hpre] & He & _).
  exists n. split_and!; [done..| | |].
  - assert (NoDup (map j_JobID (node_victims job n run))) as Hnd.
    { unfold node_victims. rewrite sort_stable_perm.
      destruct (run !! n_NodeID n) as [l|] eqn:El; simpl; [|apply NoDup_nil_2].
      apply NoDup_map_filter, (Hfr _ _ El). }
    rewrite Hpre, map_app in Hnd. by apply NoDup_app in Hnd as [? _].
  - apply Forall_forall. intros v Hv.
    assert (v ∈ node_victims job n run) as [_ Hin]%node_victims_elem.
    { rewrite Hpre. apply elem_of_app. by left. }
    destruct (run !! n_NodeID n) as [l|] eqn:El; simpl in *; [|by apply elem_of_nil in Hin].
    destruct (Hfr _ _ El) as [_ Hf]. rewrite Forall_forall in Hf. by destruct (Hf v Hin).
  - apply enough_true in He as (? & ? & ?). by intros [].
Qed.

(** ** The loop keeps the books *)

Section accounting.
Context (alg : Algorithm) `{!LawfulAlgorithm alg} (cfg : SchedulerConfig) (now : Time).
Context (js0 : Jobs) (ns0 : Nodes) (Hbase : base_ok js0 ns0).
Context (Hsize : Z.of_nat (size js0) <= 2147483648).
Implicit Types (s : LState) (todo : list Job).

Definition preemptors (l : list Job) : list Job :=
  filter (fun j => may_preempt cfg now j = true) l.

(** Either nobody will preempt any more, or [running] is still accurate and at
    most one job will. *)
Record ledger_ok todo s : Prop := {
  lo_books : books todo (l_slice s) (l_jobs s) (l_nodes s);
  lo_wf : Forall job_wf todo;
  lo_pre : preemptors todo = []
           \/ (fresh (l_run s) (l_jobs s) /\ retry_room (l_jobs s)
               /\ (length (preemptors todo) <= 1)%nat)
}.

Lemma books_skip job todo ns js nds : books (job :: todo) ns js nds -> books todo ns js nds.
Proof.
  intros [? ? ? Ht Hj]. split; try done; [by apply Forall_cons in Ht as [_ ?]|].
  simpl in Hj. by apply NoDup_cons in Hj as [_ ?].
Qed.

Lemma place_or_wait_books job todo s s' :
  job_ok js0 job -> framed js0 ns0 s -> books (job :: todo) (l_slice s) (l_jobs s) (l_nodes s) ->
  place_or_wait alg job s s' -> books todo (l_slice s') (l_jobs s') (l_nodes s').
Proof.
  intros [Hr _] (Hf & Hs & _) Hb [i n reason _ Hn Hfit|_]; [|by eapply books_skip].
  exact (books_commit _ _ Hbase job todo _ _ _ i n Hf Hs Hr Hb Hn).
Qed.

Lemma framed_size s : framed js0 ns0 s -> Z.of_nat (size (l_jobs s)) <= 2147483648.
Proof.
  intros (Hf & _). rewrite <- (map_size_fmap frozen), (fr_jobs _ _ _ _ Hf), map_size_fmap. done.
Qed.

Lemma preemptors_cons job todo :
  preemptors (job :: todo)
  = if may_preempt cfg now job then job :: preemptors todo else preemptors todo.
Proof. unfold preemptors. rewrite filter_cons. by destruct (may_preempt cfg now job). Qed.

Lemma plan_evict_ok job todo s plan :
  framed js0 ns0 s -> books todo (l_slice s) (l_jobs s) (l_nodes s) ->
  fresh (l_run s) (l_jobs s) -> FindPreemption job (l_slice s) (l_run s) = Some plan ->
  exists n, evict_ok js0 ns0 todo (pp_Victims plan) (pp_Node plan) n s
  /\ n_Status n = NodeStatusReady
  /\ forall d, asked d (job_request job)
       <= offered d n + zsum (fun v => asked d (job_request v)) (pp_Victims plan).
Proof.
  intros Hf Hb Hfr Hp. pose proof Hf as (Hfm & Hs & Hrun).
  pose proof (fresh_cluster_wf ns0 _ _ _ Hfr (framed_size _ Hf) Hs) as Hcw.
  destruct (plan_holding _ _ _ _ _ Hfr Hcw Hp) as (n & Hn & Hst & Hnd & Hv & Hroom).
  exists n. split; [|done]. split; [done..| | |done]; rewrite Forall_forall in *.
  - intros v (_ & _ & Hin)%Hv.
    destruct (l_run s !! n_NodeID n) as [l|] eqn:El; [|by apply elem_of_nil in Hin].
    specialize (Hrun _ _ El). rewrite Forall_forall in Hrun. by apply Hrun.
  - by intros v (? & _)%Hv.
Qed.

Lemma ledger_ready job todo s :
  job_ok js0 job -> framed js0 ns0 s -> ledger_ok (job :: todo) s -> turn_ready cfg now job s.
Proof.
  intros [Hr _] Hf [Hb _ Hpre]. split; [by apply framed_slice_ready with js0 ns0|done|].
  intros plan Hmay Hp. rewrite preemptors_cons, Hmay in Hpre.
  destruct Hpre as [|(Hfr & Hret & _)]; [done|].
  destruct (plan_evict_ok _ _ _ _ Hf Hb Hfr Hp) as (n & [_ _ Hn Hj Hh Hnd] & _).
  split; [|by eexists]. split; [done|]. rewrite Forall_forall in *. intros v Hv.
  split; [by apply Hj|]. intros j E. by eapply Hret.
Qed.

Lemma ledger_step job todo s s' :
  job_ok js0 job -> framed js0 ns0 s -> ledger_ok (job :: todo) s ->
  place_step alg cfg now job s s' -> ledger_ok todo s'.
Proof.
  intros Hj Hf [Hb [Hw Hws]%Forall_cons Hpre] Hst. rewrite preemptors_cons in Hpre.
  destruct Hst as [s' Hno Hpw|plan s1 s' Hnof Hmay Hp Hs1 Hpw].
  - split; [by eapply place_or_wait_books|done|].
    destruct Hpre as [Hq|(Hfr & Hret & Hlen)]; [left; by destruct (may_preempt cfg now job)|right].
    assert (length (preemptors todo) <= 1)%nat as Hlen'.
    { destruct (may_preempt cfg now job); simpl in Hlen; lia. }
    destruct Hpw as [i n reason _ Hn Hfit|_]; [|done].
    pose proof (bk_todo _ _ _ _ Hb) as [(j & Hj' & Hq & Er) _]%Forall_cons.
    split_and!; [eapply fresh_commit; try done; by eapply Hret| |done].
    intros k x. simpl. rewrite lookup_alter. case_decide; [|apply Hret].
    subst. rewrite Hj'. intros [= <-]. simpl. by eapply Hret.
  - rewrite Hmay in Hpre. destruct Hpre as [|(Hfr & Hret & Hlen)]; [done|].
    destruct (plan_evict_ok _ _ _ _ Hf Hb Hfr Hp) as (n & Hok & _).
    destruct (preempt_ok _ _ Hbase _ _ _ _ _ Hs1 Hok) as (Hf1 & Hb1 & _).
    split; [by eapply place_or_wait_books|done|]. left. simpl in Hlen.
    destruct (preemptors todo); [done|simpl in Hlen; lia].
Qed.

(** With accurate books a plan always makes room for the job it was made for. *)
Lemma preemption_places job todo s s' plan :
  job_ok js0 job -> framed js0 ns0 s -> ledger_ok (job :: todo) s ->
  Forall (fun n => Fits n (job_request job) = false) (l_slice s) ->
  may_preempt cfg now job = true -> FindPreemption job (l_slice s) (l_run s) = Some plan ->
  place_step alg cfg now job s s' ->
  exists j, l_jobs s' !! j_JobID job = Some j /\ j_Status j = JobStatusScheduled.
Proof.
  intros Hj Hf [Hb _ Hpre] Hno Hmay Hp Hst. rewrite preemptors_cons, Hmay in Hpre.
  destruct Hpre as [|(Hfr & _)]; [done|].
  destruct (plan_evict_ok _ _ _ _ Hf Hb Hfr Hp) as (n & Hok & Hst0 & Hroom).
  destruct Hst as [s' [Hm|[Hm|(i & reason & Hpl)]] _|plan' s1 s' _ _ Hp' Hs1 Hpw]; try congruence.
  { destruct (lawful_place _ _ _ _ _ Hpl) as (_ & m & Hm & Hfit).
    by rewrite (Forall_lookup_1 _ _ _ _ Hno Hm) in Hfit. }
  rewrite Hp in Hp'. injection Hp' as <-.
  destruct (preempt_ok _ _ Hbase _ _ _ _ _ Hs1 Hok) as (_ & Hb1 & n' & Hn' & Hst' & Hoff).
  assert (Fits n' (job_request job) = true) as Hfit.
  { apply Fits_dim. split; [congruence|]. intros d. rewrite Hoff. apply Hroom. }
  destruct Hpw as [i m reason _ _ _|Hnof].
  - pose proof (bk_todo _ _ _ _ Hb1) as [(j & Hj' & _) _]%Forall_cons.
    exists (scheduled_on (n_NodeID m) j). simpl. by rewrite lookup_alter_eq, Hj'.
  - by rewrite (Forall_lookup_1 _ _ _ _ Hnof Hn') in Hfit.
Qed.
End accounting.
