(* ===== verification/EngineTick.v ===== *)
(** * A whole scheduling pass on a healthy store

    From the reads of [Tick] to the start of the placement loop, and through
    it: no node is overcommitted, and without preemption no job is left queued
    that still fits somewhere. *)

From S2P Require Import Prelude Float64 Models Config Algorithms Preemption Fragmentation Store Interfaces Engine Scenarios EngineLogic EngineFrame Ledger EngineBooks EngineRefinement EngineSafety.

#[local] Open Scope string_scope.
#[local] Open Scope list_scope.
#[local] Open Scope Z_scope.

(** ** The clock of the environment does not change *)

Section clock.
Context {St : Type}.

Class KeepsClock {A} (m : M (Env St) A) : Prop :=
  keeps_clock : forall e, env_clock (m e).2 = env_clock e.

#[global] Instance kc_ret {A} (a : A) : KeepsClock (mret a).
Proof. done. Qed.
#[global] Instance kc_bind {A B} (m : M (Env St) A) (k : A -> M (Env St) B) :
  KeepsClock m -> (forall a, KeepsClock (k a)) -> KeepsClock (m ≫= k).
Proof.
  intros Hm Hk e. unfold mbind, M_bind. specialize (Hm e). destruct (m e) as [a e'].
  by rewrite (Hk a e').
Qed.
#[global] Instance kc_store {A} (m : M St A) : KeepsClock (on_store m).
Proof. intros e. unfold on_store, zoom. by destruct (m (env_store e)). Qed.
#[global] Instance kc_emit ops : KeepsClock (emit ops).
Proof. done. Qed.
#[global] Instance kc_now : KeepsClock time_Now.
Proof. done. Qed.
#[global] Instance kc_forM {A} (l : list A) f :
  (forall x, KeepsClock (f x)) -> KeepsClock (forM l f).
Proof. intros Hf. induction l; simpl; apply _. Qed.
End clock.

Section reconcile_clock.
Context {St : Type} `{JobStore St, NodeStore St}.

#[global] Instance kc_reconcile_job dead (v : Job) : KeepsClock (St:=St) (reconcile_job dead v).
Proof. unfold reconcile_job. repeat case_match; apply _. Qed.

#[global] Instance kc_reconcile cfg : KeepsClock (St:=St) (reconcileDeadNodes cfg).
Proof.
  unfold reconcileDeadNodes. apply kc_bind; [apply _|]. intros [[|id dead]|e]; try apply _.
  apply kc_bind; [apply _|]. intros [active|e]; apply _.
Qed.
End reconcile_clock.

Section clocked.
Context `{GoArch} {St : Type} `{StoreContract St}.
Context (clk : nat -> Time).
Implicit Types (J : Jobs -> Nodes -> Prop).

(** Assertions on a healthy store whose environment reads the clock [clk]. *)
Definition clk_holds J (e : Env St) : Prop := env_clock e = clk /\ on_env_store (holds true J) e.

(** The first kind of triple keeps the clock in sight, the second ends there. *)
Definition clk_triple {A} J (m : M (Env St) A) (Q : A -> Jobs -> Nodes -> Prop) : Prop :=
  hoare (clk_holds J) m (fun a => clk_holds (Q a)).
Definition clk_final {A} J (m : M (Env St) A) (Q : A -> Jobs -> Nodes -> Prop) : Prop :=
  hoare (clk_holds J) m (fun a => on_env_store (holds true (Q a))).

Lemma clk_env {A} J (m : M (Env St) A) `{!KeepsClock m} Q :
  env_triple true J m Q -> clk_triple J m Q.
Proof. intros Hm e [Hc HJ]. split; [by rewrite keeps_clock|by apply Hm]. Qed.

Lemma clk_end {A} J (m : M (Env St) A) Q : env_triple true J m Q -> clk_final J m Q.
Proof. intros Hm e [Hc HJ]. by apply Hm. Qed.

Lemma clk_bind {A B} J (m : M (Env St) A) (k : A -> M (Env St) B) R Q :
  clk_triple J m R -> (forall a, clk_final (R a) (k a) Q) -> clk_final J (m ≫= k) Q.
Proof. apply hoare_bind. Qed.

Lemma clk_now J : clk_triple J time_Now (fun t js nds => (exists k, t = clk k) /\ J js nds).
Proof. intros e [<- [Hh HJ]]. split; [done|]. split; [done|]. split; [by eexists|done]. Qed.

Lemma clk_pure {A} (P : Prop) J (m : M (Env St) A) Q :
  (P -> clk_final J m Q) -> clk_final (fun js ns => P /\ J js ns) m Q.
Proof. intros Hm e [Hc [Hh [HP HJ]]]. by apply (Hm HP). Qed.

(** A read that answers, in a chain of binds. *)
Lemma clk_answer {A B} J (m : M St (res A)) (pure : A -> Prop)
    (R : A -> Jobs -> Nodes -> Prop) (k : res A -> M (Env St) B) Q :
  env_triple true J (on_store m) (fun r js nds => exists x, r = Ok x /\ pure x /\ R x js nds) ->
  (forall x, pure x -> clk_final (R x) (k (Ok x)) Q) ->
  clk_final J (on_store m ≫= k) Q.
Proof.
  intros Hm Hk. eapply clk_bind; [apply clk_env, Hm; apply _|]. intros [x|err] e [Hc [Hh HR]].
  - destruct HR as (x' & [= <-] & Hp & HR). by apply (Hk x Hp e).
  - by destruct HR as (x' & [=] & _).
Qed.
End clocked.

(** ** Dead nodes *)

(** [k] more retries fit into the column. *)
Definition retry_left (k : Z) (js : Jobs) : Prop :=
  map_Forall (fun _ j => 0 <= j_RetryCount j /\ j_RetryCount j + k <= 2147483647) js.

Definition rows_req (js : Jobs) : Prop := map_Forall (fun _ j => req_wf (job_request j)) js.

#[global] Instance retry_left_dec k js : Decision (retry_left k js).
Proof. unfold retry_left. apply _. Defined.

Section reconcile.
Context `{GoArch} {St : Type} `{StoreContract St}.
Context (cfg : SchedulerConfig).

Record settling (rest : list Job) (js : Jobs) (nds : Nodes) : Prop := {
  se_rows : rows_req js;
  se_acc : accounted js nds;
  se_retry : retry_left 1 js;
  se_rest : Forall (fun v => forall j, js !! j_JobID v = Some j ->
              0 <= j_RetryCount j /\ j_RetryCount j + 2 <= 2147483647) rest;
  se_nodup : NoDup (map j_JobID rest)
}.

Lemma settling_skip v rest js nds : settling (v :: rest) js nds -> settling rest js nds.
Proof.
  intros [? ? ? Hr Hn]. split; try done; [by apply Forall_cons in Hr as [_ ?]|].
  simpl in Hn. by apply NoDup_cons in Hn as [_ ?].
Qed.

Lemma settling_job v rest js nds f :
  settling (v :: rest) js nds ->
  (forall j, job_request (f j) = job_request j /\ IsActive (j_Status (f j)) = false
             /\ (j_RetryCount (f j) = j_RetryCount j \/ j_RetryCount (f j) = j_RetryCount j + 1)) ->
  settling rest (alter f (j_JobID v) js) nds.
Proof.
  intros [Hrows Hacc Hret Hr Hn] Hf. apply Forall_cons in Hr as [Hv Hr].
  simpl in Hn. apply NoDup_cons in Hn as [Hni Hn]. split.
  - intros k x. rewrite lookup_alter. case_decide; [|apply Hrows]. subst.
    destruct (js !! _) as [j|] eqn:Ej; [|done]. intros [= <-].
    destruct (Hf j) as (-> & _). by eapply Hrows.
  - eapply accounted_le; [|exact Hacc]. intros d id. apply load_idle_le.
    intros j Hj. split; [by eapply Hrows|apply Hf].
  - intros k x. rewrite lookup_alter. case_decide; [|apply Hret]. subst.
    destruct (js !! _) as [j|] eqn:Ej; [|done]. intros [= <-].
    destruct (Hf j) as (_ & _ & Hc). specialize (Hv j eq_refl). lia.
  - rewrite Forall_forall in *. intros w Hw j. rewrite lookup_alter_ne; [by apply Hr|].
    intros E. apply Hni. rewrite E. by apply list_elem_of_fmap_2.
  - done.
Qed.

Lemma settling_reconcile_job dead v rest :
  env_triple true (settling (v :: rest)) (reconcile_job dead v) (fun _ => settling rest).
Proof.
  unfold reconcile_job. case_bool_decide; simpl.
  2: { apply env_ret. intros js ns. apply settling_skip. }
  destruct (j_MaxRetries v <=? j_RetryCount v).
  - eapply env_bind with (R := fun _ => settling rest); [|intros r; apply env_emit].
    eapply env_write_may; [apply UpdateStatus_ok|intros js ns; apply settling_skip|].
    intros a x a' Hs [now ->]. apply settling_job; [done|]. intros j. split_and!; auto.
  - eapply env_bind with (R := fun _ => settling rest); [|intros r; by apply env_ret].
    eapply env_write_may; [apply Requeue_ok|intros js ns; apply settling_skip|].
    intros a x a' Hs ->. apply settling_job; [done|]. intros j. split_and!; auto.
Qed.

Lemma settling_loop dead active :
  env_triple true (settling active) (forM active (reconcile_job dead)) (fun _ => settling []).
Proof.
  induction active as [|v rest IH]; simpl; [by apply env_ret|].
  eapply env_bind; [apply settling_reconcile_job|]. intros []. exact IH.
Qed.

Lemma NoDup_row_ids sts (js : Jobs) :
  map_Forall (fun id j => j_JobID j = id) js ->
  NoDup (map j_JobID (filter (has_status sts) (map snd (map_to_list js)))).
Proof.
  intros Hk. apply NoDup_map_filter. rewrite map_map.
  rewrite (map_ext_in _ fst); [apply NoDup_fst_map_to_list|].
  intros [id j] Hin%list_elem_of_In%elem_of_map_to_list. by apply Hk.
Qed.

Definition settled (js : Jobs) (nds : Nodes) : Prop :=
  map_Forall (fun id j => j_JobID j = id) js /\ rows_req js /\ accounted js nds /\ retry_left 2 js.

Lemma retry_left_le k k' js : k' <= k -> retry_left k js -> retry_left k' js.
Proof. intros Hk Hr id j Hj. specialize (Hr _ _ Hj). simpl in Hr. lia. Qed.

Lemma settled_settling js nds : settled js nds -> settling [] js nds.
Proof.
  intros (_ & Hr & Ha & Ht). split; [done..| | |apply NoDup_nil_2]; [|done].
  eapply retry_left_le; [|exact Ht]. lia.
Qed.

Lemma mark_accounted ids a : accounted (a_jobs a) (a_nodes a) ->
  accounted (a_jobs (mark_all_down ids a)) (a_nodes (mark_all_down ids a)).
Proof.
  intros Ha id n. simpl. rewrite map_lookup_imap.
  destruct (a_nodes a !! id) as [m|] eqn:Em; [|done]. simpl. intros [= <-] d.
  specialize (Ha _ _ Em d). destruct (bool_decide (id ∈ ids)); [|done]. by destruct d.
Qed.

Lemma settled_reconcile :
  env_triple true settled (reconcileDeadNodes cfg) (fun _ => settling []).
Proof.
  unfold reconcileDeadNodes. eapply env_bind with (R := fun _ => settled).
  { eapply env_write_may; [apply MarkStaleDown_ok|done|].
    intros a ids a' (Hk & Hr & Ha & Ht) [-> _]. split_and!; [done..| |done].
    by apply mark_accounted. }
  intros [[|id dead]|e]; simpl; try (apply env_ret; apply settled_settling).
  eapply env_bind with (R := fun r js nds => match r with
    | Ok active => settling active js nds | Err _ => False end).
  { eapply env_read; [apply ListByStatuses_ok| |done]. intros a l (Hk & Hr & Ha & Ht) Hl.
    split; [done|done| | |].
    - eapply retry_left_le; [|exact Ht]. lia.
    - apply Forall_forall. intros v _ j Hj. by eapply Ht.
    - rewrite Hl. by apply NoDup_row_ids. }
  intros [active|e]; [apply settling_loop|]. by intros t [_ []].
Qed.
End reconcile.

(** ** The reads of a pass *)

Definition read_jobs (sts : list JobStatus) (l : list Job) (js : Jobs) : Prop :=
  l ≡ₚ filter (has_status sts) (map snd (map_to_list js)).
Definition read_nodes (l : list Node) (nds : Nodes) : Prop := l ≡ₚ map snd (map_to_list nds).

Abbreviation queued_only := [JobStatusQueued].
Abbreviation active_only := [JobStatusScheduled; JobStatusRunning].

Lemma read_jobs_elem sts l js j :
  map_Forall (fun id j => j_JobID j = id) js -> read_jobs sts l js -> sts <> [] ->
  j ∈ l <-> js !! j_JobID j = Some j /\ j_Status j ∈ sts.
Proof.
  intros Hk Hl Hne. unfold read_jobs in Hl. rewrite Hl, list_elem_of_filter. unfold has_status.
  rewrite list_elem_of_fmap. split.
  - intros [[?|Hs] ([id x] & -> & Hin%elem_of_map_to_list)]; [done|]. simpl in *.
    by rewrite (Hk _ _ Hin).
  - intros [Hj Hs]. split; [by right|]. exists (j_JobID j, j). split; [done|].
    by apply elem_of_map_to_list.
Qed.

(** *** What becomes of the jobs *)

(** The row of a job after its node was declared dead. *)
Inductive reconciled (dead : list string) (j : Job) : Job -> Prop :=
| rec_alive :
    IsActive (j_Status j) = false \/ j_NodeID j ∉ dead -> reconciled dead j j
| rec_failed now :
    IsActive (j_Status j) = true -> j_NodeID j ∈ dead -> j_MaxRetries j <= j_RetryCount j ->
    reconciled dead j (moved_to now JobStatusFailed j)
| rec_requeued :
    IsActive (j_Status j) = true -> j_NodeID j ∈ dead -> j_RetryCount j < j_MaxRetries j ->
    reconciled dead j (requeued JobStatusQueued j).

Section reconcile_jobs.
Context `{GoArch} {St : Type} `{StoreContract St}.
Context (cfg : SchedulerConfig) (js0 : Jobs) (ns0 : Nodes).
Context (Hkey : map_Forall (fun id j => j_JobID j = id) js0) (Hret : retry_left 1 js0).

(** [rest] are the active jobs still to be looked at. *)
Record reconciling (dead : list string) (rest : list Job) (js : Jobs) (nds : Nodes) : Prop := {
  rc_nodes : nds = a_nodes (mark_all_down dead (mkA js0 ns0 ∅));
  rc_dom : dom js = dom js0;
  rc_rest : Forall (fun v => js0 !! j_JobID v = Some v /\ js !! j_JobID v = Some v
                             /\ IsActive (j_Status v) = true) rest;
  rc_nodup : NoDup (map j_JobID rest);
  rc_rows : forall id j, js0 !! id = Some j -> id ∉ map j_JobID rest ->
    exists j', js !! id = Some j' /\ reconciled dead j j'
}.

Lemma reconciling_job dead v rest js nds f :
  reconciling dead (v :: rest) js nds -> reconciled dead v (f v) ->
  reconciling dead rest (alter f (j_JobID v) js) nds.
Proof.
  intros [Hn Hd [(Hv0 & Hv & Ha) Hr]%Forall_cons Hnd Hrows] Hf. simpl in Hnd.
  apply NoDup_cons in Hnd as [Hni Hnd]. split; [done|by rewrite dom_alter_L| |done|].
  - rewrite Forall_forall in *. intros w Hw. destruct (Hr w Hw) as (? & ? & ?). split_and!; [done| |done].
    rewrite lookup_alter_ne; [done|]. intros E. apply Hni. rewrite E. by apply list_elem_of_fmap_2.
  - intros id j Hj Hid. rewrite lookup_alter. case_decide as E.
    + subst id. rewrite Hv. rewrite Hv0 in Hj. injection Hj as <-. by exists (f v).
    + apply Hrows; [done|]. simpl. by intros [->|?]%elem_of_cons.
Qed.

Lemma reconciling_skip dead v rest js nds :
  reconciling dead (v :: rest) js nds -> j_NodeID v ∉ dead -> reconciling dead rest js nds.
Proof.
  intros [Hn Hd Hr Hnd Hrows] Hni. apply Forall_cons in Hr as [(Hv0 & Hv & Ha) Hr].
  simpl in Hnd. apply NoDup_cons in Hnd as [_ Hnd]. split; try done.
  intros id j Hj Hid. destruct (decide (id = j_JobID v)) as [->|Hne].
  - rewrite Hv0 in Hj. injection Hj as <-. exists v. split; [done|]. apply rec_alive. by right.
  - apply Hrows; [done|]. simpl. by intros [->|?]%elem_of_cons.
Qed.

Lemma reconcile_job_spec dead v rest :
  env_triple true (reconciling dead (v :: rest)) (reconcile_job dead v)
    (fun _ => reconciling dead rest).
Proof.
  unfold reconcile_job. case_bool_decide as Hin; simpl.
  2: { apply env_ret. intros js nds Hr. by eapply reconciling_skip. }
  destruct (Z.leb_spec (j_MaxRetries v) (j_RetryCount v)) as [Hle|Hlt].
  - eapply env_bind with (R := fun _ => reconciling dead rest); [|intros r; apply env_emit].
    eapply env_write; [apply UpdateStatus_ok| |done|done].
    intros a x a' Hr [now ->]. apply reconciling_job; [done|]. apply rec_failed; [|done|done].
    by pose proof (rc_rest _ _ _ _ Hr) as [(_ & _ & ?) _]%Forall_cons.
  - eapply env_bind with (R := fun _ => reconciling dead rest); [|intros r; by apply env_ret].
    eapply env_write; [apply Requeue_ok| | |done].
    + intros a x a' Hr ->. apply reconciling_job; [done|]. apply rec_requeued; [|done|done].
      by pose proof (rc_rest _ _ _ _ Hr) as [(_ & _ & ?) _]%Forall_cons.
    + intros _ a Hr j Hj.
      pose proof (rc_rest _ _ _ _ Hr) as [(Hv0 & Hv & _) _]%Forall_cons.
      rewrite Hj in Hv. injection Hv as ->. specialize (Hret _ _ Hv0). simpl in Hret.
      unfold in_int32. lia.
Qed.

Lemma reconcile_loop_spec dead active :
  env_triple true (reconciling dead active) (forM active (reconcile_job dead))
    (fun _ => reconciling dead []).
Proof.
  induction active as [|v rest IH]; simpl; [by apply env_ret|].
  eapply env_bind; [apply reconcile_job_spec|]. intros []. exact IH.
Qed.

(** The job and node tables after the dead nodes were dealt with. *)
Definition reconciled_tables (js : Jobs) (nds : Nodes) : Prop :=
  exists dead,
    Forall (fun id => exists n, ns0 !! id = Some n /\ n_Status n <> NodeStatusDown) dead
    /\ nds = a_nodes (mark_all_down dead (mkA js0 ns0 ∅)) /\ dom js = dom js0
    /\ forall id j, js0 !! id = Some j -> exists j', js !! id = Some j' /\ reconciled dead j j'.

Lemma mark_none a : a_nodes (mark_all_down [] a) = a_nodes a.
Proof.
  apply map_eq. intros k. simpl. rewrite map_lookup_imap. by destruct (a_nodes a !! k).
Qed.

Lemma reconcile_spec :
  env_triple true (fun js nds => js = js0 /\ nds = ns0) (reconcileDeadNodes cfg)
    (fun _ => reconciled_tables).
Proof.
  unfold reconcileDeadNodes.
  eapply env_bind with (R := fun r js nds => exists dead, r = Ok dead /\ js = js0
    /\ nds = a_nodes (mark_all_down dead (mkA js0 ns0 ∅))
    /\ Forall (fun id => exists n, ns0 !! id = Some n /\ n_Status n <> NodeStatusDown) dead).
  { eapply env_write; [apply MarkStaleDown_ok| |done|done].
    intros a ids a' [E1 E2] [-> Hids]. exists ids. rewrite <- E2. split_and!; [done|done| |done].
    simpl. by rewrite E2. }
  intros [[|id dead]|e]; simpl; [| |by intros t [_ (dead & [=] & _)]].
  { apply env_ret. intros js nds (dead & [= <-] & -> & -> & Hd). exists [].
    split_and!; [done..|]. intros id j Hj. exists j. split; [done|]. apply rec_alive. right.
    by intros ?%elem_of_nil. }
  eapply env_bind with (R := fun r js nds => match r with
    | Ok active => reconciling (id :: dead) active js nds
        /\ Forall (fun id => exists n, ns0 !! id = Some n /\ n_Status n <> NodeStatusDown) (id :: dead)
    | Err _ => False end).
  { eapply env_read; [apply ListByStatuses_ok| |done].
    intros a l (dead' & [= <-] & Ej & En & Hd) Hl. split; [|done].
    assert (forall v, v ∈ l <-> js0 !! j_JobID v = Some v /\ IsActive (j_Status v) = true) as Hmem.
    { intros v. rewrite <- Ej in Hkey |- *.
      rewrite (read_jobs_elem _ l _ v Hkey Hl) by done.
      by rewrite !elem_of_cons, elem_of_nil, IsActive_iff; intuition. }
    split; [done|by rewrite Ej| | |].
    - apply Forall_forall. intros v [Hv Ha]%Hmem. by rewrite Ej.
    - rewrite Hl. apply NoDup_row_ids. by rewrite Ej.
    - intros k j Hj Hnot. exists j. rewrite Ej. split; [done|]. apply rec_alive. left.
      destruct (IsActive (j_Status j)) eqn:Ha; [|done]. destruct Hnot.
      rewrite <- (Hkey _ _ Hj). apply list_elem_of_fmap_2, Hmem. by rewrite (Hkey _ _ Hj). }
  intros [active|e]; [|by intros t [_ []]].
  intros t [Hh [Hr Hd]]. destruct (reconcile_loop_spec (id :: dead) active t (conj Hh Hr)) as [Hh' Hr'].
  split; [done|]. exists (id :: dead). destruct Hr' as [Hn Hdom _ _ Hrows]. split_and!; [done..|].
  intros k j Hj. apply Hrows; [done|]. by intros ?%elem_of_nil.
Qed.
End reconcile_jobs.

Lemma read_nodes_elem l nds n :
  map_Forall (fun id n => n_NodeID n = id) nds -> read_nodes l nds ->
  n ∈ l <-> nds !! n_NodeID n = Some n.
Proof.
  intros Hk Hl. unfold read_nodes in Hl. rewrite Hl, list_elem_of_fmap. split.
  - intros ([id x] & -> & Hin%elem_of_map_to_list). simpl. by rewrite (Hk _ _ Hin).
  - intros Hn. exists (n_NodeID n, n). split; [done|]. by apply elem_of_map_to_list.
Qed.

Lemma read_nodes_NoDup l nds :
  map_Forall (fun id n => n_NodeID n = id) nds -> read_nodes l nds -> NoDup (map n_NodeID l).
Proof.
  intros Hk Hl. unfold read_nodes in Hl. rewrite Hl, map_map.
  rewrite (map_ext_in _ fst); [apply NoDup_fst_map_to_list|].
  intros [id n] Hin%list_elem_of_In%elem_of_map_to_list. by apply Hk.
Qed.

(** ** The start of the placement loop *)

Section order.
Context (alg : Algorithm) `{!LawfulAlgorithm alg}.

Lemma ordered_row t queued ctx j :
  j ∈ alg_Order alg t queued ctx ->
  exists q, q ∈ queued /\ set_EffectivePriority 0 j = set_EffectivePriority 0 q.
Proof.
  intros Hj. assert (set_EffectivePriority 0 j ∈ map (set_EffectivePriority 0) queued) as Hin.
  { rewrite <- (lawful_order t queued ctx). by apply list_elem_of_fmap_2. }
  apply list_elem_of_fmap in Hin as (q & E & Hq). by exists q.
Qed.

Lemma queued_ordered t queued ctx q :
  q ∈ queued -> exists j, j ∈ alg_Order alg t queued ctx
                          /\ set_EffectivePriority 0 j = set_EffectivePriority 0 q.
Proof.
  intros Hq. assert (set_EffectivePriority 0 q ∈ map (set_EffectivePriority 0)
    (alg_Order alg t queued ctx)) as Hin.
  { rewrite (lawful_order t queued ctx). by apply list_elem_of_fmap_2. }
  apply list_elem_of_fmap in Hin as (j & E & Hj). by exists j.
Qed.

Lemma ordered_ids t queued ctx :
  map j_JobID (alg_Order alg t queued ctx) ≡ₚ map j_JobID queued.
Proof.
  pose proof (Permutation_map j_JobID (lawful_order t queued ctx)) as Hp.
  by rewrite !map_map in Hp.
Qed.

Lemma EP_fields j q : set_EffectivePriority 0 j = set_EffectivePriority 0 q ->
  j_JobID j = j_JobID q /\ job_request j = job_request q /\ j_Priority j = j_Priority q
  /\ j_CreatedAt j = j_CreatedAt q /\ (job_wf q -> job_wf j).
Proof.
  intros E. assert (job_request j = job_request q) as Er.
  { unfold job_request. f_equal; [exact (f_equal j_GPUCount E)|exact (f_equal j_CPUCount E)
      |exact (f_equal j_MemoryGB E)]. }
  assert (j_Priority j = j_Priority q) as Ep by exact (f_equal j_Priority E).
  split_and!; [exact (f_equal j_JobID E)|done|done|exact (f_equal j_CreatedAt E)|].
  unfold job_wf. by rewrite Er, Ep.
Qed.
End order.

Section start.
Context (alg : Algorithm) `{!LawfulAlgorithm alg} (cfg : SchedulerConfig) (now t : Time).
Context (js : Jobs) (nds : Nodes) (Hbase : base_ok js nds) (Hacc : accounted js nds).
Context (nodes : list Node) (queued active : list Job) (ctx : OrderContext).
Context (Hnodes : read_nodes nodes nds) (Hqueued : read_jobs queued_only queued js).
Context (Hactive : read_jobs active_only active js).

Abbreviation ordered := (alg_Order alg t queued ctx).

Lemma rows_keyed : map_Forall (fun id j => j_JobID j = id) js.
Proof using Hbase. intros id j Hj. by apply (proj1 Hbase). Qed.

Lemma nodes_keyed : map_Forall (fun id n => n_NodeID n = id) nds.
Proof using Hbase. intros id j Hj. by apply (proj2 Hbase). Qed.

Lemma queued_row q : q ∈ queued <-> js !! j_JobID q = Some q /\ j_Status q = JobStatusQueued.
Proof using Hbase Hqueued.
  rewrite (read_jobs_elem _ _ _ q rows_keyed Hqueued) by done. by rewrite list_elem_of_singleton.
Qed.

Lemma active_row q : q ∈ active <-> js !! j_JobID q = Some q /\ IsActive (j_Status q) = true.
Proof using Hbase Hactive.
  rewrite (read_jobs_elem _ _ _ q rows_keyed Hactive) by done.
  by rewrite !elem_of_cons, elem_of_nil, IsActive_iff; intuition.
Qed.

Lemma start_books : books ordered nodes js nds.
Proof.
  pose proof nodes_keyed as Hkn. pose proof rows_keyed as Hkj. split.
  - apply Forall_forall. intros n Hn%(read_nodes_elem _ _ n Hkn Hnodes). by eapply Hacc.
  - done.
  - by eapply read_nodes_NoDup.
  - apply Forall_forall. intros j Hj. destruct (ordered_row _ _ _ _ _ Hj) as (q & Hq & E).
    apply queued_row in Hq as [Hq Hs]. destruct (EP_fields _ _ E) as (Ei & Er & _).
    exists q. by rewrite Ei.
  - rewrite (ordered_ids alg t queued ctx). unfold read_jobs in Hqueued. rewrite Hqueued. by apply NoDup_row_ids.
Qed.

Lemma start_wf : Forall job_wf ordered.
Proof.
  apply Forall_forall. intros j Hj. destruct (ordered_row _ _ _ _ _ Hj) as (q & Hq & E).
  apply queued_row in Hq as [Hq _]. destruct (EP_fields _ _ E) as (_ & _ & _ & _ & Hw).
  by apply Hw, (proj1 Hbase _ _ Hq).
Qed.

Lemma build_running_fresh l run :
  retry_room js -> Forall (fun v => v ∈ active) l -> NoDup (map j_JobID l) ->
  fresh run js -> map_Forall (fun _ k => forall v, v ∈ k -> j_JobID v ∉ map j_JobID l) run ->
  fresh (fold_left (fun m j => if String.eqb (j_NodeID j) "" then m
                               else append_running (j_NodeID j) j m) l run) js.
Proof.
  intros Hret. revert run. induction l as [|v l IH]; intros run Hl Hnd Hfr Hdis; simpl; [done|].
  apply Forall_cons in Hl as [Hv Hl]. simpl in Hnd. apply NoDup_cons in Hnd as [Hni Hnd].
  apply active_row in Hv as [Hrow Hact].
  assert (map_Forall (fun _ k => forall w, w ∈ k -> j_JobID w ∉ map j_JobID l) run) as Hdis'.
  { intros id k Hk w Hw Hin. apply (Hdis _ _ Hk w Hw). simpl. by right. }
  destruct (String.eqb (j_NodeID v) ""); apply IH; try done.
  - apply map_Forall_insert_2; [|done].
    assert (holding js (j_NodeID v) v) as Hh.
    { exists v. split_and!; [done| |done|by eapply Hret]. by apply job_on_true. }
    pose proof (proj2 (proj1 Hbase _ _ Hrow)) as Hwf.
    destruct (run !! j_NodeID v) as [k|] eqn:Ek; simpl;
      [|split; [apply NoDup_singleton|by apply Forall_singleton]].
    destruct (Hfr _ _ Ek) as [Hkn Hkf]. rewrite map_app. split.
    + apply NoDup_app. split; [done|]. split; [|apply NoDup_singleton].
      intros x (w & -> & Hw)%list_elem_of_fmap E%list_elem_of_singleton.
      apply (Hdis _ _ Ek w Hw). rewrite E. simpl. by left.
    + apply Forall_app. split; [done|]. by apply Forall_singleton.
  - apply map_Forall_insert_2; [|done]. intros w [Hw|Hw]%elem_of_app.
    + destruct (run !! j_NodeID v) as [k|] eqn:Ek; [|by apply elem_of_nil in Hw].
      by apply (Hdis' _ _ Ek).
    + by apply list_elem_of_singleton in Hw as ->.
Qed.

Lemma start_fresh : retry_room js -> fresh (build_running active) js.
Proof.
  intros Hret. apply build_running_fresh; [done| | |apply map_Forall_empty|apply map_Forall_empty].
  - by apply Forall_forall.
  - unfold read_jobs in Hactive. rewrite Hactive. by apply NoDup_row_ids, rows_keyed.
Qed.

Lemma start_ledger :
  retry_left 1 js -> (length (preemptors cfg now ordered) <= 1)%nat ->
  ledger_ok cfg now ordered (mkL nodes (build_running active) js nds).
Proof.
  intros Hret Hlen.
  assert (retry_room js) as Hroom.
  { intros id j Hj. specialize (Hret _ _ Hj). simpl in Hret. unfold in_int32. lia. }
  split; [apply start_books|apply start_wf|]. right. split_and!; [by apply start_fresh|done|done].
Qed.
End start.

(** ** A pass, for any assertion that the placement loop keeps *)

Section pass.
Context `{GoArch} {St : Type} `{StoreContract St}.
Context (alg : Algorithm) `{!LawfulAlgorithm alg} (cfg : SchedulerConfig) (clk : nat -> Time).
Context (js0 : Jobs) (ns0 : Nodes) (Hbase : base_ok js0 ns0) (Hset : settled js0 ns0).

(** The assertion may mention the clock reading of the loop, the jobs at its
    start and the order. *)
Context (P : Time -> Jobs -> list Job -> list Job -> LState -> Prop).
Context (Pstart : forall k t js nds nodes queued active ctx,
  frame js0 ns0 js nds -> settling [] js nds ->
  read_nodes nodes nds -> read_jobs queued_only queued js -> read_jobs active_only active js ->
  let ordered := alg_Order alg t queued ctx in
  P (clk k) js ordered ordered (mkL nodes (build_running active) js nds)).
Context (Pready : forall now js l job todo s,
  job_ok js0 job -> framed js0 ns0 s -> P now js l (job :: todo) s -> turn_ready cfg now job s).
Context (Pstep : forall now js l job todo s s',
  job_ok js0 job -> framed js0 ns0 s -> P now js l (job :: todo) s ->
  place_step alg cfg now job s s' -> P now js l todo s').

Definition fr_set (js : Jobs) (nds : Nodes) : Prop :=
  (frame js0 ns0 js nds /\ settling [] js nds) /\ reconciled_tables js0 ns0 js nds.

Definition pass_post (js : Jobs) (nds : Nodes) : Prop :=
  frame js0 ns0 js nds /\ exists js1 nds1, fr_set js1 nds1
  /\ ((js = js1 /\ nds = nds1 /\ read_jobs queued_only [] js1)
      \/ exists k t queued ctx s, framed js0 ns0 s /\ read_jobs queued_only queued js1
         /\ P (clk k) js1 (alg_Order alg t queued ctx) [] s
         /\ js = l_jobs s /\ nds = l_nodes s).

Lemma pass_loop k t nodes queued active ctx :
  Forall (job_ok js0) queued -> Forall (slice_ok ns0) nodes -> Forall (job_ok js0) active ->
  env_triple true
    (fun js nds => fr_set js nds /\ read_nodes nodes nds /\ read_jobs queued_only queued js
       /\ read_jobs active_only active js)
    (place_all alg cfg (alg_Order alg t queued ctx) (clk k) nodes (build_running active))
    (fun _ => pass_post).
Proof.
  intros Hq Hn Ha e [Hh (((Hf & Hs) & Hrec) & Rn & Rq & Ra)]. unfold place_all, on_env_store.
  set (js1 := a_jobs (view (env_store e))) in *. set (nds1 := a_nodes (view (env_store e))) in *.
  pose proof (loop_rule alg cfg js0 ns0 (P (clk k) js1 (alg_Order alg t queued ctx))
    (alg_Order alg t queued ctx) (clk k) (ordered_ok alg _ t queued ctx Hq)
    (Pready _ _ _) (Pstep _ _ _)) as Hloop.
  specialize (Hloop (mkTick e nodes (build_running active))).
  assert (tick_holds true (on_l (fun s => framed js0 ns0 s /\ P (clk k) js1
    (alg_Order alg t queued ctx) (alg_Order alg t queued ctx) s))
    (mkTick e nodes (build_running active))) as Hstart.
  { split; [done|]. split; [|by apply Pstart]. split; [exact Hf|]. split; [exact Hn|].
    by apply build_running_from_ok. }
  specialize (Hloop Hstart). destruct (forM _ _ _) as [[] t1].
  destruct Hloop as [Hh' [Hf' HP]]. split; [done|]. split; [apply Hf'|].
  exists js1, nds1. split; [done|]. right. by eexists k, t, queued, ctx, _.
Qed.

Lemma pass_list sts :
  sts = queued_only \/ sts = active_only -> forall J : Jobs -> Nodes -> Prop,
  (forall js nds, J js nds -> fr_set js nds) ->
  env_triple true J (on_store (ListByStatuses sts))
    (fun r js nds => exists l, r = Ok l /\ Forall (job_ok js0) l /\ read_jobs sts l js /\ J js nds).
Proof.
  intros Hsts J HJ. eapply env_read; [apply ListByStatuses_ok| |done]. intros a l Ha Hl.
  exists l. split_and!; [done| |done|done]. rewrite Hl. apply Forall_forall. intros j Hj.
  apply jobs_with_elem in Hj as [[->|Hst] [id Hid]]; [by destruct Hsts|].
  eapply frame_job_ok; [done|by apply HJ|exact Hid|]. rewrite IsActive_iff.
  destruct Hsts as [-> | ->]; rewrite ?elem_of_cons, elem_of_nil in Hst; tauto.
Qed.

(** What the reads have established when the loop starts. *)
Definition reads_ok (nodes : list Node) (queued active : list Job) (js : Jobs) (nds : Nodes) : Prop :=
  fr_set js nds /\ read_nodes nodes nds /\ read_jobs queued_only queued js
  /\ read_jobs active_only active js.

Lemma pass_order nodes queued active :
  Forall (job_ok js0) queued -> Forall (slice_ok ns0) nodes -> Forall (job_ok js0) active ->
  clk_final clk (reads_ok nodes queued active)
    (shares ← teamShares nodes;
     t0 ← time_Now;
     now ← time_Now;
     place_all alg cfg (alg_Order alg t0 queued (mkCtx shares (sc_AgingFactor cfg))) now nodes
       (build_running active);;
     mret (Ok tt))
    (fun r js nds => r = Ok tt /\ pass_post js nds).
Proof.
  intros Hq Hn Ha. eapply clk_bind with (R := fun _ => reads_ok nodes queued active).
  { apply clk_env; [unfold teamShares; apply _|]. unfold teamShares.
    eapply env_bind with (R := fun _ => reads_ok nodes queued active); [|intros r; by apply env_ret].
    eapply env_read; [apply TeamGPUUsage_ok|by intros a x HJ _|done]. }
  intros shares. eapply clk_bind; [apply clk_env, env_time_Now; apply _|]. intros t.
  eapply clk_bind; [apply clk_now|]. intros now. apply clk_pure. intros [k ->].
  apply clk_end. eapply env_bind; [by apply pass_loop|]. intros []. by apply env_ret.
Qed.

Lemma pass_Tick :
  clk_final clk (fun js nds => js = js0 /\ nds = ns0) (Tick alg cfg)
    (fun r js nds => r = Ok tt /\ pass_post js nds).
Proof.
  unfold Tick. eapply clk_bind; [apply clk_env, env_emit; apply _|]. intros [].
  eapply clk_bind with (R := fun _ => fr_set).
  { apply clk_env; [apply _|].
    eapply env_conseq with (Q' := fun _ => fr_set);
      [eapply env_conj; [eapply env_conj; [by apply frame_reconcile|apply settled_reconcile]
        |eapply (reconcile_spec cfg js0 ns0); [apply Hset|]]| |done].
    - eapply retry_left_le; [|apply Hset]. lia.
    - intros js nds [-> ->]. split; [split; [by apply frame_start|done]|done]. }
  intros []. eapply (clk_answer _ _ _ (Forall (slice_ok ns0))
    (fun l js nds => fr_set js nds /\ read_nodes l nds)).
  { eapply env_read; [apply ListNodes_ok| |done]. intros a l Ha Hl. exists l.
    split_and!; [done| |done|done]. rewrite Hl. apply Forall_forall. intros n Hn.
    apply list_elem_of_fmap in Hn as ([id n'] & -> & Hin%elem_of_map_to_list).
    eapply frame_slice_ok; [exact Hbase|apply Ha|exact Hin]. }
  intros nodes Hn. eapply (clk_answer _ _ _ (Forall (job_ok js0))).
  { apply pass_list; [by left|]. by intros js nds [? _]. }
  intros queued Hq. eapply (clk_answer _ _ _ (Forall (job_ok js0))).
  { apply pass_list; [by right|]. by intros js nds [_ [? _]]. }
  intros active Ha. eapply clk_bind; [apply clk_env, env_emit; apply _|]. intros [].
  destruct queued as [|q0 queued].
  { apply clk_end, env_ret. intros js nds (Ra & Rq & [[Hf Hs] Hrec] & Rn).
    split; [done|]. split; [done|]. exists js, nds. split; [done|]. by left. }
  intros e [Hc [Hh (Ra & Rq & Hfs & Rn)]]. by eapply pass_order.
Qed.

Lemma pass_run (e : Env St) :
  env_clock e = clk -> env_jobs e = js0 -> env_nodes e = ns0 -> healthy (env_store e) ->
  (Tick alg cfg e).1 = Ok tt /\ pass_post (env_jobs (Tick alg cfg e).2) (env_nodes (Tick alg cfg e).2).
Proof. intros Hc Hj Hn Hh. by destruct (pass_Tick e) as [_ HP]. Qed.
End pass.
