(* ===== verification/EngineTheorems.v ===== *)
(** * What a scheduling pass guarantees

    The properties of [Tick] on a healthy store, for every lawful algorithm and
    every store that meets the contract. *)

From S2P Require Import Prelude Float64 Models Config Algorithms Preemption Fragmentation Store Interfaces Engine Scenarios EngineLogic EngineFrame Ledger EngineBooks EngineRefinement EngineSafety EngineTick.

#[local] Open Scope string_scope.
#[local] Open Scope list_scope.
#[local] Open Scope Z_scope.

(** The jobs a pass may act on. *)
Definition live_jobs (js : Jobs) : list Job :=
  filter (fun j => j_Status j = JobStatusQueued \/ IsActive (j_Status j) = true)
    (map snd (map_to_list js)).

Lemma live_jobs_elem js j :
  map_Forall (fun id j => j_JobID j = id) js ->
  j ∈ live_jobs js <-> js !! j_JobID j = Some j
    /\ (j_Status j = JobStatusQueued \/ IsActive (j_Status j) = true).
Proof.
  intros Hk. unfold live_jobs. rewrite list_elem_of_filter, list_elem_of_fmap. split.
  - intros [Hs ([id x] & -> & Hin%elem_of_map_to_list)]. simpl in *. by rewrite (Hk _ _ Hin).
  - intros [Hj Hs]. split; [done|]. exists (j_JobID j, j). split; [done|].
    by apply elem_of_map_to_list.
Qed.

(** The preconditions of a pass on a healthy store. *)
Record pass_pre (js : Jobs) (ns : Nodes) : Prop := {
  pp_base : base_ok js ns;
  pp_accounted : accounted js ns;
  pp_retries : retry_left 2 js;
  pp_size : Z.of_nat (size js) <= 2147483648
}.

Lemma pass_pre_dec_holds (js : Jobs) (ns : Nodes) :
  bool_decide (base_ok js ns /\ accounted js ns /\ retry_left 2 js
               /\ Z.of_nat (size js) <= 2147483648) = true ->
  pass_pre js ns.
Proof. intros (? & ? & ? & ?)%bool_decide_eq_true. by split. Qed.

Lemma pass_settled js ns : pass_pre js ns -> settled js ns.
Proof.
  intros [[Hj Hn] Ha Hr _]. split_and!; [|by intros id j Hid; apply (Hj _ _ Hid)|done|done].
  by intros id j Hid; apply (Hj _ _ Hid).
Qed.

(** ** Accounting *)

Section accounting.
Context (alg : Algorithm) `{!LawfulAlgorithm alg} (cfg : SchedulerConfig).
Context (js0 : Jobs) (ns0 : Nodes) (Hbase : base_ok js0 ns0).

Lemma may_preempt_same now j j' :
  j_Priority j = j_Priority j' -> j_CreatedAt j = j_CreatedAt j' ->
  may_preempt cfg now j = may_preempt cfg now j'.
Proof. unfold may_preempt, shouldPreempt, Age. by intros -> ->. Qed.

Lemma ordered_preemptors now t js nds queued ctx :
  frame js0 ns0 js nds -> read_jobs queued_only queued js ->
  (length (preemptors cfg now (alg_Order alg t queued ctx))
   <= length (preemptors cfg now (live_jobs js0)))%nat.
Proof.
  intros Hf Rq. pose proof (frame_base_ok _ _ Hbase _ _ Hf) as Hb.
  pose proof (rows_keyed _ _ Hb) as Hk.
  rewrite <- (length_map j_JobID), <- (length_map j_JobID (preemptors _ _ (live_jobs js0))).
  apply submseteq_length, NoDup_submseteq.
  - apply NoDup_map_filter. rewrite (ordered_ids alg t queued ctx).
    unfold read_jobs in Rq. rewrite Rq. by apply NoDup_row_ids.
  - intros id (j & -> & [Hm Hj]%list_elem_of_filter)%list_elem_of_fmap.
    destruct (ordered_row _ _ _ _ _ Hj) as (q & Hq & E).
    apply (queued_row _ _ Hb _ Rq) in Hq as [Hrow Hst].
    destruct (EP_fields _ _ E) as (Ei & _ & Ep & Ec & _).
    destruct (frame_job_ok _ _ Hbase _ _ _ _ Hf Hrow (or_introl Hst)) as [_ [_ (j0 & Hj0 & Hl0)]].
    assert ((frozen <$> js) !! j_JobID q = Some (frozen q)) as Eq by by rewrite lookup_fmap, Hrow.
    rewrite (fr_jobs _ _ _ _ Hf), lookup_fmap, Hj0 in Eq. apply (inj Some) in Eq.
    destruct (proj1 Hbase _ _ Hj0) as [Hid0 _].
    apply list_elem_of_fmap. exists j0. rewrite Ei. split; [done|].
    apply list_elem_of_filter. split.
    + rewrite <- Hm. apply may_preempt_same; [rewrite Ep; exact (f_equal j_Priority Eq)
        |rewrite Ec; exact (f_equal j_CreatedAt Eq)].
    + apply live_jobs_elem; [by eapply rows_keyed|]. by rewrite Hid0.
Qed.
End accounting.

Section pass_accounting.
Context `{GoArch} {St : Type} `{StoreContract St}.
Context (alg : Algorithm) `{!LawfulAlgorithm alg} (cfg : SchedulerConfig).

Lemma tick_accounted (e : Env St) :
  let js := env_jobs e in
  healthy (env_store e) -> pass_pre js (env_nodes e) ->
  (forall k, (length (preemptors cfg (env_clock e k) (live_jobs js)) <= 1)%nat) ->
  (Tick alg cfg e).1 = Ok tt
  /\ base_ok (env_jobs (Tick alg cfg e).2) (env_nodes (Tick alg cfg e).2)
  /\ accounted (env_jobs (Tick alg cfg e).2) (env_nodes (Tick alg cfg e).2).
Proof.
  intros js Hh Hpre Hone. pose proof (pass_settled _ _ Hpre) as Hset.
  destruct Hpre as [Hbase Hacc Hret Hsz].
  destruct (pass_run alg cfg (env_clock e) js (env_nodes e) Hbase Hset
    (fun now _ _ todo s => ledger_ok cfg now todo s)) with (e := e) as [Hok [Hf Hend]].
  { intros k t js1 nds1 nodes queued active ctx Hf Hs Rn Rq Ra ordered.
    pose proof (frame_base_ok _ _ Hbase _ _ Hf) as Hb1.
    eapply start_ledger; try done; [apply Hs|apply Hs|].
    pose proof (ordered_preemptors alg cfg js (env_nodes e) Hbase (env_clock e k) t js1 nds1
      queued ctx Hf Rq). specialize (Hone k). subst ordered. lia. }
  { intros now ? ? job todo s ? ? ?. by eapply ledger_ready. }
  { intros now ? ? job todo s s' ? ? ? ?. by eapply ledger_step. }
  1-4: done.
  destruct Hend as (js1 & nds1 & [[Hf1 Hs1] _] & Hend).
  split; [done|]. split; [by eapply frame_base_ok|].
  destruct Hend as [(E1 & E2 & _)|(k & t & queued & ctx & s & _ & _ & HP & E1 & E2)];
    rewrite E1, E2; [apply Hs1|apply (lo_books _ _ _ _ HP)].
Qed.

(** C2: A scheduling pass on a healthy store never overcommits a node: if
    beforehand every node's free resources plus the requests of its active jobs
    stay within its capacity, and at most one live job is entitled to preempt,
    then [Tick] succeeds and the same holds afterwards, so in every dimension
    the jobs assigned to a node fit on it together. *)
Theorem tick_never_overcommits (e : Env St) :
  healthy (env_store e) -> pass_pre (env_jobs e) (env_nodes e) ->
  (forall k, (length (preemptors cfg (env_clock e k) (live_jobs (env_jobs e))) <= 1)%nat) ->
  let e' := (Tick alg cfg e).2 in
  (Tick alg cfg e).1 = Ok tt
  /\ accounted (env_jobs e') (env_nodes e')
  /\ forall id n d, env_nodes e' !! id = Some n -> load d id (env_jobs e') <= capacity d n.
Proof.
  intros Hh Hpre Hone e'. destruct (tick_accounted e Hh Hpre Hone) as (Hok & [_ Hb] & Ha).
  split_and!; [done..|]. intros id n d Hn. destruct (Hb _ _ Hn) as [<- Hw].
  apply accounted_fits; [done|]. by eapply Ha.
Qed.
End pass_accounting.

Lemma tick_never_overcommits_witness :
  load DGPU "n1" (env_jobs (Tick Priority cfg_default healthy_env).2) <= 4
  /\ (Tick Priority cfg_default healthy_env).1 = Ok tt.
Proof.
  edestruct (tick_never_overcommits Priority cfg_default healthy_env) as (Hok & _ & Hload).
  - by intros k.
  - apply pass_pre_dec_holds. vm_compute. reflexivity.
  - intros k. vm_compute. repeat constructor.
  - split; [|exact Hok].
    apply (Hload "n1" (with_jobs [victim] (node_of "n1" 4 8 64)) DGPU). vm_compute. reflexivity.
Defined.

(** Two jobs may preempt; the only victim holds the whole node. *)
Definition double_env : Env Db :=
  env_of (healthy_db (tables_of [victim; job_of "a" 4 8 64 9; job_of "b" 4 8 64 9]
                        [with_jobs [victim] (node_of "n1" 4 8 64)]) 0).

(** C39: With two jobs entitled to preempt, one pass of the engine on a healthy
    store can overcommit a node: the victim of the first preemption stays in
    the [running] map, is chosen again, and its request is released twice.  The
    node with four GPUs ends up with eight GPUs assigned, and the victim has
    used two retries. *)
Theorem double_preemption_overcommits :
  pass_pre (env_jobs double_env) (env_nodes double_env)
  /\ healthy (env_store double_env)
  /\ let e' := (Tick Priority cfg_default double_env).2 in
     load DGPU "n1" (env_jobs e') = 8
     /\ (n_GPUCapacity <$> env_nodes e' !! "n1") = Some 4
     /\ (j_RetryCount <$> env_jobs e' !! "victim") = Some 2.
Proof.
  split; [apply pass_pre_dec_holds; vm_compute; reflexivity|]. split; [by intros k|by vm_compute].
Qed.

(** ** Work conservation *)

(** The slice and the database agree on every node. *)
Record synced (sl : list Node) (nds : Nodes) : Prop := {
  sy_slice : Forall (fun n => nds !! n_NodeID n = Some n) sl;
  sy_db : forall id n, nds !! id = Some n -> n ∈ sl;
  sy_ids : NoDup (map n_NodeID sl)
}.

Lemma write_back_same n r :
  set_available (n_GPUAvailable (Reserve n r)) (n_CPUAvailable (Reserve n r))
    (n_MemoryAvailable (Reserve n r)) n = Reserve n r.
Proof. done. Qed.

Lemma lookup_write_back n r nds id :
  nds !! n_NodeID n = Some n ->
  write_back (Reserve n r) nds !! id = if decide (n_NodeID n = id) then Some (Reserve n r) else nds !! id.
Proof.
  intros Hn. unfold write_back. rewrite lookup_alter. simpl n_NodeID.
  case_decide; [|done]. by rewrite Hn.
Qed.

Lemma elem_of_alter {A} (f : A -> A) i (l : list A) x : l !! i = Some x -> f x ∈ alter f i l.
Proof. intros Hi. apply list_elem_of_lookup. exists i. by rewrite list_lookup_alter_eq, Hi. Qed.

Lemma synced_commit sl nds i n r :
  map_Forall (fun id n => n_NodeID n = id) nds ->
  synced sl nds -> sl !! i = Some n ->
  synced (alter (fun n => Reserve n r) i sl) (write_back (Reserve n r) nds).
Proof.
  intros Hk [Hsy Hdb Hnd] Hi. pose proof (Forall_lookup_1 _ _ _ _ Hsy Hi) as Hn. simpl in Hn.
  split.
  - apply Forall_lookup. intros k m. rewrite list_lookup_alter. case_decide as E.
    + subst k. rewrite Hi. intros [= <-]. rewrite lookup_write_back by done.
      by rewrite decide_True.
    + intros Hm. rewrite lookup_write_back by done. rewrite decide_False.
      * exact (Forall_lookup_1 _ _ _ _ Hsy Hm).
      * by apply (slice_distinct sl i k n m).
  - intros id m. rewrite lookup_write_back by done. case_decide as E.
    + intros [= <-]. by apply (elem_of_alter (fun n => Reserve n r)).
    + intros Hm. pose proof (Hdb _ _ Hm) as [k Hk']%list_elem_of_lookup.
      apply list_elem_of_lookup. exists k. rewrite list_lookup_alter_ne; [done|].
      intros <-. rewrite Hi in Hk'. injection Hk' as <-. by destruct E; apply Hk.
  - by rewrite slice_ids.
Qed.

(** A job of the order had its turn and was scheduled, or it fits nowhere. *)
Definition served (sl : list Node) (js : Jobs) (j : Job) : Prop :=
  (exists j', js !! j_JobID j = Some j' /\ j_Status j' = JobStatusScheduled)
  \/ Forall (fun n => Fits n (job_request j) = false) sl.

(** A row is as it was when the loop started, or was queued then and is now
    scheduled on a ready node of the slice. *)
Definition moved (js1 : Jobs) (sl : list Node) (js : Jobs) (id : string) : Prop :=
  js !! id = js1 !! id
  \/ exists j n, js1 !! id = Some j /\ j_Status j = JobStatusQueued
     /\ js !! id = Some (scheduled_on (n_NodeID n) j) /\ n ∈ sl /\ n_Status n = NodeStatusReady.

Record serving (js1 : Jobs) (l todo : list Job) (s : LState) : Prop := {
  sv_sync : synced (l_slice s) (l_nodes s);
  sv_todo : Forall (waiting (l_jobs s)) todo;
  sv_jobs : NoDup (map j_JobID todo);
  sv_served : exists d, l = d ++ todo /\ Forall (served (l_slice s) (l_jobs s)) d;
  sv_queue : forall id row, l_jobs s !! id = Some row -> j_Status row = JobStatusQueued ->
    exists j, j ∈ l /\ j_JobID j = id /\ job_request j = job_request row;
  sv_moves : forall id, moved js1 (l_slice s) (l_jobs s) id
}.

Section serving.
Context (alg : Algorithm) `{!LawfulAlgorithm alg} (cfg : SchedulerConfig).
Context (Hnopre : sc_EnablePreemption cfg = false).
Context (js0 : Jobs) (ns0 : Nodes) (Hbase : base_ok js0 ns0).
Implicit Types (s : LState) (todo l : list Job).

Lemma serving_wait js1 l job todo s :
  serving js1 l (job :: todo) s ->
  Forall (fun n => Fits n (job_request job) = false) (l_slice s) -> serving js1 l todo s.
Proof.
  intros [Hsy Ht Hj (d & El & Hd) Hq Hm] Hno. split; try done.
  - by apply Forall_cons in Ht as [_ ?].
  - simpl in Hj. by apply NoDup_cons in Hj as [_ ?].
  - exists (d ++ [job]). rewrite <- app_assoc. split; [done|]. apply Forall_app. split; [done|].
    apply Forall_singleton. by right.
Qed.

Lemma Fits_Reserve n r r' : node_wf n -> req_wf r -> Fits n r' = false -> Fits (Reserve n r) r' = false.
Proof.
  intros Hw Hr Hno. destruct (Fits (Reserve n r) r') eqn:E; [|done].
  apply Fits_dim in E as [Hs Hd]. rewrite <- Hno. symmetry. apply Fits_dim. split; [done|].
  intros d. specialize (Hd d). rewrite offered_Reserve in Hd by done.
  pose proof (asked_wf d r Hr) as Ha. unfold amount_wf in Ha. lia.
Qed.

Lemma served_commit sl js job row nodeID i j :
  Forall node_wf sl -> req_wf (job_request job) ->
  js !! j_JobID job = Some row -> j_Status row = JobStatusQueued ->
  served sl js j ->
  served (alter (fun n => Reserve n (job_request job)) i sl)
    (alter (scheduled_on nodeID) (j_JobID job) js) j.
Proof.
  intros Hw Hr Hrow Hst [(j' & Hj & Hs)|Hno].
  - left. rewrite lookup_alter. case_decide as E; [|by exists j'].
    rewrite E, Hj in Hrow. injection Hrow as ->. by rewrite Hst in Hs.
  - right. apply Forall_alter; [done|]. intros m Hm Hnf.
    apply Fits_Reserve; [|done|done]. by apply (Forall_lookup_1 _ _ _ _ Hw Hm).
Qed.

Lemma moved_commit js1 sl js job row n i id :
  js !! j_JobID job = Some row -> j_Status row = JobStatusQueued ->
  sl !! i = Some n -> Fits n (job_request job) = true -> moved js1 sl js id ->
  (forall k, moved js1 sl js k) ->
  moved js1 (alter (fun n => Reserve n (job_request job)) i sl)
    (alter (scheduled_on (n_NodeID n)) (j_JobID job) js) id.
Proof.
  intros Hrow Hst Hi Hfit Hid Hall. unfold moved. rewrite lookup_alter. case_decide as E.
  - subst id. rewrite Hrow. right. destruct Hid as [Em|(j & m & _ & _ & Hj2 & _)].
    + exists row, (Reserve n (job_request job)). rewrite <- Em, Hrow.
      split_and!; [done..| |by apply Fits_true in Hfit as [? _]].
      by apply (elem_of_alter (fun n => Reserve n (job_request job))).
    + rewrite Hrow in Hj2. injection Hj2 as ->. done.
  - destruct Hid as [Em|(j & m & Hj1 & Hq1 & Hj2 & [k Hk]%list_elem_of_lookup & Hrd)]; [by left|right].
    destruct (decide (k = i)) as [->|Hne].
    + exists j, (Reserve n (job_request job)). rewrite Hi in Hk. injection Hk as <-.
      split_and!; [done..| |done]. by apply (elem_of_alter (fun n => Reserve n (job_request job))).
    + exists j, m. split_and!; [done..| |done].
      apply list_elem_of_lookup. exists k. by rewrite list_lookup_alter_ne.
Qed.

Lemma serving_commit js1 l job todo s i n :
  framed js0 ns0 s -> req_wf (job_request job) -> serving js1 l (job :: todo) s ->
  l_slice s !! i = Some n -> Fits n (job_request job) = true ->
  serving js1 l todo (commit_step job i n s).
Proof.
  intros (Hf & Hs & _) Hr [Hsy Ht Hj (d & El & Hd) Hq Hm] Hi Hfit.
  apply Forall_cons in Ht as [(row & Hrow & Hst & Er) Ht].
  assert (Forall node_wf (l_slice s)) as Hw by (eapply Forall_impl; [exact Hs|]; by intros m [? _]).
  split.
  - apply synced_commit; [|done|done].
    intros id m Hm'. by apply (proj2 (frame_base_ok _ _ Hbase _ _ Hf)).
  - by eapply todo_other.
  - simpl in Hj. by apply NoDup_cons in Hj as [_ ?].
  - exists (d ++ [job]). rewrite <- app_assoc. split; [done|]. apply Forall_app. split.
    + eapply Forall_impl; [exact Hd|]. intros j. by eapply served_commit.
    + apply Forall_singleton. left. simpl. rewrite lookup_alter_eq, Hrow. by eexists.
  - intros id r'. simpl. rewrite lookup_alter. case_decide as E; [|apply Hq].
    subst id. rewrite Hrow. by intros [= <-].
  - intros id. by eapply moved_commit.
Qed.

Lemma serving_step now js1 l job todo s s' :
  job_ok js0 job -> framed js0 ns0 s -> serving js1 l (job :: todo) s ->
  place_step alg cfg now job s s' -> serving js1 l todo s'.
Proof.
  intros [Hr _] Hf Hsv Hst.
  destruct Hst as [s' _ [i n reason _ Hn Hfit|Hno]|plan s1 s' _ Hmay _ _ _].
  - by eapply serving_commit.
  - by eapply serving_wait.
  - unfold may_preempt in Hmay. by rewrite Hnopre in Hmay.
Qed.

Lemma serving_ready now js1 l job todo s :
  job_ok js0 job -> framed js0 ns0 s -> serving js1 l (job :: todo) s -> turn_ready cfg now job s.
Proof.
  intros [Hr _] Hf _. split; [by apply framed_slice_ready with js0 ns0|done|].
  intros plan Hmay. unfold may_preempt in Hmay. by rewrite Hnopre in Hmay.
Qed.

Lemma serving_start t js nds nodes queued active ctx :
  base_ok js nds -> accounted js nds -> read_nodes nodes nds -> read_jobs queued_only queued js ->
  serving js (alg_Order alg t queued ctx) (alg_Order alg t queued ctx)
    (mkL nodes (build_running active) js nds).
Proof.
  intros Hb Ha Rn Rq. pose proof (nodes_keyed _ _ Hb) as Hk.
  destruct (start_books alg t js nds Hb Ha nodes queued ctx Rn Rq) as [_ _ Hnd Htd Hjd].
  split; simpl; try done.
  - split; [apply Forall_forall; by intros n Hn%(read_nodes_elem _ _ n Hk Rn)| |done].
    intros id n Hn. apply (read_nodes_elem _ _ n Hk Rn). by rewrite (Hk _ _ Hn).
  - by exists [].
  - intros id row Hrow Hst. pose proof (rows_keyed _ _ Hb _ _ Hrow) as Hid. simpl in Hid.
    assert (row ∈ queued) as Hq by (apply (queued_row _ _ Hb _ Rq); by rewrite Hid).
    destruct (queued_ordered alg t queued ctx row Hq) as (j & Hj & E).
    destruct (EP_fields _ _ E) as (Ei & Er & _). exists j. by rewrite Ei.
  - intros id. by left.
Qed.
End serving.

Section pass_serving.
Context `{GoArch} {St : Type} `{StoreContract St}.
Context (alg : Algorithm) `{!LawfulAlgorithm alg} (cfg : SchedulerConfig).

(** The end of a pass without preemption: [js1] is the job table after the dead
    nodes were dealt with. *)
Record pass_end (js : Jobs) (ns : Nodes) (js' : Jobs) (ns' : Nodes) (js1 : Jobs) (nds1 : Nodes) : Prop := {
  pe_base1 : base_ok js1 nds1;
  pe_rec : reconciled_tables js ns js1 nds1;
  pe_moves : forall id, js' !! id = js1 !! id
    \/ exists j n, js1 !! id = Some j /\ j_Status j = JobStatusQueued
       /\ js' !! id = Some (scheduled_on (n_NodeID n) j)
       /\ ns' !! n_NodeID n = Some n /\ n_Status n = NodeStatusReady;
  pe_queue : forall id row, js' !! id = Some row -> j_Status row = JobStatusQueued ->
    forall k n, ns' !! k = Some n -> Fits n (job_request row) = false
}.

Lemma serving_end js0 ns0 js1 nds1 l s :
  base_ok js1 nds1 -> reconciled_tables js0 ns0 js1 nds1 -> serving js1 l [] s ->
  pass_end js0 ns0 (l_jobs s) (l_nodes s) js1 nds1.
Proof.
  intros Hb Hrec [Hsy _ _ (d & El & Hd) Hq Hm]. rewrite app_nil_r in El. subst d. split; [done|done| |].
  - intros id. destruct (Hm id) as [|(j & n & ? & ? & ? & Hin & ?)]; [by left|right].
    exists j, n. split_and!; try done. pose proof (sy_slice _ _ Hsy) as Hs.
    rewrite Forall_forall in Hs. by apply Hs.
  - intros id row Hrow Hst k n Hn. destruct (Hq _ _ Hrow Hst) as (j & Hj & <- & <-).
    rewrite Forall_forall in Hd. destruct (Hd j Hj) as [(j' & Hj' & Hs')|Hnf].
    + rewrite Hrow in Hj'. injection Hj' as ->. by rewrite Hst in Hs'.
    + rewrite Forall_forall in Hnf. apply Hnf. by eapply (sy_db _ _ Hsy).
Qed.

Lemma empty_queue_end js0 ns0 js1 nds1 :
  base_ok js1 nds1 -> reconciled_tables js0 ns0 js1 nds1 -> read_jobs queued_only [] js1 ->
  pass_end js0 ns0 js1 nds1 js1 nds1.
Proof.
  intros Hb Hrec Rq. split; [done|done|by left|]. intros id row Hrow Hst.
  assert (row ∈ ([] : list Job)) as []%elem_of_nil.
  apply (queued_row _ _ Hb _ Rq). by rewrite (rows_keyed _ _ Hb _ _ Hrow).
Qed.

Lemma tick_serving (e : Env St) :
  sc_EnablePreemption cfg = false -> healthy (env_store e) ->
  pass_pre (env_jobs e) (env_nodes e) ->
  (Tick alg cfg e).1 = Ok tt
  /\ exists js1 nds1, pass_end (env_jobs e) (env_nodes e) (env_jobs (Tick alg cfg e).2)
       (env_nodes (Tick alg cfg e).2) js1 nds1.
Proof.
  intros Hno Hh Hpre. pose proof (pass_settled _ _ Hpre) as Hset.
  destruct Hpre as [Hbase Hacc Hret Hsz].
  destruct (pass_run alg cfg (env_clock e) (env_jobs e) (env_nodes e) Hbase Hset
    (fun _ js1 l todo s => serving js1 l todo s)) with (e := e) as [Hok [Hf Hend]].
  { intros k0 t js1 nds1 nodes queued active ctx Hf Hs Rn Rq Ra ordered.
    apply serving_start; [done|by eapply frame_base_ok|apply Hs|done|done]. }
  { intros now ? ? job todo s ? ? ?. by eapply serving_ready. }
  { intros now ? ? job todo s s' ? ? ? ?. by eapply serving_step. }
  1-4: done.
  destruct Hend as (js1 & nds1 & [[Hf1 _] Hrec] & Hend). split; [done|]. exists js1, nds1.
  pose proof (frame_base_ok _ _ Hbase _ _ Hf1) as Hb1.
  destruct Hend as [(E1 & E2 & Rq)|(k & t & queued & ctx & s & _ & _ & HP & E1 & E2)];
    rewrite E1, E2; [by apply empty_queue_end|by eapply serving_end].
Qed.

(** C5: Without preemption a scheduling pass on a healthy store succeeds and is
    work conserving: a job that is still queued afterwards fits on no node of
    the cluster. *)
Theorem tick_work_conserving (e : Env St) :
  sc_EnablePreemption cfg = false -> healthy (env_store e) ->
  pass_pre (env_jobs e) (env_nodes e) ->
  let e' := (Tick alg cfg e).2 in
  (Tick alg cfg e).1 = Ok tt
  /\ forall id row nid n,
       env_jobs e' !! id = Some row -> j_Status row = JobStatusQueued ->
       env_nodes e' !! nid = Some n -> Fits n (job_request row) = false.
Proof.
  intros Hno Hh Hpre e'. destruct (tick_serving e Hno Hh Hpre) as (Hok & js1 & nds1 & Hend).
  split; [done|]. intros id row nid n Hrow Hst. by eapply (pe_queue _ _ _ _ _ _ Hend).
Qed.

(** C6: What a pass without preemption does to a job on a healthy store.  Some
    nodes that were not down are declared dead; an active job on one of them
    is failed when its retries are used up and requeued otherwise, and every
    other job is left alone; then the job stays as it is, or it is queued and
    is scheduled on a node that is ready. *)
Theorem tick_job_outcomes (e : Env St) :
  sc_EnablePreemption cfg = false -> healthy (env_store e) ->
  pass_pre (env_jobs e) (env_nodes e) ->
  let e' := (Tick alg cfg e).2 in
  exists dead,
    Forall (fun id => exists n, env_nodes e !! id = Some n /\ n_Status n <> NodeStatusDown) dead
    /\ forall id j, env_jobs e !! id = Some j -> exists j1 j',
         reconciled dead j j1 /\ env_jobs e' !! id = Some j'
         /\ (j' = j1 \/ (j_Status j1 = JobStatusQueued
             /\ exists n, env_nodes e' !! n_NodeID n = Some n /\ n_Status n = NodeStatusReady
                /\ j' = scheduled_on (n_NodeID n) j1)).
Proof.
  intros Hno Hh Hpre e'. destruct (tick_serving e Hno Hh Hpre) as (_ & js1 & nds1 & Hend).
  destruct (pe_rec _ _ _ _ _ _ Hend) as (dead & Hdead & _ & _ & Hrows). exists dead. split; [done|].
  intros id j Hj. destruct (Hrows _ _ Hj) as (j1 & Hj1 & Hr).
  destruct (pe_moves _ _ _ _ _ _ Hend id) as [E|(j2 & n & Hj2 & Hq & Hj' & Hn & Hrd)].
  - exists j1, j1. subst e'. rewrite E. auto.
  - rewrite Hj1 in Hj2. injection Hj2 as <-. exists j1, (scheduled_on (n_NodeID n) j1).
    split_and!; [done..|]. right. split; [done|]. by exists n.
Qed.

(** C7: Dead-node reconciliation on a healthy store: it marks down some nodes
    that were not down and leaves the others alone; an active job assigned to
    one of them is failed when its retries are used up and goes back to the
    queue with one retry more otherwise; every other job stays as it is. *)
Theorem reconcile_dead_nodes (e : Env St) :
  healthy (env_store e) -> base_ok (env_jobs e) (env_nodes e) -> retry_left 1 (env_jobs e) ->
  let e' := (reconcileDeadNodes cfg e).2 in
  exists dead,
    Forall (fun id => exists n, env_nodes e !! id = Some n /\ n_Status n <> NodeStatusDown) dead
    /\ env_nodes e' = a_nodes (mark_all_down dead (view (env_store e)))
    /\ dom (env_jobs e') = dom (env_jobs e)
    /\ forall id j, env_jobs e !! id = Some j ->
         exists j', env_jobs e' !! id = Some j' /\ reconciled dead j j'.
Proof.
  intros Hh Hb Hr. assert (on_env_store (holds true (fun js nds => js = env_jobs e
    /\ nds = env_nodes e)) e) as Hst by done.
  by destruct (reconcile_spec cfg (env_jobs e) (env_nodes e) (rows_keyed _ _ Hb) Hr e Hst) as [_ HQ].
Qed.
End pass_serving.

(** The scenario once more, without preemption: job [a] waits, [b] runs on n2. *)
Lemma tick_work_conserving_witness :
  Fits (Reserve (node_of "n2" 2 8 64) (mkReq 1 2 8)) (job_request (job_of "a" 4 8 64 9)) = false.
Proof.
  refine (proj2 (tick_work_conserving Priority cfg_no_preemption healthy_env _ _ _)
    "a" (job_of "a" 4 8 64 9) "n2" _ _ _ _).
  - reflexivity.
  - by intros k.
  - apply pass_pre_dec_holds. vm_compute. reflexivity.
  - vm_compute. reflexivity.
  - reflexivity.
  - vm_compute. reflexivity.
Defined.

Lemma tick_job_outcomes_witness : exists dead j1 j',
  reconciled dead victim j1
  /\ env_jobs (Tick Priority cfg_no_preemption healthy_env).2 !! "victim" = Some j'
  /\ (j' = j1 \/ j_Status j1 = JobStatusQueued).
Proof.
  destruct (tick_job_outcomes Priority cfg_no_preemption healthy_env) as (dead & _ & Hrows).
  - reflexivity.
  - by intros k.
  - apply pass_pre_dec_holds. vm_compute. reflexivity.
  - destruct (Hrows "victim" victim) as (j1 & j' & Hr & Hj' & Hc); [vm_compute; reflexivity|].
    exists dead, j1, j'. split_and!; [done..|]. destruct Hc as [?|[? _]]; auto.
Defined.

(** A server whose clock is past the heartbeat TTL. *)
Definition stale_env : Env Db := env_of (healthy_db mixed_tables (40 * Second)).

Lemma reconcile_dead_nodes_witness : exists dead j',
  env_jobs (reconcileDeadNodes cfg_default stale_env).2 !! "victim" = Some j'
  /\ reconciled dead victim j'.
Proof.
  destruct (reconcile_dead_nodes cfg_default stale_env) as (dead & _ & _ & _ & Hrows).
  - by intros k.
  - by apply (bool_decide_unpack _); vm_compute.
  - by apply (bool_decide_unpack _); vm_compute.
  - exists dead. apply Hrows. vm_compute. reflexivity.
Defined.

(** ** One turn of the placement loop *)

Section turn.
Context `{GoArch} {St : Type} `{StoreContract St}.
Context (alg : Algorithm) `{!LawfulAlgorithm alg} (cfg : SchedulerConfig).

(** The abstract state of the loop. *)
Definition lstate (t : TickState St) : LState :=
  mkL (ts_nodes t) (ts_running t) (env_jobs (ts_env t)) (env_nodes (ts_env t)).

(** C3: On a healthy store one turn of the placement loop, with its clock
    readings, events, metrics and error branches, refines the abstract machine
    [place_step]: place the job on the node the algorithm selects, or evict the
    victims of a plan and then place it, or leave everything as it is. *)
Theorem placeOne_refines job now (t : TickState St) :
  healthy (env_store (ts_env t)) -> turn_ready cfg now job (lstate t) ->
  let t' := (placeOne alg cfg job now t).2 in
  healthy (env_store (ts_env t')) /\ place_step alg cfg now job (lstate t) (lstate t').
Proof.
  intros Hh Hr t'. assert (tick_holds true (from_l (lstate t)) t) as Hst by done.
  destruct (refine_placeOne alg cfg job now (lstate t) Hr t Hst) as [Hh' HQ].
  split; [by apply Hh'|exact HQ].
Qed.

Lemma books_one j todo ns js nds : j ∈ todo -> books todo ns js nds -> books [j] ns js nds.
Proof.
  intros Hj [? ? ? Ht _]. split; try done; [|apply NoDup_singleton].
  apply Forall_singleton. rewrite Forall_forall in Ht. by apply Ht.
Qed.

Lemma read_job_ok js nds sts l :
  base_ok js nds -> sts = queued_only \/ sts = active_only -> read_jobs sts l js ->
  Forall (job_ok js) l.
Proof.
  intros Hb Hsts Rl. apply Forall_forall. intros j0 Hj0.
  assert (sts <> []) as Hne by by destruct Hsts as [-> | ->].
  apply (read_jobs_elem _ _ _ _ (rows_keyed _ _ Hb) Rl Hne) in Hj0 as [Hrow Hst].
  eapply frame_job_ok; [exact Hb|by apply frame_start|exact Hrow|]. rewrite IsActive_iff.
  destruct Hsts as [-> | ->]; rewrite ?elem_of_cons, elem_of_nil in Hst; tauto.
Qed.

(** The first turn of a loop meets what the turns rely on. *)
Lemma first_turn js nds nodes queued active t ctx now job :
  pass_pre js nds -> read_nodes nodes nds -> read_jobs queued_only queued js ->
  read_jobs active_only active js -> job ∈ alg_Order alg t queued ctx ->
  let s := mkL nodes (build_running active) js nds in
  framed js nds s /\ job_ok js job /\ ledger_ok cfg now [job] s.
Proof.
  intros [Hb Ha Hret Hsz] Rn Rq Ra Hj s. split_and!.
  - split; [by apply frame_start|]. split.
    + apply Forall_forall. intros n Hn%(read_nodes_elem _ _ n (nodes_keyed _ _ Hb) Rn).
      eapply frame_slice_ok; [exact Hb|by apply frame_start|exact Hn].
    + apply build_running_from_ok; [by eapply read_job_ok; [|right|]|apply map_Forall_empty].
  - pose proof (ordered_ok alg js t queued ctx (read_job_ok _ _ _ _ Hb (or_introl eq_refl) Rq)) as Ho.
    rewrite Forall_forall in Ho. by apply Ho.
  - split; [eapply books_one; [exact Hj|by apply start_books]| |].
    + apply Forall_singleton. pose proof (start_wf alg t _ _ Hb queued ctx Rq) as Hw.
      rewrite Forall_forall in Hw. by apply Hw.
    + right. assert (retry_room js) as Hroom.
      { intros id x Hx. specialize (Hret _ _ Hx). simpl in Hret. unfold in_int32. lia. }
      split_and!; [by eapply start_fresh|done|]. unfold preemptors. etrans; [apply length_filter|done].
Qed.

(** C8: Preemption keeps its promise: when the engine starts the placement loop
    with accurate books and the next job fits nowhere, may preempt, and has a
    plan, then evicting the victims makes room and the job is scheduled. *)
Theorem preemption_schedules_job (e : Env St) nodes queued active t ctx now job plan :
  healthy (env_store e) -> pass_pre (env_jobs e) (env_nodes e) ->
  read_nodes nodes (env_nodes e) -> read_jobs queued_only queued (env_jobs e) ->
  read_jobs active_only active (env_jobs e) ->
  job ∈ alg_Order alg t queued ctx ->
  sc_EnablePreemption cfg && shouldPreempt cfg job now = true ->
  Forall (fun n => Fits n (job_request job) = false) nodes ->
  FindPreemption job nodes (build_running active) = Some plan ->
  let t' := (placeOne alg cfg job now (mkTick e nodes (build_running active))).2 in
  exists j, env_jobs (ts_env t') !! j_JobID job = Some j /\ j_Status j = JobStatusScheduled.
Proof.
  intros Hh Hpre Rn Rq Ra Hj Hmay Hno Hp.
  set (t0 := mkTick e nodes (build_running active)). simpl.
  destruct (first_turn _ _ _ _ _ t ctx now job Hpre Rn Rq Ra Hj) as (Hf & Hok & Hled).
  destruct Hpre as [Hb _ _ Hsz].
  pose proof (ledger_ready cfg now _ _ Hsz _ _ _ Hok Hf Hled) as Hready.
  assert (tick_holds true (from_l (lstate t0)) t0) as Hst by done.
  destruct (refine_placeOne alg cfg job now (lstate t0) Hready t0 Hst) as [_ Hstep].
  exact (preemption_places alg cfg now _ _ Hb Hsz job [] (lstate t0) _ plan
    Hok Hf Hled Hno Hmay Hp Hstep).
Qed.
End turn.

(** The full node n1 alone: job [a] evicts the victim. *)
Definition small_env : Env Db :=
  env_of (healthy_db (tables_of [victim; job_of "a" 4 8 64 9]
                        [with_jobs [victim] (node_of "n1" 4 8 64)]) 0).

Definition small_nodes : list Node := [with_jobs [victim] (node_of "n1" 4 8 64)].

Definition small_tick : TickState Db := mkTick small_env small_nodes (build_running [victim]).

(** The turn of job [a] is a preemption. *)
Lemma placeOne_refines_witness :
  place_step FirstFit cfg_default 0 (job_of "a" 4 8 64 9) (lstate small_tick)
    (lstate (placeOne FirstFit cfg_default (job_of "a" 4 8 64 9) 0 small_tick).2)
  /\ (pp_Victims <$> FindPreemption (job_of "a" 4 8 64 9) (l_slice (lstate small_tick))
        (l_run (lstate small_tick))) = Some [victim].
Proof.
  split; [|vm_compute; reflexivity].
  refine (proj2 (placeOne_refines FirstFit cfg_default (job_of "a" 4 8 64 9) 0 small_tick _ _));
    [by intros k|].
  split.
  - apply Forall_singleton. split; [by apply (bool_decide_unpack _); vm_compute|].
    vm_compute. by eexists.
  - by apply (bool_decide_unpack _).
  - intros plan _ Hp. vm_compute in Hp. injection Hp as <-. split; [|by eexists].
    split; [apply NoDup_singleton|]. apply Forall_singleton.
    split; [by apply (bool_decide_unpack _)|]. intros j Hj. vm_compute in Hj. injection Hj as <-.
    vm_compute. split; discriminate.
Defined.

Lemma preemption_schedules_job_witness : exists j,
  env_jobs (ts_env (placeOne FirstFit cfg_default (job_of "a" 4 8 64 9) 0
    (mkTick small_env small_nodes (build_running [victim]))).2) !! "a" = Some j
  /\ j_Status j = JobStatusScheduled.
Proof.
  refine (preemption_schedules_job FirstFit cfg_default small_env small_nodes
    [job_of "a" 4 8 64 9] [victim] 0 (mkCtx None f64_one) 0 (job_of "a" 4 8 64 9)
    (mkPlan 0 [victim]) _ _ _ _ _ _ _ _ _).
  - by intros k.
  - apply pass_pre_dec_holds. vm_compute. reflexivity.
  - vm_compute. reflexivity.
  - vm_compute. reflexivity.
  - vm_compute. reflexivity.
  - apply list_elem_of_singleton. reflexivity.
  - vm_compute. reflexivity.
  - apply Forall_singleton. vm_compute. reflexivity.
  - vm_compute. reflexivity.
Defined.
