(* ===== verification/GoStd.v ===== *)
(** * Standard library functions of Go that the services call

    [strconv.Atoi], [strconv.ParseBool], [strings.HasPrefix],
    [strings.TrimPrefix] and [time.Time.Format] with [time.RFC3339] in UTC. *)

From Stdlib Require Import Ascii.
From S2P Require Import Prelude Float64.

#[local] Open Scope string_scope.
#[local] Open Scope list_scope.
#[local] Open Scope Z_scope.

(** ** Strings *)

Fixpoint HasPrefix (s p : string) {struct p} : bool :=
  match p, s with
  | EmptyString, _ => true
  | String a p', String b s' => Ascii.eqb a b && HasPrefix s' p'
  | _, _ => false
  end.

Fixpoint drop_string (n : nat) (s : string) : string :=
  match n, s with S n', String _ s' => drop_string n' s' | _, _ => s end.

Definition TrimPrefix (s p : string) : string :=
  if HasPrefix s p then drop_string (String.length p) s else s.

Lemma HasPrefix_app p s : HasPrefix (p +:+ s) p = true.
Proof. induction p as [|a p IH]; simpl; [done|]. by rewrite Ascii.eqb_refl. Qed.

Lemma HasPrefix_inv s p : HasPrefix s p = true -> exists t, s = p +:+ t.
Proof.
  revert s. induction p as [|a p IH]; intros s Hs; simpl in *; [by exists s|].
  destruct s as [|b s]; [done|]. apply andb_true_iff in Hs as [->%Ascii.eqb_eq [t ->]%IH].
  by exists t.
Qed.

Lemma drop_string_app p s : drop_string (String.length p) (p +:+ s) = s.
Proof. by induction p. Qed.

Lemma TrimPrefix_app p s : TrimPrefix (p +:+ s) p = s.
Proof. unfold TrimPrefix. by rewrite HasPrefix_app, drop_string_app. Qed.

Lemma string_app_inj p s t : p +:+ s = p +:+ t -> s = t.
Proof. induction p as [|a p IH]; simpl; [done|]. intros [= ?]. auto. Qed.

(** [err.Error()], and [fmt.Errorf] with [%w] after a prefix. *)
Definition error_text (e : error) : string :=
  match e with ErrNotFound => "not found" | ErrMsg m => m end.

Definition errorf (prefix : string) (e : error) : error := ErrMsg (prefix +:+ ": " +:+ error_text e).

(** ** Integers *)

Definition digit (a : Ascii.ascii) : option Z :=
  let n := Z.of_nat (Ascii.nat_of_ascii a) in
  if (48 <=? n) && (n <=? 57) then Some (n - 48) else None.

Fixpoint parse_digits (acc : Z) (s : string) : option Z :=
  match s with
  | EmptyString => Some acc
  | String a s' => match digit a with Some d => parse_digits (acc * 10 + d) s' | None => None end
  end.

Definition parse_nat (s : string) : option Z :=
  match s with EmptyString => None | _ => parse_digits 0 s end.

(** An optional sign and decimal digits; a value out of range is an error. *)
Definition Atoi (s : string) : option Z :=
  let v := match s with
           | String "-"%char s' => Z.opp <$> parse_nat s'
           | String "+"%char s' => parse_nat s'
           | _ => parse_nat s
           end in
  match v with
  | Some z => if decide (in_int64 z) then Some z else None
  | None => None
  end.

Lemma Atoi_range s z : Atoi s = Some z -> in_int64 z.
Proof. unfold Atoi. intros E. repeat case_match; by simplify_eq. Qed.

Definition ParseBool (s : string) : option bool :=
  if existsb (String.eqb s) ["1"; "t"; "T"; "TRUE"; "true"; "True"] then Some true
  else if existsb (String.eqb s) ["0"; "f"; "F"; "FALSE"; "false"; "False"] then Some false
  else None.

(** ** Dates *)

(** Decimal digits of a non-negative number, padded with zeros to a width. *)
Fixpoint pad_digits (w : nat) (z : Z) : string :=
  match w with
  | O => if z <=? 0 then "" else pretty z
  | S w' => pad_digits w' (z / 10)
            +:+ String (Ascii.ascii_of_nat (Z.to_nat (48 + z `mod` 10))) EmptyString
  end.

(** Year, month and day of a day counted from 1970-01-01, in the proleptic
    Gregorian calendar. *)
Definition civil_of_days (days : Z) : Z * Z * Z :=
  let z := days + 719468 in
  let era := z / 146097 in
  let doe := z `mod` 146097 in
  let yoe := (doe - doe / 1460 + doe / 36524 - doe / 146096) / 365 in
  let doy := doe - (365 * yoe + yoe / 4 - yoe / 100) in
  let mp := (5 * doy + 2) / 153 in
  let d := doy - (153 * mp + 2) / 5 + 1 in
  let m := if mp <? 10 then mp + 3 else mp - 9 in
  (era * 400 + yoe + (if m <=? 2 then 1 else 0), m, d).

Definition format_year (y : Z) : string :=
  if y <? 0 then "-" +:+ pad_digits 4 (- y) else pad_digits 4 y.

(** [t.UTC().Format(time.RFC3339)] for a number of seconds since the epoch. *)
Definition format_RFC3339 (secs : Z) : string :=
  let '(y, m, d) := civil_of_days (secs / 86400) in
  let r := secs `mod` 86400 in
  format_year y +:+ "-" +:+ pad_digits 2 m +:+ "-" +:+ pad_digits 2 d
  +:+ "T" +:+ pad_digits 2 (r / 3600) +:+ ":" +:+ pad_digits 2 (r `mod` 3600 / 60)
  +:+ ":" +:+ pad_digits 2 (r `mod` 60) +:+ "Z".

Example format_epoch : format_RFC3339 0 = "1970-01-01T00:00:00Z".
Proof. reflexivity. Qed.
Example format_leap : format_RFC3339 951782399 = "2000-02-28T23:59:59Z"
  /\ format_RFC3339 951782400 = "2000-02-29T00:00:00Z"
  /\ format_RFC3339 1709251199 = "2024-02-29T23:59:59Z"
  /\ format_RFC3339 (-1) = "1969-12-31T23:59:59Z".
Proof. repeat split. Qed.
