(* ===== verification/GoParse.v ===== *)
(** * Parsing of settings: [time.ParseDuration] and [strconv.ParseFloat]

    The two parsers of Go's standard library that the configuration relies on,
    as documented and implemented there: 64-bit overflow checks, fractions of
    a unit in float64 arithmetic, correctly rounded decimal floats. *)

From Stdlib Require Import Ascii.
From S2P Require Import Prelude Float64 GoStd.

#[local] Open Scope string_scope.
#[local] Open Scope list_scope.
#[local] Open Scope Z_scope.

(** ** [time.ParseDuration] *)

(** Unsigned 64-bit wrap-around. *)
Definition wrapu64 (z : Z) : Z := z `mod` two64.

(** [leadingInt]: the parse_digits of the digits in front, [None] on overflow. *)
Fixpoint leadingInt (x : Z) (s : string) : option (Z * string) :=
  match s with
  | EmptyString => Some (x, s)
  | String a s' =>
      match digit a with
      | None => Some (x, s)
      | Some d =>
          if two63 / 10 <? x then None
          else if two63 <? x * 10 + d then None else leadingInt (x * 10 + d) s'
      end
  end.

(** [leadingFraction]: digits that would overflow are dropped. *)
Fixpoint leadingFraction (x : Z) (scale : float64) (overflow : bool) (s : string) :
    Z * float64 * string :=
  match s with
  | EmptyString => (x, scale, s)
  | String a s' =>
      match digit a with
      | None => (x, scale, s)
      | Some d =>
          if overflow || ((two63 - 1) / 10 <? x) || (two63 <? x * 10 + d)
          then leadingFraction x scale true s'
          else leadingFraction (x * 10 + d) (f64_mul scale (f64_of_int 10)) false s'
      end
  end.

Definition unit_end (a : ascii) : bool := Ascii.eqb a "." || match digit a with Some _ => true | None => false end.

(** The characters up to the next digit or dot. *)
Fixpoint span_unit (s : string) : string * string :=
  match s with
  | EmptyString => (s, s)
  | String a s' => if unit_end a then (EmptyString, s)
                   else let '(u, r) := span_unit s' in (String a u, r)
  end.

Definition unitMap (u : string) : option Z :=
  if String.eqb u "ns" then Some 1
  else if String.eqb u "us" || String.eqb u "µs" || String.eqb u "μs" then Some Microsecond
  else if String.eqb u "ms" then Some Millisecond
  else if String.eqb u "s" then Some Second
  else if String.eqb u "m" then Some Minute
  else if String.eqb u "h" then Some Hour
  else None.

(** The optional [.digits]: the fraction, its scale, whether there were digits. *)
Definition fraction (s : string) : Z * float64 * bool * string :=
  match s with
  | String a s' =>
      if Ascii.eqb a "."
      then let '(f, scale, r) := leadingFraction 0 f64_one false s' in
           (f, scale, negb (Nat.eqb (String.length r) (String.length s')), r)
      else (0, f64_one, false, s)
  | _ => (0, f64_one, false, s)
  end.

(** [uint64(float64(f) * (float64(unit) / scale))] *)
Definition fraction_units (f unit : Z) (scale : float64) : Z :=
  default 0 (f64_trunc (f64_mul (f64_of_int f) (f64_div (f64_of_int unit) scale))).

(** One number with its unit: its nanoseconds and the rest of the text. *)
Definition next_term (s : string) : option (Z * string) :=
  match s with
  | EmptyString => None
  | String c _ =>
      if negb (unit_end c) then None
      else match leadingInt 0 s with
      | None => None
      | Some (v, s1) =>
          let pre := negb (Nat.eqb (String.length s1) (String.length s)) in
          let '(f, scale, post, s2) := fraction s1 in
          if negb pre && negb post then None
          else
            let '(u, s3) := span_unit s2 in
            match u with
            | EmptyString => None
            | _ =>
                match unitMap u with
                | None => None
                | Some unit =>
                    if two63 / unit <? v then None
                    else
                      let v' := v * unit + (if 0 <? f then fraction_units f unit scale else 0) in
                      if (0 <? f) && (two63 <? v') then None else Some (v', s3)
                end
            end
      end
  end.

Inductive DurationResult := DurOk (d : Z) | DurBad | DurOutOfFuel.

(** The loop over the terms; [d] is a uint64. *)
Fixpoint duration_loop (fuel : nat) (d : Z) (s : string) : DurationResult :=
  match s, fuel with
  | EmptyString, _ => DurOk d
  | _, O => DurOutOfFuel
  | _, S fuel' =>
      match next_term s with
      | None => DurBad
      | Some (v, s') =>
          let d' := wrapu64 (d + v) in
          if two63 <? d' then DurBad else duration_loop fuel' d' s'
      end
  end.

Definition signed_duration (neg : bool) (s : string) : option Duration :=
  if String.eqb s "0" then Some 0
  else match s with
  | EmptyString => None
  | _ =>
      match duration_loop (String.length s) 0 s with
      | DurOk d => if neg then Some (neg64 (wrap64 d)) else if two63 - 1 <? d then None else Some d
      | _ => None
      end
  end.

Definition ParseDuration (s : string) : option Duration :=
  match s with
  | String "-"%char s' => signed_duration true s'
  | String "+"%char s' => signed_duration false s'
  | _ => signed_duration false s
  end.

Example duration_examples :
  ParseDuration "2s" = Some (2 * Second) /\ ParseDuration "1h15m30.918s" = Some 4530918000000
  /\ ParseDuration "-1.5h" = Some (- 5400 * Second) /\ ParseDuration ".5s" = Some (500 * Millisecond)
  /\ ParseDuration "30" = None /\ ParseDuration "1.s" = Some Second /\ ParseDuration "" = None
  /\ ParseDuration "0" = Some 0 /\ ParseDuration "3μs" = Some 3000 /\ ParseDuration "9999999h" = None
  /\ ParseDuration "-9223372036854775808ns" = Some (- two63).
Proof. vm_compute. repeat split. Qed.

(** *** Termination: every term consumes at least its unit *)

Lemma leadingInt_length x s v r : leadingInt x s = Some (v, r) -> (String.length r <= String.length s)%nat.
Proof.
  revert x. induction s as [|a s IH]; simpl; intros x; [by intros [= <- <-]|].
  destruct (digit a); [|by intros [= <- <-]]. destruct (_ <? x); [done|].
  destruct (two63 <? _); [done|]. intros Hr%IH. lia.
Qed.

Lemma leadingFraction_length x sc o s : (String.length (leadingFraction x sc o s).2 <= String.length s)%nat.
Proof.
  revert x sc o. induction s as [|a s IH]; simpl; intros x sc o; [done|].
  destruct (digit a); [|done]. destruct (_ || _); (etrans; [apply IH|lia]).
Qed.

Lemma fraction_length s : (String.length (fraction s).2 <= String.length s)%nat.
Proof.
  unfold fraction. destruct s as [|a s]; [done|]. destruct (Ascii.eqb a "."); [|done].
  pose proof (leadingFraction_length 0 f64_one false s).
  destruct (leadingFraction _ _ _ s) as [[f sc] r]. simpl in *. lia.
Qed.

Lemma span_unit_length s :
  (String.length (span_unit s).1 + String.length (span_unit s).2 = String.length s)%nat.
Proof.
  induction s as [|a s IH]; [done|]. simpl. destruct (unit_end a); [done|].
  destruct (span_unit s) as [u r]. simpl in *. lia.
Qed.

Lemma next_term_shrinks s v r : next_term s = Some (v, r) -> (String.length r < String.length s)%nat.
Proof.
  unfold next_term. destruct s as [|c s]; [done|]. destruct (unit_end c); [|done]. cbn [negb].
  destruct (leadingInt 0 (String c s)) as [[w s1]|] eqn:E; [|done]. apply leadingInt_length in E.
  pose proof (fraction_length s1) as Hf. destruct (fraction s1) as [[[f sc] post] s2].
  destruct (negb _ && negb post); [done|]. pose proof (span_unit_length s2) as Hu.
  destruct (span_unit s2) as [u s3]. destruct u as [|a u]; [done|].
  destruct (unitMap _) as [unit|]; [|done]. destruct (_ <? w); [done|].
  destruct (_ && _); [done|]. intros [= <- <-]. simpl in *. lia.
Qed.

Lemma duration_loop_fuel n d s : (String.length s <= n)%nat -> duration_loop n d s <> DurOutOfFuel.
Proof.
  revert d s. induction n as [|n IH]; intros d s Hn; (destruct s as [|c s]; [done|]); [simpl in Hn; lia|].
  cbn [duration_loop]. destruct (next_term (String c s)) as [[v r]|] eqn:E; [|done].
  apply next_term_shrinks in E. destruct (two63 <? _); [done|]. apply IH. simpl in *. lia.
Qed.

Lemma duration_loop_more n m d s :
  (String.length s <= n)%nat -> (n <= m)%nat -> duration_loop m d s = duration_loop n d s.
Proof.
  revert m d s. induction n as [|n IH]; intros m d s Hn Hm.
  { destruct s; [by destruct m|simpl in Hn; lia]. }
  destruct s as [|c s]; [by destruct m|]. destruct m as [|m]; [lia|]. cbn [duration_loop].
  destruct (next_term (String c s)) as [[v r]|] eqn:E; [|done]. apply next_term_shrinks in E.
  destruct (two63 <? _); [done|]. apply IH; simpl in *; lia.
Qed.

(** *** Digits with a unit *)

Lemma digit_range a d : digit a = Some d -> 0 <= d <= 9.
Proof. unfold digit. destruct (_ && _) eqn:E; [|done]. intros [= <-]. bool_prop. lia. Qed.

Lemma parse_digits_ge x ds v : 0 <= x -> parse_digits x ds = Some v -> x <= v.
Proof.
  revert x. induction ds as [|a ds IH]; intros x Hx; simpl; [intros [= <-]; lia|].
  destruct (digit a) as [d|] eqn:E; [|done]. apply digit_range in E. intros Hv. apply IH in Hv; lia.
Qed.

Definition no_digit (s : string) : Prop := match s with String a _ => digit a = None | _ => True end.

Lemma leadingInt_digits x ds v s :
  0 <= x <= two63 -> parse_digits x ds = Some v -> no_digit s ->
  leadingInt x (ds +:+ s) = if v <=? two63 then Some (v, s) else None.
Proof.
  revert x. induction ds as [|a ds IH]; intros x Hx; simpl.
  - intros [= <-] Hs. destruct (Z.leb_spec x two63); [|lia].
    destruct s as [|b s]; [done|]. simpl in *. by rewrite Hs.
  - destruct (digit a) as [d|] eqn:E; [|done]. apply digit_range in E. intros Hv Hs.
    pose proof (parse_digits_ge (x * 10 + d) ds v ltac:(lia) Hv). change (two63 / 10) with 922337203685477580.
    destruct (Z.ltb_spec 922337203685477580 x).
    { destruct (Z.leb_spec v two63); [lia|done]. }
    destruct (Z.ltb_spec two63 (x * 10 + d)).
    { destruct (Z.leb_spec v two63); [lia|done]. }
    apply IH; [lia|done|done].
Qed.

Lemma unitMap_some u k : unitMap u = Some k ->
  u ∈ ["ns"; "us"; "µs"; "μs"; "ms"; "s"; "m"; "h"] /\ 0 < k <= Hour.
Proof.
  unfold unitMap. intros Hk.
  repeat match goal with
  | H : context [String.eqb u ?x] |- _ => destruct (String.eqb_spec u x) as [->|]; simpl in H
  end; simplify_eq; (split; [by repeat constructor|done]).
Qed.

Lemma unit_span u k : unitMap u = Some k -> u <> "" /\ no_digit u /\ fraction u = (0, f64_one, false, u)
  /\ span_unit u = (u, "").
Proof.
  intros [Hu _]%unitMap_some. repeat (apply elem_of_cons in Hu as [->|Hu]; [by vm_compute|]).
  by apply elem_of_nil in Hu.
Qed.

Lemma length_string_app s t : String.length (s +:+ t) = (String.length s + String.length t)%nat.
Proof. induction s as [|a s IH]; simpl; [done|]. by rewrite IH. Qed.

Lemma next_term_digits ds v u k :
  ds <> "" -> parse_digits 0 ds = Some v -> unitMap u = Some k ->
  next_term (ds +:+ u) = if two63 / k <? v then None else Some (v * k, "").
Proof.
  intros Hne Hv Hu. destruct (unit_span u k Hu) as (Hu0 & Hnd & Hfr & Hsp).
  destruct (unitMap_some u k Hu) as [_ Hk].
  pose proof (leadingInt_digits 0 ds v u ltac:(lia) Hv Hnd) as Hl.
  destruct ds as [|a ds]; [done|]. change (String a ds +:+ u) with (String a (ds +:+ u)) in *.
  cbv beta iota delta [next_term].
  assert (unit_end a = true) as ->.
  { unfold unit_end. simpl in Hv. destruct (digit a); [|done]. apply orb_true_r. }
  cbn [negb]. rewrite Hl. destruct (Z.leb_spec v two63).
  - rewrite Hfr. replace (Nat.eqb _ _) with false.
    2: { symmetry. apply Nat.eqb_neq. simpl. rewrite length_string_app. lia. }
    cbn [negb andb]. rewrite Hsp. destruct u as [|b u]; [done|]. rewrite Hu.
    destruct (two63 / k <? v); [done|]. cbn. by rewrite Z.add_0_r.
  - destruct (Z.ltb_spec (two63 / k) v); [done|].
    assert (two63 / k <= two63); [apply Z.div_le_upper_bound; nia|lia].
Qed.

(** A decimal number with a unit is that many units, or an error when this
    exceeds the largest duration. *)
Lemma ParseDuration_digits ds v u k :
  ds <> "" -> parse_digits 0 ds = Some v -> unitMap u = Some k ->
  ParseDuration (ds +:+ u) = if v * k <=? two63 - 1 then Some (v * k) else None.
Proof.
  intros Hne Hv Hu. pose proof (next_term_digits ds v u k Hne Hv Hu) as Hn.
  destruct (unit_span u k Hu) as (Hu0 & _). destruct (unitMap_some u k Hu) as [_ Hk].
  pose proof (parse_digits_ge 0 ds v ltac:(lia) Hv) as Hv0.
  assert (ParseDuration (ds +:+ u) = signed_duration false (ds +:+ u)) as ->.
  { destruct ds as [|a ds]; [done|]. unfold ParseDuration. cbn [String.app]. simpl in Hv.
    destruct a as [[] [] [] [] [] [] [] []]; done. }
  unfold signed_duration. assert (String.eqb (ds +:+ u) "0" = false) as ->.
  { apply String.eqb_neq. intros E. apply (f_equal String.length) in E.
    rewrite length_string_app in E. destruct ds, u; simpl in E; done || lia. }
  destruct (ds +:+ u) as [|a s] eqn:Es; [by destruct ds|].
  cbn [String.length duration_loop]. rewrite Hn.
  pose proof (Z.mul_div_le two63 k ltac:(lia)). pose proof (Z.mul_succ_div_gt two63 k ltac:(lia)).
  destruct (Z.ltb_spec (two63 / k) v).
  { destruct (Z.leb_spec (v * k) (two63 - 1)); [nia|done]. }
  assert (0 <= v * k <= two63) as Hr by nia. cbv beta iota zeta. rewrite Z.add_0_l. unfold wrapu64.
  rewrite Z.mod_small by lia. destruct (Z.ltb_spec two63 (v * k)); [lia|].
  replace (duration_loop (String.length s) (v * k) "") with (DurOk (v * k)) by by destruct (String.length s).
  change (two63 - 1) with 9223372036854775807.
  destruct (Z.ltb_spec 9223372036854775807 (v * k)), (Z.leb_spec (v * k) 9223372036854775807); (reflexivity || (exfalso; lia)).
Qed.

Lemma duration_loop_range n d s d' : 0 <= d <= two63 -> duration_loop n d s = DurOk d' -> 0 <= d' <= two63.
Proof.
  revert d s. induction n as [|n IH]; intros d s Hd; (destruct s as [|c s]; [by intros [= <-]|]); [done|].
  cbn [duration_loop]. destruct (next_term _) as [[v r]|]; [|done]. unfold wrapu64.
  destruct (Z.ltb_spec two63 ((d + v) `mod` two64)); [done|]. apply IH.
  split; [apply Z.mod_pos_bound; lia|lia].
Qed.

Lemma signed_duration_range neg s d : signed_duration neg s = Some d -> in_int64 d.
Proof.
  unfold signed_duration. destruct (String.eqb s "0"); [intros [= <-]; unfold in_int64; lia|].
  destruct s as [|c s]; [done|]. destruct (duration_loop _ _ _) as [d'| |] eqn:E; [|done..].
  apply duration_loop_range in E; [|lia]. destruct neg.
  - intros [= <-]. apply wrap64_range.
  - destruct (Z.ltb_spec (two63 - 1) d'); [done|]. intros [= <-]. unfold in_int64. lia.
Qed.

Lemma ParseDuration_range s d : ParseDuration s = Some d -> in_int64 d.
Proof.
  unfold ParseDuration. destruct s as [|c s]; [done|].
  destruct c as [[] [] [] [] [] [] [] []]; by apply signed_duration_range.
Qed.

(** *** Printed numbers *)

Lemma digit_pretty (x : N) : (x < 10)%N -> digit (pretty_N_char x) = Some (Z.of_N x).
Proof.
  intros Hx. assert (x ∈ [0;1;2;3;4;5;6;7;8;9]%N) as Hin.
  { rewrite !elem_of_cons. lia. }
  repeat (apply elem_of_cons in Hin as [->|Hin]; [reflexivity|]). by apply elem_of_nil in Hin.
Qed.

Lemma parse_digits_pretty_go (x : N) s :
  parse_digits 0 (pretty_N_go x s) = parse_digits (Z.of_N x) s.
Proof.
  revert s. induction (N.lt_wf_0 x) as [x _ IH]; intros s.
  destruct (decide (x = 0)%N) as [->|Hx]; [by rewrite pretty_N_go_0|].
  rewrite pretty_N_go_step, IH by (try apply N.div_lt; lia). simpl.
  rewrite digit_pretty by (apply N.mod_lt; lia).
  f_equal. rewrite N2Z.inj_div, N2Z.inj_mod by lia. pose proof (Z.div_mod (Z.of_N x) 10). lia.
Qed.

Lemma pretty_N_digits (x : N) : pretty x <> "" /\ parse_digits 0 (pretty x) = Some (Z.of_N x).
Proof.
  unfold pretty, pretty_N. destruct (decide (x = 0)%N) as [->|Hx]; [done|].
  split; [|by rewrite parse_digits_pretty_go].
  intros E. pose proof (parse_digits_pretty_go x "") as Hp. rewrite E in Hp. simpl in Hp.
  simplify_eq. lia.
Qed.

(** [strconv.Itoa] and [strconv.Atoi]. *)
Lemma Atoi_pretty (z : Z) : in_int64 z -> Atoi (pretty z) = Some z.
Proof.
  intros Hz. assert (forall x : N, parse_nat (pretty x) = Some (Z.of_N x)) as Hn.
  { intros x. destruct (pretty_N_digits x) as [Hne Hv]. unfold parse_nat.
    by destruct (pretty x). }
  unfold Atoi. destruct z as [|p|p]; [reflexivity|..].
  - change (pretty (Z.pos p)) with (pretty (N.pos p)).
    assert (match pretty (N.pos p) with
            | String "-"%char s' => Z.opp <$> parse_nat s'
            | String "+"%char s' => parse_nat s'
            | _ => parse_nat (pretty (N.pos p))
            end = Some (Z.pos p)) as ->; [|by rewrite decide_True].
    specialize (Hn (N.pos p)). destruct (pretty (N.pos p)) as [|a s]; [done|].
    by destruct a as [[] [] [] [] [] [] [] []].
  - change (pretty (Z.neg p)) with (String "-"%char (pretty (N.pos p))). cbv beta iota.
    rewrite Hn. simpl. by rewrite decide_True.
Qed.

(** ** [strconv.ParseFloat] *)

(** Lower case of a letter, as [c | ('x' - 'X')]. *)
Definition lower (a : ascii) : ascii := ascii_of_N (N.lor (N_of_ascii a) 32).

Fixpoint lower_string (s : string) : string :=
  match s with EmptyString => EmptyString | String a s' => String (lower a) (lower_string s') end.

(** The value of a digit in base 10 or 16. *)
Definition base_digit (hex : bool) (a : ascii) : option Z :=
  match digit a with
  | Some d => Some d
  | None =>
      let n := Z.of_N (N_of_ascii (lower a)) in
      if hex && (97 <=? n) && (n <=? 102) then Some (n - 87) else None
  end.

(** What [readFloat] keeps of the digits: their value, their number without
    leading zeros, and the position of the point. *)
Record Digits := mkDigits {
  dg_mantissa : Z; dg_nd : Z; dg_dp : Z;
  dg_sawdot : bool; dg_sawdigits : bool; dg_underscores : bool
}.

Fixpoint read_digits (hex : bool) (g : Digits) (s : string) : Digits * string :=
  let '(mkDigits m nd dp dot dig und) := g in
  match s with
  | EmptyString => (g, s)
  | String a s' =>
      if Ascii.eqb a "_" then read_digits hex (mkDigits m nd dp dot dig true) s'
      else if Ascii.eqb a "." then
        if dot then (g, s) else read_digits hex (mkDigits m nd nd true dig und) s'
      else match base_digit hex a with
      | None => (g, s)
      | Some d =>
          if (d =? 0) && (nd =? 0) then read_digits hex (mkDigits m nd (dp - 1) dot true und) s'
          else read_digits hex (mkDigits (m * (if hex then 16 else 10) + d) (nd + 1) dp dot true und) s'
      end
  end.

(** The digits of an exponent; from 10000 on they are dropped. *)
Fixpoint read_exponent (e : Z) (und : bool) (s : string) : Z * bool * string :=
  match s with
  | EmptyString => (e, und, s)
  | String a s' =>
      if Ascii.eqb a "_" then read_exponent e true s'
      else match digit a with
      | None => (e, und, s)
      | Some d => read_exponent (if e <? 10000 then e * 10 + d else e) und s'
      end
  end.

(** The optional exponent, mandatory in base 16. *)
Definition exponent (hex : bool) (s : string) : option (Z * bool * string) :=
  match s with
  | String a s1 =>
      if Ascii.eqb (lower a) (if hex then "p" else "e") then
        let '(esign, s2) := match s1 with
                            | String "+"%char s2 => (1, s2)
                            | String "-"%char s2 => (-1, s2)
                            | _ => (1, s1)
                            end in
        match s2 with
        | String c _ =>
            match digit c with
            | Some _ => let '(e, und, r) := read_exponent 0 false s2 in Some (esign * e, und, r)
            | None => None
            end
        | _ => None
        end
      else if hex then None else Some (0, false, s)
  | _ => if hex then None else Some (0, false, s)
  end.

Inductive Prev := PrevStart | PrevDigit | PrevUnderscore | PrevOther.

Fixpoint underscores_ok (hex : bool) (p : Prev) (s : string) : bool :=
  match s with
  | EmptyString => match p with PrevUnderscore => false | _ => true end
  | String a s' =>
      match base_digit hex a with
      | Some _ => underscores_ok hex PrevDigit s'
      | None =>
          if Ascii.eqb a "_"
          then match p with PrevDigit => underscores_ok hex PrevUnderscore s' | _ => false end
          else match p with PrevUnderscore => false | _ => underscores_ok hex PrevOther s' end
      end
  end.

(** Correctly rounded [mantissa * 10 ^ exp]; the decimal point beyond these
    positions overflows or underflows, as in [decimal.floatBits]. *)
Definition round_decimal (neg : bool) (g : Digits) (dp : Z) : float64 :=
  let exp := dp - dg_nd g in
  match dg_mantissa g with
  | Zpos m =>
      if 310 <? dp then S754_infinity neg
      else if dp <? -330 then S754_zero neg
      else if 0 <=? exp
      then binary_normalize 53 1024 ((if neg then Z.neg m else Z.pos m) * 10 ^ exp) 0 neg
      else let '(q, e, l) := SFdiv_core_binary 53 1024 (Z.pos m) 0 (10 ^ (- exp)) 0 in
           binary_round_aux 53 1024 neg q e l
  | _ => S754_zero neg
  end.

(** Correctly rounded [mantissa * 2 ^ exp]. *)
Definition round_hex (neg : bool) (g : Digits) (dp : Z) : float64 :=
  binary_normalize 53 1024 (if neg then - dg_mantissa g else dg_mantissa g) (dp - 4 * dg_nd g) neg.

(** A number after its sign; a result that overflows is an error. *)
Definition parse_number (neg : bool) (s : string) : option float64 :=
  let '(hex, body) := match s with
                      | String "0"%char (String x s') =>
                          if Ascii.eqb (lower x) "x" then (true, s') else (false, s)
                      | _ => (false, s)
                      end in
  let '(g, s1) := read_digits hex (mkDigits 0 0 0 false false false) body in
  if negb (dg_sawdigits g) then None
  else
    let dp := (if dg_sawdot g then dg_dp g else dg_nd g) * (if hex then 4 else 1) in
    match exponent hex s1 with
    | Some (e, und, EmptyString) =>
        if (dg_underscores g || und)
           && negb (underscores_ok hex (if hex then PrevDigit else PrevStart) body)
        then None
        else match (if hex then round_hex else round_decimal) neg g (dp + e) with
             | S754_infinity _ => None
             | f => Some f
             end
    | _ => None
    end.

Definition is_inf (s : string) : bool :=
  String.eqb (lower_string s) "inf" || String.eqb (lower_string s) "infinity".

Definition ParseFloat (s : string) : option float64 :=
  if String.eqb (lower_string s) "nan" then Some S754_nan
  else match s with
  | String "-"%char s' => if is_inf s' then Some (S754_infinity true) else parse_number true s'
  | String "+"%char s' => if is_inf s' then Some (S754_infinity false) else parse_number false s'
  | _ => if is_inf s then Some (S754_infinity false) else parse_number false s
  end.

Example float_examples :
  ParseFloat "1.0" = Some f64_one
  /\ ParseFloat "32.77" = Some (S754_finite false 4611967493404099 (-47))
  /\ ParseFloat "0.1" = Some (f64_div f64_one (f64_of_int 10))
  /\ ParseFloat "-2.5e-3" = Some (f64_div (f64_of_int (-25)) (f64_of_int 10000))
  /\ ParseFloat "1e400" = None /\ ParseFloat "1e-400" = Some f64_zero
  /\ ParseFloat "0x1.8p1" = Some (f64_of_int 3) /\ ParseFloat "-0" = Some (S754_zero true)
  /\ ParseFloat "1_000" = Some (f64_of_int 1000) /\ ParseFloat "1__0" = None
  /\ ParseFloat "-Inf" = Some (S754_infinity true) /\ ParseFloat "+nan" = None
  /\ ParseFloat "" = None /\ ParseFloat "." = None /\ ParseFloat "1.5x" = None
  /\ ParseFloat "4.9e-324" = Some (S754_finite false 1 (-1074)).
Proof. vm_compute. repeat split. Qed.
