(* ===== verification/Redis.v ===== *)
(** * Redis, as the program uses it

    Redis is a separate service, reached through the go-redis library.  The
    class [RedisLists] states the documented behaviour of the list commands that
    the log cache sends, with the expiry of keys, at given readings of the
    server's clock; a concrete instance on finite maps satisfies it.  Redis keeps
    expiry times in milliseconds: a key is there before its expiry time, and gone
    one millisecond after it.  Connections may lose a pipeline half way. *)

From S2P Require Import Prelude Float64.

#[local] Open Scope string_scope.
#[local] Open Scope list_scope.
#[local] Open Scope Z_scope.

(** ** Lists *)

(** The elements that LRANGE and LTRIM select: offsets count from zero,
    negative ones from the end, and out-of-range ones are clamped. *)
Definition redis_range {A} (start stop : Z) (l : list A) : list A :=
  let len := Z.of_nat (length l) in
  let start := if start <? 0 then Z.max 0 (len + start) else start in
  let stop := if stop <? 0 then len + stop else Z.min stop (len - 1) in
  if (stop <? start) then [] else take (Z.to_nat (stop - start + 1)) (drop (Z.to_nat start) l).

(** A key that holds a list: its elements, and when it expires. *)
Abbreviation Entry := (list string * option Time)%type (only parsing).

Definition expires_after (t : Time) (e : option Time) : Prop :=
  match e with Some x => t < x | None => True end.

Class RedisLists (R : Type) := {
  r_get : Time -> string -> R -> option Entry;         (* what is at a key at a time *)
  r_RPush : string -> string -> Time -> R -> R;
  r_LTrim : string -> Z -> Z -> Time -> R -> R;
  r_Expire : string -> Duration -> Time -> R -> R;
  (* time passes without a command *)
  r_get_mono : forall t t' k e r, t <= t' -> r_get t' k r = Some e -> r_get t k r = Some e;
  r_get_live : forall t t' k l e r, t <= t' -> r_get t k r = Some (l, e) ->
    expires_after t' e -> r_get t' k r = Some (l, e);
  r_get_gone : forall t t' k l x r, r_get t k r = Some (l, Some x) ->
    x + Millisecond <= t' -> r_get t' k r = None;
  (* the commands, at the time they run; a push keeps the expiry of the key *)
  r_RPush_get : forall t k k' v r,
    r_get t k' (r_RPush k v t r)
    = if String.eqb k k'
      then Some match r_get t k r with Some (l, e) => (l ++ [v], e) | None => ([v], None) end
      else r_get t k' r;
  r_LTrim_get : forall t k k' a b r,
    r_get t k' (r_LTrim k a b t r)
    = if String.eqb k k'
      then match r_get t k r with
           | Some (l, e) => match redis_range a b l with [] => None | l' => Some (l', e) end
           | None => None
           end
      else r_get t k' r;
  (* a timeout in whole seconds, as EXPIRE takes it; one that is not positive
     deletes the key *)
  r_Expire_get : forall t k d r, Z.rem d Second = 0 ->
    r_get t k (r_Expire k d t r)
    = match r_get t k r with
      | Some (l, _) => if d <=? 0 then None else Some (l, Some (t + d))
      | None => None
      end;
  r_Expire_other : forall t k k' d r, k <> k' -> r_get t k' (r_Expire k d t r) = r_get t k' r
}.

(** LRANGE; an absent key is an empty list. *)
Definition r_LRange {R} `{RedisLists R} (k : string) (start stop : Z) (t : Time) (r : R) : list string :=
  match r_get t k r with Some (l, _) => redis_range start stop l | None => [] end.

(** ** Leases

    What the documentation of go-redis and Redis says about [SetNX] with a lease.
    Redis refuses an expiry that is not positive; for go-redis, 0 asks for a key
    that does not expire and -1 ([redis.KeepTTL]) for a key that keeps its expiry,
    of which a new key has none. *)
Definition can_acquire (ttl : Duration) : bool := -1 <=? ttl.

(** A lease is sent in whole milliseconds, at least one. *)
Definition granted (ttl : Duration) : Duration := Z.max 1 (Z.quot ttl Millisecond) * Millisecond.

Lemma granted_pos ttl : 0 < granted ttl.
Proof. unfold granted, Millisecond. lia. Qed.

Definition lastn {A} (n : nat) (l : list A) : list A := drop (length l - n) l.

Lemma lastn_all {A} n (l : list A) : (length l <= n)%nat -> lastn n l = l.
Proof. intros Hl. unfold lastn. replace (length l - n)%nat with 0%nat by lia. done. Qed.

Lemma length_lastn {A} n (l : list A) : length (lastn n l) = Nat.min n (length l).
Proof. unfold lastn. rewrite length_drop. lia. Qed.

Lemma lastn_app_lastn {A} n (l k : list A) : lastn n (lastn n l ++ k) = lastn n (l ++ k).
Proof.
  unfold lastn. rewrite !length_app, length_drop.
  destruct (decide (length l <= n)%nat) as [Hle|Hgt].
  - replace (length l - n)%nat with 0%nat by lia. simpl. f_equal. lia.
  - replace (drop (length l - n) l ++ k) with (drop (length l - n) (l ++ k))
      by (apply drop_app_le; lia).
    rewrite drop_drop. f_equal. lia.
Qed.

(** A range of the form [-n .. -1] is the last [n] elements. *)
Lemma redis_range_last {A} n (l : list A) :
  0 < n -> redis_range (- n) (-1) l = lastn (Z.to_nat n) l.
Proof.
  intros Hn. unfold redis_range, lastn.
  replace (- n <? 0) with true by (symmetry; apply Z.ltb_lt; lia).
  change (-1 <? 0) with true. cbv iota.
  destruct (Z.ltb_spec (Z.of_nat (length l) + -1) (Z.max 0 (Z.of_nat (length l) + - n))).
  - destruct l as [|x l]; [by rewrite drop_nil|]. simpl length in *. lia.
  - rewrite take_ge; [f_equal; lia|]. rewrite length_drop. lia.
Qed.

(** A concrete server. *)
Definition get_entry (t : Time) (k : string) (r : gmap string Entry) : option Entry :=
  match r !! k with
  | Some (l, Some x) => if t <? x then Some (l, Some x) else None
  | e => e
  end.

Definition put_entry (k : string) (e : option Entry) (r : gmap string Entry) : gmap string Entry :=
  match e with Some e => <[k := e]> r | None => delete k r end.

Lemma get_put_entry t k k' e r :
  (forall l x, e = Some (l, Some x) -> t < x) ->
  get_entry t k' (put_entry k e r) = if String.eqb k k' then e else get_entry t k' r.
Proof.
  intros He. unfold get_entry, put_entry. destruct (String.eqb_spec k k') as [->|Hne].
  - destruct e as [[l [x|]]|]; rewrite ?lookup_insert_eq, ?lookup_delete_eq; try done.
    destruct (Z.ltb_spec t x); [done|]. specialize (He l x eq_refl). lia.
  - destruct e; by rewrite ?lookup_insert_ne, ?lookup_delete_ne.
Qed.

Lemma get_entry_live t k r l x : get_entry t k r = Some (l, Some x) -> t < x.
Proof.
  unfold get_entry. destruct (r !! k) as [[l' [x'|]]|]; [|done..].
  destruct (Z.ltb_spec t x'); [|done]. intros [= -> ->]. done.
Qed.

Definition push_entry (v : string) (e : option Entry) : option Entry :=
  Some match e with Some (l, x) => (l ++ [v], x) | None => ([v], None) end.
Definition trim_entry (a b : Z) (e : option Entry) : option Entry :=
  match e with
  | Some (l, x) => match redis_range a b l with [] => None | l' => Some (l', x) end
  | None => None
  end.
Definition expire_entry (d : Duration) (t : Time) (e : option Entry) : option Entry :=
  match e with
  | Some (l, _) => if d <=? 0 then None else Some (l, Some (t + d))
  | None => None
  end.

Lemma get_expire_entry t k k' d r :
  get_entry t k' (put_entry k (expire_entry d t (get_entry t k r)) r)
  = if String.eqb k k' then expire_entry d t (get_entry t k r) else get_entry t k' r.
Proof.
  apply get_put_entry. intros l x E.
  destruct (get_entry t k r) as [[l' e']|]; [|done]. simpl in E.
  destruct (Z.leb_spec d 0); simplify_eq. lia.
Qed.

Definition redis_lists : RedisLists (gmap string Entry).
Proof.
  refine {|
    r_get := get_entry;
    r_RPush k v t r := put_entry k (push_entry v (get_entry t k r)) r;
    r_LTrim k a b t r := put_entry k (trim_entry a b (get_entry t k r)) r;
    r_Expire k d t r := put_entry k (expire_entry d t (get_entry t k r)) r
  |}.
  - intros t t' k e r Ht. unfold get_entry. destruct (r !! k) as [[l [x|]]|]; [|done..].
    destruct (Z.ltb_spec t x), (Z.ltb_spec t' x); done || lia.
  - intros t t' k l e r Ht. unfold get_entry. destruct (r !! k) as [[l' [x|]]|]; [| |done].
    + destruct (Z.ltb_spec t x); [|done]. intros [= -> <-] Hx. simpl in Hx.
      destruct (Z.ltb_spec t' x); [done|lia].
    + by intros [= -> <-].
  - intros t t' k l x r. unfold get_entry. destruct (r !! k) as [[l' [x'|]]|]; [|done..].
    destruct (Z.ltb_spec t x'); [|done]. intros [= -> ->] Hx. unfold Millisecond in Hx.
    destruct (Z.ltb_spec t' x); [lia|done].
  - intros t k k' v r. apply get_put_entry. intros l x [= E].
    destruct (get_entry t k r) as [[l' e']|] eqn:Eg; simplify_eq. by eapply get_entry_live.
  - intros t k k' a b r. apply get_put_entry. intros l x E.
    destruct (get_entry t k r) as [[l' e']|] eqn:Eg; [|done].
    destruct (redis_range a b l'); simplify_eq. by eapply get_entry_live.
  - intros t k d r _. by rewrite get_expire_entry, String.eqb_refl.
  - intros t k k' d r Hne. rewrite get_expire_entry. by rewrite (proj2 (String.eqb_neq k k') Hne).
Defined.

(** ** Connections

    A pipeline that fails may have executed any prefix of its commands.
    [rd_clock k i] is the server's clock at the command [i] of call [k]. *)

Inductive PipeFate := PipeDone | PipeLost (executed : nat).

Record RedisConn (R : Type) := mkConn {
  rd_state : R;
  rd_calls : nat;
  rd_fate : nat -> PipeFate;
  rd_clock : nat -> nat -> Time
}.
Arguments mkConn {R}.
Arguments rd_state {R}.
Arguments rd_calls {R}.
Arguments rd_fate {R}.
Arguments rd_clock {R}.

Fixpoint run_commands {R} (clock : nat -> Time) (cmds : list (Time -> R -> R)) (r : R) : R :=
  match cmds with
  | [] => r
  | c :: cmds' => run_commands (fun i => clock (S i)) cmds' (c (clock 0%nat) r)
  end.

(** [pipe.Exec] *)
Definition pipe_Exec {R} (cmds : list (Time -> R -> R)) : M (RedisConn R) (res unit) := fun c =>
  let next r := mkConn r (S (rd_calls c)) (rd_fate c) (rd_clock c) in
  let clock := rd_clock c (rd_calls c) in
  match rd_fate c (rd_calls c) with
  | PipeDone => (Ok tt, next (run_commands clock cmds (rd_state c)))
  | PipeLost k => (Err (ErrMsg "redis: connection error"),
                   next (run_commands clock (take k cmds) (rd_state c)))
  end.

(** A single command that reads. *)
Definition redis_read {R A} (f : Time -> R -> A) : M (RedisConn R) (res A) := fun c =>
  let c' := mkConn (rd_state c) (S (rd_calls c)) (rd_fate c) (rd_clock c) in
  match rd_fate c (rd_calls c) with
  | PipeDone => (Ok (f (rd_clock c (rd_calls c) 0%nat) (rd_state c)), c')
  | PipeLost _ => (Err (ErrMsg "redis: connection error"), c')
  end.
