(* ===== verification/NodeServer.v ===== *)
(** * The node service: [internal/grpc/server.go]

    The handlers that node agents call: register, heartbeat, fetch assignments,
    report job status, stream logs.  They run against the repositories of
    [Store] and, for logs, a Redis connection; a nil [*redis.Client] is [None].
    Protobuf messages are records, a message field that may be nil is an
    option, and the generated getters return zero values on nil. *)

From S2P Require Import Prelude Float64 Models Store Interfaces Engine GoStd Redis.

#[local] Open Scope string_scope.
#[local] Open Scope list_scope.
#[local] Open Scope Z_scope.

(** ** Messages

    With the fields the handlers read: the utilization of a heartbeat, the
    message and exit code of a status update and the node of a log line are
    sent by the agent and ignored by the service. *)

Record Resources := mkRes { pb_Gpu : Z; pb_Cpu : Z; pb_MemoryGb : Z }.

Definition GetGpu (r : option Resources) : Z := default 0 (pb_Gpu <$> r).
Definition GetCpu (r : option Resources) : Z := default 0 (pb_Cpu <$> r).
Definition GetMemoryGb (r : option Resources) : Z := default 0 (pb_MemoryGb <$> r).

Record RegisterRequest := mkRegister {
  rq_NodeId : string;
  rq_Hostname : string;
  rq_Capacity : option Resources;
  rq_GpuModel : string;
  rq_CostPerHour : float64;
  rq_Spot : bool;
  rq_Labels : gmap string string
}.

Record RegisterResponse := mkRegisterResp { rp_Accepted : bool; rp_Message : string }.

Record PbJob := mkPbJob {
  pj_JobId : string;
  pj_Name : string;
  pj_Image : string;
  pj_Command : string;
  pj_Request : option Resources;
  pj_Priority : Z
}.

Record JobStatusUpdate := mkUpdate { ju_JobId : string; ju_NodeId : string; ju_Status : string }.

Record LogLine := mkLine { ll_JobId : string; ll_TimestampUnixMs : Z; ll_Line : string }.

(** Go's zero [time.Time], in nanoseconds since 1970. *)
Definition time_zero : Time := -62135596800 * Second.

(** ** State *)

Record NodeServer (R : Type) := mkServer {
  ns_db : Db;
  ns_redis : option (RedisConn R);
  ns_metrics : option (list MetricOp)
}.
Arguments mkServer {R}.
Arguments ns_db {R}.
Arguments ns_redis {R}.
Arguments ns_metrics {R}.

Section server.
Context `{PgEnv} {R : Type} `{RedisLists R}.

Definition on_db {A} (m : M Db A) : M (NodeServer R) A :=
  zoom ns_db (fun db s => mkServer db (ns_redis s) (ns_metrics s)) m.

Definition srv_emit (ops : list MetricOp) : M (NodeServer R) unit :=
  modify (fun s => mkServer (ns_db s) (ns_redis s) ((fun l => l ++ ops) <$> ns_metrics s)).

(** ** Nodes *)

Definition register_node (req : RegisterRequest) : Node :=
  let c := rq_Capacity req in
  mkNode (rq_NodeId req) (rq_Hostname req) NodeStatusReady (GetGpu c) (GetGpu c) (GetCpu c)
    (GetCpu c) (GetMemoryGb c) (GetMemoryGb c) (rq_GpuModel req) (rq_CostPerHour req) (rq_Spot req)
    (rq_Labels req) time_zero time_zero.

Definition Register (req : RegisterRequest) : M (NodeServer R) (res RegisterResponse) :=
  r ← on_db (with_prefix "register node: " (node_Upsert (register_node req)));
  mret match r with
       | Err e => Err e
       | Ok _ => Ok (mkRegisterResp true "registered")
       end.

(** The response is the desired status. *)
Definition Heartbeat (nodeID : string) : M (NodeServer R) (res string) :=
  r ← on_db (node_Heartbeat nodeID);
  match r with
  | Err ErrNotFound => mret (Ok "unregistered")
  | Err e => mret (Err e)
  | Ok _ =>
      rn ← on_db (node_Get nodeID);
      mret (Ok match rn with Ok n => n_Status n | Err _ => "" end)
  end.

(** ** Jobs *)

Definition pb_job (j : Job) : PbJob :=
  mkPbJob (j_JobID j) (j_Name j) (j_Image j) (j_Command j)
    (Some (mkRes (wrap32 (j_GPUCount j)) (wrap32 (j_CPUCount j)) (wrap32 (j_MemoryGB j))))
    (wrap32 (j_Priority j)).

Definition GetAssignments (nodeID : string) : M (NodeServer R) (res (list PbJob)) :=
  r ← on_db (job_ListScheduledForNode nodeID);
  mret match r with Err e => Err e | Ok jobs => Ok (map pb_job jobs) end.

(** The shared steps of [releaseAndFinalize] and [handleCancelJob]: give the
    job's request back to its node. *)
Definition release_to_node (job : Job) : M Db unit :=
  rn ← node_Get (j_NodeID job);
  match rn with
  | Err _ => mret tt
  | Ok node =>
      let node := Release node (job_request job) in
      _ ← node_UpdateAvailability (n_NodeID node) (n_GPUAvailable node) (n_CPUAvailable node)
            (n_MemoryAvailable node);
      mret tt
  end.

Definition releaseAndFinalize (job : Job) (status : JobStatus) : M Db (res unit) :=
  (if String.eqb (j_NodeID job) "" then mret tt else release_to_node job);;
  job_UpdateStatus (j_JobID job) status.

Definition UpdateJobStatus (req : JobStatusUpdate) : M (NodeServer R) (res unit) :=
  let status := ju_Status req in
  rj ← on_db (job_Get (ju_JobId req));
  match rj with
  | Err e => mret (Err e)
  | Ok job =>
      if String.eqb status JobStatusRunning then
        on_db (job_UpdateStatus (j_JobID job) JobStatusRunning)
      else if String.eqb status JobStatusCompleted || String.eqb status JobStatusFailed then
        r ← on_db (releaseAndFinalize job status);
        match r with
        | Err e => mret (Err e)
        | Ok _ => srv_emit [IncJobsTotal status];; mret (Ok tt)
        end
      else mret (Err (ErrMsg ("unsupported status transition " +:+ status)))   (* quoted by %q *)
  end.

(** ** Logs *)

Definition logKey (jobID : string) : string := "logs:" +:+ jobID.

Definition formatLog (l : LogLine) : string :=
  format_RFC3339 (ll_TimestampUnixMs l / 1000) +:+ " " +:+ ll_Line l.

Definition log_commands (l : LogLine) : list (Time -> R -> R) :=
  let key := logKey (ll_JobId l) in
  [r_RPush key (formatLog l); r_LTrim key (-500) (-1); r_Expire key (24 * Hour)].

(** One turn of the receive loop; a failed pipeline is logged and ignored. *)
Definition cache_line (l : LogLine) : M (NodeServer R) unit := fun s =>
  match ns_redis s with
  | None => (tt, s)
  | Some c => let '(_, c') := pipe_Exec (log_commands l) c in
              (tt, mkServer (ns_db s) (Some c') (ns_metrics s))
  end.

(** How the stream ends: [io.EOF], then [SendAndClose], or a receive error. *)
Inductive StreamEnd := StreamEOF (ack : res unit) | StreamErr (e : error).

Definition StreamLogs (lines : list LogLine) (fin : StreamEnd) : M (NodeServer R) (res unit) :=
  forM lines cache_line;;
  mret match fin with StreamEOF ack => ack | StreamErr e => Err e end.

Definition FetchLogs (rdb : option (RedisConn R)) (jobID : string) (limit : Z) :
    res (list string) * option (RedisConn R) :=
  match rdb with
  | None => (Ok [], None)
  | Some c =>
      let limit := if limit <=? 0 then 200 else limit in
      let '(r, c') := redis_read (r_LRange (logKey jobID) (- limit) (-1)) c in
      (r, Some c')
  end.
End server.
