(* ===== verification/NodeServerTheorems.v ===== *)
(** * Properties of the node service

    On a server that carries out its statements, and on any Redis connection
    for the log cache. *)

From S2P Require Import Prelude Float64 Models Store Interfaces Engine Scenarios EngineLogic EngineFrame Ledger StoreTheorems GoStd Redis NodeServer.

#[local] Open Scope string_scope.
#[local] Open Scope list_scope.
#[local] Open Scope Z_scope.

#[export] Existing Instance redis_lists.

(** ** Statements on a healthy server *)

Section healthy.
Context `{PgEnv}.

(** What the two statements of a release do. *)
Definition released_tables (job : Job) (t : Tables) : Tables :=
  match tb_nodes t !! j_NodeID job with
  | None => t
  | Some n =>
      let n' := Release n (job_request job) in
      set_nodes (alter (set_available (n_GPUAvailable n') (n_CPUAvailable n') (n_MemoryAvailable n'))
                   (n_NodeID n) (tb_nodes t)) t
  end.

Lemma release_effect job db :
  db_healthy db -> map_Forall (fun _ n => node_wf n) (tb_nodes (db_tables db)) ->
  req_wf (job_request job) ->
  db_healthy (release_to_node job db).2
  /\ db_tables (release_to_node job db).2 = released_tables job (db_tables db).
Proof.
  intros Hh Hw Hr. unfold release_to_node, mbind, M_bind, released_tables, node_Get.
  rewrite exec_healthy by done.
  destruct (tb_nodes (db_tables db) !! j_NodeID job) as [n|] eqn:En; simpl; [|done].
  unfold node_UpdateAvailability. rewrite exec_healthy by done.
  pose proof (Release_wf _ _ (Hw _ _ En) Hr) as Hn'.
  pose proof (offered_in_int32 DGPU _ Hn') as Hg. pose proof (offered_in_int32 DCPU _ Hn') as Hc.
  pose proof (offered_in_int32 DMemory _ Hn') as Hm. simpl in Hg, Hc, Hm.
  simpl. by rewrite !bool_decide_eq_true_2 by done.
Qed.

Lemma finalize_effect job status db :
  db_healthy db -> map_Forall (fun _ n => node_wf n) (tb_nodes (db_tables db)) ->
  req_wf (job_request job) -> j_NodeID job <> "" ->
  let db' := (releaseAndFinalize job status db).2 in
  (releaseAndFinalize job status db).1 = Ok tt /\ db_healthy db'
  /\ exists now, db_tables db'
     = set_jobs (alter (sql_update_status now status) (j_JobID job) (tb_jobs (db_tables db)))
         (released_tables job (db_tables db)).
Proof.
  intros Hh Hw Hr Hn. unfold releaseAndFinalize, mbind, M_bind.
  destruct (String.eqb_spec (j_NodeID job) ""); [done|].
  destruct (release_effect job db Hh Hw Hr) as [Hh' Ht].
  destruct (release_to_node job db) as [[] db1]. simpl in *.
  unfold job_UpdateStatus. rewrite exec_healthy by done. simpl. split_and!; [done|done|].
  eexists. rewrite Ht. unfold released_tables. by destruct (tb_nodes (db_tables db) !! _).
Qed.
End healthy.

(** ** Finishing a job keeps the books *)

Section finish.
Context `{PgEnv}.

Lemma view_finished now status job t :
  view_tables (set_jobs (alter (sql_update_status now status) (j_JobID job) (tb_jobs t))
                 (released_tables job t))
  = on_job (moved_to now status) (j_JobID job) (view_tables (released_tables job t)).
Proof.
  assert (tb_jobs t = tb_jobs (released_tables job t)) as ->.
  { unfold released_tables. by destruct (tb_nodes t !! _). }
  by apply view_alter.
Qed.

(** The tables after an active job left its node, as a client sees them. *)
Definition left_node (f : Job -> Job) (n : Node) (j : Job) (js : gmap string Job)
    (ns : gmap string Node) : gmap string Job * gmap string Node :=
  let n' := Release n (job_request j) in
  (alter f (j_JobID j) js,
   alter (set_available (n_GPUAvailable n') (n_CPUAvailable n') (n_MemoryAvailable n'))
     (n_NodeID n) ns).

Lemma left_node_books f n j js ns :
  (forall j, IsActive (j_Status (f j)) = false) ->
  (forall j, frozen (f j) = frozen j) ->
  base_ok js ns -> accounted js ns ->
  js !! j_JobID j = Some j -> IsActive (j_Status j) = true ->
  ns !! j_NodeID j = Some n ->
  let '(js', ns') := left_node f n j js ns in
  base_ok js' ns' /\ accounted js' ns'
  /\ exists n', ns' !! j_NodeID j = Some n'
     /\ forall d, offered d n' = offered d n + asked d (job_request j).
Proof.
  intros Hidle Hfr Hb Ha Hj Hact Hn. simpl.
  destruct (proj2 Hb _ _ Hn) as [Hid Hw]. destruct (proj1 Hb _ _ Hj) as [_ [Hr _]].
  assert (job_on (n_NodeID n) j = true) as Hon by (apply job_on_true; by rewrite Hid).
  assert (map_Forall (fun _ x => req_wf (job_request x)) js) as Hrows.
  { intros k x Hx. by destruct (proj1 Hb _ _ Hx) as [_ [? _]]. }
  assert (forall d, offered d (Release n (job_request j)) = offered d n + asked d (job_request j)) as Hoff.
  { intros d. rewrite offered_Release by done. specialize (Ha _ _ Hn d).
    pose proof (job_on_load d _ _ _ _ Hrows Hj Hon). lia. }
  set (n' := Release n (job_request j)) in *.
  assert (node_wf n') as Hw' by (apply Release_wf; done).
  split_and!.
  - apply (frame_base_ok js ns Hb). apply (frame_job js ns).
    + apply (frame_avail js ns _ _ n'); [by apply frame_start|]. split; [done|].
      exists n. split; [by rewrite <- Hid in Hn|done].
    + done.
    + exists j. auto.
  - intros id m. rewrite lookup_alter. case_decide as E.
    + subst id. rewrite Hid, Hn. simpl. intros [= <-] d. change (n_NodeID _) with (n_NodeID n).
      rewrite (load_idle _ _ _ _ _ _ Hj) by apply Hidle. unfold weight. rewrite Hon.
      specialize (Ha _ _ Hn d). specialize (Hoff d). unfold n' in *. destruct d; simpl in *; lia.
    + intros Hm d. specialize (Ha _ _ Hm d).
      pose proof (load_idle_le d (n_NodeID m) f (j_JobID j) js) as Hle.
      enough (load d (n_NodeID m) (alter f (j_JobID j) js) <= load d (n_NodeID m) js) by lia.
      apply Hle. intros x Hx. split; [by eapply Hrows|apply Hidle].
  - exists n'. split; [|done]. rewrite lookup_alter, decide_True by done. by rewrite Hid, Hn.
Qed.
End finish.

(** ** Reports of job status *)

Section reports.
Context `{PgEnv} {R : Type} `{RedisLists R}.

Definition srv_jobs (s : NodeServer R) : gmap string Job := a_jobs (db_view (ns_db s)).
Definition srv_nodes (s : NodeServer R) : gmap string Node := a_nodes (db_view (ns_db s)).

Lemma srv_job_row (s : NodeServer R) id j :
  srv_jobs s !! id = Some j ->
  exists r, tb_jobs (db_tables (ns_db s)) !! id = Some r /\ scanJob r = j.
Proof.
  unfold srv_jobs, db_view, view_tables. simpl. rewrite lookup_fmap.
  destruct (tb_jobs (db_tables (ns_db s)) !! id) as [r|]; [|done]. intros [= <-]. by exists r.
Qed.

Lemma job_Get_healthy (s : NodeServer R) id j :
  db_healthy (ns_db s) -> srv_jobs s !! id = Some j ->
  job_Get id (ns_db s) = (Ok j, after_stmt (db_tables (ns_db s)) (ns_db s)).
Proof.
  intros Hh (r & Hr & <-)%srv_job_row. unfold job_Get. rewrite exec_healthy by done. by rewrite Hr.
Qed.

(** The database after a report, as a client sees it. *)
Lemma finished_view (s : NodeServer R) nodeID status j n now :
  let db1 := after_stmt (db_tables (ns_db s)) (ns_db s) in
  let s' := (UpdateJobStatus (mkUpdate (j_JobID j) nodeID status) s).2 in
  db_healthy (ns_db s) -> status = JobStatusCompleted \/ status = JobStatusFailed ->
  srv_jobs s !! j_JobID j = Some j -> srv_nodes s !! j_NodeID j = Some n ->
  (releaseAndFinalize j status db1).1 = Ok tt ->
  db_tables (releaseAndFinalize j status db1).2
    = set_jobs (alter (sql_update_status now status) (j_JobID j) (tb_jobs (db_tables db1)))
        (released_tables j (db_tables db1)) ->
  srv_jobs s' = alter (moved_to now status) (j_JobID j) (srv_jobs s)
  /\ srv_nodes s' = (left_node (moved_to now status) n j (srv_jobs s) (srv_nodes s)).2
  /\ (UpdateJobStatus (mkUpdate (j_JobID j) nodeID status) s).1 = Ok tt.
Proof.
  intros db1 s' Hh Hst Hj Hn Hok Ht. subst s'. unfold UpdateJobStatus, on_db, zoom, mbind, M_bind.
  simpl. rewrite (job_Get_healthy s _ j Hh Hj). fold db1.
  replace (String.eqb status JobStatusRunning) with false by (by destruct Hst as [-> | ->]).
  replace (String.eqb status JobStatusCompleted || String.eqb status JobStatusFailed)
    with true by (by destruct Hst as [-> | ->]). simpl.
  destruct (releaseAndFinalize j status db1) as [rr db2]. simpl in *. rewrite Hok.
  unfold srv_jobs, srv_nodes, db_view. cbn [ns_db snd fst srv_emit modify mret M_ret]. rewrite Ht.
  change (db_tables (ns_db s)) with (db_tables db1). rewrite view_finished.
  unfold srv_nodes, db_view in Hn. simpl in Hn. unfold released_tables. simpl. by rewrite Hn.
Qed.

Lemma report_finished (s : NodeServer R) id nodeID status j n :
  db_healthy (ns_db s) -> base_ok (srv_jobs s) (srv_nodes s) -> accounted (srv_jobs s) (srv_nodes s) ->
  status = JobStatusCompleted \/ status = JobStatusFailed ->
  srv_jobs s !! id = Some j -> IsActive (j_Status j) = true ->
  j_NodeID j <> "" -> srv_nodes s !! j_NodeID j = Some n ->
  let s' := (UpdateJobStatus (mkUpdate id nodeID status) s).2 in
  (UpdateJobStatus (mkUpdate id nodeID status) s).1 = Ok tt
  /\ base_ok (srv_jobs s') (srv_nodes s') /\ accounted (srv_jobs s') (srv_nodes s')
  /\ (exists now, srv_jobs s' !! id = Some (moved_to now status j))
  /\ exists n', srv_nodes s' !! j_NodeID j = Some n'
     /\ forall d, offered d n' = offered d n + asked d (job_request j).
Proof.
  intros Hh Hb Ha Hst Hj Hact Hne Hn. destruct (proj1 Hb _ _ Hj) as [Hid [Hreq _]]. subst id.
  assert (map_Forall (fun _ n => node_wf n) (tb_nodes (db_tables (ns_db s)))) as Hw.
  { intros k m Hm. by destruct (proj2 Hb _ _ Hm). }
  set (db1 := after_stmt (db_tables (ns_db s)) (ns_db s)).
  destruct (finalize_effect j status db1 Hh Hw Hreq Hne) as (Hok & Hh' & now & Ht).
  destruct (left_node_books (moved_to now status) n j (srv_jobs s) (srv_nodes s))
    as (Hb' & Ha' & Hn'); try done; [by destruct Hst as [-> | ->]|].
  destruct (finished_view s nodeID status j n now Hh Hst Hj Hn Hok Ht) as (Ej & En & Eok).
  simpl in Hb', Ha', Hn'. cbv zeta. rewrite Ej, En, Eok. split_and!; [done|done|done| |exact Hn'].
  exists now. by rewrite lookup_alter_eq, Hj.
Qed.

(** C10: When an agent reports that an active job completed or failed, the node
    service gives exactly the job's request back to its node, marks the job
    finished, and keeps the database well formed and the books balanced. *)
Theorem report_finished_job (s : NodeServer R) id nodeID status j n :
  db_healthy (ns_db s) -> base_ok (srv_jobs s) (srv_nodes s) -> accounted (srv_jobs s) (srv_nodes s) ->
  status = JobStatusCompleted \/ status = JobStatusFailed ->
  srv_jobs s !! id = Some j -> IsActive (j_Status j) = true ->
  j_NodeID j <> "" -> srv_nodes s !! j_NodeID j = Some n ->
  let s' := (UpdateJobStatus (mkUpdate id nodeID status) s).2 in
  (UpdateJobStatus (mkUpdate id nodeID status) s).1 = Ok tt
  /\ base_ok (srv_jobs s') (srv_nodes s') /\ accounted (srv_jobs s') (srv_nodes s')
  /\ (exists now, srv_jobs s' !! id = Some (moved_to now status j))
  /\ exists n', srv_nodes s' !! j_NodeID j = Some n'
     /\ forall d, offered d n' = offered d n + asked d (job_request j).
Proof. apply report_finished. Qed.

(** Reports the node service refuses change nothing: an unknown job is
    answered with [ErrNotFound], and any status other than running, completed
    or failed with an error. *)
Theorem report_refused (s : NodeServer R) id nodeID status :
  db_healthy (ns_db s) ->
  srv_jobs s !! id = None
  \/ (status <> JobStatusRunning /\ status <> JobStatusCompleted /\ status <> JobStatusFailed) ->
  let s' := (UpdateJobStatus (mkUpdate id nodeID status) s).2 in
  (exists e, (UpdateJobStatus (mkUpdate id nodeID status) s).1 = Err e
             /\ (srv_jobs s !! id = None -> e = ErrNotFound))
  /\ db_tables (ns_db s') = db_tables (ns_db s) /\ ns_metrics s' = ns_metrics s.
Proof.
  intros Hh Hc. unfold UpdateJobStatus, on_db, zoom, mbind, M_bind. simpl.
  destruct (srv_jobs s !! id) as [j|] eqn:Ej.
  - destruct Hc as [|(H1 & H2 & H3)]; [done|]. rewrite (job_Get_healthy s id j Hh Ej).
    destruct (String.eqb_spec status JobStatusRunning), (String.eqb_spec status JobStatusCompleted),
      (String.eqb_spec status JobStatusFailed); try done. simpl. split; [by eexists|done].
  - unfold srv_jobs, db_view, view_tables in Ej. simpl in Ej. rewrite lookup_fmap in Ej.
    unfold job_Get. rewrite exec_healthy by done.
    destruct (tb_jobs (db_tables (ns_db s)) !! id); [done|]. simpl. split; [by eexists|done].
Qed.

(** Heartbeats on a healthy server: an unknown node is told to register and
    nothing changes; a known node gets the server's clock as its last
    heartbeat, comes back from [down] to [ready], keeps any other status, and
    the answer is the status it has now. *)
Theorem heartbeat_spec (s : NodeServer R) id :
  db_healthy (ns_db s) ->
  let s' := (Heartbeat id s).2 in
  match srv_nodes s !! id with
  | None => (Heartbeat id s).1 = Ok "unregistered" /\ srv_nodes s' = srv_nodes s
  | Some n => exists now n', srv_nodes s' = <[id := n']> (srv_nodes s)
      /\ n_LastHeartbeat n' = now
      /\ n_Status n' = (if String.eqb (n_Status n) NodeStatusDown then NodeStatusReady else n_Status n)
      /\ set_liveness (n_Status n) (n_LastHeartbeat n) n' = n
      /\ (Heartbeat id s).1 = Ok (n_Status n')
  end
  /\ srv_jobs s' = srv_jobs s.
Proof.
  intros Hh. unfold Heartbeat, on_db, zoom, mbind, M_bind, node_Heartbeat, srv_nodes, srv_jobs, db_view.
  rewrite exec_healthy by done. simpl.
  destruct (tb_nodes (db_tables (ns_db s)) !! id) as [n|] eqn:En; simpl; [|done].
  unfold node_Get. rewrite exec_healthy by done. simpl. rewrite lookup_insert_eq. simpl.
  split; [|done]. eexists _, _. split_and!; [done|done|done| |done]. by destruct n.
Qed.
End reports.

(** ** Witnesses *)

Definition empty_redis : RedisConn (gmap string (list string * option Time)) :=
  mkConn ∅ 0 (fun _ => PipeDone) (fun k i => Z.of_nat k * Hour + Z.of_nat i * Millisecond).

Definition server_of (t : Tables) : NodeServer (gmap string (list string * option Time)) :=
  mkServer (healthy_db t 0) (Some empty_redis) (Some []).

Lemma report_finished_job_witness :
  (UpdateJobStatus (mkUpdate "victim" "n1" JobStatusCompleted) (server_of mixed_tables)).1 = Ok tt.
Proof.
  refine (proj1 (report_finished_job (server_of mixed_tables) "victim" "n1" JobStatusCompleted
    victim (with_jobs [victim] (node_of "n1" 4 8 64)) _ _ _ _ _ _ _ _)).
  - by intros k.
  - by apply (bool_decide_unpack _); vm_compute.
  - by apply (bool_decide_unpack _); vm_compute.
  - by left.
  - vm_compute. reflexivity.
  - reflexivity.
  - discriminate.
  - vm_compute. reflexivity.
Defined.

Lemma report_refused_witness :
  db_tables (ns_db (UpdateJobStatus (mkUpdate "victim" "n1" "paused") (server_of mixed_tables)).2)
  = mixed_tables.
Proof.
  refine (proj1 (proj2 (report_refused (server_of mixed_tables) "victim" "n1" "paused" _ _))).
  - by intros k.
  - right. by repeat split.
Defined.

Lemma heartbeat_spec_witness :
  (Heartbeat "n9" (server_of mixed_tables)).1 = Ok "unregistered".
Proof.
  refine (proj1 (proj1 (heartbeat_spec (server_of mixed_tables) "n9" _))). by intros k.
Defined.

(** ** Registration *)

Section registration.
Context `{PgEnv} {R : Type} `{RedisLists R}.

Definition request_ok (req : RegisterRequest) : bool :=
  forallb (fun z => bool_decide (in_int32 z))
    [GetGpu (rq_Capacity req); GetCpu (rq_Capacity req); GetMemoryGb (rq_Capacity req)].

(** Registration on a healthy server: the node is stored under its
    identifier with the capacity it announces.  A new node is ready and offers
    everything it has; a node that was known keeps its status, its
    availability and its registration time.  No other node and no job
    changes. *)
Theorem register_spec (s : NodeServer R) req :
  db_healthy (ns_db s) -> request_ok req = true ->
  let s' := (Register req s).2 in
  (Register req s).1 = Ok (mkRegisterResp true "registered")
  /\ srv_jobs s' = srv_jobs s
  /\ exists n, srv_nodes s' = <[rq_NodeId req := n]> (srv_nodes s)
     /\ n_GPUCapacity n = GetGpu (rq_Capacity req) /\ n_CPUCapacity n = GetCpu (rq_Capacity req)
     /\ n_MemoryCapacity n = GetMemoryGb (rq_Capacity req) /\ n_Hostname n = rq_Hostname req
     /\ match srv_nodes s !! rq_NodeId req with
        | None => n_NodeID n = rq_NodeId req /\ n_Status n = NodeStatusReady
                  /\ forall d, offered d n = capacity d n
        | Some old => n_NodeID n = n_NodeID old /\ n_Status n = n_Status old
                  /\ n_RegisteredAt n = n_RegisteredAt old
                  /\ forall d, offered d n = offered d old
        end.
Proof.
  intros Hh Hok. unfold request_ok in Hok. simpl in Hok. bool_prop.
  unfold Register, on_db, zoom, mbind, M_bind, with_prefix, node_Upsert, srv_nodes, srv_jobs, db_view.
  rewrite exec_healthy by done.
  assert (node_ints_ok (register_node req) = true) as ->.
  { unfold node_ints_ok. simpl. by rewrite !bool_decide_eq_true_2. }
  simpl. split; [done|]. split; [done|]. eexists. split; [done|].
  destruct (tb_nodes (db_tables (ns_db s)) !! rq_NodeId req) as [old|]; simpl;
    split_and!; try done; by intros [].
Qed.

Definition assigned_rows (nodeID : string) (t : Tables) : list JobRow :=
  filter (fun r => row_node_id r = Some nodeID /\ j_Status (row_job r) = JobStatusScheduled)
    (map snd (map_to_list (tb_jobs t))).

Lemma assigned_elem (s : NodeServer R) nodeID j :
  nodeID <> "" -> base_ok (srv_jobs s) (srv_nodes s) ->
  j ∈ collectJobs (pg_order created_asc (assigned_rows nodeID (db_tables (ns_db s))))
  <-> srv_jobs s !! j_JobID j = Some j /\ j_NodeID j = nodeID /\ j_Status j = JobStatusScheduled.
Proof.
  intros Hne Hb. unfold collectJobs. rewrite pg_order_perm, list_elem_of_fmap. unfold assigned_rows.
  split.
  - intros (r & -> & [[Hn Hs] Hin]%list_elem_of_filter).
    apply list_elem_of_fmap in Hin as ([id r'] & -> & Hin%elem_of_map_to_list). simpl in *.
    pose proof (view_lookup _ _ _ Hin) as Hv. pose proof (proj1 (proj1 Hb _ _ Hv)) as Hid.
    rewrite Hn. simpl in *. split; [|done]. by rewrite Hid.
  - intros (Hrow & Hnid & Hst). apply srv_job_row in Hrow as (r & Hr & Er). exists r.
    split; [done|]. apply list_elem_of_filter. split.
    + rewrite <- Er in Hnid, Hst. simpl in Hnid, Hst. split; [|done].
      destruct (row_node_id r) as [x|]; simpl in Hnid; [by subst|done].
    + apply list_elem_of_fmap. exists (j_JobID j, r). split; [done|]. by apply elem_of_map_to_list.
Qed.

Lemma created_asc_swo : StrictWeakOrder created_asc.
Proof.
  apply (swo_key _ (fun r => [j_CreatedAt (row_job r)])). intros x y. unfold created_asc, time_Before.
  simpl. destruct (Z.eqb_spec (j_CreatedAt (row_job x)) (j_CreatedAt (row_job y))) as [->|];
    [by rewrite Z.ltb_irrefl|done].
Qed.

Lemma collect_sorted l : StronglySorted (not_after created_asc) l ->
  StronglySorted (fun a b => j_CreatedAt a <= j_CreatedAt b) (collectJobs l).
Proof.
  induction 1 as [|r l Hl IH Hall]; constructor; [done|]. apply Forall_map.
  eapply Forall_impl; [exact Hall|]. intros r'. unfold not_after, created_asc, time_Before.
  simpl. intros ?%Z.ltb_ge. lia.
Qed.

(** A request for jobs of a node returns exactly the jobs scheduled on it,
    oldest first, and the 32-bit fields of the message hold the stored
    amounts. *)
Theorem assignments_spec (s : NodeServer R) nodeID :
  db_healthy (ns_db s) -> nodeID <> "" ->
  base_ok (srv_jobs s) (srv_nodes s) ->
  exists jobs, (GetAssignments nodeID s).1 = Ok (map pb_job jobs)
  /\ (forall j, j ∈ jobs <-> srv_jobs s !! j_JobID j = Some j
        /\ j_NodeID j = nodeID /\ j_Status j = JobStatusScheduled)
  /\ StronglySorted (fun a b => j_CreatedAt a <= j_CreatedAt b) jobs
  /\ Forall (fun j => pb_job j = mkPbJob (j_JobID j) (j_Name j) (j_Image j) (j_Command j)
       (Some (mkRes (j_GPUCount j) (j_CPUCount j) (j_MemoryGB j))) (j_Priority j)) jobs.
Proof.
  intros Hh Hne Hb. unfold GetAssignments, on_db, zoom, mbind, M_bind,
    job_ListScheduledForNode, with_prefix. rewrite exec_healthy by done. simpl.
  fold (assigned_rows nodeID (db_tables (ns_db s))). eexists. split; [done|].
  pose proof (fun j => assigned_elem s nodeID j Hne Hb) as Hmem. split_and!; [done| |].
  - apply collect_sorted, pg_order_sorted, created_asc_swo.
  - apply Forall_forall. intros j (Hrow & _)%Hmem.
    destruct (proj1 Hb _ _ Hrow) as [_ [(Hg & Hc & Hm) Hp]]. unfold pb_job.
    unfold amount_wf in *. simpl in *. by rewrite !wrap32_id by (unfold in_int32 in *; lia).
Qed.
End registration.

Lemma register_spec_witness :
  (Register (mkRegister "n3" "n3" (Some (mkRes 8 64 512)) "H100" f64_one false ∅)
     (server_of mixed_tables)).1 = Ok (mkRegisterResp true "registered").
Proof.
  refine (proj1 (register_spec (server_of mixed_tables)
    (mkRegister "n3" "n3" (Some (mkRes 8 64 512)) "H100" f64_one false ∅) _ _)).
  - by intros k.
  - reflexivity.
Defined.

Lemma assignments_spec_witness : exists jobs,
  (GetAssignments "n1" (server_of mixed_tables)).1 = Ok (map pb_job jobs).
Proof.
  destruct (assignments_spec (server_of mixed_tables) "n1") as (jobs & Hok & _).
  - by intros k.
  - discriminate.
  - by apply (bool_decide_unpack _); vm_compute.
  - by exists jobs.
Defined.

(** A node that registers again with less hardware keeps its old
    availability: it then offers more than it has, and its GPU utilization, which
    is meant to lie between 0 and 1, is negative. *)
Theorem reregistration_can_overoffer :
  let s := server_of (tables_of [] [node_of "n1" 8 64 512]) in
  let s' := (Register (mkRegister "n1" "n1" (Some (mkRes 4 64 512)) "A100" f64_zero false ∅) s).2 in
  base_ok (srv_jobs s) (srv_nodes s) /\ accounted (srv_jobs s) (srv_nodes s)
  /\ ~ accounted (srv_jobs s') (srv_nodes s')
  /\ exists n, srv_nodes s' !! "n1" = Some n /\ n_GPUAvailable n = 8 /\ n_GPUCapacity n = 4
     /\ f64_lt (GPUUtilization n) f64_zero = true.
Proof.
  split; [by apply (bool_decide_unpack _); vm_compute|].
  split; [by apply (bool_decide_unpack _); vm_compute|].
  split; [apply (bool_decide_eq_false _); by vm_compute|].
  eexists. split; [vm_compute; reflexivity|]. by vm_compute.
Qed.

(** The node service does not look at the status a job already has, so an
    agent that reports completion twice gets the job's resources released
    twice: with two jobs of two GPUs on a node of four, the node offers four
    GPUs while the other job still holds two. *)
Theorem double_report_releases_twice :
  let a := running_on "n1" (job_of "a" 2 2 8 5) in
  let b := running_on "n1" (job_of "b" 2 2 8 5) in
  let s := server_of (tables_of [a; b] [with_jobs [a; b] (node_of "n1" 4 8 64)]) in
  let s1 := (UpdateJobStatus (mkUpdate "a" "n1" JobStatusCompleted) s).2 in
  let s2 := (UpdateJobStatus (mkUpdate "a" "n1" JobStatusCompleted) s1).2 in
  accounted (srv_jobs s) (srv_nodes s) /\ accounted (srv_jobs s1) (srv_nodes s1)
  /\ ~ accounted (srv_jobs s2) (srv_nodes s2)
  /\ (n_GPUAvailable <$> srv_nodes s2 !! "n1") = Some 4 /\ load DGPU "n1" (srv_jobs s2) = 2.
Proof.
  split; [by apply (bool_decide_unpack _); vm_compute|].
  split; [by apply (bool_decide_unpack _); vm_compute|].
  split; [|by vm_compute]. apply (bool_decide_eq_false _). by vm_compute.
Qed.

(** A finished job can be brought back by a late report: a job that was
    completed is [running] again after the report, although [IsTerminal] says
    that a terminal job will not change. *)
Theorem late_report_revives_job :
  let s := server_of mixed_tables in
  let s' := (UpdateJobStatus (mkUpdate "done" "n2" JobStatusRunning) s).2 in
  (IsTerminal ∘ j_Status <$> srv_jobs s !! "done") = Some true
  /\ (j_Status <$> srv_jobs s' !! "done") = Some JobStatusRunning.
Proof. by vm_compute. Qed.

(** ** The log cache *)

Section logs.
Context `{PgEnv} {R : Type} `{RedisLists R}.

Definition pipes_ok (c : RedisConn R) : Prop := forall k, rd_fate c k = PipeDone.

(** The server's clock does not go back, within a pipeline of three commands
    and from one call to the next. *)
Definition clock_ok (c : RedisConn R) : Prop :=
  forall k, rd_clock c k 0 <= rd_clock c k 1 <= rd_clock c k 2
            /\ rd_clock c k 2 <= rd_clock c (S k) 0.

(** The server's clock at the next command. *)
Definition rd_now (c : RedisConn R) : Time := rd_clock c (rd_calls c) 0.

Definition lines_of (id : string) (lines : list LogLine) : list string :=
  map formatLog (filter (fun l => ll_JobId l = id) lines).

(** When the lines of a job are stored: the third command of their call. *)
Fixpoint arrivals (clock : nat -> nat -> Time) (id : string) (call : nat) (lines : list LogLine) :
    list Time :=
  match lines with
  | [] => []
  | l :: lines' =>
      if String.eqb (ll_JobId l) id then clock call 2%nat :: arrivals clock id (S call) lines'
      else arrivals clock id (S call) lines'
  end.

(** Each arrives within a day of the one before; [prev] is the last one before. *)
Fixpoint spaced (prev : option Time) (ts : list Time) : Prop :=
  match ts with
  | [] => True
  | t :: ts' => match prev with Some p => t < p + 24 * Hour | None => True end /\ spaced (Some t) ts'
  end.

Definition latest (prev : option Time) (ts : list Time) : option Time :=
  match last ts with Some t => Some t | None => prev end.

(** What is known of a job's lines at a time: none was stored, or the last one
    at [t], so that they expire a day later. *)
Definition stored (now : Time) (id : string) (prev : option Time) (l : list string) (r : R) : Prop :=
  match prev with
  | None => l = [] /\ r_get now (logKey id) r = None
  | Some t => r_get now (logKey id) r = Some (l, Some (t + 24 * Hour))
              \/ r_get now (logKey id) r = None /\ t + 24 * Hour <= now
  end.

Lemma logKey_eqb a b : String.eqb (logKey a) (logKey b) = String.eqb a b.
Proof.
  destruct (String.eqb_spec a b) as [->|Hne]; [apply String.eqb_refl|].
  apply String.eqb_neq. intros E. by apply Hne, (string_app_inj "logs:").
Qed.

Lemma absent_later t t' k (r : R) : t <= t' -> r_get t k r = None -> r_get t' k r = None.
Proof.
  intros Ht Hn. destruct (r_get t' k r) as [e|] eqn:E; [|done].
  by rewrite (r_get_mono _ _ _ _ _ Ht E) in Hn.
Qed.

Lemma stored_later now now' id prev l (r : R) :
  now <= now' -> stored now id prev l r -> stored now' id prev l r.
Proof.
  intros Hle. unfold stored. destruct prev as [t|].
  - intros [Hs|[Hn Hx]]; [|right; split; [by eapply absent_later|lia]].
    destruct (r_get now' (logKey id) r) as [e|] eqn:E.
    + left. pose proof (r_get_mono _ _ _ _ _ Hle E). congruence.
    + right. split; [done|]. destruct (Z.le_gt_cases (t + 24 * Hour) now') as [|Hgt]; [done|].
      by rewrite (r_get_live _ _ _ _ _ _ Hle Hs Hgt) in E.
  - intros [-> Hn]. split; [done|]. by eapply absent_later.
Qed.

Lemma stored_frame t id prev l (r r' : R) :
  r_get t (logKey id) r' = r_get t (logKey id) r -> stored t id prev l r -> stored t id prev l r'.
Proof. intros E. unfold stored. by rewrite E. Qed.

(** The commands for a line of another job. *)
Lemma log_commands_other l id prev old clock (r : R) :
  ll_JobId l <> id -> clock 0%nat <= clock 1%nat <= clock 2%nat ->
  stored (clock 0%nat) id prev old r ->
  stored (clock 2%nat) id prev old (run_commands clock (log_commands l) r).
Proof.
  intros Hne [H01 H12] Hs. unfold log_commands, run_commands.
  assert (String.eqb (logKey (ll_JobId l)) (logKey id) = false) as Ek
    by by rewrite logKey_eqb, String.eqb_neq.
  eapply stored_frame; [by apply r_Expire_other, String.eqb_neq|]. eapply stored_later; [exact H12|].
  eapply stored_frame; [by rewrite r_LTrim_get, Ek|]. eapply stored_later; [exact H01|].
  eapply stored_frame; [by rewrite r_RPush_get, Ek|]. exact Hs.
Qed.

Lemma redis_range_last_snoc n (l : list string) x : 0 < n ->
  exists y k, redis_range (- n) (-1) (l ++ [x]) = y :: k
    /\ lastn (Z.to_nat n) (l ++ [x]) = y :: k.
Proof.
  intros Hn. rewrite redis_range_last by done.
  destruct (lastn (Z.to_nat n) (l ++ [x])) as [|y k] eqn:E; [|by eauto].
  exfalso. apply (f_equal length) in E. rewrite length_lastn, length_app in E. simpl in E. lia.
Qed.

(** The commands for a line of the job, while its key lives: the line is
    appended, the last five hundred are kept, and the day starts again. *)
Lemma log_commands_own l prev old clock (r : R) :
  clock 0%nat <= clock 1%nat <= clock 2%nat ->
  stored (clock 0%nat) (ll_JobId l) prev old r ->
  match prev with Some p => clock 2%nat < p + 24 * Hour | None => True end ->
  stored (clock 2%nat) (ll_JobId l) (Some (clock 2%nat)) (lastn 500 (old ++ [formatLog l]))
    (run_commands clock (log_commands l) r).
Proof.
  intros [H01 H12] Hs Hsp. left. unfold log_commands, run_commands.
  set (k := logKey (ll_JobId l)).
  assert (exists e, expires_after (clock 2%nat) e
    /\ r_get (clock 0%nat) k (r_RPush k (formatLog l) (clock 0%nat) r)
       = Some (old ++ [formatLog l], e)) as (e & He & E0).
  { rewrite r_RPush_get, String.eqb_refl. unfold stored in Hs. fold k in Hs. destruct prev as [p|].
    - exists (Some (p + 24 * Hour)). split; [done|]. destruct Hs as [->|[_ Hx]]; [done|lia].
    - exists None. destruct Hs as [-> ->]. done. }
  assert (expires_after (clock 1%nat) e) as He1 by (destruct e; simpl in *; [lia|done]).
  pose proof (r_get_live _ _ _ _ _ _ H01 E0 He1) as E1. clear E0.
  destruct (redis_range_last_snoc 500 old (formatLog l) ltac:(done)) as (y & ls & Er & El).
  change (- (500)) with (-500) in Er. change (Z.to_nat 500) with 500%nat in El.
  assert (r_get (clock 1%nat) k (r_LTrim k (-500) (-1) (clock 1%nat)
            (r_RPush k (formatLog l) (clock 0%nat) r)) = Some (y :: ls, e)) as E2.
  { rewrite r_LTrim_get, String.eqb_refl, E1. by rewrite Er. }
  pose proof (r_get_live _ _ _ _ _ _ H12 E2 He) as E3.
  rewrite r_Expire_get by done. rewrite E3, El. reflexivity.
Qed.

(** A whole stream. *)
Lemma cache_lines_stored lines id (s : NodeServer R) c prev old :
  ns_redis s = Some c -> pipes_ok c -> clock_ok c -> (length old <= 500)%nat ->
  stored (rd_now c) id prev old (rd_state c) ->
  spaced prev (arrivals (rd_clock c) id (rd_calls c) lines) ->
  exists c', ns_redis (forM lines cache_line s).2 = Some c' /\ pipes_ok c'
  /\ stored (rd_now c') id (latest prev (arrivals (rd_clock c) id (rd_calls c) lines))
       (lastn 500 (old ++ lines_of id lines)) (rd_state c').
Proof.
  revert s c prev old. induction lines as [|l lines IH]; intros s c prev old Hc Hok Hck Hlen Hst Hsp.
  { exists c. split_and!; [done..|]. unfold lines_of. simpl. by rewrite app_nil_r, lastn_all. }
  cbn [arrivals] in Hsp |- *. simpl. unfold mbind, M_bind, cache_line at 1. rewrite Hc.
  unfold pipe_Exec. rewrite Hok. set (c1 := mkConn _ _ _ _).
  assert (rd_clock c (rd_calls c) 0 <= rd_clock c (rd_calls c) 1 <= rd_clock c (rd_calls c) 2) as Hmono
    by apply Hck.
  assert (rd_clock c (rd_calls c) 2 <= rd_now c1) as Hn by apply Hck.
  unfold lines_of. rewrite filter_cons. destruct (String.eqb_spec (ll_JobId l) id) as [<-|Hne].
  - rewrite decide_True by done. simpl in Hsp. destruct Hsp as [Hgap Hsp].
    pose proof (log_commands_own l prev old _ _ Hmono Hst Hgap) as Hst1.
    destruct (IH (mkServer (ns_db s) (Some c1) (ns_metrics s)) c1
                (Some (rd_clock c (rd_calls c) 2%nat)) (lastn 500 (old ++ [formatLog l])))
      as (c' & Hc' & Hok' & Hst'); [done|done|exact Hck|rewrite length_lastn; lia| |exact Hsp|].
    { eapply stored_later; [exact Hn|exact Hst1]. }
    exists c'. split_and!; [exact Hc'|exact Hok'|]. rewrite lastn_app_lastn, <- app_assoc in Hst'.
    replace (latest prev _) with (latest (Some (rd_clock c (rd_calls c) 2%nat))
      (arrivals (rd_clock c1) (ll_JobId l) (rd_calls c1) lines)); [exact Hst'|].
    unfold latest. rewrite last_cons. by destruct (last _).
  - rewrite decide_False by done.
    destruct (IH (mkServer (ns_db s) (Some c1) (ns_metrics s)) c1 prev old)
      as (c' & Hc' & Hok' & Hst'); [done|done|exact Hck|done| |exact Hsp|by exists c'].
    eapply stored_later; [exact Hn|]. by apply log_commands_other.
Qed.

(** C29: The log cache.  After any stream on a working connection in which the
    lines of a job arrive less than a day apart, fetching the job's logs within
    a day of its last line returns the most recent of its lines, in the order
    they were sent: the last [limit] (200 when the limit is not positive) of the
    last five hundred; once the day is over (one millisecond is Redis's
    resolution) it returns nothing, as for a job that never sent a line.  Lines
    of other jobs do not interfere. *)
Theorem logs_keep_recent_lines (s : NodeServer R) c lines fin id limit prev old :
  ns_redis s = Some c -> pipes_ok c -> clock_ok c -> (length old <= 500)%nat ->
  stored (rd_now c) id prev old (rd_state c) ->
  spaced prev (arrivals (rd_clock c) id (rd_calls c) lines) ->
  exists c', ns_redis (StreamLogs lines fin s).2 = Some c'
  /\ match latest prev (arrivals (rd_clock c) id (rd_calls c) lines) with
     | None => (FetchLogs (Some c') id limit).1 = Ok []
     | Some t =>
         (rd_now c' < t + 24 * Hour ->
          (FetchLogs (Some c') id limit).1
          = Ok (lastn (Z.to_nat (if limit <=? 0 then 200 else limit))
                  (lastn 500 (old ++ lines_of id lines))))
         /\ (t + 24 * Hour + Millisecond <= rd_now c' -> (FetchLogs (Some c') id limit).1 = Ok [])
     end.
Proof.
  intros Hc Hok Hck Hlen Hst Hsp.
  destruct (cache_lines_stored lines id s c prev old Hc Hok Hck Hlen Hst Hsp) as (c' & Hc' & Hok' & Hs).
  exists c'. unfold StreamLogs, mbind, M_bind. destruct (forM lines cache_line s) as [[] s1]. simpl in *.
  split; [done|]. unfold FetchLogs, redis_read. rewrite Hok'. simpl. unfold r_LRange.
  fold (rd_now c'). unfold stored in Hs. destruct (latest _ _) as [t|].
  - split; intros Ht.
    + destruct Hs as [->|[_ Hx]]; [|lia]. rewrite redis_range_last; [done|].
      destruct (Z.leb_spec limit 0); lia.
    + destruct Hs as [Hs|[-> _]]; [|done]. by rewrite (r_get_gone _ _ _ _ _ _ Hs Ht).
  - by destruct Hs as [_ ->].
Qed.
End logs.

(** The clock of the example moves by an hour per call. *)
Lemma logs_keep_recent_lines_witness :
  (FetchLogs (ns_redis (StreamLogs [mkLine "a" 0 "x"; mkLine "b" 0 "y"; mkLine "a" 1000 "z"]
      (StreamEOF (Ok tt)) (server_of mixed_tables)).2) "a" 0).1
  = Ok ["1970-01-01T00:00:00Z x"; "1970-01-01T00:00:01Z z"].
Proof.
  destruct (logs_keep_recent_lines (server_of mixed_tables) empty_redis
    [mkLine "a" 0 "x"; mkLine "b" 0 "y"; mkLine "a" 1000 "z"] (StreamEOF (Ok tt)) "a" 0 None [])
    as (c' & Hc & Hf).
  - reflexivity.
  - by intros k.
  - intros k. unfold empty_redis, Hour, Minute, Second, Millisecond. simpl. lia.
  - simpl. lia.
  - by split.
  - simpl. split; [done|]. split; [reflexivity|done].
  - rewrite Hc. destruct Hf as [Hf _]. rewrite Hf; [vm_compute; reflexivity|].
    vm_compute in Hc. injection Hc as <-. vm_compute. reflexivity.
Defined.
