(* ===== verification/RateLimit.v ===== *)
(** * The token-bucket rate limiter: [internal/api/ratelimit.go]

    One bucket per client key, refilled at [rate] tokens per second up to
    [capacity]; a request takes one token.  Tokens are [float64]s.  The two
    mutexes make [allow] atomic, so a call is one step; the clock reading is
    an argument. *)

From S2P Require Import Prelude Float64.

#[local] Open Scope string_scope.
#[local] Open Scope list_scope.
#[local] Open Scope Z_scope.

Record tokenBucket := mkBucket {
  tb_tokens : float64;
  tb_capacity : float64;
  tb_rate : float64;
  tb_last : Time
}.

Definition newBucket (rate capacity : float64) (now : Time) : tokenBucket :=
  mkBucket capacity capacity rate now.

(** Refill, then clamp. *)
Definition refill (b : tokenBucket) (now : Time) : float64 :=
  let elapsed := Seconds (time_Sub now (tb_last b)) in
  let tokens := f64_add (tb_tokens b) (f64_mul elapsed (tb_rate b)) in
  if f64_lt (tb_capacity b) tokens then tb_capacity b else tokens.

Definition bucket_allow (b : tokenBucket) (now : Time) : bool * tokenBucket :=
  let tokens := refill b now in
  if f64_le f64_one tokens
  then (true, mkBucket (f64_sub tokens f64_one) (tb_capacity b) (tb_rate b) now)
  else (false, mkBucket tokens (tb_capacity b) (tb_rate b) now).

Record rateLimiter := mkLimiter {
  rl_buckets : gmap string tokenBucket;
  rl_rate : float64;
  rl_capacity : float64
}.

Definition newRateLimiter (rps burst : Z) : rateLimiter :=
  mkLimiter ∅ (f64_of_int rps) (f64_of_int burst).

(** [created] is the reading of [newBucket] when the key is new, [now] the one
    of the bucket's [allow]. *)
Definition limiter_allow (rl : rateLimiter) (key : string) (created now : Time) :
    bool * rateLimiter :=
  let b := default (newBucket (rl_rate rl) (rl_capacity rl) created) (rl_buckets rl !! key) in
  let '(ok, b') := bucket_allow b now in
  (ok, mkLimiter (<[key := b']> (rl_buckets rl)) (rl_rate rl) (rl_capacity rl)).

(** A run of requests: the clients in order with their clock readings. *)
Fixpoint limiter_run (rl : rateLimiter) (reqs : list (string * Time)) : list bool * rateLimiter :=
  match reqs with
  | [] => ([], rl)
  | (k, t) :: reqs' =>
      let '(ok, rl') := limiter_allow rl k t t in
      let '(oks, rl'') := limiter_run rl' reqs' in (ok :: oks, rl'')
  end.

(** ** Properties *)

(** The answers a client gets. *)
Definition answers (k : string) (reqs : list (string * Time)) (oks : list bool) : list bool :=
  map snd (filter (fun p => p.1.1 = k) (zip reqs oks)).

(** The run of one client alone, on its own bucket. *)
Fixpoint bucket_run (b : option tokenBucket) (rate capacity : float64) (times : list Time) :
    list bool :=
  match times with
  | [] => []
  | t :: times' =>
      let '(ok, b') := bucket_allow (default (newBucket rate capacity t) b) t in
      ok :: bucket_run (Some b') rate capacity times'
  end.

Lemma limiter_client reqs k rl :
  answers k reqs (limiter_run rl reqs).1
  = bucket_run (rl_buckets rl !! k) (rl_rate rl) (rl_capacity rl)
      (map snd (filter (fun p => p.1 = k) reqs)).
Proof.
  revert rl. induction reqs as [|[k' t] reqs IH]; intros rl; [done|]. simpl.
  unfold limiter_allow.
  destruct (bucket_allow (default (newBucket (rl_rate rl) (rl_capacity rl) t) (rl_buckets rl !! k')) t)
    as [ok b'] eqn:Eb.
  set (rl' := mkLimiter _ _ _). specialize (IH rl').
  destruct (limiter_run rl' reqs) as [oks rl'']. simpl in *.
  unfold answers in *. simpl. rewrite !filter_cons. simpl.
  destruct (decide (k' = k)) as [->|Hne]; simpl.
  - rewrite Eb, IH. by rewrite lookup_insert_eq.
  - rewrite IH. by rewrite lookup_insert_ne.
Qed.

(** Clients do not interfere: in any run of requests, the answers a client
    gets are those of a limiter that only ever sees this client. *)
Theorem limiter_isolates_clients rps burst reqs k :
  answers k reqs (limiter_run (newRateLimiter rps burst) reqs).1
  = bucket_run None (f64_of_int rps) (f64_of_int burst) (map snd (filter (fun p => p.1 = k) reqs)).
Proof. apply limiter_client. Qed.

(** With the default limits, 100 requests per second and a burst of 200, a
    client that sends 201 requests at one instant has exactly the last one
    refused, and one second later exactly 100 of 101 are let through. *)
Theorem default_limits_exact :
  bucket_run None (f64_of_int 100) (f64_of_int 200)
    (replicate 201 0 ++ replicate 101 Second)
  = replicate 200 true ++ [false] ++ replicate 100 true ++ [false].
Proof. vm_compute. reflexivity. Qed.
