(* ===== verification/Api.v ===== *)
(** * The REST gateway: [internal/api]

    Handlers, middleware and router as functions from a request to a response
    on the gateway's state: the database, the Redis connection, the limiter,
    the clock and the UUID source.  Parsing of URLs and JSON bodies is gin's:
    a request carries the matched route with its parameters, and the body of a
    submission arrives as the result of the binding.  JSON encoding of
    responses is not modelled; a response is its status code and the value
    that is encoded.

    The request logger and the metrics middleware are in [ApiMiddleware];
    recovery from panics and tracing spans have no influence on responses or
    the database and are left out. *)

From S2P Require Import Prelude Float64 Models Config Fragmentation Store Interfaces Engine GoStd Redis NodeServer RateLimit.

#[local] Open Scope string_scope.
#[local] Open Scope list_scope.
#[local] Open Scope Z_scope.

(** ** Responses *)

Inductive Body :=
| BError (msg : string)
| BConflict (msg : string) (status : JobStatus)
| BJob (j : Job)
| BJobs (l : list Job)
| BStatus (s : string)
| BHealth (time : Time)
| BNotReady (err : string)
| BLogs (id : string) (lines : list string)
| BNodes (l : list Node)
| BNodeStatus (id : string) (s : NodeStatus)
| BUtilization (u : ClusterUtilization)
| BEvents (l : list SchedulingEvent)
| BEmpty.

Record Response := mkResp { rs_code : Z; rs_body : Body }.

Definition StatusOK := 200.
Definition StatusCreated := 201.
Definition StatusNoContent := 204.
Definition StatusBadRequest := 400.
Definition StatusUnauthorized := 401.
Definition StatusNotFound := 404.
Definition StatusConflict := 409.
Definition StatusTooManyRequests := 429.
Definition StatusInternalServerError := 500.
Definition StatusServiceUnavailable := 503.

(** ** State *)

Record ApiState (R : Type) := mkApi {
  api_db : Db;
  api_redis : option (RedisConn R);
  api_limiter : option rateLimiter;
  api_clock : nat -> Time;
  api_reads : nat;
  api_uuid : nat -> string;
  api_uuids : nat;
  api_metrics : option (list MetricOp)
}.
Arguments mkApi {R}.
Arguments api_db {R}.
Arguments api_redis {R}.
Arguments api_limiter {R}.
Arguments api_clock {R}.
Arguments api_reads {R}.
Arguments api_uuid {R}.
Arguments api_uuids {R}.
Arguments api_metrics {R}.

(** ** Helpers *)

Definition clamp (v lo hi : Z) : Z := if v <? lo then lo else if hi <? v then hi else v.

Definition atoiDefault (s : string) (def : Z) : Z :=
  if String.eqb s "" then def
  else match Atoi s with
       | Some n => if 0 <? n then n else def
       | None => def
       end.

Definition validateSubmit (r : SubmitJobRequest) : res unit :=
  if String.eqb (sr_UserID r) "" then Err (ErrMsg "user_id is required")
  else if (sr_GPUCount r <? 0) || (sr_CPUCount r <? 0) || (sr_MemoryGB r <? 0)
  then Err (ErrMsg "resource requests must be non-negative")
  else if (sr_GPUCount r =? 0) && (sr_CPUCount r =? 0)
  then Err (ErrMsg "job must request at least one GPU or CPU")
  else if 64 <? sr_GPUCount r then Err (ErrMsg "gpu_count exceeds maximum of 64")
  else Ok tt.

Section api.
Context `{PgEnv} {R : Type} `{RedisLists R}.
Context (cfg : Config).

Definition with_db {A} (m : M Db A) : M (ApiState R) A :=
  zoom api_db (fun db s => mkApi db (api_redis s) (api_limiter s) (api_clock s) (api_reads s)
                             (api_uuid s) (api_uuids s) (api_metrics s)) m.

Definition api_now : M (ApiState R) Time := fun s =>
  (api_clock s (api_reads s),
   mkApi (api_db s) (api_redis s) (api_limiter s) (api_clock s) (S (api_reads s)) (api_uuid s)
     (api_uuids s) (api_metrics s)).

Definition api_new_uuid : M (ApiState R) string := fun s =>
  (api_uuid s (api_uuids s),
   mkApi (api_db s) (api_redis s) (api_limiter s) (api_clock s) (api_reads s) (api_uuid s)
     (S (api_uuids s)) (api_metrics s)).

Definition api_emit (ops : list MetricOp) : M (ApiState R) unit :=
  modify (fun s => mkApi (api_db s) (api_redis s) (api_limiter s) (api_clock s) (api_reads s)
                     (api_uuid s) (api_uuids s) ((fun l => l ++ ops) <$> api_metrics s)).

Definition reply (code : Z) (b : Body) : M (ApiState R) Response := mret (mkResp code b).

(** ** Jobs *)

Definition new_job (id : string) (now : Time) (req : SubmitJobRequest) : Job :=
  let maxRetries := if sr_MaxRetries req <=? 0 then sc_MaxRetries (c_Scheduler cfg)
                    else sr_MaxRetries req in
  mkJob id (sr_Name req) (sr_UserID req) (sr_TeamID req) JobStatusQueued
    (clamp (sr_Priority req) 0 10) (sr_GPUCount req) (sr_CPUCount req) (sr_MemoryGB req)
    (sr_Image req) (sr_Command req) "" 0 maxRetries f64_zero now None None 0.

Definition handleSubmitJob (body : res SubmitJobRequest) : M (ApiState R) Response :=
  match body with
  | Err e => reply StatusBadRequest (BError ("invalid request body: " +:+ error_text e))
  | Ok req =>
      match validateSubmit req with
      | Err e => reply StatusBadRequest (BError (error_text e))
      | Ok _ =>
          id ← api_new_uuid;
          now ← api_now;
          let job := new_job id now req in
          r ← with_db (job_Create job);
          match r with
          | Err _ => reply StatusInternalServerError (BError "failed to create job")
          | Ok _ => api_emit [IncJobsTotal "submitted"];; reply StatusCreated (BJob job)
          end
      end
  end.

(** The query parameters of a list request. *)
Definition list_filter (status user team limit : string) : JobFilter :=
  mkFilter status user team [] (atoiDefault limit 200).

Definition handleListJobs (status user team limit : string) : M (ApiState R) Response :=
  r ← with_db (job_List (list_filter status user team limit));
  match r with
  | Err _ => reply StatusInternalServerError (BError "failed to list jobs")
  | Ok jobs => reply StatusOK (BJobs jobs)
  end.

Definition handleGetJob (id : string) : M (ApiState R) Response :=
  r ← with_db (job_Get id);
  match r with
  | Err ErrNotFound => reply StatusNotFound (BError "job not found")
  | Err _ => reply StatusInternalServerError (BError "failed to fetch job")
  | Ok job => reply StatusOK (BJob job)
  end.

Definition handleCancelJob (id : string) : M (ApiState R) Response :=
  r ← with_db (job_Get id);
  match r with
  | Err ErrNotFound => reply StatusNotFound (BError "job not found")
  | Err _ => reply StatusInternalServerError (BError "failed to fetch job")
  | Ok job =>
      if IsTerminal (j_Status job)
      then reply StatusConflict (BConflict "job already in terminal state" (j_Status job))
      else
        (if IsActive (j_Status job) && negb (String.eqb (j_NodeID job) "")
         then with_db (release_to_node job) else mret tt);;
        r ← with_db (job_UpdateStatus (j_JobID job) JobStatusCancelled);
        match r with
        | Err _ => reply StatusInternalServerError (BError "failed to cancel job")
        | Ok _ => api_emit [IncJobsTotal "cancelled"];; reply StatusOK (BStatus "cancelled")
        end
  end.

Definition handleJobLogs (id limit : string) : M (ApiState R) Response := fun s =>
  let '(r, rdb) := FetchLogs (api_redis s) id (atoiDefault limit 200) in
  let s' := mkApi (api_db s) rdb (api_limiter s) (api_clock s) (api_reads s) (api_uuid s)
              (api_uuids s) (api_metrics s) in
  match r with
  | Err _ => (mkResp StatusInternalServerError (BError "failed to fetch logs"), s')
  | Ok lines => (mkResp StatusOK (BLogs id lines), s')
  end.

(** ** Nodes and cluster *)

Definition handleListNodes : M (ApiState R) Response :=
  r ← with_db node_List;
  match r with
  | Err _ => reply StatusInternalServerError (BError "failed to list nodes")
  | Ok nodes => reply StatusOK (BNodes nodes)
  end.

Definition setNodeStatus (id : string) (status : NodeStatus) : M (ApiState R) Response :=
  r ← with_db (node_Get id);
  match r with
  | Err ErrNotFound => reply StatusNotFound (BError "node not found")
  | _ =>
      r' ← with_db (node_SetStatus id status);
      match r' with
      | Err _ => reply StatusInternalServerError (BError "failed to update node")
      | Ok _ => reply StatusOK (BNodeStatus id status)
      end
  end.

Definition handleCordonNode (id : string) := setNodeStatus id NodeStatusCordoned.
Definition handleDrainNode (id : string) := setNodeStatus id NodeStatusDraining.
Definition handleUncordonNode (id : string) := setNodeStatus id NodeStatusReady.

(** [n, _ := CountByStatus(...)]: zero on error. *)
Definition count_or_zero (st : JobStatus) : M (ApiState R) Z :=
  r ← with_db (job_CountByStatus st);
  mret match r with Ok n => n | Err _ => 0 end.

Definition handleUtilization : M (ApiState R) Response :=
  r ← with_db node_List;
  match r with
  | Err _ => reply StatusInternalServerError (BError "failed to load nodes")
  | Ok nodes =>
      running ← count_or_zero JobStatusRunning;
      scheduled ← count_or_zero JobStatusScheduled;
      queued ← count_or_zero JobStatusQueued;
      reply StatusOK (BUtilization (ClusterSnapshot nodes (running ⊞ scheduled) queued))
  end.

Definition handleEvents (limit : string) : M (ApiState R) Response :=
  r ← with_db (event_List (atoiDefault limit 100));
  match r with
  | Err _ => reply StatusInternalServerError (BError "failed to list events")
  | Ok events => reply StatusOK (BEvents events)
  end.

(** ** Health *)

Definition handleHealth : M (ApiState R) Response := now ← api_now; reply StatusOK (BHealth now).

(** [store.Ping] is one round trip. *)
Definition handleReady : M (ApiState R) Response :=
  r ← with_db (exec (fun _ t => (Ok tt, t)));
  match r with
  | Err e => reply StatusServiceUnavailable (BNotReady (error_text e))
  | Ok _ => reply StatusOK (BStatus "ready")
  end.

(** ** Middleware and router *)

Inductive Route :=
| RHealth | RReady
| RSubmit (body : res SubmitJobRequest)
| RListJobs (status user team limit : string)
| RGetJob (id : string) | RCancelJob (id : string) | RJobLogs (id limit : string)
| RListNodes | RCordon (id : string) | RDrain (id : string) | RUncordon (id : string)
| RUtilization | REvents (limit : string).

Record Request := mkRequest {
  rq_options : bool;                (* the method is OPTIONS *)
  rq_route : option Route;          (* the route gin matches, if any *)
  rq_clientIP : string;
  rq_authorization : string         (* the Authorization header, empty if absent *)
}.

(** The JWT library: [jwt.Parse] verifies a token with the key that the key
    function returns for the token's signing method; it yields the subject
    claim when the token is valid. *)
Record JwtLib := mkJwt {
  jwt_method_hmac : string -> bool;              (* the token's method is HMAC *)
  jwt_parse : string -> (bool -> res string) -> res (option string);
  jwt_keyfunc_error : forall tok keyf e,
    keyf (jwt_method_hmac tok) = Err e -> exists e', jwt_parse tok keyf = Err e'
}.

Context (jwt : JwtLib).

(** Refused, or let through with the subject for the handlers. *)
Inductive AuthResult := AuthDenied (r : Response) | AuthNext (user : option string).

Definition auth (header : string) : AuthResult :=
  if negb (ac_Enabled (c_Auth cfg)) then AuthNext None
  else if negb (HasPrefix header "Bearer ")
  then AuthDenied (mkResp StatusUnauthorized (BError "missing bearer token"))
  else
    match jwt_parse jwt (TrimPrefix header "Bearer ")
            (fun hmac => if hmac then Ok (ac_JWTSecret (c_Auth cfg))
                         else Err (ErrMsg "signature is invalid")) with
    | Err _ => AuthDenied (mkResp StatusUnauthorized (BError "invalid token"))
    | Ok sub => AuthNext sub
    end.

Definition rate_limit (ip : string) : M (ApiState R) bool := fun s =>
  match api_limiter s with
  | None => (true, s)
  | Some rl =>
      (* a new bucket reads the clock once more *)
      let n := api_reads s in
      let fresh := bool_decide (rl_buckets rl !! ip = None) in
      let created := api_clock s n in
      let n' := if fresh then S n else n in
      let '(ok, rl') := limiter_allow rl ip created (api_clock s n') in
      (ok, mkApi (api_db s) (api_redis s) (Some rl') (api_clock s) (S n') (api_uuid s)
             (api_uuids s) (api_metrics s))
  end.

Definition handle (route : Route) : M (ApiState R) Response :=
  match route with
  | RHealth => handleHealth
  | RReady => handleReady
  | RSubmit body => handleSubmitJob body
  | RListJobs status user team limit => handleListJobs status user team limit
  | RGetJob id => handleGetJob id
  | RCancelJob id => handleCancelJob id
  | RJobLogs id limit => handleJobLogs id limit
  | RListNodes => handleListNodes
  | RCordon id => handleCordonNode id
  | RDrain id => handleDrainNode id
  | RUncordon id => handleUncordonNode id
  | RUtilization => handleUtilization
  | REvents limit => handleEvents limit
  end.

(** The routes outside the group that [auth] guards. *)
Definition public (route : Route) : bool :=
  match route with RHealth | RReady => true | _ => false end.

(** The chain of [buildRouter]: cors, rate limit, then the route.  A request that
    gin redirects does not reach it ([ApiMiddleware.gateway]). *)
Definition serve (req : Request) : M (ApiState R) Response :=
  if rq_options req then reply StatusNoContent BEmpty
  else
    ok ← rate_limit (rq_clientIP req);
    if negb ok then reply StatusTooManyRequests (BError "rate limit exceeded")
    else match rq_route req with
    | None => reply StatusNotFound BEmpty
    | Some route =>
        if public route then handle route
        else match auth (rq_authorization req) with
             | AuthDenied r => mret r
             | AuthNext _ => handle route
             end
    end.
End api.
