(* ===== verification/ApiTheorems.v ===== *)
(** * Properties of the REST gateway *)

From S2P Require Import Prelude Float64 Models Config Algorithms Fragmentation Store Interfaces Engine Scenarios EngineLogic EngineFrame Ledger StoreTheorems GoStd Redis NodeServer NodeServerTheorems RateLimit Api.

#[local] Open Scope string_scope.
#[local] Open Scope list_scope.
#[local] Open Scope Z_scope.

Section api_theorems.
Context `{PgEnv} {R : Type} `{RedisLists R}.
Context (cfg : Config) (jwt : JwtLib).
Implicit Types s : ApiState R.

Definition api_jobs s : gmap string Job := a_jobs (db_view (api_db s)).
Definition api_nodes s : gmap string Node := a_nodes (db_view (api_db s)).
Definition api_tables s : Tables := db_tables (api_db s).

(** ** Small helpers *)

Lemma clamp_range v lo hi : lo <= hi -> lo <= clamp v lo hi <= hi.
Proof. intros Hl. unfold clamp. case_bool; bool_prop; lia. Qed.

Lemma atoiDefault_positive str def : 0 < def -> 0 < atoiDefault str def < two63 \/ atoiDefault str def = def.
Proof.
  intros Hd. unfold atoiDefault. destruct (String.eqb str ""); [by right|].
  destruct (Atoi str) as [n|] eqn:E; [|by right]. apply Atoi_range in E. unfold in_int64 in E.
  destruct (Z.ltb_spec 0 n); [left; lia|by right].
Qed.

Lemma validateSubmit_ok r :
  validateSubmit r = Ok tt <->
  sr_UserID r <> "" /\ 0 <= sr_GPUCount r <= 64 /\ 0 <= sr_CPUCount r /\ 0 <= sr_MemoryGB r
  /\ (0 < sr_GPUCount r \/ 0 < sr_CPUCount r).
Proof.
  unfold validateSubmit. destruct (String.eqb_spec (sr_UserID r) "") as [->|];
    [by split; [|intros [[] _]]|].
  destruct (Z.ltb_spec (sr_GPUCount r) 0), (Z.ltb_spec (sr_CPUCount r) 0),
    (Z.ltb_spec (sr_MemoryGB r) 0), (Z.eqb_spec (sr_GPUCount r) 0), (Z.eqb_spec (sr_CPUCount r) 0),
    (Z.ltb_spec 64 (sr_GPUCount r)); simpl; split; intros; try done; try lia; intuition lia.
Qed.

(** ** Submission *)

(** A submission that does not pass validation (no user, a negative amount,
    neither GPU nor CPU, more than 64 GPUs, or a body that does not parse) is
    answered with 400 and stores nothing. *)
Theorem submit_rejects_invalid s body :
  (forall req, body = Ok req ->
     ~ (sr_UserID req <> "" /\ 0 <= sr_GPUCount req <= 64 /\ 0 <= sr_CPUCount req
        /\ 0 <= sr_MemoryGB req /\ (0 < sr_GPUCount req \/ 0 < sr_CPUCount req))) ->
  rs_code (handleSubmitJob cfg body s).1 = StatusBadRequest /\ (handleSubmitJob cfg body s).2 = s.
Proof.
  intros Hbad. unfold handleSubmitJob. destruct body as [req|e]; [|done].
  destruct (validateSubmit req) as [[]|e] eqn:E; [|done].
  by destruct (Hbad req eq_refl); apply validateSubmit_ok.
Qed.

(** The retry budget of a new job. *)
Definition max_retries (req : SubmitJobRequest) : Z :=
  if sr_MaxRetries req <=? 0 then sc_MaxRetries (c_Scheduler cfg) else sr_MaxRetries req.

(** C22: A valid submission whose amounts fit the columns is answered with 201,
    and the job is stored under its new identifier: queued, unassigned, without
    retries, with the request as submitted and a priority between 0 and 10.
    The database stays well formed and the books balanced. *)
Theorem submit_stores_job s req :
  let id := api_uuid s (api_uuids s) in
  let s' := (handleSubmitJob cfg (Ok req) s).2 in
  db_healthy (api_db s) -> api_jobs s !! id = None ->
  validateSubmit req = Ok tt ->
  sr_CPUCount req <= 2147483647 -> sr_MemoryGB req <= 2147483647 -> in_int32 (max_retries req) ->
  base_ok (api_jobs s) (api_nodes s) -> accounted (api_jobs s) (api_nodes s) ->
  rs_code (handleSubmitJob cfg (Ok req) s).1 = StatusCreated
  /\ base_ok (api_jobs s') (api_nodes s') /\ accounted (api_jobs s') (api_nodes s')
  /\ exists j, api_jobs s' = <[id := j]> (api_jobs s)
     /\ j_Status j = JobStatusQueued /\ j_NodeID j = "" /\ j_RetryCount j = 0
     /\ j_UserID j = sr_UserID req /\ j_MaxRetries j = max_retries req
     /\ job_request j = mkReq (sr_GPUCount req) (sr_CPUCount req) (sr_MemoryGB req)
     /\ 0 <= j_Priority j <= 10.
Proof.
  intros id s' Hh Hfree Hval Hcpu Hmem Hmax Hb Ha.
  pose proof (proj1 (validateSubmit_ok req) Hval) as (_ & Hg & Hc & Hm & _).
  pose proof (clamp_range (sr_Priority req) 0 10 ltac:(lia)) as Hprio.
  set (now := api_clock s (api_reads s)). set (job := new_job cfg id now req).
  assert (job_ints_ok job = true) as Hints.
  { unfold job_ints_ok. simpl. fold (max_retries req).
    rewrite !bool_decide_eq_true_2; [done|..]; unfold in_int32 in *; try lia; done. }
  assert (tb_jobs (api_tables s) !! id = None) as Hfree'.
  { unfold api_jobs, db_view, view_tables in Hfree. simpl in Hfree. rewrite lookup_fmap in Hfree.
    unfold api_tables. by destruct (tb_jobs (db_tables (api_db s)) !! id). }
  assert (rs_code (handleSubmitJob cfg (Ok req) s).1 = StatusCreated
    /\ api_jobs s' = <[id := scanJob (new_row job)]> (api_jobs s) /\ api_nodes s' = api_nodes s)
    as (Hcode & Ej & En).
  { unfold s', handleSubmitJob. rewrite Hval. unfold mbind, M_bind, with_db, zoom, job_Create, with_prefix.
    simpl. rewrite exec_healthy by done. cbn [api_db]. fold now. fold id. fold job.
    rewrite Hints. simpl. unfold api_tables in Hfree'. rewrite Hfree'. simpl. split; [done|].
    unfold api_jobs, api_nodes, db_view, view_tables. simpl. by rewrite fmap_insert. }
  assert (IsActive (j_Status (scanJob (new_row job))) = false) as Hidle by done.
  rewrite Ej, En. split; [done|]. split_and!.
  - split; [|apply Hb]. apply map_Forall_insert_2; [|apply Hb]. split; [done|].
    unfold job_wf, req_wf, amount_wf, in_int32. simpl. lia.
  - intros k n Hn d. specialize (Ha _ _ Hn d). unfold load in *.
    rewrite msum_insert_fresh by done. rewrite weight_idle by done. lia.
  - eexists. split; [done|]. split_and!; try done; apply Hprio.
Qed.

(** ** Reading jobs *)

Lemma created_desc_swo : StrictWeakOrder created_desc.
Proof.
  apply (swo_key _ (fun r => [- j_CreatedAt (row_job r)])). intros x y. unfold created_desc, time_After.
  simpl. destruct (Z.eqb_spec (- j_CreatedAt (row_job x)) (- j_CreatedAt (row_job y))),
    (Z.ltb_spec (j_CreatedAt (row_job y)) (j_CreatedAt (row_job x))),
    (Z.ltb_spec (- j_CreatedAt (row_job x)) (- j_CreatedAt (row_job y))); done || lia.
Qed.

(** A job passes the query parameters: an empty one does not restrict. *)
Definition passes (status user team : string) (j : Job) : Prop :=
  (status = "" \/ j_Status j = status) /\ (user = "" \/ j_UserID j = user)
  /\ (team = "" \/ j_TeamID j = team).

Lemma list_filter_matches status user team limit r :
  filter_matches (list_filter status user team limit) r = true <-> passes status user team (scanJob r).
Proof.
  unfold filter_matches, list_filter, passes. simpl.
  rewrite !andb_true_iff, !orb_true_iff, !String.eqb_eq. tauto.
Qed.

Lemma collect_desc l : StronglySorted (not_after created_desc) l ->
  StronglySorted (fun a b => j_CreatedAt b <= j_CreatedAt a) (collectJobs l).
Proof.
  induction 1 as [|r l Hl IH Hall]; constructor; [done|]. apply Forall_map.
  eapply Forall_impl; [exact Hall|]. intros r'. unfold not_after, created_desc, time_After.
  simpl. intros ?%Z.ltb_ge. lia.
Qed.

(** C28: The job list: the query that the gateway assembles returns, newest
    first, jobs that pass the filters; with [limit] the parameter if it is a
    positive number and 200 otherwise, it returns the [limit] newest of all the
    jobs that pass. *)
Theorem list_jobs_spec s status user team limit :
  db_healthy (api_db s) ->
  let n := atoiDefault limit 200 in
  0 < n
  /\ exists all, all ≡ₚ filter (passes status user team) (map snd (map_to_list (api_jobs s)))
     /\ StronglySorted (fun a b => j_CreatedAt b <= j_CreatedAt a) all
     /\ (handleListJobs status user team limit s).1
        = mkResp StatusOK (BJobs (take (Z.to_nat n) all)).
Proof.
  intros Hh n. assert (0 < n) as Hn by (destruct (atoiDefault_positive limit 200); lia).
  split; [done|]. unfold handleListJobs, mbind, M_bind, with_db, zoom, job_List, with_prefix.
  rewrite exec_healthy by done. simpl. unfold run_query.
  rewrite build_query_limit. replace (0 <? jf_Limit (list_filter status user team limit)) with true
    by (symmetry; by apply Z.ltb_lt).
  set (sel := filter _ (map snd (map_to_list (tb_jobs _)))). exists (collectJobs (pg_order created_desc sel)). split_and!.
  - unfold collectJobs. rewrite pg_order_perm. unfold api_jobs, db_view, view_tables. simpl.
    rewrite map_snd_fmap, (filter_map scanJob). apply Permutation_map. unfold sel.
    rewrite (list_filter_iff _ (fun x => passes status user team (scanJob x))); [done|].
    intros r. cbv beta. rewrite build_query_matches. apply list_filter_matches.
  - apply collect_desc, pg_order_sorted, created_desc_swo.
  - unfold reply, collectJobs. by rewrite firstn_map.
Qed.

(** ** Cancellation *)

Lemma api_job_Get s id j :
  db_healthy (api_db s) -> api_jobs s !! id = Some j ->
  job_Get id (api_db s) = (Ok j, after_stmt (api_tables s) (api_db s)).
Proof.
  intros Hh Hj. apply (job_Get_healthy (mkServer (api_db s) (api_redis s) None) id j Hh Hj).
Qed.

(** C21: Cancelling an active job succeeds, marks it cancelled, returns exactly
    its request to its node, and keeps the database well formed and the books
    balanced. *)
Theorem cancel_active_job s j n :
  let id := j_JobID j in let s' := (handleCancelJob id s).2 in
  db_healthy (api_db s) -> base_ok (api_jobs s) (api_nodes s) -> accounted (api_jobs s) (api_nodes s) ->
  api_jobs s !! id = Some j -> IsActive (j_Status j) = true ->
  j_NodeID j <> "" -> api_nodes s !! j_NodeID j = Some n ->
  (handleCancelJob id s).1 = mkResp StatusOK (BStatus "cancelled")
  /\ base_ok (api_jobs s') (api_nodes s') /\ accounted (api_jobs s') (api_nodes s')
  /\ (exists now, api_jobs s' !! id = Some (moved_to now JobStatusCancelled j))
  /\ exists n', api_nodes s' !! j_NodeID j = Some n'
     /\ forall d, offered d n' = offered d n + asked d (job_request j).
Proof.
  intros id s' Hh Hb Ha Hj Hact Hne Hn. destruct (proj1 Hb _ _ Hj) as [_ [Hreq _]].
  assert (map_Forall (fun _ n => node_wf n) (tb_nodes (api_tables s))) as Hw.
  { intros k m Hm. by destruct (proj2 Hb _ _ Hm). }
  set (db1 := after_stmt (api_tables s) (api_db s)).
  destruct (finalize_effect j JobStatusCancelled db1 Hh Hw Hreq Hne) as (Hok & _ & now & Ht).
  destruct (left_node_books (moved_to now JobStatusCancelled) n j (api_jobs s) (api_nodes s))
    as (Hb' & Ha' & Hn'); try done.
  assert (api_jobs s' = alter (moved_to now JobStatusCancelled) id (api_jobs s)
    /\ api_nodes s' = (left_node (moved_to now JobStatusCancelled) n j (api_jobs s) (api_nodes s)).2
    /\ (handleCancelJob id s).1 = mkResp StatusOK (BStatus "cancelled")) as (Ej & En & Er).
  { unfold s', handleCancelJob, mbind, M_bind, with_db, zoom. rewrite (api_job_Get s id j Hh Hj).
    fold db1. assert (IsTerminal (j_Status j) = false) as ->.
    { apply IsActive_iff in Hact as [->| ->]; done. }
    destruct (String.eqb_spec (j_NodeID j) "") as [|_]; [done|]. rewrite Hact. cbn [negb andb api_db].
    unfold releaseAndFinalize, mbind, M_bind in Ht, Hok.
    destruct (String.eqb_spec (j_NodeID j) "") as [|_]; [done|].
    destruct (release_to_node j db1) as [[] db2]. cbn [api_db].
    destruct (job_UpdateStatus (j_JobID j) JobStatusCancelled db2) as [r db3]. simpl in Hok, Ht.
    subst r. unfold api_jobs, api_nodes, db_view. cbn [api_db snd fst api_emit modify reply mret M_ret].
    rewrite Ht. change (tb_jobs (api_tables s)) with (tb_jobs (db_tables db1)).
    rewrite view_finished. unfold api_nodes, db_view in Hn. simpl in Hn. unfold released_tables. simpl.
    unfold api_tables. by rewrite Hn. }
  rewrite Ej, En, Er. simpl in Hb', Ha', Hn'. split_and!; [done|done|done| |exact Hn'].
  exists now. by rewrite lookup_alter_eq, Hj.
Qed.

(** Cancelling anything else never touches a node: an unknown job is
    answered with 404 and a finished one with 409, both without any change; a
    job that waits is marked cancelled and answered with 200. *)
Theorem cancel_other_job s id :
  db_healthy (api_db s) -> base_ok (api_jobs s) (api_nodes s) ->
  let s' := (handleCancelJob id s).2 in
  match api_jobs s !! id with
  | None => rs_code (handleCancelJob id s).1 = StatusNotFound /\ api_tables s' = api_tables s
  | Some j =>
      if IsTerminal (j_Status j)
      then rs_code (handleCancelJob id s).1 = StatusConflict /\ api_tables s' = api_tables s
      else IsActive (j_Status j) = false ->
        rs_code (handleCancelJob id s).1 = StatusOK /\ api_nodes s' = api_nodes s
        /\ exists now, api_jobs s' = alter (moved_to now JobStatusCancelled) id (api_jobs s)
  end.
Proof.
  intros Hh Hb s'. unfold s', handleCancelJob, mbind, M_bind, with_db, zoom.
  destruct (api_jobs s !! id) as [j|] eqn:Ej.
  - rewrite (api_job_Get s id j Hh Ej). destruct (proj1 Hb _ _ Ej) as [Hid _].
    destruct (IsTerminal (j_Status j)); [done|]. intros Hidle. rewrite Hidle. cbn [andb mret M_ret api_db].
    destruct (update_status_view (j_JobID j) JobStatusCancelled
      (after_stmt (api_tables s) (api_db s)) Hh) as [Hok [now Hv]].
    destruct (job_UpdateStatus (j_JobID j) JobStatusCancelled _) as [r db2]. simpl in Hok, Hv. subst r.
    unfold api_nodes, api_jobs. cbn [api_db snd fst api_emit modify reply mret M_ret rs_code].
    rewrite Hv, Hid. by eauto.
  - unfold api_jobs, db_view, view_tables in Ej. simpl in Ej. rewrite lookup_fmap in Ej.
    unfold job_Get. rewrite exec_healthy by done.
    by destruct (tb_jobs (db_tables (api_db s)) !! id).
Qed.

(** ** Admission *)

(** What keeps a request from its handler. *)
Inductive refusal (req : Request) s : Z -> Prop :=
| refused_preflight : rq_options req = true -> refusal req s StatusNoContent
| refused_rate : rq_options req = false -> (rate_limit (rq_clientIP req) s).1 = false ->
    refusal req s StatusTooManyRequests
| refused_auth route : rq_options req = false -> (rate_limit (rq_clientIP req) s).1 = true ->
    rq_route req = Some route -> public route = false -> ac_Enabled (c_Auth cfg) = true ->
    HasPrefix (rq_authorization req) "Bearer " = false
    \/ jwt_method_hmac jwt (TrimPrefix (rq_authorization req) "Bearer ") = false ->
    refusal req s StatusUnauthorized.

Lemma rate_limit_db ip s : api_db (rate_limit ip s).2 = api_db s.
Proof.
  unfold rate_limit. destruct (api_limiter s) as [rl|]; [|done].
  by destruct (limiter_allow _ _ _ _).
Qed.

(** C23: The gateway's guards: a preflight request gets 204, a client over its
    rate 429, and, with authentication enabled, a request to the API without a
    bearer token or with a token that is not signed with an HMAC method gets
    401; in all these cases the database is not touched. *)
Theorem gateway_guards req s code :
  refusal req s code ->
  rs_code (serve cfg jwt req s).1 = code /\ api_db (serve cfg jwt req s).2 = api_db s.
Proof.
  intros Hr. pose proof (rate_limit_db (rq_clientIP req) s) as Hdb. unfold serve, mbind, M_bind.
  destruct Hr as [Ho|Ho Hrl|route Ho Hrl Hroute Hpub Hauth Htok].
  - by rewrite Ho.
  - rewrite Ho. destruct (rate_limit (rq_clientIP req) s) as [ok s1]. simpl in *. by rewrite Hrl.
  - rewrite Ho. destruct (rate_limit (rq_clientIP req) s) as [ok s1]. cbn [fst snd] in *.
    rewrite Hrl, Hroute. cbn [negb]. rewrite Hpub. unfold auth. rewrite Hauth. cbn [negb].
    destruct Htok as [->|Hm]; [done|].
    destruct (HasPrefix (rq_authorization req) "Bearer "); [|done]. cbn [negb].
    match goal with |- context [jwt_parse jwt ?tok ?k] =>
      destruct (jwt_keyfunc_error jwt tok k (ErrMsg "signature is invalid")) as [e' ->] end; [by rewrite Hm|done].
Qed.

(** ** Node administration *)

(** Cordon, drain and uncordon on a healthy server: an unknown node is
    answered with 404 and nothing changes; otherwise exactly the status of that
    node changes, so running jobs keep their node and its availability. *)
Theorem node_status_spec s id status :
  db_healthy (api_db s) ->
  let s' := (setNodeStatus id status s).2 in
  api_jobs s' = api_jobs s
  /\ match api_nodes s !! id with
     | None => rs_code (setNodeStatus id status s).1 = StatusNotFound /\ api_nodes s' = api_nodes s
     | Some n => (setNodeStatus id status s).1 = mkResp StatusOK (BNodeStatus id status)
         /\ api_nodes s' = <[id := set_liveness status (n_LastHeartbeat n) n]> (api_nodes s)
     end.
Proof.
  intros Hh. unfold setNodeStatus, mbind, M_bind, with_db, zoom, node_Get, node_SetStatus,
    api_jobs, api_nodes, db_view. rewrite exec_healthy by done. simpl.
  destruct (tb_nodes (db_tables (api_db s)) !! id) as [n|] eqn:En; simpl; [|done].
  rewrite exec_healthy by done. simpl. split; [done|]. split; [done|].
  apply map_eq. intros k. rewrite lookup_alter, lookup_insert.
  case_decide; [|done]. subst. by rewrite En.
Qed.
End api_theorems.

(** ** Witnesses *)

Definition sample_config (auth_on : bool) : Config :=
  mkConfig "test" "info" "api" (mkHTTP ":8080" ":9090" 0 0 0 100 200) (mkGRPC "" "" "" "")
    (mkPostgres "postgres://" 20 2 0) (mkRedis "" "" 0) cfg_default (mkTelemetry "" false f64_one)
    (mkAuth "secret" auth_on).

Definition api_of (t : Tables) : ApiState (gmap string (list string * option Time)) :=
  mkApi (healthy_db t 0) (Some empty_redis) (Some (newRateLimiter 100 200)) (fun _ => 0) 0
    (fun k => "job-" +:+ pretty (Z.of_nat k)) 0 (Some []).

(** A library that accepts a token exactly when it may use the HMAC key. *)
#[program] Definition jwt_hmac_only (hmac : string -> bool) : JwtLib :=
  mkJwt hmac (fun tok keyf => match keyf (hmac tok) with Ok _ => Ok None | Err e => Err e end) _.
Next Obligation. intros hmac tok keyf e Hk. simpl. rewrite Hk. by exists e. Qed.

Definition good_submit : SubmitJobRequest := mkSubmit "train" "alice" "ml" 42 2 8 64 "img" "run" 0.

Lemma submit_rejects_invalid_witness :
  rs_code (handleSubmitJob (sample_config false)
    (Ok (mkSubmit "train" "" "ml" 5 2 8 64 "img" "run" 0)) (api_of mixed_tables)).1 = StatusBadRequest.
Proof.
  refine (proj1 (submit_rejects_invalid (sample_config false) (api_of mixed_tables)
    (Ok (mkSubmit "train" "" "ml" 5 2 8 64 "img" "run" 0)) _)).
  intros req [= <-] [Hu _]. exact (Hu eq_refl).
Defined.

Lemma submit_stores_job_witness :
  rs_code (handleSubmitJob (sample_config false) (Ok good_submit) (api_of mixed_tables)).1
  = StatusCreated.
Proof.
  refine (proj1 (submit_stores_job (sample_config false) (api_of mixed_tables) good_submit
    _ _ _ _ _ _ _ _)).
  - by intros k.
  - vm_compute. reflexivity.
  - reflexivity.
  - vm_compute. discriminate.
  - vm_compute. discriminate.
  - by apply (bool_decide_unpack _).
  - by apply (bool_decide_unpack _); vm_compute.
  - by apply (bool_decide_unpack _); vm_compute.
Defined.

Lemma list_jobs_spec_witness : exists all,
  (handleListJobs JobStatusQueued "" "" "1" (api_of mixed_tables)).1
  = mkResp StatusOK (BJobs (take 1 all)).
Proof.
  destruct (list_jobs_spec (api_of mixed_tables) JobStatusQueued "" "" "1") as (_ & all & _ & _ & E).
  - by intros k.
  - exists all. exact E.
Defined.

Lemma cancel_active_job_witness :
  (handleCancelJob "victim" (api_of mixed_tables)).1 = mkResp StatusOK (BStatus "cancelled").
Proof.
  refine (proj1 (cancel_active_job (api_of mixed_tables) victim
    (with_jobs [victim] (node_of "n1" 4 8 64)) _ _ _ _ _ _ _)).
  - by intros k.
  - by apply (bool_decide_unpack _); vm_compute.
  - by apply (bool_decide_unpack _); vm_compute.
  - vm_compute. reflexivity.
  - reflexivity.
  - discriminate.
  - vm_compute. reflexivity.
Defined.

Lemma cancel_other_job_witness :
  rs_code (handleCancelJob "done" (api_of mixed_tables)).1 = StatusConflict.
Proof.
  refine (proj1 (cancel_other_job (api_of mixed_tables) "done" _ _)).
  - by intros k.
  - by apply (bool_decide_unpack _); vm_compute.
Defined.

Lemma gateway_guards_witness :
  rs_code (serve (sample_config true) (jwt_hmac_only (fun _ => false))
    (mkRequest false (Some (RCancelJob "victim")) "10.0.0.1" "Bearer none") (api_of mixed_tables)).1
  = StatusUnauthorized.
Proof.
  refine (proj1 (gateway_guards (sample_config true) (jwt_hmac_only (fun _ => false))
    (mkRequest false (Some (RCancelJob "victim")) "10.0.0.1" "Bearer none") (api_of mixed_tables)
    StatusUnauthorized _)).
  apply (refused_auth _ _ _ _ (RCancelJob "victim")); [reflexivity| |reflexivity..|by right].
  vm_compute. reflexivity.
Defined.

Lemma node_status_spec_witness :
  (setNodeStatus "n1" NodeStatusCordoned (api_of mixed_tables)).1
  = mkResp StatusOK (BNodeStatus "n1" NodeStatusCordoned).
Proof.
  refine (proj1 (proj2 (node_status_spec (api_of mixed_tables) "n1" NodeStatusCordoned _))).
  by intros k.
Defined.
