(* ===== verification/Leader.v ===== *)
(** * Leader election: [internal/redisx/leader.go]

    The lease is one Redis key with an expiry.  The commands that the elector
    sends are the operations of the class [RedisKeys], with their documented
    behaviour as laws: a lease lasts whole milliseconds, one that is not positive
    is refused by SET (except go-redis's 0 and -1, a key without expiry) and
    deletes the key in PEXPIRE.  The two Lua scripts and
    [tryAcquire], [keepAlive] and [release] are translated from the source.  The electors of a cluster run
    concurrently: [lstep] interleaves their atomic Redis calls with the passing
    of time.  A call may fail with or without its effect. *)

From S2P Require Import Prelude Float64 Redis.

#[local] Open Scope string_scope.
#[local] Open Scope list_scope.
#[local] Open Scope Z_scope.

(** ** The commands *)

Class RedisKeys (R : Type) := {
  rk_get : Time -> string -> R -> option string;         (* GET at a server time *)
  rk_SetNX : Time -> string -> string -> Duration -> R -> bool * R;
  rk_Del : Time -> string -> R -> R;
  rk_PExpire : Time -> string -> Z -> R -> R;            (* milliseconds *)
  (* a value that is there later, with no command in between, is there now *)
  rk_get_mono : forall t t' k v r, t <= t' -> rk_get t' k r = Some v -> rk_get t k r = Some v;
  (* SET NX fails on a key that is there, and with a lease that Redis refuses *)
  rk_SetNX_busy : forall t k v v' ttl r,
    rk_get t k r = Some v' -> rk_SetNX t k v ttl r = (false, r);
  rk_SetNX_refused : forall t k v ttl r,
    can_acquire ttl = false -> rk_SetNX t k v ttl r = (false, r);
  (* otherwise it succeeds; the value is there until the lease ends, then it is not *)
  rk_SetNX_free : forall t k v ttl r, rk_get t k r = None -> can_acquire ttl = true ->
    (rk_SetNX t k v ttl r).1 = true
    /\ forall t', t <= t' -> (0 < ttl -> t' < t + granted ttl) ->
         rk_get t' k (rk_SetNX t k v ttl r).2 = Some v;
  rk_SetNX_gone : forall t t' k v ttl r, rk_get t k r = None -> 0 < ttl ->
    t + granted ttl + Millisecond <= t' -> rk_get t' k (rk_SetNX t k v ttl r).2 = None;
  rk_Del_get : forall t t' k r, rk_get t' k (rk_Del t k r) = None;
  rk_PExpire_get : forall t t' k ms v r, rk_get t k r = Some v -> t <= t' ->
    t' < t + ms * Millisecond -> rk_get t' k (rk_PExpire t k ms r) = Some v;
  rk_PExpire_gone : forall t t' k ms v r, rk_get t k r = Some v -> t <= t' ->
    (ms <= 0 \/ t + ms * Millisecond + Millisecond <= t') -> rk_get t' k (rk_PExpire t k ms r) = None
}.

(** A server on a finite map from keys to values with their expiry. *)
Definition get_ref (t : Time) (k : string) (r : gmap string (string * option Time)) : option string :=
  match r !! k with
  | Some (v, Some e) => if t <? e then Some v else None
  | Some (v, None) => Some v
  | None => None
  end.

Definition setnx_ref (t : Time) (k v : string) (ttl : Duration)
    (r : gmap string (string * option Time)) : bool * gmap string (string * option Time) :=
  match get_ref t k r with
  | Some _ => (false, r)
  | None =>
      if negb (can_acquire ttl) then (false, r)
      else (true, <[k := (v, if 0 <? ttl then Some (t + granted ttl) else None)]> r)
  end.

Definition pexpire_ref (t : Time) (k : string) (ms : Z) (r : gmap string (string * option Time)) :
    gmap string (string * option Time) :=
  match get_ref t k r with
  | Some v => if ms <=? 0 then delete k r else <[k := (v, Some (t + ms * Millisecond))]> r
  | None => r
  end.

Definition redis_keys : RedisKeys (gmap string (string * option Time)).
Proof.
  refine {| rk_get := get_ref; rk_SetNX := setnx_ref; rk_Del t k r := delete k r;
            rk_PExpire := pexpire_ref |}.
  - intros t t' k v r Ht. unfold get_ref. destruct (r !! k) as [[v' [e|]]|]; [|done..].
    destruct (Z.ltb_spec t' e), (Z.ltb_spec t e); done || lia.
  - intros t k v v' ttl r E. unfold setnx_ref. by rewrite E.
  - intros t k v ttl r Hca. unfold setnx_ref. rewrite Hca. by destruct (get_ref t k r).
  - intros t k v ttl r E Hca. unfold setnx_ref. rewrite E, Hca. split; [done|].
    intros t' _ Ht. unfold get_ref. simpl. rewrite lookup_insert_eq.
    destruct (Z.ltb_spec 0 ttl) as [Hp|]; [|done]. specialize (Ht Hp).
    destruct (Z.ltb_spec t' (t + granted ttl)); [done|lia].
  - intros t t' k v ttl r E Hp Ht. unfold setnx_ref. rewrite E.
    replace (can_acquire ttl) with true by (symmetry; apply Z.leb_le; lia).
    unfold get_ref. simpl. rewrite lookup_insert_eq. destruct (Z.ltb_spec 0 ttl); [|lia].
    unfold Millisecond in *. destruct (Z.ltb_spec t' (t + granted ttl)); [lia|done].
  - intros t t' k r. unfold get_ref. by rewrite lookup_delete_eq.
  - intros t t' k ms v r E Ht Hlt. unfold pexpire_ref. rewrite E. unfold Millisecond in *.
    destruct (Z.leb_spec ms 0); [lia|]. unfold get_ref. rewrite lookup_insert_eq.
    destruct (Z.ltb_spec t' (t + ms * 1000000)); [done|lia].
  - intros t t' k ms v r E Ht Hor. unfold pexpire_ref. rewrite E. unfold Millisecond in *.
    destruct (Z.leb_spec ms 0); unfold get_ref; [by rewrite lookup_delete_eq|].
    rewrite lookup_insert_eq. destruct (Z.ltb_spec t' (t + ms * 1000000)); [lia|done].
Defined.

(** ** The elector *)

Section elector.
Context {R : Type} `{RedisKeys R} (key : string) (ttl : Duration).
Implicit Types (me : string) (now : Time) (r : R).

(** [renewScript], [releaseScript]: the result is the script's integer. *)
Definition renewScript now me (ms : Z) r : Z * R :=
  if bool_decide (rk_get now key r = Some me) then (1, rk_PExpire now key ms r) else (0, r).

Definition releaseScript now me r : Z * R :=
  if bool_decide (rk_get now key r = Some me) then (1, rk_Del now key r) else (0, r).

Definition SetNX now me r : bool * R := rk_SetNX now key me ttl r.

(** A reply that reaches the elector, or is lost with or without the effect. *)
Inductive Reply := Delivered | LostAfter | LostBefore.

Definition tryAcquire (reply : Reply) now me r : bool * R :=
  match reply with
  | Delivered => SetNX now me r
  | LostAfter => (false, (SetNX now me r).2)
  | LostBefore => (false, r)
  end.

(** One renewal of [keepAlive]: true when the elector stays leader. *)
Definition renew (reply : Reply) now me r : bool * R :=
  match reply with
  | Delivered => let '(res, r') := renewScript now me (Milliseconds ttl) r in (negb (res =? 0), r')
  | LostAfter => (false, (renewScript now me (Milliseconds ttl) r).2)
  | LostBefore => (false, r)
  end.

Definition release (reply : Reply) now me r : R :=
  match reply with LostBefore => r | _ => (releaseScript now me r).2 end.

(** Intervals of the two tickers. *)
Definition acquireInterval : Duration :=
  let d := Z.quot ttl 3 in if d <? Second then Second else d.
Definition renewInterval : Duration := Z.quot ttl 3.

(** ** The cluster *)

(** [Run]: campaigning; leading, with the time until which the last call that
    succeeded keeps the lease; or told to stop while [lead] has not returned. *)
Inductive Phase := Campaigning | Leading (until : Time) | Stopping.

Record World := mkWorld { w_now : Time; w_redis : R; w_electors : gmap string Phase }.

Definition set_phase me (p : Phase) (r : R) (w : World) : World :=
  mkWorld (w_now w) r (<[me := p]> (w_electors w)).

(** [timely]: no elector sleeps past the end of its lease while leading. *)
Inductive lstep (timely : bool) (w : World) : World -> Prop :=
| st_elapse dt :
    0 <= dt ->
    (timely = true -> forall i u, w_electors w !! i = Some (Leading u) -> w_now w + dt < u) ->
    lstep timely w (mkWorld (w_now w + dt) (w_redis w) (w_electors w))
| st_acquire me reply r' :
    w_electors w !! me = Some Campaigning -> tryAcquire reply (w_now w) me (w_redis w) = (true, r') ->
    lstep timely w (set_phase me (Leading (w_now w + granted ttl)) r' w)
| st_try me reply r' :
    w_electors w !! me = Some Campaigning -> tryAcquire reply (w_now w) me (w_redis w) = (false, r') ->
    lstep timely w (set_phase me Campaigning r' w)
| st_renew me u reply r' :
    w_electors w !! me = Some (Leading u) -> renew reply (w_now w) me (w_redis w) = (true, r') ->
    lstep timely w (set_phase me (Leading (w_now w + Milliseconds ttl * Millisecond)) r' w)
| st_stepdown me u reply r' :
    w_electors w !! me = Some (Leading u) -> renew reply (w_now w) me (w_redis w) = (false, r') ->
    lstep timely w (set_phase me Stopping r' w)
| st_return me p reply :
    w_electors w !! me = Some p -> p <> Campaigning ->
    lstep timely w (set_phase me Campaigning (release reply (w_now w) me (w_redis w)) w).

Definition initial (w : World) : Prop :=
  map_Forall (fun _ p => p = Campaigning) (w_electors w).

Inductive reachable (timely : bool) (w0 : World) : World -> Prop :=
| reach_refl : reachable timely w0 w0
| reach_step w w' : reachable timely w0 w -> lstep timely w w' -> reachable timely w0 w'.

(** ** Safety *)

(** A leading elector owns the key until its lease ends, which is ahead. *)
Definition leases_ok (w : World) : Prop :=
  forall i u, w_electors w !! i = Some (Leading u) ->
    w_now w < u /\ forall t, w_now w <= t < u -> rk_get t key (w_redis w) = Some i.

Lemma leading_owner w i u :
  leases_ok w -> w_electors w !! i = Some (Leading u) -> rk_get (w_now w) key (w_redis w) = Some i.
Proof. intros Hw Hi. destruct (Hw i u Hi) as [Hlt Hget]. apply Hget. lia. Qed.

(** An elector that does not own the key cannot change it while another leads. *)
Lemma others_keep w i u me :
  leases_ok w -> w_electors w !! i = Some (Leading u) -> me <> i ->
  (forall reply, tryAcquire reply (w_now w) me (w_redis w) = (false, w_redis w))
  /\ (forall reply, renew reply (w_now w) me (w_redis w) = (false, w_redis w))
  /\ (forall reply, release reply (w_now w) me (w_redis w) = w_redis w).
Proof.
  intros Hw Hi Hne. pose proof (leading_owner _ _ _ Hw Hi) as Hget.
  assert (rk_get (w_now w) key (w_redis w) <> Some me) as Hnot by congruence.
  split_and!; intros [].
  all: unfold tryAcquire, renew, release, SetNX, renewScript, releaseScript;
    rewrite ?(rk_SetNX_busy _ _ _ _ _ _ Hget), ?bool_decide_eq_false_2 by done; done.
Qed.

(** On a free key [tryAcquire] wins exactly with a lease that Redis grants. *)
Lemma tryAcquire_grants now me r :
  rk_get now key r = None -> (tryAcquire Delivered now me r).1 = can_acquire ttl.
Proof.
  intros Hg. unfold tryAcquire, SetNX. destruct (can_acquire ttl) eqn:Hca.
  - by apply (rk_SetNX_free now key me ttl r Hg).
  - by rewrite rk_SetNX_refused.
Qed.

Lemma SetNX_won now me r r' : 0 < ttl -> SetNX now me r = (true, r') ->
  forall t, now <= t < now + granted ttl -> rk_get t key r' = Some me.
Proof.
  unfold SetNX. intros Hpos E t Ht. destruct (rk_get now key r) as [v|] eqn:Hg.
  - by rewrite (rk_SetNX_busy _ _ _ _ _ _ Hg) in E.
  - destruct (rk_SetNX_free now key me ttl r Hg) as [_ Hget]; [apply Z.leb_le; lia|].
    rewrite E in Hget. apply Hget; [lia|]. intros _. apply Ht.
Qed.

Lemma renew_won reply now me r r' : renew reply now me r = (true, r') ->
  forall t, now <= t < now + Milliseconds ttl * Millisecond -> rk_get t key r' = Some me.
Proof.
  destruct reply; unfold renew, renewScript; [|done..]. intros E t Ht.
  case_bool_decide as Hg; simpl in E; [|done]. injection E as <-.
  apply (rk_PExpire_get _ _ _ _ _ _ Hg); lia.
Qed.

(** A step of one elector: it leads from now on with a lease of its own, or it
    does not lead; the others keep theirs. *)
Lemma phase_step w me p r' :
  leases_ok w ->
  (forall i u, w_electors w !! i = Some (Leading u) -> me <> i -> r' = w_redis w) ->
  (forall u, p = Leading u -> w_now w < u
     /\ forall t, w_now w <= t < u -> rk_get t key r' = Some me) ->
  leases_ok (set_phase me p r' w).
Proof.
  intros Hw Hsame Hme i u. simpl. destruct (decide (i = me)) as [->|Hne].
  - rewrite lookup_insert_eq. intros [= ->]. by apply Hme.
  - rewrite lookup_insert_ne by done. intros Hi. rewrite (Hsame i u Hi) by done. by apply Hw.
Qed.

Lemma lstep_leases w w' : 0 < ttl -> 0 < Milliseconds ttl ->
  leases_ok w -> lstep true w w' -> leases_ok w'.
Proof.
  intros Httl Hms Hw Hst.
  assert (0 < Milliseconds ttl * Millisecond) as Hpos by (unfold Millisecond; lia).
  pose proof (granted_pos ttl) as Hgr.
  destruct Hst as [dt Hdt Htime|me reply r' Hme E|me reply r' Hme E|me u reply r' Hme E
    |me u reply r' Hme E|me p reply Hme Hp].
  - intros i u Hi. simpl in *. destruct (Hw i u Hi) as [_ Hget]. split; [by eapply Htime|].
    intros t Ht. apply Hget. lia.
  - apply phase_step; [done| |].
    + intros i u Hi Hne. destruct (others_keep _ _ _ _ Hw Hi Hne) as (HA & _). by rewrite HA in E.
    + intros u [= <-]. split; [lia|]. destruct reply; [by apply (SetNX_won _ _ (w_redis w))|done..].
  - apply phase_step; [done| |done].
    intros i u Hi Hne. destruct (others_keep _ _ _ _ Hw Hi Hne) as (HA & _). rewrite HA in E.
    by injection E.
  - apply phase_step; [done| |].
    + intros i u' Hi Hne. destruct (others_keep _ _ _ _ Hw Hi Hne) as (_ & HA & _).
      by rewrite HA in E.
    + intros u' [= <-]. split; [lia|]. by eapply renew_won.
  - apply phase_step; [done| |done].
    intros i u' Hi Hne. destruct (others_keep _ _ _ _ Hw Hi Hne) as (_ & HA & _). rewrite HA in E.
    by injection E.
  - apply phase_step; [done| |done].
    intros i u' Hi Hne. by destruct (others_keep _ _ _ _ Hw Hi Hne) as (_ & _ & HA).
Qed.

Lemma reachable_leases w0 w : 0 < ttl -> 0 < Milliseconds ttl ->
  initial w0 -> reachable true w0 w -> leases_ok w.
Proof.
  intros Httl Hms Hinit. induction 1 as [|w w' _ IH Hst]; [|by eapply lstep_leases].
  intros i u Hi. by specialize (Hinit _ _ Hi).
Qed.

(** C11: Single leader: in every execution in which no leading elector sleeps
    past the end of its lease, with any interleaving of the electors, any
    number of them and any lost replies, at most one elector leads at a
    time. *)
Theorem single_leader w0 w i k u v :
  0 < ttl -> 0 < Milliseconds ttl -> initial w0 -> reachable true w0 w ->
  w_electors w !! i = Some (Leading u) -> w_electors w !! k = Some (Leading v) -> i = k.
Proof.
  intros Httl Hms Hinit Hr Hi Hk. pose proof (reachable_leases _ _ Httl Hms Hinit Hr) as Hw.
  pose proof (leading_owner _ _ _ Hw Hi). pose proof (leading_owner _ _ _ Hw Hk). congruence.
Qed.

(** Release is owner-checked: an elector whose lease was taken over cannot
    remove or shorten the lease of the elector that holds it now, by releasing
    or by renewing. *)
Theorem release_owner_checked now me owner r reply :
  rk_get now key r = Some owner -> owner <> me ->
  release reply now me r = r /\ renew reply now me r = (false, r).
Proof.
  intros Hg Hne. unfold release, renew, releaseScript, renewScript.
  rewrite !bool_decide_eq_false_2 by congruence. by destruct reply.
Qed.
End elector.

(** ** Examples *)

#[local] Existing Instance redis_keys.

Definition two_electors : World (R := gmap string (string * option Time)) :=
  mkWorld 0 ∅ (<["a" := Campaigning]> {["b" := Campaigning]}).

Definition lease_ttl : Duration := 15 * Second.

Definition a_leading : World :=
  set_phase "a" (Leading lease_ttl) {["leader" := ("a", Some lease_ttl)]} two_electors.

Lemma a_leads timely : lstep "leader" lease_ttl timely two_electors a_leading.
Proof. exact (st_acquire "leader" lease_ttl timely two_electors "a" Delivered _ eq_refl eq_refl). Qed.

Lemma two_initial : initial two_electors.
Proof. repeat apply map_Forall_insert_2; [done|done|apply map_Forall_empty]. Qed.

Lemma single_leader_witness :
  w_electors a_leading !! "a" = Some (Leading lease_ttl) /\ "a" = "a".
Proof.
  split; [reflexivity|].
  exact (single_leader "leader" lease_ttl two_electors a_leading "a" "a" lease_ttl lease_ttl
    eq_refl eq_refl two_initial (reach_step _ _ _ _ _ _ (reach_refl _ _ _ _) (a_leads true))
    eq_refl eq_refl).
Defined.

Lemma release_owner_checked_witness :
  release "leader" Delivered 0 "b" (w_redis a_leading) = w_redis a_leading.
Proof.
  refine (proj1 (release_owner_checked "leader" lease_ttl 0 "b" "a" (w_redis a_leading) Delivered _ _)).
  - reflexivity.
  - discriminate.
Defined.

(** The cluster after the leader slept for sixteen seconds. *)
Definition a_asleep : World := mkWorld (16 * Second) (w_redis a_leading) (w_electors a_leading).

(** Without the timing assumption there can be two leaders: an elector that
    sleeps past the end of its lease (a long pause of the process) still leads
    when it wakes up, until its next renewal, while another one has taken the
    lease over.  The lease carries no fencing token, so the writes of both
    reach the database. *)
Theorem paused_leader_overlaps : exists w u v,
  reachable "leader" lease_ttl false two_electors w
  /\ w_electors w !! "a" = Some (Leading u) /\ w_electors w !! "b" = Some (Leading v).
Proof.
  exists (set_phase "b" (Leading (16 * Second + lease_ttl))
            {["leader" := ("b", Some (16 * Second + lease_ttl))]} a_asleep), lease_ttl,
    (16 * Second + lease_ttl).
  split; [|by vm_compute].
  eapply reach_step; [eapply reach_step; [eapply reach_step; [apply reach_refl|apply a_leads]|]|].
  - exact (st_elapse "leader" lease_ttl false a_leading (16 * Second) ltac:(done) ltac:(done)).
  - exact (st_acquire "leader" lease_ttl false a_asleep "b" Delivered _ eq_refl eq_refl).
Qed.
