(* ===== verification/Agent.v ===== *)
(** * The node agent: [internal/agent]

    Registration with backoff, the set of claimed jobs, and the simulated
    execution of a job.  The RPCs an agent makes are the elements of a trace;
    their replies, the timers and the cancellation of the context are inputs.
    The random source is the class [RandSource] with the documented range of
    [rand.Intn]. *)

From S2P Require Import Prelude Float64 Models NodeServer.

#[local] Open Scope string_scope.
#[local] Open Scope list_scope.
#[local] Open Scope Z_scope.

(** ** Configuration *)

Record AgentConfig := mkAgentConfig {
  ag_NodeID : string;
  ag_Hostname : string;
  ag_GPUCapacity : Z;
  ag_CPUCapacity : Z;
  ag_MemoryCapacity : Z;
  ag_GPUModel : string;
  ag_CostPerHour : float64;
  ag_Spot : bool;
  ag_SchedulerAddr : string;
  ag_HeartbeatInterval : Duration;
  ag_PollInterval : Duration;
  ag_MeanJobSeconds : Z
}.

(** The defaults that [New] fills in. *)
Definition with_defaults (c : AgentConfig) : AgentConfig :=
  mkAgentConfig (ag_NodeID c) (ag_Hostname c) (ag_GPUCapacity c) (ag_CPUCapacity c)
    (ag_MemoryCapacity c) (ag_GPUModel c) (ag_CostPerHour c) (ag_Spot c) (ag_SchedulerAddr c)
    (if ag_HeartbeatInterval c =? 0 then 10 * Second else ag_HeartbeatInterval c)
    (if ag_PollInterval c =? 0 then 3 * Second else ag_PollInterval c)
    (if ag_MeanJobSeconds c =? 0 then 20 else ag_MeanJobSeconds c).

Definition hash_step (h : Z) (a : Ascii.ascii) : Z :=
  mul64 (Z.lxor h (Z.of_nat (Ascii.nat_of_ascii a))) 1099511628211.

Definition hashString (s : string) : Z :=
  let h := fold_left hash_step (String.list_ascii_of_string s) 1469598103934665603 in
  if h <? 0 then neg64 h else h.

(** ** Registration *)

Definition register_request (c : AgentConfig) : RegisterRequest :=
  mkRegister (ag_NodeID c) (ag_Hostname c)
    (Some (mkRes (wrap32 (ag_GPUCapacity c)) (wrap32 (ag_CPUCapacity c))
             (wrap32 (ag_MemoryCapacity c))))
    (ag_GPUModel c) (ag_CostPerHour c) (ag_Spot c) ∅.

(** What happens in one turn of the retry loop: the call succeeds, or it fails
    and the context is cancelled during the wait, or it fails and the wait
    ends. *)
Inductive Attempt := AttemptOk | AttemptCancelled | AttemptFailed.

Definition next_backoff (b : Duration) : Duration :=
  if b <? 15 * Second then mul64 b 2 else b.

(** The waits of the loop, and how it ended: [None] while it still runs. *)
Fixpoint register_loop (backoff : Duration) (attempts : list Attempt) : list Duration * option bool :=
  match attempts with
  | [] => ([], None)
  | AttemptOk :: _ => ([], Some true)
  | AttemptCancelled :: _ => ([backoff], Some false)
  | AttemptFailed :: rest =>
      let '(waits, fin) := register_loop (next_backoff backoff) rest in (backoff :: waits, fin)
  end.

Definition register (attempts : list Attempt) : list Duration * option bool :=
  register_loop Second attempts.

(** ** Claims *)

Definition claim (jobID : string) (running : gset string) : bool * gset string :=
  if bool_decide (jobID ∈ running) then (false, running) else (true, {[jobID]} ∪ running).

Definition agent_done (jobID : string) (running : gset string) : gset string :=
  running ∖ {[jobID]}.

Definition currentGPUUtil (c : AgentConfig) (running : gset string) : float64 :=
  if ag_GPUCapacity c =? 0 then f64_zero
  else
    let util := f64_div (f64_of_int (Z.of_nat (size running))) (f64_of_int (ag_GPUCapacity c)) in
    if f64_lt f64_one util then f64_one else util.

(** The request of one beat of [heartbeatLoop]. *)
Record HeartbeatRequest := mkHeartbeat { hr_NodeId : string; hr_GpuUtilization : float64 }.

Definition heartbeat_request (c : AgentConfig) (running : gset string) : HeartbeatRequest :=
  mkHeartbeat (ag_NodeID c) (currentGPUUtil c running).

(** The agent's goroutines: the claimed jobs and the executions under way. *)
Record AgentState := mkAgent { as_running : gset string; as_execs : list string }.

(** One poll: every assigned job that can be claimed is started. *)
Fixpoint poll (jobs : list PbJob) (s : AgentState) : AgentState :=
  match jobs with
  | [] => s
  | j :: jobs' =>
      let '(ok, running) := claim (pj_JobId j) (as_running s) in
      poll jobs' (mkAgent running (if ok then as_execs s ++ [pj_JobId j] else as_execs s))
  end.

(** Polls and returning executions, in any order. *)
Inductive agent_step (s : AgentState) : AgentState -> Prop :=
| ag_poll jobs : agent_step s (poll jobs s)
| ag_finish l id r : as_execs s = l ++ id :: r ->
    agent_step s (mkAgent (agent_done id (as_running s)) (l ++ r)).

Inductive agent_reachable : AgentState -> Prop :=
| ag_init : agent_reachable (mkAgent ∅ [])
| ag_next s s' : agent_reachable s -> agent_step s s' -> agent_reachable s'.

(** ** Execution *)

(** Successive values of [rand.Rand]. *)
Class RandSource := {
  rand_Intn : nat -> Z -> Z;
  rand_Float64 : nat -> float64;
  rand_Intn_range : forall k n, 0 < n -> 0 <= rand_Intn k n < n
}.

Definition rng_intn `{RandSource} (k : nat) (n : Z) : Z := if n <=? 0 then 0 else rand_Intn k n.

(** The seconds of [jobDuration], and the duration. *)
Definition job_seconds `{RandSource} (c : AgentConfig) (k : nat) : Z :=
  let mean := if ag_MeanJobSeconds c <? 2 then 2 else ag_MeanJobSeconds c in
  Z.quot mean 2 ⊞ rng_intn k mean.

Definition jobDuration `{RandSource} (c : AgentConfig) (k : nat) : Duration :=
  mul64 (job_seconds c k) Second.

Inductive AgentCall :=
| CReport (jobID status msg : string) (exit : Z)
| CLog (jobID line : string)
| CCloseLogs
| CWait (d : Duration).

(** [fmt.Sprintf("%.4f", 2.5/float64(step))] for the five steps. *)
Definition loss_text (step : Z) : string :=
  match step with
  | 1 => "2.5000" | 2 => "1.2500" | 3 => "0.8333" | 4 => "0.6250" | _ => "0.5000"
  end.

Definition step_line (step throughput : Z) : string :=
  "step " +:+ pretty step +:+ "/5 loss=" +:+ loss_text step +:+ " throughput="
  +:+ pretty throughput +:+ " samples/s".

(** Inputs of an execution: whether the log stream opened, the step at whose
    wait the context is cancelled, and where the random source stands. *)
Record ExecInput := mkExec { ex_stream : bool; ex_cancel : option Z; ex_rand : nat }.

Definition sendLog (inp : ExecInput) (jobID line : string) : list AgentCall :=
  if ex_stream inp then [CLog jobID line] else [].

(** [if logStream != nil { logStream.CloseAndRecv() }] *)
Definition closeLogs (inp : ExecInput) : list AgentCall :=
  if ex_stream inp then [CCloseLogs] else [].

(** The loop over the steps: the calls, and whether it ran to its end.  Without
    a stream the argument of [sendLog] is still evaluated, so the random source
    advances either way. *)
Fixpoint run_steps `{RandSource} (inp : ExecInput) (jobID : string) (delay : Duration)
    (steps : list Z) (k : nat) : list AgentCall * bool * nat :=
  match steps with
  | [] => ([], true, k)
  | step :: rest =>
      if bool_decide (ex_cancel inp = Some step) then (closeLogs inp, false, k)
      else
        let line := step_line step (1000 ⊞ rng_intn k 500) in
        let '(calls, fin, k') := run_steps inp jobID delay rest (S k) in
        (CWait delay :: sendLog inp jobID line ++ calls, fin, k')
  end.

Definition failure_rate : float64 := f64_div (f64_of_int 1) (f64_of_int 10).   (* 0.10 *)

(** The calls of [execute]; the deferred [done] follows in every case. *)
Definition execute `{RandSource} (c : AgentConfig) (job : PbJob) (inp : ExecInput) : list AgentCall :=
  let id := pj_JobId job in
  let delay := Z.quot (jobDuration c (ex_rand inp)) 5 in
  let '(calls, fin, k) := run_steps inp id delay [1; 2; 3; 4; 5] (S (ex_rand inp)) in
  [CReport id "running" "" 0]
  ++ sendLog inp id ("pulling image " +:+ pj_Image job)
  ++ sendLog inp id ("allocated " +:+ pretty (GetGpu (pj_Request job)) +:+ " GPU(s) on " +:+ ag_Hostname c)
  ++ calls
  ++ (if fin then
        closeLogs inp ++
        (if f64_lt (rand_Float64 k) failure_rate
         then [CReport id "failed" "process exited non-zero" 1]
         else [CReport id "completed" "ok" 0])
      else []).

(** ** Properties *)

(** The reports, the waits and the log lines among the calls. *)
Definition reports (l : list AgentCall) : list (string * string) :=
  omap (fun c => match c with CReport id st _ _ => Some (id, st) | _ => None end) l.
Definition waits (l : list AgentCall) : list Duration :=
  omap (fun c => match c with CWait d => Some d | _ => None end) l.
Definition log_lines (l : list AgentCall) : list string :=
  omap (fun c => match c with CLog _ line => Some line | _ => None end) l.

(** A trace of log calls only. *)
Definition logging_only (l : list AgentCall) : Prop := reports l = [] /\ waits l = [].

Lemma sendLog_only inp id line : logging_only (sendLog inp id line).
Proof. unfold sendLog. by destruct (ex_stream inp). Qed.

Lemma closeLogs_only inp : logging_only (closeLogs inp) /\ log_lines (closeLogs inp) = [].
Proof. unfold closeLogs. by destruct (ex_stream inp). Qed.

Lemma sendLog_lines inp id line : log_lines (sendLog inp id line) = if ex_stream inp then [line] else [].
Proof. unfold sendLog. by destruct (ex_stream inp). Qed.

Lemma reports_app l k : reports (l ++ k) = reports l ++ reports k.
Proof. apply omap_app. Qed.
Lemma waits_app l k : waits (l ++ k) = waits l ++ waits k.
Proof. apply omap_app. Qed.
Lemma log_lines_app l k : log_lines (l ++ k) = log_lines l ++ log_lines k.
Proof. apply omap_app. Qed.

(** What the loop over the steps does: it waits once per step and logs a line
    after each wait, until it is cancelled. *)
Lemma run_steps_trace `{RandSource} inp id delay steps k :
  let r := run_steps inp id delay steps k in
  reports r.1.1 = []
  /\ r.1.2 = negb (existsb (fun s => bool_decide (ex_cancel inp = Some s)) steps)
  /\ (r.1.2 = true -> waits r.1.1 = replicate (length steps) delay
       /\ length (log_lines r.1.1) = (if ex_stream inp then length steps else 0)%nat
       /\ r.2 = (length steps + k)%nat).
Proof.
  revert k. induction steps as [|s steps IH]; intros k; simpl.
  { split_and!; [done..|]. intros _. split_and!; [done| |done]. by destruct (ex_stream inp). }
  destruct (bool_decide (ex_cancel inp = Some s)); simpl.
  { split_and!; [apply closeLogs_only|done|done]. }
  specialize (IH (S k)). destruct (run_steps inp id delay steps (S k)) as [[calls fin] k'].
  simpl in *. destruct IH as (Hr & Hf & Hw).
  set (line := step_line s _). destruct (sendLog_only inp id line) as [Sr Sw].
  split_and!; [by rewrite reports_app, Sr, Hr|done|].
  intros Hfin. destruct (Hw Hfin) as (Ew & El & Ek). rewrite waits_app, log_lines_app, Sw, Ew.
  split_and!; [done| |lia]. rewrite length_app, sendLog_lines, El. by destruct (ex_stream inp).
Qed.

(** An execution reports its job as running first. If it is not cancelled
    it then reports exactly one of completed and failed, decided by one draw of
    the random source, after five equal waits, with seven log lines when the
    log stream opened and none otherwise; if the context is cancelled at one
    of the five steps it reports nothing more. *)
Theorem execution_reports `{RandSource} c job inp :
  let id := pj_JobId job in
  let calls := execute c job inp in
  if existsb (fun s => bool_decide (ex_cancel inp = Some s)) [1; 2; 3; 4; 5]
  then reports calls = [(id, JobStatusRunning)]
  else reports calls
       = [(id, JobStatusRunning);
          (id, if f64_lt (rand_Float64 (6 + ex_rand inp)) failure_rate
               then JobStatusFailed else JobStatusCompleted)]
    /\ waits calls = replicate 5 (Z.quot (jobDuration c (ex_rand inp)) 5)
    /\ length (log_lines calls) = (if ex_stream inp then 7 else 0)%nat.
Proof.
  intros id calls. subst calls. unfold execute. fold id.
  destruct (run_steps_trace inp id (Z.quot (jobDuration c (ex_rand inp)) 5) [1; 2; 3; 4; 5]
    (S (ex_rand inp))) as (Hr & Hf & Hw).
  destruct (run_steps _ _ _ _ _) as [[calls fin] k]. cbn [fst snd] in *.
  set (pull := sendLog inp id _). set (alloc := sendLog inp id _).
  destruct (sendLog_only inp id ("pulling image " +:+ pj_Image job)) as [P1 P2]. fold pull in P1, P2.
  pose proof (sendLog_only inp id ("allocated " +:+ pretty (GetGpu (pj_Request job)) +:+ " GPU(s) on "
    +:+ ag_Hostname c)) as [A1 A2]. fold alloc in A1, A2.
  destruct (closeLogs_only inp) as [[C1 C2] C3].
  destruct (existsb _ _); simpl in Hf; subst fin; rewrite !reports_app, P1, A1, Hr; [done|].
  destruct (Hw eq_refl) as (Ew & El & ->).
  rewrite !waits_app, !log_lines_app, P2, A2, Ew, C1, C2, C3, !length_app, El.
  subst pull alloc. rewrite !sendLog_lines.
  change (length [1; 2; 3; 4; 5] + S (ex_rand inp))%nat with (6 + ex_rand inp)%nat.
  by destruct (f64_lt _ _), (ex_stream inp).
Qed.

Lemma poll_claims jobs s :
  NoDup (as_execs s) -> as_running s = list_to_set (as_execs s) ->
  NoDup (as_execs (poll jobs s)) /\ as_running (poll jobs s) = list_to_set (as_execs (poll jobs s)).
Proof.
  revert s. induction jobs as [|j jobs IH]; intros s Hnd Hrun; simpl; [done|].
  unfold claim. rewrite Hrun. case_bool_decide as Hin; apply IH; simpl; try done.
  - apply NoDup_app. split; [done|]. split; [|apply NoDup_singleton].
    intros x Hx ->%list_elem_of_singleton. apply Hin. by apply elem_of_list_to_set.
  - rewrite list_to_set_app_L. simpl. by rewrite union_empty_r_L, union_comm_L.
Qed.

(** C32: An agent never runs a job twice at a time: however polls and returning
    executions interleave, and whatever the assignments repeat, the executions
    under way are of distinct jobs, and they are exactly the claimed jobs. *)
Theorem no_double_start s :
  agent_reachable s -> NoDup (as_execs s) /\ as_running s = list_to_set (as_execs s).
Proof.
  induction 1 as [|s s' _ [Hnd Hrun] Hst]; [split; [apply NoDup_nil_2|done]|].
  destruct Hst as [jobs|l id r El]; [by apply poll_claims|]. simpl. rewrite El in Hnd, Hrun.
  apply NoDup_app in Hnd as (Hl & Hd & [Hni Hr]%NoDup_cons). split.
  - apply NoDup_app. split_and!; [done| |done]. intros x Hx Hx'. apply (Hd x Hx). by right.
  - rewrite Hrun. unfold agent_done. apply set_eq. intros x.
    rewrite elem_of_difference, !elem_of_list_to_set, !elem_of_app, elem_of_cons, elem_of_singleton.
    specialize (Hd x). rewrite elem_of_cons in Hd. split; [tauto|].
    intros Hx. split; [tauto|]. intros ->. tauto.
Qed.

(** The backoff of registration: the waits are 1, 2, 4, 8 seconds and then
    sixteen seconds each, for as long as the loop runs. *)
Theorem registration_backoff attempts k w :
  (register attempts).1 !! k = Some w ->
  w = 2 ^ Z.min (Z.of_nat k) 4 * Second.
Proof.
  unfold register.
  assert (forall n, (register_loop (2 ^ Z.min (Z.of_nat n) 4 * Second) attempts).1 !! k = Some w ->
    w = 2 ^ Z.min (Z.of_nat (n + k)) 4 * Second) as Hgen; [|by apply (Hgen 0%nat)].
  revert k. induction attempts as [|a attempts IH]; intros k n; [done|]. destruct a; simpl.
  - done.
  - destruct k; [|done]. intros [= <-]. by rewrite Nat.add_0_r.
  - assert (next_backoff (2 ^ Z.min (Z.of_nat n) 4 * Second)
            = 2 ^ Z.min (Z.of_nat (S n)) 4 * Second) as ->.
    { destruct (decide (n < 4)%nat) as [Hn|Hn].
      - do 4 (destruct n as [|n]; [reflexivity|]). lia.
      - replace (Z.min (Z.of_nat n) 4) with 4 by lia.
        replace (Z.min (Z.of_nat (S n)) 4) with 4 by lia. reflexivity. }
    destruct (register_loop _ attempts) as [waits fin] eqn:E. simpl.
    destruct k as [|k]; simpl; [intros [= <-]; by rewrite Nat.add_0_r|].
    intros Hk. rewrite <- Nat.add_succ_comm. apply IH. by rewrite E.
Qed.

(** A simulated job runs at least [mean/2] seconds and less than
    [mean/2 + mean], where [mean] is the configured mean but at least two; no
    64-bit overflow occurs for means up to 2^31. *)
Theorem job_duration_range `{RandSource} c k :
  ag_MeanJobSeconds c <= 2147483648 ->
  let mean := Z.max 2 (ag_MeanJobSeconds c) in
  exists secs, jobDuration c k = secs * Second /\ mean / 2 <= secs < mean / 2 + mean.
Proof.
  intros Hm mean. unfold jobDuration, job_seconds. fold (Z.max 2 (ag_MeanJobSeconds c)).
  replace (if ag_MeanJobSeconds c <? 2 then 2 else ag_MeanJobSeconds c) with mean
    by (unfold mean; destruct (Z.ltb_spec (ag_MeanJobSeconds c) 2); lia).
  assert (2 <= mean <= 2147483648) as Hmean by lia.
  unfold rng_intn. destruct (Z.leb_spec mean 0); [lia|].
  pose proof (rand_Intn_range k mean ltac:(lia)) as Hr.
  rewrite Z.quot_div_nonneg by lia. pose proof (Z.div_le_upper_bound mean 2 mean ltac:(lia) ltac:(lia)).
  pose proof (Z.div_pos mean 2 ltac:(lia) ltac:(lia)).
  rewrite add64_id by (unfold in_int64; lia). exists (mean / 2 + rand_Intn k mean).
  split; [|lia]. unfold mul64, Second. apply wrap64_id. unfold in_int64. lia.
Qed.

(** ** Witnesses *)

#[program] Definition rand_low : RandSource :=
  {| rand_Intn := fun _ _ => 0; rand_Float64 := fun _ => f64_one |}.
Next Obligation. simpl. intros. lia. Qed.

Definition agent_config : AgentConfig :=
  mkAgentConfig "n1" "n1" 4 8 64 "A100" f64_one false "localhost:50051" 0 0 20.

Definition assigned (id : string) : PbJob := mkPbJob id id "img" "" (Some (mkRes 1 1 1)) 5.

Lemma no_double_start_witness :
  NoDup (as_execs (poll [assigned "a"; assigned "b"; assigned "a"] (mkAgent ∅ []))).
Proof.
  apply (no_double_start (poll [assigned "a"; assigned "b"; assigned "a"] (mkAgent ∅ []))).
  eapply ag_next; [apply ag_init|]. apply ag_poll.
Defined.

Lemma registration_backoff_witness : 16 * Second = 2 ^ Z.min (Z.of_nat 5) 4 * Second.
Proof.
  exact (registration_backoff (replicate 6 AttemptFailed) 5 (16 * Second) eq_refl).
Defined.

Lemma job_duration_range_witness : exists secs,
  @jobDuration rand_low agent_config 0 = secs * Second /\ 20 / 2 <= secs < 20 / 2 + 20.
Proof.
  apply (@job_duration_range rand_low agent_config 0). vm_compute. discriminate.
Defined.
