(* ===== verification/Migrations.v ===== *)
(** * The database schema: [internal/store/postgres.go] and its migrations

    [Migrate] applies the embedded SQL files in lexical order; each file is one
    [Exec], which PostgreSQL runs as one transaction.  The three forms of
    statement that the files consist of are modelled with their documented
    behaviour: [CREATE TABLE], [CREATE INDEX] and [INSERT] into [team_quotas].
    Whether a statement carries its guard ([IF NOT EXISTS], [ON CONFLICT DO
    NOTHING]) is part of the statement: without it, a relation or a row that is
    already there is an error.  Tables and indexes share one name space. *)

From S2P Require Import Prelude Float64 GoStd.

#[local] Open Scope string_scope.
#[local] Open Scope list_scope.
#[local] Open Scope Z_scope.

(** ** Statements *)

Inductive ColType := TText | TInteger | TDouble | TBoolean | TJsonb | TTimestamptz.

#[global] Instance ColType_eq_dec : EqDecision ColType.
Proof. solve_decision. Defined.

Abbreviation Columns := (list (string * ColType)) (only parsing).

Record Table := mkTable { tbl_pk : string; tbl_cols : Columns }.
Inductive Relation := RTable (t : Table) | RIndex (on : string) (cols : list string).

(** The name space of relations, and the rows of [team_quotas]. *)
Record Schema := mkSchema {
  sch_relations : gmap string Relation;
  sch_quotas : gmap string (Z * Z * Z)
}.

(** [if_not_exists]: the statement says [IF NOT EXISTS]; [do_nothing]: it says
    [ON CONFLICT (team_id) DO NOTHING]. *)
Inductive Sql :=
| CreateTable (if_not_exists : bool) (name : string) (t : Table) (refs : list (string * string))
| CreateIndex (if_not_exists : bool) (name on : string) (cols : list string)
| InsertQuotas (do_nothing : bool) (rows : list (string * (Z * Z * Z))).

Definition table_of (name : string) (s : Schema) : option Table :=
  match sch_relations s !! name with Some (RTable t) => Some t | _ => None end.

(** A foreign key needs the referenced column to be the key of its table. *)
Definition ref_ok (s : Schema) (r : string * string) : bool :=
  match table_of r.1 s with Some t => String.eqb (tbl_pk t) r.2 | None => false end.

Definition has_columns (t : Table) (cols : list string) : bool :=
  forallb (fun c => bool_decide (c ∈ map fst (tbl_cols t))) cols.

Definition quota_columns : list string := ["team_id"; "max_gpus"; "max_cpus"; "max_memory_gb"].

Fixpoint insert_quotas (do_nothing : bool) (rows : list (string * (Z * Z * Z)))
    (q : gmap string (Z * Z * Z)) : res (gmap string (Z * Z * Z)) :=
  match rows with
  | [] => Ok q
  | (team, limits) :: rows' =>
      match q !! team with
      | None => insert_quotas do_nothing rows' (<[team := limits]> q)
      | Some _ =>
          if do_nothing then insert_quotas do_nothing rows' q
          else Err (ErrMsg "duplicate key value violates unique constraint")
      end
  end.

(** The relation [name] is already there. *)
Definition name_taken (if_not_exists : bool) (s : Schema) : res Schema :=
  if if_not_exists then Ok s else Err (ErrMsg "relation already exists").

Definition exec_sql (q : Sql) (s : Schema) : res Schema :=
  match q with
  | CreateTable if_not_exists name t refs =>
      if bool_decide (is_Some (sch_relations s !! name)) then name_taken if_not_exists s
      else if forallb (ref_ok s) refs
      then Ok (mkSchema (<[name := RTable t]> (sch_relations s)) (sch_quotas s))
      else Err (ErrMsg "relation does not exist")
  | CreateIndex if_not_exists name on cols =>
      match table_of on s with
      | None => Err (ErrMsg "relation does not exist")
      | Some t =>
          if negb (has_columns t cols) then Err (ErrMsg "column does not exist")
          else if bool_decide (is_Some (sch_relations s !! name)) then name_taken if_not_exists s
          else Ok (mkSchema (<[name := RIndex on cols]> (sch_relations s)) (sch_quotas s))
      end
  | InsertQuotas do_nothing rows =>
      match table_of "team_quotas" s with
      | None => Err (ErrMsg "relation does not exist")
      | Some t =>
          if negb (has_columns t quota_columns) then Err (ErrMsg "column does not exist")
          else if negb (String.eqb (tbl_pk t) "team_id")
          then Err (ErrMsg "there is no unique constraint matching the ON CONFLICT specification")
          else match insert_quotas do_nothing rows (sch_quotas s) with
               | Ok quotas => Ok (mkSchema (sch_relations s) quotas)
               | Err e => Err e
               end
      end
  end.

(** A file is all or nothing. *)
Fixpoint exec_file (qs : list Sql) (s : Schema) : res Schema :=
  match qs with
  | [] => Ok s
  | q :: qs' => match exec_sql q s with Ok s' => exec_file qs' s' | Err e => Err e end
  end.

(** ** The server

    A call can fail with or without its effect. *)

Inductive Fault := FaultBefore (e : error) | FaultAfter (e : error).

Record Pg := mkPg { pg_schema : Schema; pg_calls : nat; pg_fault : nat -> option Fault }.

Definition pool_Exec (qs : list Sql) : M Pg (res unit) := fun p =>
  let next s := mkPg s (S (pg_calls p)) (pg_fault p) in
  match pg_fault p (pg_calls p), exec_file qs (pg_schema p) with
  | Some (FaultBefore e), _ => (Err e, next (pg_schema p))
  | Some (FaultAfter e), Ok s => (Err e, next s)
  | Some (FaultAfter e), Err _ => (Err e, next (pg_schema p))
  | None, Ok s => (Ok tt, next s)
  | None, Err e => (Err e, next (pg_schema p))
  end.

(** ** [Migrate] *)

Record DirEntry := mkEntry { de_Name : string; de_IsDir : bool }.

Record FS := mkFS {
  fs_ReadDir : res (list DirEntry);
  fs_ReadFile : string -> res (list Sql)
}.

(** The byte order of strings, as [sort.Strings] uses it. *)
Definition bytes (s : string) : list Z :=
  map (fun a => Z.of_nat (Ascii.nat_of_ascii a)) (String.list_ascii_of_string s).
Definition string_less (a b : string) : bool := lexb (bytes a) (bytes b).

Fixpoint apply_files (fs : FS) (names : list string) : M Pg (res unit) :=
  match names with
  | [] => mret (Ok tt)
  | name :: names' =>
      match fs_ReadFile fs ("migrations/" +:+ name) with
      | Err e => mret (Err (errorf ("read migration " +:+ name) e))
      | Ok qs =>
          r ← pool_Exec qs;
          match r with
          | Err e => mret (Err (errorf ("apply migration " +:+ name) e))
          | Ok _ => apply_files fs names'
          end
      end
  end.

Definition file_names (entries : list DirEntry) : list string :=
  sort_stable string_less (map de_Name (filter (fun e => de_IsDir e = false) entries)).

Definition Migrate (fs : FS) : M Pg (res unit) :=
  match fs_ReadDir fs with
  | Err e => mret (Err (errorf "read migrations" e))
  | Ok entries => apply_files fs (file_names entries)
  end.

(** ** The embedded files *)

Definition nodes_table : Table := mkTable "node_id"
  [("node_id", TText); ("hostname", TText); ("status", TText); ("gpu_capacity", TInteger);
   ("gpu_available", TInteger); ("cpu_capacity", TInteger); ("cpu_available", TInteger);
   ("memory_capacity", TInteger); ("memory_available", TInteger); ("gpu_model", TText);
   ("cost_per_hour", TDouble); ("spot", TBoolean); ("labels", TJsonb);
   ("last_heartbeat", TTimestamptz); ("registered_at", TTimestamptz)].

Definition jobs_table : Table := mkTable "job_id"
  [("job_id", TText); ("name", TText); ("user_id", TText); ("team_id", TText); ("status", TText);
   ("priority", TInteger); ("gpu_count", TInteger); ("cpu_count", TInteger);
   ("memory_gb", TInteger); ("image", TText); ("command", TText); ("node_id", TText);
   ("retry_count", TInteger); ("max_retries", TInteger); ("cost_per_hour", TDouble);
   ("created_at", TTimestamptz); ("started_at", TTimestamptz); ("completed_at", TTimestamptz)].

Definition events_table : Table := mkTable "event_id"
  [("event_id", TText); ("job_id", TText); ("selected_node", TText); ("scheduling_reason", TText);
   ("algorithm", TText); ("latency_ms", TDouble); ("success", TBoolean);
   ("timestamp", TTimestamptz)].

Definition quotas_table : Table := mkTable "team_id"
  [("team_id", TText); ("max_gpus", TInteger); ("max_cpus", TInteger); ("max_memory_gb", TInteger)].

(** [0001_init.sql] *)
Definition init_sql : list Sql :=
  [CreateTable true "nodes" nodes_table [];
   CreateIndex true "idx_nodes_status" "nodes" ["status"];
   CreateTable true "jobs" jobs_table [("nodes", "node_id")];
   CreateIndex true "idx_jobs_status" "jobs" ["status"];
   CreateIndex true "idx_jobs_user" "jobs" ["user_id"];
   CreateIndex true "idx_jobs_team" "jobs" ["team_id"];
   CreateIndex true "idx_jobs_status_priority" "jobs" ["status"; "priority"; "created_at"];
   CreateTable true "scheduling_events" events_table [];
   CreateIndex true "idx_events_job" "scheduling_events" ["job_id"];
   CreateIndex true "idx_events_time" "scheduling_events" ["timestamp"];
   CreateTable true "team_quotas" quotas_table []].

(** [0002_seed.sql] *)
Definition seed_sql : list Sql :=
  [InsertQuotas true [("research", (16, 256, 2048)); ("inference", (8, 128, 1024));
                 ("platform", (4, 64, 512))]].

Definition migrationFS : FS := mkFS
  (Ok [mkEntry "0001_init.sql" false; mkEntry "0002_seed.sql" false])
  (fun name => if String.eqb name "migrations/0001_init.sql" then Ok init_sql
               else if String.eqb name "migrations/0002_seed.sql" then Ok seed_sql
               else Err (ErrMsg "file does not exist")).

(** ** Statements only add *)

Definition extends (s s' : Schema) : Prop :=
  sch_relations s ⊆ sch_relations s' /\ sch_quotas s ⊆ sch_quotas s'.
Infix "⊑s" := extends (at level 70).

#[global] Instance extends_preorder : PreOrder extends.
Proof. split; [done|]. intros s1 s2 s3 [] []. split; by etrans. Qed.

Lemma table_of_extends name s s' t : s ⊑s s' -> table_of name s = Some t -> table_of name s' = Some t.
Proof.
  intros [Hr _]. unfold table_of. destruct (sch_relations s !! name) eqn:E; [|done].
  by rewrite (lookup_weaken _ _ _ _ E Hr).
Qed.

Lemma insert_quotas_extends g rows q q' : insert_quotas g rows q = Ok q' -> q ⊆ q'.
Proof.
  revert q. induction rows as [|[team l] rows IH]; intros q; simpl; [by intros [= ->]|].
  destruct (q !! team) eqn:E; [destruct g; [apply IH|done]|].
  intros H%IH. etrans; [by apply insert_subseteq|done].
Qed.

Lemma insert_quotas_settled rows q q1 q2 :
  insert_quotas true rows q = Ok q1 -> q1 ⊆ q2 -> insert_quotas true rows q2 = Ok q2.
Proof.
  revert q. induction rows as [|[team l] rows IH]; intros q E Hq; simpl in *; [done|].
  assert (exists v, q1 !! team = Some v) as [v Hv].
  { destruct (q !! team) as [v|] eqn:Et; apply insert_quotas_extends in E.
    - exists v. by eapply lookup_weaken.
    - exists l. eapply lookup_weaken; [apply lookup_insert_eq|exact E]. }
  rewrite (lookup_weaken _ _ _ _ Hv Hq). destruct (q !! team); by eapply IH.
Qed.

Lemma exec_sql_extends q s s' : exec_sql q s = Ok s' -> s ⊑s s'.
Proof.
  assert (forall n r, sch_relations s !! n = None ->
            s ⊑s mkSchema (<[n := r]> (sch_relations s)) (sch_quotas s)) as Hins.
  { intros n r Hn. split; [by apply insert_subseteq|done]. }
  assert (forall g, name_taken g s = Ok s' -> s ⊑s s') as Ht.
  { intros []; by intros [= ->]. }
  destruct q as [g name t refs|g name on cols|g rows]; simpl; intros E.
  - case_bool_decide as Hn; [by eapply Ht|]. destruct (forallb _ refs); simplify_eq.
    by apply Hins, eq_None_not_Some.
  - destruct (table_of on s); [|done]. destruct (negb _); [done|].
    case_bool_decide as Hn; [by eapply Ht|]. simplify_eq. by apply Hins, eq_None_not_Some.
  - destruct (table_of _ s); [|done]. destruct (negb _); [done|]. destruct (negb _); [done|].
    destruct (insert_quotas _ _ _) eqn:Eq; simplify_eq.
    split; [done|by eapply insert_quotas_extends].
Qed.

(** A statement that carries its guard. *)
Definition guarded (q : Sql) : bool :=
  match q with CreateTable g _ _ _ | CreateIndex g _ _ _ | InsertQuotas g _ => g end.

(** A relation that a guarded statement created stays, whatever is added. *)
Lemma created_present (name : string) (r : Relation) s s1 s2 (e : error) (b : bool) :
  (if bool_decide (is_Some (sch_relations s !! name)) then name_taken true s
   else if b then Ok (mkSchema (<[name := r]> (sch_relations s)) (sch_quotas s)) else Err e) = Ok s1 ->
  s1 ⊑s s2 -> bool_decide (is_Some (sch_relations s2 !! name)) = true.
Proof.
  intros E [Hx _]. apply bool_decide_eq_true_2.
  assert (is_Some (sch_relations s1 !! name)) as [x Hr].
  { case_bool_decide as Hn; [by simplify_eq/=|]. destruct b; simplify_eq/=.
    rewrite lookup_insert_eq. eauto. }
  exists x. by eapply lookup_weaken.
Qed.

(** A guarded statement that was applied is a no-op on every later schema. *)
Lemma exec_sql_settled q s s1 s2 :
  guarded q = true -> exec_sql q s = Ok s1 -> s1 ⊑s s2 -> exec_sql q s2 = Ok s2.
Proof.
  intros Hg E Hx. pose proof (exec_sql_extends _ _ _ E) as Hx1.
  destruct q as [g name t refs|g name on cols|g rows]; simpl in *; subst g.
  - by rewrite (created_present name _ s s1 s2 _ _ E Hx).
  - destruct (table_of on s) as [t|] eqn:Et; [|done].
    rewrite (table_of_extends on s s2 t) by (done || by etrans).
    destruct (negb _); [done|].
    by rewrite (created_present name (RIndex on cols) s s1 s2 ErrNotFound true E Hx).
  - destruct (table_of _ s) as [t|] eqn:Et; [|done].
    rewrite (table_of_extends _ s s2 t) by (done || by etrans).
    destruct (negb _); [done|]. destruct (negb _); [done|].
    destruct (insert_quotas true rows (sch_quotas s)) as [qs|] eqn:Eq; simplify_eq.
    destruct s2 as [r2 q2]. destruct Hx as [_ Hq]. simpl in *.
    by rewrite (insert_quotas_settled rows _ _ _ Eq Hq).
Qed.

Lemma exec_file_extends qs s s' : exec_file qs s = Ok s' -> s ⊑s s'.
Proof.
  revert s. induction qs as [|q qs IH]; intros s; simpl; [by intros [= ->]|].
  destruct (exec_sql q s) as [s1|] eqn:E; [|done]. intros ?%IH. etrans; [by eapply exec_sql_extends|done].
Qed.

Lemma exec_file_settled qs s s1 s2 :
  forallb guarded qs = true -> exec_file qs s = Ok s1 -> s1 ⊑s s2 -> exec_file qs s2 = Ok s2.
Proof.
  revert s. induction qs as [|q qs IH]; intros s Hg E Hx; simpl in *; [done|].
  apply andb_true_iff in Hg as [Hg Hgs]. destruct (exec_sql q s) as [s'|] eqn:Eq; [|done].
  rewrite (exec_sql_settled q s s' s2); [by eapply IH|done|done|].
  etrans; [by eapply exec_file_extends|done].
Qed.

(** ** Runs of [Migrate] *)

(** The schema after the files of a list, each applied completely. *)
Fixpoint run_files (fs : FS) (names : list string) (s : Schema) : option Schema :=
  match names with
  | [] => Some s
  | name :: names' =>
      match fs_ReadFile fs ("migrations/" +:+ name) with
      | Ok qs => match exec_file qs s with Ok s' => run_files fs names' s' | Err _ => None end
      | Err _ => None
      end
  end.

Definition migration_names (fs : FS) : list string :=
  match fs_ReadDir fs with Ok es => file_names es | Err _ => [] end.

Definition pg_healthy (p : Pg) : Prop := forall k, pg_fault p k = None.

(** Every statement of every file carries its guard. *)
Definition guarded_files (fs : FS) : Prop :=
  forall name qs, fs_ReadFile fs name = Ok qs -> forallb guarded qs = true.

Section runs.
Context (fs : FS).

Lemma run_files_extends names s s' : run_files fs names s = Some s' -> s ⊑s s'.
Proof.
  revert s. induction names as [|n names IH]; intros s; simpl; [by intros [= ->]|].
  destruct (fs_ReadFile fs _) as [qs|]; [|done]. destruct (exec_file qs s) eqn:E; [|done].
  intros ?%IH. etrans; [by eapply exec_file_extends|done].
Qed.

(** Files that were applied are no-ops on every later schema. *)
Lemma run_files_settled names s s1 s2 :
  guarded_files fs ->
  run_files fs names s = Some s1 -> s1 ⊑s s2 -> run_files fs names s2 = Some s2.
Proof.
  intros Hg. revert s. induction names as [|n names IH]; intros s E Hx; simpl in *; [done|].
  destruct (fs_ReadFile fs _) as [qs|] eqn:Er; [|done].
  destruct (exec_file qs s) as [s'|] eqn:Eq; [|done].
  rewrite (exec_file_settled qs s s' s2); [by eapply IH|by eapply Hg|done|].
  etrans; [by eapply run_files_extends|done].
Qed.

Lemma run_files_app n1 n2 s :
  run_files fs (n1 ++ n2) s = run_files fs n1 s ≫= run_files fs n2.
Proof.
  revert s. induction n1 as [|n n1 IH]; intros s; simpl; [done|].
  destruct (fs_ReadFile fs _) as [qs|]; [|done]. by destruct (exec_file qs s).
Qed.

Lemma pool_Exec_cases qs p :
  let '(r, p') := pool_Exec qs p in
  pg_fault p' = pg_fault p
  /\ ((pg_schema p' = pg_schema p /\ exists e, r = Err e)
      \/ exec_file qs (pg_schema p) = Ok (pg_schema p')).
Proof.
  unfold pool_Exec.
  destruct (pg_fault p (pg_calls p)) as [[e|e]|]; destruct (exec_file qs (pg_schema p)) as [s|e'];
    simpl; eauto 6.
Qed.

(** Any run, failing calls included, leaves the schema of a prefix. *)
Lemma apply_files_prefix names p :
  exists n1 n2, names = n1 ++ n2
    /\ run_files fs n1 (pg_schema p) = Some (pg_schema (apply_files fs names p).2)
    /\ ((apply_files fs names p).1 = Ok tt -> n2 = []).
Proof.
  revert p. induction names as [|n names IH]; intros p; simpl; [by exists [], []|].
  destruct (fs_ReadFile fs _) as [qs|] eqn:Er; [|by exists [], (n :: names)].
  unfold mbind, M_bind. pose proof (pool_Exec_cases qs p) as Hc.
  destruct (pool_Exec qs p) as [r p']. simpl in Hc. destruct Hc as (_ & [[Hs [e ->]]|Hs]).
  { exists [], (n :: names). simpl. by rewrite Hs. }
  destruct r as [[]|e].
  - destruct (IH p') as (n1 & n2 & -> & Hr & Hok). exists (n :: n1), n2. simpl. by rewrite Er, Hs.
  - exists [n], names. simpl. by rewrite Er, Hs.
Qed.

Lemma apply_files_healthy names p : pg_healthy p ->
  match run_files fs names (pg_schema p) with
  | Some s => (apply_files fs names p).1 = Ok tt /\ pg_schema (apply_files fs names p).2 = s
  | None => exists e, (apply_files fs names p).1 = Err e
  end.
Proof.
  revert p. induction names as [|n names IH]; intros p Hh; simpl; [done|].
  destruct (fs_ReadFile fs _) as [qs|] eqn:Er; simpl; [|by eauto].
  unfold mbind, M_bind, pool_Exec. rewrite Hh. destruct (exec_file qs (pg_schema p)) as [s|e]; [|by eauto].
  apply (IH (mkPg s (S (pg_calls p)) (pg_fault p)) Hh).
Qed.

(** A run in which any calls fail leaves the outcome of a complete run what it
    was. *)
Lemma run_files_resume names s s1 faults :
  guarded_files fs -> run_files fs names s = Some s1 ->
  let s' := pg_schema (apply_files fs names (mkPg s 0 faults)).2 in
  s ⊑s s' /\ s' ⊑s s1 /\ run_files fs names s' = Some s1.
Proof.
  intros Hg Hs s'.
  destruct (apply_files_prefix names (mkPg s 0 faults)) as (n1 & n2 & En & Hr & _).
  fold s' in Hr. simpl in Hr. split; [by eapply run_files_extends|].
  rewrite En, run_files_app, Hr in Hs. simpl in Hs.
  split; [by eapply run_files_extends|].
  rewrite En, run_files_app, (run_files_settled n1 s s' s'); done.
Qed.
End runs.

(** ** Safe to run repeatedly *)

Lemma migrationFS_guarded : guarded_files migrationFS.
Proof. intros name qs. simpl. repeat case_match; intros; by simplify_eq. Qed.

Definition no_faults : nat -> option Fault := fun _ => None.

(** The database after a number of runs of [Migrate], each with its own
    failing calls. *)
Definition after_runs (runs : list (nat -> option Fault)) (s : Schema) : Schema :=
  foldl (fun s faults => pg_schema (Migrate migrationFS (mkPg s 0 faults)).2) s runs.

Lemma Migrate_healthy s s1 :
  run_files migrationFS (migration_names migrationFS) s = Some s1 <->
  (Migrate migrationFS (mkPg s 0 no_faults)).1 = Ok tt
  /\ pg_schema (Migrate migrationFS (mkPg s 0 no_faults)).2 = s1.
Proof.
  pose proof (apply_files_healthy migrationFS (migration_names migrationFS) (mkPg s 0 no_faults)
                (fun k => eq_refl)) as H. change (pg_schema (mkPg s 0 no_faults)) with s in H.
  change (Migrate migrationFS) with (apply_files migrationFS (migration_names migrationFS)).
  destruct (run_files _ _ s) as [s'|].
  - destruct H as [-> ->]. split; [by intros [= ->]|by intros [_ ->]].
  - destruct H as [e He]. rewrite He. split; [done|by intros [??]].
Qed.

Lemma after_runs_resume runs s s1 :
  run_files migrationFS (migration_names migrationFS) s = Some s1 ->
  s ⊑s after_runs runs s /\ after_runs runs s ⊑s s1
  /\ run_files migrationFS (migration_names migrationFS) (after_runs runs s) = Some s1.
Proof.
  revert s. induction runs as [|faults runs IH]; intros s Hs; simpl.
  { split_and!; [done|by eapply run_files_extends|done]. }
  destruct (run_files_resume migrationFS _ s s1 faults migrationFS_guarded Hs) as (H1 & H2 & H3).
  destruct (IH _ H3) as (H4 & H5 & H6).
  split_and!; [etrans; [exact H1|exact H4]|exact H5|exact H6].
Qed.

(** C20: [Migrate] is safe to run repeatedly, as its comment promises, and safe
    to interrupt.  On a database that the embedded migrations can bring up to
    date, run it any number of times, each run with any calls failing, with or
    without their effect: no table, index or quota row that was there is changed
    or dropped, nothing is added that one complete run would not add, and a
    complete run then succeeds and gives exactly the schema of one uninterrupted
    run on the original database, on which a further run changes nothing. *)
Theorem migrate_repeatable runs s :
  let complete s := Migrate migrationFS (mkPg s 0 no_faults) in
  (complete s).1 = Ok tt ->
  let target := pg_schema (complete s).2 in
  s ⊑s after_runs runs s /\ after_runs runs s ⊑s target
  /\ (complete (after_runs runs s)).1 = Ok tt
  /\ pg_schema (complete (after_runs runs s)).2 = target
  /\ (complete target).1 = Ok tt /\ pg_schema (complete target).2 = target.
Proof.
  intros complete Hok target.
  assert (run_files migrationFS (migration_names migrationFS) s = Some target) as Hs
    by by apply Migrate_healthy.
  destruct (after_runs_resume runs s target Hs) as (H1 & H2 & H3%Migrate_healthy).
  assert (run_files migrationFS (migration_names migrationFS) target = Some target)
    as H4%Migrate_healthy by (by eapply run_files_settled; [apply migrationFS_guarded|exact Hs|]).
  split_and!; [exact H1|exact H2|apply H3..|apply H4|apply H4].
Qed.

Definition empty_schema : Schema := mkSchema ∅ ∅.

(** Three interrupted runs on an empty database: the seed never reaches the
    server, the first file is applied but its reply is lost, and both files are
    applied with the reply of the last one lost. *)
Definition example_runs : list (nat -> option Fault) :=
  [(fun k => if Nat.eqb k 1 then Some (FaultBefore ErrNotFound) else None);
   (fun k => if Nat.eqb k 0 then Some (FaultAfter ErrNotFound) else None);
   (fun k => if Nat.eqb k 1 then Some (FaultAfter ErrNotFound) else None)].

Lemma migrate_repeatable_witness :
  sch_quotas (after_runs (take 1 example_runs) empty_schema) = ∅
  /\ (Migrate migrationFS (mkPg (after_runs example_runs empty_schema) 0 no_faults)).1 = Ok tt.
Proof.
  split; [reflexivity|].
  refine (proj1 (proj2 (proj2 (migrate_repeatable example_runs empty_schema _)))).
  vm_compute. reflexivity.
Defined.

(** ** The order of the files *)

#[global] Instance string_less_swo : StrictWeakOrder string_less.
Proof. by apply (swo_key _ bytes). Qed.

#[global] Instance bytes_inj : Inj (=) (=) bytes.
Proof.
  intros s t E. unfold bytes in E. rewrite <- (String.string_of_list_ascii_of_string s),
    <- (String.string_of_list_ascii_of_string t). f_equal.
  revert E. apply list_fmap_eq_inj. intros a b Hab%Nat2Z.inj.
  by rewrite <- (Ascii.ascii_nat_embedding a), <- (Ascii.ascii_nat_embedding b), Hab.
Qed.

Lemma string_less_antisymm : AntiSymm (=) (not_after string_less).
Proof.
  intros x y Hyx Hxy. unfold not_after, string_less in *.
  destruct (lexb_total (bytes x) (bytes y)) as [|[E|]]; [congruence| |congruence].
  by apply bytes_inj.
Qed.

Lemma file_names_perm es es' : es ≡ₚ es' -> file_names es = file_names es'.
Proof.
  intros Hp. unfold file_names. pose proof string_less_antisymm.
  apply (StronglySorted_unique (not_after string_less)); [apply sort_stable_sorted, _..|].
  rewrite !sort_stable_perm. by rewrite Hp.
Qed.

(** ** The schema of a fresh database *)

(** The columns, with the Go types they are read into, of the queries of
    [jobs.go], [nodes.go] and [events.go]. *)
Definition query_columns : list (string * Columns) :=
  [("jobs", [("job_id", TText); ("name", TText); ("user_id", TText); ("team_id", TText);
     ("status", TText); ("priority", TInteger); ("gpu_count", TInteger); ("cpu_count", TInteger);
     ("memory_gb", TInteger); ("image", TText); ("command", TText); ("node_id", TText);
     ("retry_count", TInteger); ("max_retries", TInteger); ("cost_per_hour", TDouble);
     ("created_at", TTimestamptz); ("started_at", TTimestamptz); ("completed_at", TTimestamptz)]);
   ("nodes", [("node_id", TText); ("hostname", TText); ("status", TText);
     ("gpu_capacity", TInteger); ("gpu_available", TInteger); ("cpu_capacity", TInteger);
     ("cpu_available", TInteger); ("memory_capacity", TInteger); ("memory_available", TInteger);
     ("gpu_model", TText); ("cost_per_hour", TDouble); ("spot", TBoolean); ("labels", TJsonb);
     ("last_heartbeat", TTimestamptz); ("registered_at", TTimestamptz)]);
   ("scheduling_events", [("event_id", TText); ("job_id", TText); ("selected_node", TText);
     ("scheduling_reason", TText); ("algorithm", TText); ("latency_ms", TDouble);
     ("success", TBoolean); ("timestamp", TTimestamptz)])].

Definition serves (s : Schema) (q : string * Columns) : bool :=
  match table_of q.1 s with
  | Some t => forallb (fun c => bool_decide (c ∈ tbl_cols t)) q.2
  | None => false
  end.

(** On a fresh database the migrations succeed in whatever order the
    directory lists the files (the seed needs the tables of the first file), and
    the schema then serves every query of the repositories: each table exists,
    is keyed by its identifier, and has every column with the type the code
    scans. *)
Theorem migrate_fresh entries faults :
  entries ≡ₚ [mkEntry "0001_init.sql" false; mkEntry "0002_seed.sql" false] ->
  (forall k, faults k = None) ->
  let r := Migrate (mkFS (Ok entries) (fs_ReadFile migrationFS)) (mkPg empty_schema 0 faults) in
  r.1 = Ok tt
  /\ forallb (serves (pg_schema r.2)) query_columns = true
  /\ tbl_pk <$> table_of "jobs" (pg_schema r.2) = Some "job_id"
  /\ tbl_pk <$> table_of "nodes" (pg_schema r.2) = Some "node_id"
  /\ is_ok (exec_file seed_sql empty_schema) = false.
Proof.
  intros Hp%file_names_perm Hf r.
  assert (r.1 = Ok tt /\ Some (pg_schema r.2)
          = run_files migrationFS ["0001_init.sql"; "0002_seed.sql"] empty_schema) as [-> Hs].
  { unfold r, Migrate. simpl. rewrite Hp.
    pose proof (apply_files_healthy migrationFS ["0001_init.sql"; "0002_seed.sql"]
                  (mkPg empty_schema 0 faults) Hf) as Hh.
    destruct (run_files _ _ _) eqn:E; [|by vm_compute in E]. by destruct Hh as [? <-]. }
  clearbody r. destruct (run_files _ _ _) eqn:E; [|done]. injection Hs as ->.
  split; [done|]. vm_compute in E. injection E as <-. vm_compute. done.
Qed.

Lemma migrate_fresh_witness :
  (Migrate (mkFS (Ok [mkEntry "0002_seed.sql" false; mkEntry "0001_init.sql" false])
              (fs_ReadFile migrationFS)) (mkPg empty_schema 0 (fun _ => None))).1 = Ok tt.
Proof.
  refine (proj1 (migrate_fresh [mkEntry "0002_seed.sql" false; mkEntry "0001_init.sql" false]
                   (fun _ => None) _ _)); [by apply Permutation_swap|done].
Defined.
