(* ===== verification/Services.v ===== *)
(** * The metrics service and run groups

    [internal/metricsvc/collector.go]: one sample reads the cluster state and
    sets the gauges.  [internal/runtimex/runtimex.go]: a group of services runs
    concurrently and returns the first error. *)

From S2P Require Import Prelude Float64 Models Fragmentation Store Interfaces StoreTheorems.

#[local] Open Scope string_scope.
#[local] Open Scope list_scope.
#[local] Open Scope Z_scope.

(** ** The collector *)

Inductive GaugeOp :=
| GPUUtil (v : float64) | CPUUtil (v : float64) | MemUtil (v : float64)
| Frag (v : float64) | NodesReady (v : float64) | NodesTotal (v : float64)
| JobsByStatus (status : JobStatus) (v : float64)
| AvgRuntime (v : float64).

Section collector.
Context `{PgEnv}.

Definition count (st : JobStatus) : M Db Z :=
  r ← job_CountByStatus st; mret match r with Ok n => n | Err _ => 0 end.

(** The loop over the statuses. *)
Fixpoint status_gauges (sts : list JobStatus) : M Db (list GaugeOp) :=
  match sts with
  | [] => mret []
  | st :: sts' => n ← count st; rest ← status_gauges sts'; mret (JobsByStatus st (f64_of_int n) :: rest)
  end.

(** Total runtime and number of the jobs with both timestamps. *)
Definition runtime_step (acc : Duration * Z) (j : Job) : Duration * Z :=
  match j_StartedAt j, j_CompletedAt j with
  | Some st, Some en => (acc.1 ⊞ time_Sub en st, acc.2 ⊞ 1)
  | _, _ => acc
  end.

Definition updateRuntime : M Db (list GaugeOp) :=
  r ← job_List (mkFilter JobStatusCompleted "" "" [] 100);
  mret match r with
       | Err _ | Ok [] => []
       | Ok completed =>
           let '(total, n) := fold_left runtime_step completed (0, 0) in
           if 0 <? n then [AvgRuntime (f64_div (Seconds total) (f64_of_int n))] else []
       end.

(** The gauges set by one [sample]; none when the nodes cannot be read. *)
Definition sample : M Db (list GaugeOp) :=
  rn ← node_List;
  match rn with
  | Err _ => mret []
  | Ok nodes =>
      running ← count JobStatusRunning;
      scheduled ← count JobStatusScheduled;
      queued ← count JobStatusQueued;
      let snap := ClusterSnapshot nodes (running ⊞ scheduled) queued in
      by_status ← status_gauges
        [JobStatusQueued; JobStatusScheduled; JobStatusRunning; JobStatusCompleted;
         JobStatusFailed; JobStatusCancelled; JobStatusPreempted];
      rt ← updateRuntime;
      mret ([GPUUtil (cu_GPUUtilization snap); CPUUtil (cu_CPUUtilization snap);
             MemUtil (cu_MemoryUtilization snap); Frag (cu_Fragmentation snap);
             NodesReady (f64_of_int (cu_NodesReady snap));
             NodesTotal (f64_of_int (cu_NodesTotal snap))] ++ by_status ++ rt)
  end.

(** *** The counts of a sample cover the table *)

Definition count_of (st : JobStatus) (t : Tables) : Z :=
  Z.of_nat (length (filter (fun r => j_Status (row_job r) = st) (map snd (map_to_list (tb_jobs t))))).

Lemma count_healthy st db : db_healthy db ->
  count st db = (count_of st (db_tables db), after_stmt (db_tables db) db).
Proof.
  intros Hh. unfold count, mbind, M_bind, job_CountByStatus. by rewrite exec_healthy.
Qed.

Lemma status_gauges_healthy sts db : db_healthy db ->
  (status_gauges sts db).1
  = map (fun st => JobsByStatus st (f64_of_int (count_of st (db_tables db)))) sts
  /\ db_healthy (status_gauges sts db).2
  /\ db_tables (status_gauges sts db).2 = db_tables db.
Proof.
  revert db. induction sts as [|st sts IH]; intros db Hh; simpl; [done|].
  unfold mbind, M_bind. rewrite count_healthy by done.
  destruct (IH (after_stmt (db_tables db) db) Hh) as (E & Hh' & Ht).
  destruct (status_gauges sts (after_stmt (db_tables db) db)) as [rest db']. simpl in *.
  by rewrite E.
Qed.

Lemma count_partition {A} (f : A -> string) (l : list A) keys :
  NoDup keys -> Forall (fun x => f x ∈ keys) l ->
  zsum (fun k => Z.of_nat (length (filter (fun x => f x = k) l))) keys = Z.of_nat (length l).
Proof.
  intros Hnd Hl. induction Hl as [|x l Hx Hl IH].
  { induction Hnd as [|k ks _ _ IH]; [done|]. rewrite zsum_cons, IH. done. }
  assert (forall ks, NoDup ks ->
    zsum (fun k => Z.of_nat (length (filter (fun x => f x = k) (x :: l)))) ks
    = zsum (fun k => Z.of_nat (length (filter (fun x => f x = k) l))) ks
      + if bool_decide (f x ∈ ks) then 1 else 0) as Hstep.
  { clear. induction ks as [|k ks IH]; intros Hnd; [done|]. rewrite NoDup_cons in Hnd.
    destruct Hnd as [Hni Hnd]. rewrite !zsum_cons, IH by done. rewrite filter_cons.
    destruct (decide (f x = k)) as [<-|Hne]; simpl length.
    - rewrite (bool_decide_eq_true_2 (f x ∈ f x :: ks)) by left.
      rewrite (bool_decide_eq_false_2 (f x ∈ ks)) by done. lia.
    - assert (bool_decide (f x ∈ k :: ks) = bool_decide (f x ∈ ks)) as ->; [|lia].
      apply bool_decide_ext. rewrite elem_of_cons. tauto. }
  rewrite Hstep, IH by done. rewrite bool_decide_eq_true_2 by done. simpl length. lia.
Qed.

(** The jobs-by-status gauges of a sample are exact and complete: on a
    healthy server each gauge is the number of jobs in that status, and the
    seven counts add up to the number of jobs when every job is in one of the
    seven statuses. *)
Theorem sample_counts_jobs db :
  db_healthy db ->
  map_Forall (fun _ r => j_Status (row_job r) ∈ job_statuses) (tb_jobs (db_tables db)) ->
  (status_gauges job_statuses db).1
  = map (fun st => JobsByStatus st (f64_of_int (count_of st (db_tables db)))) job_statuses
  /\ zsum (fun st => count_of st (db_tables db)) job_statuses
     = Z.of_nat (size (tb_jobs (db_tables db))).
Proof.
  intros Hh Hst. split; [by apply status_gauges_healthy|].
  unfold count_of. rewrite (count_partition (fun r => j_Status (row_job r))).
  - rewrite length_map, length_map_to_list. done.
  - by apply (bool_decide_unpack _).
  - apply Forall_forall. intros r ([id r'] & -> & Hin%elem_of_map_to_list)%list_elem_of_fmap.
    by eapply Hst.
Qed.
End collector.

Lemma sample_counts_jobs_witness :
  zsum (fun st => count_of st (db_tables empty_db)) job_statuses = 0.
Proof.
  refine (proj2 (sample_counts_jobs empty_db _ _)).
  - by intros k.
  - by apply map_Forall_empty.
Defined.

(** ** Run groups *)

(** A function of the group returns nil, the cancellation of the context, or
    another error. *)
Inductive Exit := ExitNil | ExitCanceled | ExitErr (e : error).

(** One goroutine after its function returned: [once.Do] keeps the first. *)
Definition group_step (first : option error) (x : Exit) : option error :=
  match x, first with
  | ExitErr e, None => Some e
  | _, _ => first
  end.

(** [RunGroup] for the functions' results in the order in which they return;
    [wg.Wait] waits for all of them. *)
Definition RunGroup (returns : list Exit) : option error := fold_left group_step returns None.

Definition real_error (x : Exit) : option error := match x with ExitErr e => Some e | _ => None end.

Lemma group_first e returns : fold_left group_step returns (Some e) = Some e.
Proof. induction returns as [|x l IH]; simpl; [done|]. by destruct x. Qed.

Lemma RunGroup_head returns : RunGroup returns = head (omap real_error returns).
Proof. unfold RunGroup. induction returns as [|[| |e] l IH]; simpl; try done. apply group_first. Qed.

(** A run group returns nil exactly when no function returned an error other
    than the cancellation of the context, whatever the order of the returns. *)
Lemma RunGroup_nil returns :
  RunGroup returns = None <-> Forall (fun x => real_error x = None) returns.
Proof.
  rewrite RunGroup_head. induction returns as [|[| |e] l IH]; simpl; [done|..].
  - rewrite Forall_cons. simpl. tauto.
  - rewrite Forall_cons. simpl. tauto.
  - split; [done|]. by intros [? _]%Forall_cons.
Qed.
