(* ===== verification/Telemetry.v ===== *)
(** * Logging, tracing and metrics: [internal/logging], [internal/telemetry]

    The level of a service's logger, the decision whether spans are exported,
    and the Prometheus collectors that the code declares.  The Prometheus client
    library is a parameter ([Prometheus]): of it the code relies on the documented
    rule that a collector with valid descriptors, none of whose names is taken,
    registers.  What a collector does with the samples it is given is the
    library's, and not modelled; the calls themselves are the [MetricOp]s and
    [GaugeOp]s that the components emit. *)

From Stdlib Require Import Ascii.
From S2P Require Import Prelude Float64 GoStd Config Algorithms.

#[local] Open Scope string_scope.
#[local] Open Scope list_scope.
#[local] Open Scope Z_scope.

(** ** Logging *)

Inductive Level := LevelDebug | LevelInfo | LevelWarn | LevelError.

(** [strings.ToLower]; on text that is not ASCII the Unicode tables are a
    parameter. *)
Definition ToLower (unicode_lower : string -> string) (s : string) : string :=
  let l := String.list_ascii_of_string s in
  if forallb is_ascii l then String.string_of_list_ascii (map to_lower l) else unicode_lower s.

Record Logger := mkLogger { lg_level : Level; lg_service : string }.

Definition logging_New (unicode_lower : string -> string) (service level : string) : Logger :=
  let l := ToLower unicode_lower level in
  mkLogger
    (if String.eqb l "debug" then LevelDebug
     else if String.eqb l "warn" then LevelWarn
     else if String.eqb l "error" then LevelError
     else LevelInfo) service.

(** ** Tracing *)

Record TracerConfig := mkTracerConfig {
  tr_ServiceName : string;
  tr_Environment : string;
  tr_OTLPEndpoint : string;
  tr_Enabled : bool;
  tr_SampleRatio : float64
}.

(** What the OpenTelemetry libraries answer. *)
Class Otel := {
  otlptracegrpc_New : string -> res unit;          (* an exporter to an endpoint *)
  resource_New : string -> string -> res unit      (* service name, environment *)
}.

Record TracerProvider := mkProvider {
  tp_endpoint : string;
  tp_batch_timeout : Duration;
  tp_service : string;
  tp_environment : string;
  tp_ratio : float64
}.

(** The process-wide settings of OpenTelemetry. *)
Record OtelGlobals := mkGlobals { og_provider : option TracerProvider; og_propagator : bool }.

Inductive TracerShutdown := ShutdownNoop | ShutdownProvider (tp : TracerProvider).

Definition InitTracer `{Otel} (cfg : TracerConfig) : M OtelGlobals (res TracerShutdown) :=
  if negb (tr_Enabled cfg) || String.eqb (tr_OTLPEndpoint cfg) "" then
    modify (fun g => mkGlobals (og_provider g) true);;
    mret (Ok ShutdownNoop)
  else match otlptracegrpc_New (tr_OTLPEndpoint cfg) with
  | Err e => mret (Err (errorf "create otlp exporter" e))
  | Ok _ =>
      match resource_New (tr_ServiceName cfg) (tr_Environment cfg) with
      | Err e => mret (Err (errorf "create resource" e))
      | Ok _ =>
          let tp := mkProvider (tr_OTLPEndpoint cfg) (5 * Second) (tr_ServiceName cfg)
                      (tr_Environment cfg) (tr_SampleRatio cfg) in
          modify (fun g => mkGlobals (Some tp) true);;
          mret (Ok (ShutdownProvider tp))
      end
  end.

(** ** Registries *)

(** The options a collector is built from: its name and its label names. *)
Record Desc := mkDesc { ds_name : string; ds_labels : list string }.

#[global] Instance Desc_eq_dec : EqDecision Desc.
Proof. solve_decision. Defined.

Definition name_char (first : bool) (a : ascii) : bool :=
  let n := nat_of_ascii a in
  (Nat.leb 65 n && Nat.leb n 90) || (Nat.leb 97 n && Nat.leb n 122) || Nat.eqb n 95
  || (negb first && Nat.leb 48 n && Nat.leb n 57).

(** Names that every version of the exposition format accepts: letters, digits
    and underscores, no digit first. *)
Definition valid_name (s : string) : bool :=
  match s with
  | EmptyString => false
  | String a s' => name_char true a && forallb (name_char false) (String.list_ascii_of_string s')
  end.

Definition valid_desc (d : Desc) : bool :=
  valid_name (ds_name d) && forallb valid_name (ds_labels d)
  && bool_decide (NoDup (ds_labels d)).

(** The Prometheus client library.  A collector is given by the descriptors of
    the metrics it produces; [MustRegister] answers [None] when it panics.  It
    accepts a collector whose descriptors are valid and whose names are new. *)
Class Prometheus := {
  Registry : Type;
  NewRegistry : Registry;
  registered : Registry -> list Desc;
  MustRegister : Registry -> list Desc -> option Registry;
  goCollector : list Desc;                 (* collectors.NewGoCollector() *)
  processCollector : list Desc;            (* collectors.NewProcessCollector(...) *)
  new_registered : registered NewRegistry = [];
  register_accepts : forall reg ds,
    forallb valid_desc ds = true -> NoDup (map ds_name (registered reg ++ ds)) ->
    exists reg', MustRegister reg ds = Some reg' /\ registered reg' = registered reg ++ ds
}.

(** *** The platform's collectors *)

Definition JobsTotal := mkDesc "scheduler_jobs_total" ["status"].
Definition QueueDepth := mkDesc "scheduler_queue_depth" ["band"].
Definition SchedLatency := mkDesc "scheduler_latency_seconds" [].
Definition FailedSchedules := mkDesc "failed_schedules_total" [].
Definition Preemptions := mkDesc "scheduler_preemptions_total" [].
Definition SchedRuns := mkDesc "scheduler_runs_total" [].
Definition NodeGPUUtil := mkDesc "node_gpu_utilization" ["node"].
Definition NodeCPUUtil := mkDesc "node_cpu_utilization" ["node"].
Definition NodeMemUtil := mkDesc "node_memory_utilization" ["node"].
Definition ClusterNodesReady := mkDesc "cluster_nodes_ready" [].
Definition ClusterNodesTotal := mkDesc "cluster_nodes_total" [].
Definition ClusterFragmentation := mkDesc "cluster_gpu_fragmentation" [].
Definition HTTPRequests := mkDesc "http_requests_total" ["method"; "route"; "status"].
Definition HTTPLatency := mkDesc "http_request_duration_seconds" ["method"; "route"].

Definition platform_descs : list Desc :=
  [JobsTotal; QueueDepth; SchedLatency; FailedSchedules; Preemptions; SchedRuns; NodeGPUUtil;
   NodeCPUUtil; NodeMemUtil; ClusterNodesReady; ClusterNodesTotal; ClusterFragmentation;
   HTTPRequests; HTTPLatency].

Section registration.
Context `{Prometheus}.

(** One collector after the other; a panic ends it. *)
Definition register_each (reg : option Registry) (collectors : list (list Desc)) : option Registry :=
  foldl (fun reg ds => reg ≫= fun r => MustRegister r ds) reg collectors.

(** [telemetry.NewMetrics]: the Go and process collectors come first; the
    factory registers each of the platform's as it creates it. *)
Definition NewMetrics : option Registry :=
  register_each (Some NewRegistry)
    (goCollector :: processCollector :: map (fun d => [d]) platform_descs).

(** *** The metrics service's collectors *)

Definition gauge_names : list string :=
  ["cluster_gpu_utilization_ratio"; "cluster_cpu_utilization_ratio"; "cluster_memory_utilization_ratio";
   "cluster_fragmentation_index"; "cluster_nodes_ready_count"; "cluster_nodes_total_count";
   "job_runtime_seconds_avg"].

Definition gauge (name : string) : Desc := mkDesc name [].
Definition jobsByStatus : Desc := mkDesc "cluster_jobs_by_status" ["status"].

(** [newGauge] *)
Definition newGauge (reg : Registry) (name : string) : option Registry :=
  MustRegister reg [gauge name].

Record Collector := mkCollector { col_interval : Duration; col_registry : Registry }.

(** [metricsvc.New] *)
Definition collector_New (interval : Duration) : option Collector :=
  let interval := if interval <=? 0 then 10 * Second else interval in
  match foldl (fun reg name => reg ≫= fun r => newGauge r name) (Some NewRegistry) gauge_names with
  | Some reg =>
      match MustRegister reg [jobsByStatus] with
      | Some reg' => Some (mkCollector interval reg')
      | None => None
      end
  | None => None
  end.

(** ** Registration succeeds *)

Lemma register_each_ok reg cs :
  forallb (forallb valid_desc) cs = true -> NoDup (map ds_name (registered reg ++ concat cs)) ->
  exists reg', register_each (Some reg) cs = Some reg'
    /\ registered reg' = registered reg ++ concat cs.
Proof.
  revert reg. induction cs as [|ds cs IH]; intros reg Hv Hnd; simpl in *.
  { exists reg. by rewrite app_nil_r. }
  apply andb_true_iff in Hv as [Hd Hv]. rewrite app_assoc in Hnd.
  destruct (register_accepts reg ds Hd) as (r1 & E1 & R1).
  { rewrite map_app in Hnd. by apply NoDup_app in Hnd as [? _]. }
  rewrite E1. destruct (IH r1 Hv) as (r2 & E2 & R2); [by rewrite R1|].
  exists r2. split; [exact E2|]. by rewrite R2, R1, app_assoc.
Qed.

(** The descriptors of the library's own collectors: valid, distinct, and
    named with their documented prefix. *)
Definition library_descs (p : string) (ds : list Desc) : Prop :=
  Forall (fun d => HasPrefix (ds_name d) p = true) ds
  /\ forallb valid_desc ds = true /\ NoDup (map ds_name ds).

Definition avoids (p : string) (ds : list Desc) : Prop :=
  Forall (fun d => HasPrefix (ds_name d) p = false) ds.

Lemma library_app p ds ds' : library_descs p ds -> avoids p ds' ->
  NoDup (map ds_name ds') -> NoDup (map ds_name (ds ++ ds')).
Proof.
  intros (Hp & _ & Hnd) Ha Hnd'. rewrite map_app. apply NoDup_app. split_and!; [done| |done].
  intros n (d & -> & Hd)%list_elem_of_fmap (d' & E & Hd')%list_elem_of_fmap.
  unfold avoids in Ha. rewrite Forall_forall in Hp, Ha. specialize (Hp d Hd). specialize (Ha d' Hd').
  congruence.
Qed.

Lemma process_avoids_go ds : library_descs "process_" ds -> avoids "go_" ds.
Proof.
  intros [Hp _]. eapply Forall_impl; [exact Hp|]. intros d [t Ht]%HasPrefix_inv.
  cbv beta. by rewrite Ht.
Qed.

Lemma platform_avoids p : p ∈ ["go_"; "process_"] -> avoids p platform_descs.
Proof. intros [->|[->|[]%elem_of_nil]%elem_of_cons]%elem_of_cons; by repeat constructor. Qed.

Lemma platform_nodup : NoDup (map ds_name platform_descs).
Proof. by apply (bool_decide_unpack _). Qed.

Lemma library_names go pr : library_descs "go_" go -> library_descs "process_" pr ->
  NoDup (map ds_name (go ++ pr ++ platform_descs)).
Proof.
  intros Hg Hp. apply (library_app "go_"); [done| |].
  - apply Forall_app. split; [by apply process_avoids_go|]. apply platform_avoids. left.
  - apply (library_app "process_"); [done| |apply platform_nodup].
    apply platform_avoids. right. left.
Qed.

(** The fourteen collectors of the platform register beside the library's: no
    name is invalid, no two clash, so [NewMetrics] does not panic. *)
Theorem metrics_register :
  library_descs "go_" goCollector -> library_descs "process_" processCollector ->
  exists reg, NewMetrics = Some reg
    /\ registered reg = goCollector ++ processCollector ++ platform_descs.
Proof.
  intros Hg Hp. unfold NewMetrics.
  destruct (register_each_ok NewRegistry
    (goCollector :: processCollector :: map (fun d => [d]) platform_descs)) as (reg & E & R).
  - destruct Hg as (_ & Hg & _), Hp as (_ & Hp & _). cbn [forallb]. by rewrite Hg, Hp.
  - rewrite new_registered. exact (library_names _ _ Hg Hp).
  - exists reg. split; [exact E|]. by rewrite R, new_registered.
Qed.

(** The metrics service's registry: [New] does not panic, and the interval of
    its sampling loop is positive. *)
Theorem collector_registers interval :
  exists c, collector_New interval = Some c /\ 0 < col_interval c
    /\ registered (col_registry c) = map gauge gauge_names ++ [jobsByStatus].
Proof.
  destruct (register_each_ok NewRegistry (map (fun n => [gauge n]) gauge_names)) as (r & E & R);
    [done|rewrite new_registered; by apply (bool_decide_unpack _)|].
  rewrite new_registered in R. destruct (register_accepts r [jobsByStatus]) as (r' & E' & R');
    [done|rewrite R; by apply (bool_decide_unpack _)|].
  unfold collector_New. change (foldl _ _ gauge_names)
    with (register_each (Some NewRegistry) (map (fun n => [gauge n]) gauge_names)).
  rewrite E, E'. eexists. split_and!; [done| |]; simpl.
  - destruct (Z.leb_spec interval 0); [done|lia].
  - by rewrite R', R.
Qed.
End registration.

(** An instance for the example: it accepts exactly what the law says it must. *)
#[local] Instance list_registry : Prometheus.
Proof.
  refine {|
    Registry := list Desc;
    NewRegistry := [];
    registered := id;
    MustRegister := fun reg ds =>
      if forallb valid_desc ds && bool_decide (NoDup (map ds_name (reg ++ ds)))
      then Some (reg ++ ds) else None;
    goCollector := [mkDesc "go_goroutines" []; mkDesc "go_threads" []];
    processCollector := [mkDesc "process_open_fds" []];
    new_registered := eq_refl
  |}.
  intros reg ds Hv Hnd. unfold id in *. rewrite Hv, bool_decide_eq_true_2 by done. by eexists.
Defined.

Lemma metrics_register_witness : exists reg : list Desc, NewMetrics = Some reg /\ length reg = 17%nat.
Proof.
  destruct metrics_register as (reg & E & R).
  - split_and!; [by repeat constructor|reflexivity|by apply (bool_decide_unpack _)].
  - split_and!; [by repeat constructor|reflexivity|by apply (bool_decide_unpack _)].
  - exists reg. split; [exact E|]. change (registered reg) with reg in R. by rewrite R.
Defined.

(** ** Tracing is on exactly when there is somewhere to send spans *)

Lemma InitTracer_spec `{Otel} cfg g :
  let '(r, g') := InitTracer cfg g in
  match r with
  | Ok ShutdownNoop => (tr_Enabled cfg = false \/ tr_OTLPEndpoint cfg = "")
                       /\ og_provider g' = og_provider g /\ og_propagator g' = true
  | Ok (ShutdownProvider tp) => tr_Enabled cfg = true /\ tr_OTLPEndpoint cfg <> ""
                       /\ og_provider g' = Some tp /\ og_propagator g' = true
                       /\ tp_endpoint tp = tr_OTLPEndpoint cfg
  | Err _ => tr_Enabled cfg = true /\ tr_OTLPEndpoint cfg <> "" /\ g' = g
  end.
Proof.
  unfold InitTracer. destruct (tr_Enabled cfg); simpl; [|by auto].
  destruct (String.eqb_spec (tr_OTLPEndpoint cfg) ""); simpl; [by auto|].
  destruct (otlptracegrpc_New _); [|done]. by destruct (resource_New _ _).
Qed.
