(* ===== verification/ApiMiddleware.v ===== *)
(** * The gateway's accounting: [internal/api/middleware.go]

    The middleware around the handlers: cors answers preflight requests, the
    tracing, logging and metrics middleware then measure everything inside
    them, the rate limiter included.  [gateway] is the engine that [buildRouter]
    returns: the chain, whose part from the rate limiter on is [serve] of [Api],
    and gin's default redirect of a path that has a route with, or without, a
    slash at its end, which runs no middleware.  What gin's router finds for a
    request is part of the request; gin's own bodies and all headers are left
    out. *)

From S2P Require Import Prelude Float64 Config Models Store GoStd Redis Engine RateLimit Api Telemetry.

#[local] Open Scope string_scope.
#[local] Open Scope list_scope.
#[local] Open Scope Z_scope.

(** [http.StatusText] for the codes of the gateway. *)
Definition StatusText (code : Z) : string :=
  if code =? StatusOK then "OK"
  else if code =? StatusCreated then "Created"
  else if code =? StatusNoContent then "No Content"
  else if code =? StatusBadRequest then "Bad Request"
  else if code =? StatusUnauthorized then "Unauthorized"
  else if code =? StatusNotFound then "Not Found"
  else if code =? StatusConflict then "Conflict"
  else if code =? StatusTooManyRequests then "Too Many Requests"
  else if code =? StatusInternalServerError then "Internal Server Error"
  else if code =? StatusServiceUnavailable then "Service Unavailable"
  else "".

(** The method and pattern a route is registered with. *)
Definition route_pattern (r : Route) : string * string :=
  match r with
  | RHealth => ("GET", "/healthz")
  | RReady => ("GET", "/readyz")
  | RSubmit _ => ("POST", "/api/v1/jobs")
  | RListJobs _ _ _ _ => ("GET", "/api/v1/jobs")
  | RGetJob _ => ("GET", "/api/v1/jobs/:id")
  | RCancelJob _ => ("DELETE", "/api/v1/jobs/:id")
  | RJobLogs _ _ => ("GET", "/api/v1/jobs/:id/logs")
  | RListNodes => ("GET", "/api/v1/nodes")
  | RCordon _ => ("POST", "/api/v1/nodes/:id/cordon")
  | RDrain _ => ("POST", "/api/v1/nodes/:id/drain")
  | RUncordon _ => ("POST", "/api/v1/nodes/:id/uncordon")
  | RUtilization => ("GET", "/api/v1/cluster/utilization")
  | REvents _ => ("GET", "/api/v1/scheduling-events")
  end.

Definition FullPath (r : option Route) : string :=
  match r with Some r => (route_pattern r).2 | None => "" end.

(** A request of a method; gin finds a route only under its own method.
    [ht_tsr]: there is none, but one for the path with its last slash removed, or
    with a slash added (gin's "trailing slash redirect" recommendation). *)
Record HttpRequest := mkHttp {
  ht_method : string;
  ht_route : option Route;
  ht_tsr : bool;
  ht_path : string;                 (* the path of the URL *)
  ht_clientIP : string;
  ht_authorization : string
}.

(** The methods for which routes are registered. *)
Definition has_tree (method : string) : bool :=
  existsb (String.eqb method) ["GET"; "POST"; "DELETE"].

Definition StatusMovedPermanently := 301.
Definition StatusTemporaryRedirect := 307.

(** [RedirectTrailingSlash], which [gin.New] turns on. *)
Definition redirected (req : HttpRequest) : bool :=
  match ht_route req with
  | Some _ => false
  | None => has_tree (ht_method req) && negb (String.eqb (ht_path req) "/") && ht_tsr req
  end.

Definition redirectTrailingSlash (req : HttpRequest) : Response :=
  mkResp (if String.eqb (ht_method req) "GET" then StatusMovedPermanently
          else StatusTemporaryRedirect) BEmpty.

Definition to_request (req : HttpRequest) : Request :=
  mkRequest (String.eqb (ht_method req) "OPTIONS") (ht_route req) (ht_clientIP req)
    (ht_authorization req).

(** The attributes of the request logger's line. *)
Record AccessLog := mkLog {
  al_method : string; al_path : string; al_status : Z; al_latency_ms : float64; al_client_ip : string
}.

(** The span of a request. *)
Record Span := mkSpan {
  sp_name : string; sp_method : string; sp_route : string; sp_status : Z
}.

Section gateway.
Context `{PgEnv} {R : Type} `{RedisLists R} (cfg : Config) (jwt : JwtLib).

(** [NewServer]; in production gin runs in release mode. *)
Definition NewServer (db : Db) (rdb : option (RedisConn R)) (m : option (list MetricOp))
    (clock : nat -> Time) (uuid : nat -> string) : ApiState R :=
  mkApi db rdb (Some (newRateLimiter (hc_RateLimitRPS (c_HTTP cfg)) (hc_RateLimitBurst (c_HTTP cfg))))
    clock 0 uuid 0 m.

Definition release_mode : bool := String.eqb (c_Env cfg) "production".

Definition metricsMiddleware (req : HttpRequest) (next : M (ApiState R) Response) :
    M (ApiState R) Response :=
  start ← api_now;
  r ← next;
  let route := if String.eqb (FullPath (ht_route req)) "" then "unmatched"
               else FullPath (ht_route req) in
  s ← get;
  match api_metrics s with
  | None => mret r
  | Some _ =>
      api_emit [IncHTTPRequests (ht_method req) route (StatusText (rs_code r))];;
      now ← api_now;
      api_emit [ObserveHTTPLatency (ht_method req) route (Seconds (time_Sub now start))];;
      mret r
  end.

Definition requestLogger (req : HttpRequest) (next : M (ApiState R) Response) :
    M (ApiState R) (Response * list AccessLog) :=
  start ← api_now;
  r ← next;
  now ← api_now;
  mret (r, [mkLog (ht_method req) (FullPath (ht_route req)) (rs_code r)
              (f64_div (f64_of_int (Microseconds (time_Sub now start))) (f64_of_int 1000))
              (ht_clientIP req)]).

(** The span is named after the route, or the path when no route matches. *)
Definition tracing (req : HttpRequest) (next : M (ApiState R) (Response * list AccessLog)) :
    M (ApiState R) (Response * list AccessLog * list Span) :=
  let route := if String.eqb (FullPath (ht_route req)) "" then ht_path req
               else FullPath (ht_route req) in
  r ← next;
  mret (r, [mkSpan (ht_method req +:+ " " +:+ route) (ht_method req) route (rs_code r.1)]).

(** A preflight request ends here; the headers that allow the frontend's origin
    are the same on every answer and are left out. *)
Definition cors (req : HttpRequest) (next : M (ApiState R) (Response * list AccessLog * list Span)) :
    M (ApiState R) (Response * list AccessLog * list Span) :=
  if String.eqb (ht_method req) "OPTIONS" then mret (mkResp StatusNoContent BEmpty, [], []) else next.

(** The engine of [buildRouter]. *)
Definition gateway (req : HttpRequest) : M (ApiState R) (Response * list AccessLog * list Span) :=
  if redirected req then mret (redirectTrailingSlash req, [], [])
  else cors req (tracing req (requestLogger req (metricsMiddleware req
         (serve cfg jwt (to_request req))))).

(** ** Every request that reaches the chain is counted once *)

Definition tick_clock (s : ApiState R) : ApiState R := (api_now s).2.

(** The route label of a request: a pattern, never a path that a client chose. *)
Definition route_label (req : HttpRequest) : string :=
  match ht_route req with Some r => (route_pattern r).2 | None => "unmatched" end.

Lemma route_label_eq req :
  (if String.eqb (FullPath (ht_route req)) "" then "unmatched" else FullPath (ht_route req))
  = route_label req.
Proof. unfold route_label. by destruct (ht_route req) as [[]|]. Qed.

(** C35: What the gateway accounts for.  A request whose path has a route only
    with, or only without, its last slash is redirected by gin (301 for GET, 307
    otherwise) past every middleware: no rate limit, log line, span or metric,
    and the state is untouched.  A preflight request is answered before anything
    is counted.  Any other gets exactly the answer of the inner chain,
    rate-limited requests and those without a route included, one access log
    line and one span with that answer's status, and, when metrics are on, one
    request counted under its method, its route pattern (or "unmatched") and the
    text of the status, after what the handler itself recorded; without metrics
    nothing is recorded. *)
Theorem gateway_accounts req s :
  let inner := serve cfg jwt (to_request req) (tick_clock (tick_clock s)) in
  let '((r, logs, spans), s') := gateway req s in
  if redirected req
  then rs_code r = (if String.eqb (ht_method req) "GET" then 301 else 307)
       /\ ht_route req = None /\ logs = [] /\ spans = [] /\ s' = s
  else if String.eqb (ht_method req) "OPTIONS"
  then r = mkResp StatusNoContent BEmpty /\ logs = [] /\ spans = [] /\ s' = s
  else r = inner.1
       /\ map (fun l => (al_method l, al_path l, al_status l)) logs
          = [(ht_method req, FullPath (ht_route req), rs_code r)]
       /\ map sp_status spans = [rs_code r]
       /\ api_db s' = api_db inner.2
       /\ match api_metrics inner.2 with
          | None => api_metrics s' = None
          | Some ops => exists latency, api_metrics s'
              = Some (ops ++ [IncHTTPRequests (ht_method req) (route_label req) (StatusText (rs_code r));
                              ObserveHTTPLatency (ht_method req) (route_label req) latency])
          end.
Proof.
  intros inner. unfold gateway. destruct (redirected req) eqn:Er.
  { unfold redirected in Er. destruct (ht_route req); [done|]. simpl. by destruct (String.eqb _ _). }
  unfold cors. destruct (String.eqb_spec (ht_method req) "OPTIONS") as [E|E]; [done|].
  unfold tracing, requestLogger, metricsMiddleware. rewrite route_label_eq. unfold mbind, M_bind.
  change (api_now s) with (api_clock s (api_reads s), tick_clock s). cbv beta iota.
  change (api_now (tick_clock s))
    with (api_clock (tick_clock s) (api_reads (tick_clock s)), tick_clock (tick_clock s)).
  cbv beta iota. fold inner. destruct inner as [r s2]. cbn [get fst snd].
  destruct (api_metrics s2) as [ops|] eqn:Em; simpl; split_and!; try done.
  rewrite Em. simpl. rewrite <- app_assoc. by eexists.
Qed.
End gateway.

(** A redirect is a matter of registered routes only: preflight requests, and
    the methods without a route, always reach the chain. *)
Lemma options_not_redirected req : ht_method req = "OPTIONS" -> redirected req = false.
Proof. unfold redirected. intros ->. by destruct (ht_route req). Qed.

(** [GET /healthz/] *)
Example trailing_slash_unaccounted (cfg : Config) (jwt : JwtLib) `{PgEnv} {R : Type} `{RedisLists R}
    (s : ApiState R) :
  gateway cfg jwt (mkHttp "GET" None true "/healthz/" "10.0.0.1" "") s
  = ((mkResp 301 BEmpty, [], []), s).
Proof. reflexivity. Qed.
