(* ===== verification/Groups.v ===== *)
(** * Process life cycle: run groups and the functions they run

    [runtimex.RunGroup] runs the long-lived functions of a service until all of
    them have returned.  Each is a task: the servers ([grpc.Serve],
    [telemetry.ServeMetrics], the gateway's [Run] and the metrics service's
    [serveMetrics]) wait in a [select] for a listener error or the end of the
    context; the elector, the metrics collector and the agent loop until the
    context ends.  The gRPC server counts its open calls: [GracefulStop] refuses
    new ones and waits for those.  [task_next] is one step of a task for an
    external event; [group_run] executes a sequence of events of a whole group,
    signals included.  [time.NewTicker] panics on an interval that is not
    positive, and a panic ends the process. *)

From S2P Require Import Prelude Float64 Config GoStd Services Redis.

#[local] Open Scope string_scope.
#[local] Open Scope list_scope.
#[local] Open Scope Z_scope.

(** ** Tasks *)

Inductive ServerKind := HttpMetrics | HttpApi | HttpCollector.

(** What [Serve] or [ListenAndServe] returned. *)
Inductive ServeResult := ServeNil | ServeClosed | ServeErr (e : error).

(** The elector is in [tryAcquire], in its callback, or in the [select]. *)
Inductive ElectorPhase := Trying | Leading | Waiting.

#[global] Instance ElectorPhase_eq_dec : EqDecision ElectorPhase.
Proof. solve_decision. Defined.

Inductive Task :=
| TListen (addr : string)                   (* grpc.Serve before net.Listen *)
| TGrpc (errCh : option error) (open : nat) (* grpc.Serve in its select; the open calls *)
| TStopping (open : nat)                    (* grpc.Serve in GracefulStop *)
| TSelect (k : ServerKind) (errCh : option error)
| TElector (phase : ElectorPhase)
| TCollector
| TRegister                                 (* the agent, before it is registered *)
| TAgent (heartbeat poll : bool)            (* which of its two loops still run *)
| TReturned (x : Exit).

Inductive Event :=
| EvListen (r : res unit)
| EvServe (r : ServeResult)                 (* the serving goroutine ends *)
| EvCallOpens                               (* a client opens a call or stream *)
| EvCallEnds
| EvStopped                                 (* GracefulStop returns *)
| EvErrCh                                   (* the select takes errCh *)
| EvDone (shutdown : res unit)              (* the select takes ctx.Done() *)
| EvTick
| EvAcquire (ok : bool)                     (* tryAcquire *)
| EvLeaseLost
| EvRegister (ok : bool)
| EvHeartbeatDone
| EvPollDone.

Inductive Next := Stuck | Panic | Go (t : Task).

(** [time.NewTicker] *)
Definition ticker_panics (d : Duration) : bool := d <=? 0.

(** *** Servers *)

(** [grpc.Serve] up to its [select], and the [select]: the serving goroutine
    passes on every error. *)
Definition Serve_listen (addr : string) (ev : Event) : Next :=
  match ev with
  | EvListen (Ok _) => Go (TGrpc None 0)
  | EvListen (Err e) => Go (TReturned (ExitErr (errorf ("listen " +:+ addr) e)))
  | _ => Stuck
  end.

Definition Serve_select (errCh : option error) (open : nat) (cancelled : bool) (ev : Event) : Next :=
  match ev, errCh, open with
  | EvServe ServeNil, None, _ => Go (TGrpc None open)
  | EvServe ServeClosed, None, _ => Go (TGrpc (Some (ErrMsg "grpc: the server has been stopped")) open)
  | EvServe (ServeErr e), None, _ => Go (TGrpc (Some e) open)
  | EvErrCh, Some e, _ => Go (TReturned (ExitErr e))
  | EvCallOpens, _, _ => Go (TGrpc errCh (S open))
  | EvCallEnds, _, S open' => Go (TGrpc errCh open')
  | EvDone _, _, _ => if cancelled then Go (TStopping open) else Stuck
  | _, _, _ => Stuck
  end.

(** [GracefulStop] accepts no new calls and returns, without a result, when the
    open ones have ended. *)
Definition Serve_stop (open : nat) (ev : Event) : Next :=
  match ev, open with
  | EvCallEnds, S open' => Go (TStopping open')
  | EvStopped, O => Go (TReturned ExitNil)
  | _, _ => Stuck
  end.

(** The three HTTP servers differ in address and handler only: the serving
    goroutine drops [ErrServerClosed], and the result is that of [Shutdown],
    which can exceed its deadline. *)
Definition http_select (k : ServerKind) (errCh : option error) (cancelled : bool) (ev : Event) : Next :=
  match errCh, ev with
  | None, EvServe (ServeErr e) => Go (TSelect k (Some e))
  | None, EvServe _ => Go (TSelect k None)
  | Some e, EvErrCh => Go (TReturned (ExitErr e))
  | _, EvDone (Ok _) => if cancelled then Go (TReturned ExitNil) else Stuck
  | _, EvDone (Err e) => if cancelled then Go (TReturned (ExitErr e)) else Stuck
  | _, _ => Stuck
  end.

(** [telemetry.ServeMetrics], the gateway's [Run], the metrics service's
    [serveMetrics]. *)
Definition ServeMetrics := http_select HttpMetrics.
Definition api_Run := http_select HttpApi.
Definition serveMetrics := http_select HttpCollector.

(** *** Loops *)

(** [LeaderElector.Run] with [engine.Run] as its callback: an elected replica
    creates the tickers of [keepAlive] and of the engine; the callback ends when
    the lease is lost or the context ends.  The election can be won only with a
    lease that Redis grants ([Leader.tryAcquire_grants]); a [tryAcquire] that starts
    after the end of the context fails at once. *)
Definition elector_Run (sched : SchedulerConfig) (phase : ElectorPhase) (cancelled : bool)
    (ev : Event) : Next :=
  match phase, ev with
  | Trying, EvAcquire true =>
      if negb (can_acquire (sc_LeaderTTL sched)) then Stuck
      else if ticker_panics (Z.quot (sc_LeaderTTL sched) 3) || ticker_panics (sc_Interval sched)
      then Panic else Go (TElector Leading)
  | Trying, EvAcquire false => Go (TElector Waiting)
  | Leading, EvTick => Go (TElector Leading)
  | Leading, EvLeaseLost => Go (TElector Waiting)
  | Leading, EvDone _ => if cancelled then Go (TElector Waiting) else Stuck
  | Waiting, EvTick => Go (TElector (if cancelled then Waiting else Trying))
  | Waiting, EvDone _ => if cancelled then Go (TReturned ExitNil) else Stuck
  | _, _ => Stuck
  end.

(** [Collector.Run]; its interval is positive ([collector_New]). *)
Definition collector_Run (cancelled : bool) (ev : Event) : Next :=
  match ev with
  | EvTick => Go TCollector
  | EvDone _ => if cancelled then Go (TReturned ExitNil) else Stuck
  | _ => Stuck
  end.

(** [Agent.Run]: registration, which returns the context's error, then the
    two loops, which both have to end. *)
Definition agent_register (cancelled : bool) (ev : Event) : Next :=
  match ev with
  | EvRegister true => Go (TAgent true true)
  | EvRegister false => Go TRegister
  | EvDone _ => if cancelled then Go (TReturned ExitCanceled) else Stuck
  | _ => Stuck
  end.

Definition agent_Run (heartbeat poll cancelled : bool) (ev : Event) : Next :=
  match ev with
  | EvTick => Go (TAgent heartbeat poll)
  | EvHeartbeatDone =>
      if heartbeat && cancelled then Go (if poll then TAgent false true else TReturned ExitNil) else Stuck
  | EvPollDone =>
      if poll && cancelled then Go (if heartbeat then TAgent true false else TReturned ExitNil) else Stuck
  | _ => Stuck
  end.

Section tasks.
Context (sched : SchedulerConfig).

(** A step of a task; the context's end is visible once it is cancelled. *)
Definition task_next (cancelled : bool) (t : Task) (ev : Event) : Next :=
  match t with
  | TListen addr => Serve_listen addr ev
  | TGrpc errCh open => Serve_select errCh open cancelled ev
  | TStopping open => Serve_stop open ev
  | TSelect HttpMetrics errCh => ServeMetrics errCh cancelled ev
  | TSelect HttpApi errCh => api_Run errCh cancelled ev
  | TSelect HttpCollector errCh => serveMetrics errCh cancelled ev
  | TElector phase => elector_Run sched phase cancelled ev
  | TCollector => collector_Run cancelled ev
  | TRegister => agent_register cancelled ev
  | TAgent heartbeat poll => agent_Run heartbeat poll cancelled ev
  | TReturned _ => Stuck
  end.

(** ** Groups *)

Record Group := mkGroup {
  g_cancelled : bool;
  g_tasks : list Task;
  g_first : option error;        (* firstErr *)
  g_returns : list Exit          (* the returns so far, in order *)
}.

Definition start_group (ts : list Task) : Group := mkGroup false ts None [].

Inductive GroupEvent := GSignal | GTask (i : nat) (ev : Event).

Inductive GroupNext := GStuck | GPanic | GGo (g : Group).

Definition group_next (g : Group) (ge : GroupEvent) : GroupNext :=
  match ge with
  | GSignal => GGo (mkGroup true (g_tasks g) (g_first g) (g_returns g))
  | GTask i ev =>
      match g_tasks g !! i with
      | None => GStuck
      | Some t =>
          match task_next (g_cancelled g) t ev with
          | Stuck => GStuck
          | Panic => GPanic
          | Go t' =>
              let ts := <[i := t']> (g_tasks g) in
              match t' with
              | TReturned x => GGo (mkGroup (g_cancelled g) ts (group_step (g_first g) x) (g_returns g ++ [x]))
              | _ => GGo (mkGroup (g_cancelled g) ts (g_first g) (g_returns g))
              end
          end
      end
  end.

Fixpoint group_run (g : Group) (evs : list GroupEvent) : GroupNext :=
  match evs with
  | [] => GGo g
  | ev :: evs' => match group_next g ev with GGo g' => group_run g' evs' | x => x end
  end.

Definition task_returned (t : Task) : bool := match t with TReturned _ => true | _ => false end.

(** [wg.Wait()] returns, with [firstErr]. *)
Definition group_returned (g : Group) : bool := forallb task_returned (g_tasks g).
End tasks.

(** The groups of the four services. *)
Definition scheduler_group (listen : string) : list Task :=
  [TListen listen; TSelect HttpMetrics None; TElector Trying].
Definition api_group : list Task := [TSelect HttpApi None; TSelect HttpMetrics None].
Definition metrics_group : list Task := [TCollector; TSelect HttpCollector None].
Definition agent_group : list Task := [TRegister; TSelect HttpMetrics None].

(** All the steps of a task. *)
Ltac task_steps t ev E :=
  destruct t as [?|? [|?]|[|?]|[] ?|[]| | |? ?|?], ev as [[]|[]| | | | |[]| |[]| |[]| |];
  unfold task_next, Serve_listen, Serve_select, Serve_stop, ServeMetrics, api_Run, serveMetrics,
    http_select, elector_Run, collector_Run, agent_register, agent_Run;
  rewrite ?andb_false_r; intros E; repeat case_match; simplify_eq.

(** ** Runs *)

Section runs.
Context (sched : SchedulerConfig).
Implicit Types (g : Group) (t : Task) (evs : list GroupEvent).

Abbreviation next := (group_next sched) (only parsing).
Abbreviation run := (group_run sched) (only parsing).

(** An invariant of the steps that a predicate on events allows. *)
Lemma run_inv (P : Group -> Prop) (allowed : GroupEvent -> Prop) evs g g' :
  (forall g ev g', P g -> allowed ev -> next g ev = GGo g' -> P g') ->
  P g -> Forall allowed evs -> run g evs = GGo g' -> P g'.
Proof.
  intros Hstep Hg Hall. revert g Hg. induction Hall as [|ev evs Hev _ IH]; intros g Hg; simpl.
  { by intros [= <-]. }
  destruct (next g ev) as [| |g1] eqn:E; [done..|]. intros Hr. eapply IH, Hr. by eapply Hstep.
Qed.


(** A step of one task, seen from the group. *)
Lemma next_inv g ev g' : next g ev = GGo g' ->
  (ev = GSignal /\ g' = mkGroup true (g_tasks g) (g_first g) (g_returns g))
  \/ (exists i e t t', ev = GTask i e /\ g_tasks g !! i = Some t
        /\ task_next sched (g_cancelled g) t e = Go t'
        /\ g_cancelled g' = g_cancelled g /\ g_tasks g' = <[i := t']> (g_tasks g)
        /\ match t' with
           | TReturned x => g_first g' = group_step (g_first g) x /\ g_returns g' = g_returns g ++ [x]
           | _ => g_first g' = g_first g /\ g_returns g' = g_returns g
           end).
Proof.
  destruct ev as [|i e]; simpl; [intros [= <-]; by left|]. right.
  destruct (g_tasks g !! i) as [t|] eqn:Et; [|done].
  destruct (task_next sched (g_cancelled g) t e) as [| |t'] eqn:En; [done..|].
  exists i, e, t, t'. destruct t'; simplify_eq; simpl; by split_and!.
Qed.

(** *** The first error *)



(** *** Returned tasks and returns *)







Lemma tasks_length ts evs g : run (start_group ts) evs = GGo g -> length (g_tasks g) = length ts.
Proof.
  apply (run_inv (fun g => length (g_tasks g) = length ts) (fun _ => True)); [|done|by apply Forall_true].
  intros g1 ev g2 Hg _ [[_ ->]|(j & e & u & u' & _ & _ & _ & _ & -> & _)]%next_inv; [done|].
  by rewrite length_insert.
Qed.

(** ** Before a signal *)

(** A server, or one that returned its listener's error; a loop; or a task
    that returned because the context ended. *)
Inductive Role := Serving | Looping | Stopped.

Definition role (t : Task) : Role :=
  match t with
  | TListen _ | TGrpc _ _ | TSelect _ _ | TReturned (ExitErr _) => Serving
  | TStopping _ | TReturned _ => Stopped
  | _ => Looping
  end.

Lemma task_next_role t e t' : task_next sched false t e = Go t' -> role t' = role t.
Proof.
  task_steps t e E; done.
Qed.

(** Without a signal a task that is not a server does not return, and a server
    returns only with its listener's error. *)
Lemma no_signal_role ts evs g i t :
  Forall (fun ev => ev <> GSignal) evs -> run (start_group ts) evs = GGo g ->
  g_tasks g !! i = Some t -> exists t0, ts !! i = Some t0 /\ role t = role t0.
Proof.
  intros Hs Hr.
  assert (g_cancelled g = false
    /\ forall i t, g_tasks g !! i = Some t -> exists t0, ts !! i = Some t0 /\ role t = role t0)
    as [_ H]; [|by apply H].
  revert Hr. apply (run_inv (fun g => g_cancelled g = false
    /\ forall i t, g_tasks g !! i = Some t -> exists t0, ts !! i = Some t0 /\ role t = role t0)
    (fun ev => ev <> GSignal)); [|split; [done|by eauto]|done].
  intros g1 ev g2 [Hc Hg] Hev [[-> _]|(j & e & u & u' & _ & Hj & Hn & -> & -> & _)]%next_inv; [done|].
  split; [done|]. intros k v Hk. destruct (decide (j = k)) as [<-|Hne].
  - rewrite list_lookup_insert_eq in Hk by (by eapply lookup_lt_Some). simplify_eq.
    rewrite Hc in Hn. rewrite (task_next_role _ _ _ Hn). by apply Hg.
  - rewrite list_lookup_insert_ne in Hk by done. by apply Hg.
Qed.

(** ** After a signal *)



















(** *** The group *)




End runs.



(** ** Theorems *)






(** C38: Nothing but a signal stops the scheduler, the metrics service or a node
    agent: [RunGroup] does not cancel the context when one of its functions
    fails, and it waits for all of them.  Until a signal arrives the group never
    returns, even in the runs where the scheduler's gRPC listener has failed, so
    the process stays up without its control plane and the recorded error is
    not reported.  The gateway returns only once both its listeners failed. *)
Theorem failed_listener_does_not_stop sched listen evs g :
  Forall (fun ev => ev <> GSignal) evs ->
  (forall ts, ts ∈ [scheduler_group listen; metrics_group; agent_group] ->
     group_run sched (start_group ts) evs = GGo g -> group_returned g = false)
  /\ (group_run sched (start_group api_group) evs = GGo g -> group_returned g = true ->
      exists e1 e2, g_tasks g = [TReturned (ExitErr e1); TReturned (ExitErr e2)])
  /\ (forall e, exists g', group_run sched (start_group (scheduler_group listen))
       [GTask 0 (EvListen (Err e))] = GGo g' /\ g_first g' = Some (errorf ("listen " +:+ listen) e)).
Proof.
  intros Hs. split_and!.
  - intros ts Hts Hr. destruct (group_returned g) eqn:Hg; [|done]. exfalso.
    assert (exists i t0, ts !! i = Some t0 /\ role t0 = Looping) as (i & t0 & Hi & Ht0).
    { repeat (apply elem_of_cons in Hts as [->|Hts]); [by exists 2%nat, (TElector Trying)
        |by exists 0%nat, TCollector|by exists 0%nat, TRegister|by apply elem_of_nil in Hts]. }
    assert (i < length (g_tasks g))%nat as [t Ht]%lookup_lt_is_Some.
    { rewrite (tasks_length _ _ _ _ Hr). by eapply lookup_lt_Some. }
    destruct (no_signal_role _ _ _ _ _ _ Hs Hr Ht) as (t0' & Hi' & Hrole). simplify_eq.
    rewrite Ht0 in Hrole. unfold group_returned in Hg. rewrite forallb_forall in Hg.
    specialize (Hg t (proj1 (list_elem_of_In _ _) (list_elem_of_lookup_2 _ _ _ Ht))).
    by destruct t as [| | | | | | | |[]].
  - intros Hr Hg. pose proof (tasks_length _ _ _ _ Hr) as Hl.
    pose proof (fun i t => no_signal_role _ _ _ _ i t Hs Hr) as Hrole. unfold group_returned in Hg.
    destruct (g_tasks g) as [|t1 [|t2 [|]]]; try done.
    destruct (Hrole 0%nat t1 eq_refl) as (? & [= <-] & H1).
    destruct (Hrole 1%nat t2 eq_refl) as (? & [= <-] & H2).
    destruct t1 as [| | | | | | | |[]], t2 as [| | | | | | | |[]]; try done. by eexists _, _.
  - intros e. by eexists.
Qed.

Lemma failed_listener_does_not_stop_witness :
  group_returned (mkGroup false
    [TReturned (ExitErr (ErrMsg "listen :50051: in use")); TSelect HttpMetrics None; TElector Leading]
    (Some (ErrMsg "listen :50051: in use")) [ExitErr (ErrMsg "listen :50051: in use")]) = false.
Proof.
  refine (proj1 (failed_listener_does_not_stop
            (mkSched "best-fit" Second f64_one Minute true Minute Minute 3) ":50051"
            [GTask 2 (EvAcquire true); GTask 0 (EvListen (Err (ErrMsg "in use")))] _ _)
            (scheduler_group ":50051") _ _).
  - by repeat constructor.
  - by left.
  - reflexivity.
Defined.
