(* ===== verification/Startup.v ===== *)
(** * Service start-up: [cmd/*/main.go], [store.New], [redisx.New]

    The four programs as computations on the process: what they log, which
    connections they open, which functions they defer, and the run group they
    end in.  The answers of the libraries (parsing of the database address,
    pools, pings, dialling) are the class [Libraries]. *)

From S2P Require Import Prelude Float64 Config GoStd Models Algorithms GoParse Services Agent ConfigLoad Migrations Redis Telemetry Groups.

#[local] Open Scope string_scope.
#[local] Open Scope list_scope.
#[local] Open Scope Z_scope.

(** ** The process *)

Record PoolConfig := mkPool {
  pl_dsn : string; pl_MaxConns : Z; pl_MinConns : Z; pl_MaxConnLifetime : Duration
}.

Record RedisOptions := mkRedisOpts {
  ro_Addr : string; ro_Password : string; ro_DB : Z;
  ro_DialTimeout : Duration; ro_ReadTimeout : Duration; ro_WriteTimeout : Duration
}.

Class Libraries := {
  w_otel :: Otel;
  pgx_ParseConfig : string -> res PoolConfig;
  pgx_NewWithConfig : PoolConfig -> res unit;
  pgx_Ping : PoolConfig -> res unit;
  redis_Ping : RedisOptions -> res unit;
  grpc_NewClient : string -> res unit;
  os_Hostname : string;
  unicode_lower : string -> string;
  unicode_lower_trim : string -> string
}.

Inductive Resource := RTracer | RPool | RRedis | RConn.

#[global] Instance Resource_eq_dec : EqDecision Resource.
Proof. solve_decision. Defined.

Inductive Eff := EOpen (r : Resource) | EClose (r : Resource) | ELog (l : Level) (msg : string).

Record Process := mkProc {
  p_trace : list Eff;
  p_defers : list Resource;        (* the deferred releases, last first *)
  p_otel : OtelGlobals;
  p_pg : Pg
}.

Definition eff (e : Eff) : M Process unit :=
  modify (fun p => mkProc (p_trace p ++ [e]) (p_defers p) (p_otel p) (p_pg p)).

Definition defer_close (r : Resource) : M Process unit :=
  modify (fun p => mkProc (p_trace p) (r :: p_defers p) (p_otel p) (p_pg p)).

Definition on_otel {A} (m : M OtelGlobals A) : M Process A :=
  zoom p_otel (fun g p => mkProc (p_trace p) (p_defers p) g (p_pg p)) m.
Definition on_pg {A} (m : M Pg A) : M Process A :=
  zoom p_pg (fun g p => mkProc (p_trace p) (p_defers p) (p_otel p) g) m.

(** [if err != nil { log.Error(msg); os.Exit(1) }]: the program ends. *)
Definition or_exit {A B} (msg : string) (r : res A) (k : A -> M Process (option B)) :
    M Process (option B) :=
  match r with
  | Ok a => k a
  | Err _ => eff (ELog LevelError msg);; mret None
  end.

Section startup.
Context `{Libraries}.

(** ** Connections *)

(** [store.New] *)
Definition store_New (cfg : PostgresConfig) : M Process (res unit) :=
  match pgx_ParseConfig (pc_DSN cfg) with
  | Err e => mret (Err (errorf "parse postgres dsn" e))
  | Ok parsed =>
      let poolCfg := mkPool (pl_dsn parsed) (pc_MaxConns cfg) (pc_MinConns cfg) (pc_MaxConnLife cfg) in
      match pgx_NewWithConfig poolCfg with
      | Err e => mret (Err (errorf "create pgx pool" e))
      | Ok _ =>
          eff (EOpen RPool);;
          match pgx_Ping poolCfg with
          | Err e => eff (EClose RPool);; mret (Err (errorf "ping postgres" e))
          | Ok _ => mret (Ok tt)
          end
      end
  end.

(** [redisx.New] *)
Definition redisx_New (cfg : RedisConfig) : M Process (res unit) :=
  let opts := mkRedisOpts (rc_Addr cfg) (rc_Password cfg) (rc_DB cfg)
                (5 * Second) (3 * Second) (3 * Second) in
  eff (EOpen RRedis);;
  match redis_Ping opts with
  | Err e => eff (EClose RRedis);; mret (Err (errorf "ping redis" e))
  | Ok _ => mret (Ok tt)
  end.

(** [agent.New] up to the connection. *)
Definition agent_New (cfg : AgentConfig) : M Process (res AgentConfig) :=
  match grpc_NewClient (ag_SchedulerAddr cfg) with
  | Err e => mret (Err (errorf "dial scheduler" e))
  | Ok _ => eff (EOpen RConn);; mret (Ok (with_defaults cfg))
  end.

Definition tracer_config (cfg : Config) : TracerConfig :=
  mkTracerConfig (c_ServiceName cfg) (c_Env cfg) (tc_OTLPEndpoint (c_Telemetry cfg))
    (tc_TracingEnable (c_Telemetry cfg)) (tc_SampleRatio (c_Telemetry cfg)).

(** ** The programs

    [None] when the program has ended with status 1, else its run group and
    what it was built with. *)

Definition open_tracer {B} (cfg : Config) (k : M Process (option B)) : M Process (option B) :=
  r ← on_otel (InitTracer (tracer_config cfg));
  or_exit "init tracer" r (fun _ => eff (EOpen RTracer);; defer_close RTracer;; k).

Definition open_store {B} (cfg : Config) (k : M Process (option B)) : M Process (option B) :=
  r ← store_New (c_Postgres cfg);
  or_exit "connect postgres" r (fun _ => defer_close RPool;; k).

Definition run_migrations {B} (k : M Process (option B)) : M Process (option B) :=
  r ← on_pg (Migrate migrationFS);
  or_exit "run migrations" r (fun _ => k).

Record Started := mkStarted {
  st_log : Logger;
  st_group : list Task;
  st_sched : SchedulerConfig;
  st_algorithm : option Algorithm;      (* the scheduler's *)
  st_redis : bool;                      (* a Redis client is connected *)
  st_agent : option AgentConfig         (* the agent's *)
}.

Definition logger_of (cfg : Config) : Logger :=
  logging_New unicode_lower (c_ServiceName cfg) (c_LogLevel cfg).

(** [cmd/scheduler/main.go] *)
Definition scheduler_main (env : Environ) : M Process (option Started) :=
  let cfg := Load "scheduler" env in
  open_tracer cfg (open_store cfg (run_migrations (
    r ← redisx_New (c_Redis cfg);
    or_exit "connect redis (required for leader election)" r (fun _ =>
      defer_close RRedis;;
      or_exit "invalid scheduler algorithm" (New unicode_lower_trim (sc_Algorithm (c_Scheduler cfg)))
        (fun alg =>
           mret (Some (mkStarted (logger_of cfg) (scheduler_group (gc_SchedulerListen (c_GRPC cfg)))
                         (c_Scheduler cfg) (Some alg) true None))))))).

(** [cmd/api-gateway/main.go]: no client when Redis is unavailable. *)
Definition api_main (env : Environ) : M Process (option Started) :=
  let cfg := Load "api-gateway" env in
  or_exit "invalid configuration" (Validate cfg) (fun _ =>
    open_tracer cfg (open_store cfg (run_migrations (
      r ← redisx_New (c_Redis cfg);
      (if is_ok r then mret tt
       else eff (ELog LevelWarn "redis unavailable, log streaming disabled"));;
      mret (Some (mkStarted (logger_of cfg) api_group (c_Scheduler cfg) None (is_ok r) None)))))).

(** [cmd/metrics/main.go] *)
Definition metrics_main (env : Environ) : M Process (option Started) :=
  let cfg := Load "metrics" env in
  open_store cfg (mret (Some (mkStarted (logger_of cfg) metrics_group (c_Scheduler cfg) None false None))).

(** [cmd/node-agent/main.go] *)
Definition agent_main (env : Environ) : M Process (option Started) :=
  let cfg := Load "node-agent" env in
  r ← agent_New (agent_settings cfg os_Hostname env);
  or_exit "create agent" r (fun a =>
    defer_close RConn;;
    mret (Some (mkStarted (logger_of cfg) agent_group (c_Scheduler cfg) None false (Some a)))).

(** The end of every [main]: the deferred calls run only on the way out of
    the function, not on [os.Exit]. *)
Fixpoint run_defers (rs : list Resource) : M Process unit :=
  match rs with
  | [] => mret tt
  | r :: rs' => eff (EClose r);; run_defers rs'
  end.

Definition finish (failed stopped : string) (first : option error) : M Process Z :=
  match first with
  | Some _ => eff (ELog LevelError failed);; mret 1
  | None => eff (ELog LevelInfo stopped);; p ← get; run_defers (p_defers p);; mret 0
  end.

Definition main_of (start : M Process (option Started)) (failed stopped : string)
    (group : Started -> option error) : M Process Z :=
  r ← start;
  match r with
  | None => mret 1
  | Some st => finish failed stopped (group st)
  end.
End startup.

(** ** What a start needs *)

Section starts.
Context `{Libraries}.

Definition tracer_ready (cfg : Config) : bool :=
  is_ok (InitTracer (tracer_config cfg) (mkGlobals None false)).1.

Definition store_ready (cfg : PostgresConfig) : bool :=
  match pgx_ParseConfig (pc_DSN cfg) with
  | Err _ => false
  | Ok parsed =>
      let c := mkPool (pl_dsn parsed) (pc_MaxConns cfg) (pc_MinConns cfg) (pc_MaxConnLife cfg) in
      is_ok (pgx_NewWithConfig c) && is_ok (pgx_Ping c)
  end.

Definition redis_ready (cfg : RedisConfig) : bool :=
  is_ok (redis_Ping (mkRedisOpts (rc_Addr cfg) (rc_Password cfg) (rc_DB cfg)
                       (5 * Second) (3 * Second) (3 * Second))).

Lemma InitTracer_ready cfg g : is_ok (InitTracer cfg g).1 = is_ok (InitTracer cfg (mkGlobals None false)).1.
Proof.
  unfold InitTracer. destruct (_ || _); [done|]. destruct (otlptracegrpc_New _); [|done].
  by destruct (resource_New _ _).
Qed.

Definition starts {B} (m : M Process (option B)) (p : Process) : bool :=
  match (m p).1 with Some _ => true | None => false end.

(** Each phase either ends the program or goes on with the same database. *)
Lemma starts_or_exit {A B} msg (r : res A) (k : A -> M Process (option B)) p :
  starts (or_exit msg r k) p = match r with Ok a => starts (k a) p | Err _ => false end.
Proof. by destruct r. Qed.

Lemma starts_tracer {B} cfg (k : M Process (option B)) p b :
  (forall p', p_pg p' = p_pg p -> starts k p' = b) ->
  starts (open_tracer cfg k) p = tracer_ready cfg && b.
Proof.
  intros Hk. unfold open_tracer, tracer_ready. rewrite <- (InitTracer_ready _ (p_otel p)).
  unfold starts, mbind, M_bind, on_otel, zoom. destruct (InitTracer _ (p_otel p)) as [[s|e] g]; [|done].
  by apply Hk.
Qed.

Lemma store_New_spec cfg p :
  is_ok (store_New cfg p).1 = store_ready cfg /\ p_pg (store_New cfg p).2 = p_pg p.
Proof.
  unfold store_New, store_ready. destruct (pgx_ParseConfig _) as [parsed|]; [|done].
  destruct (pgx_NewWithConfig _); [|done]. by destruct (pgx_Ping _).
Qed.

Lemma starts_store {B} cfg (k : M Process (option B)) p b :
  (forall p', p_pg p' = p_pg p -> starts k p' = b) ->
  starts (open_store cfg k) p = store_ready (c_Postgres cfg) && b.
Proof.
  intros Hk. destruct (store_New_spec (c_Postgres cfg) p) as [Hr Hp]. rewrite <- Hr.
  unfold starts, open_store, mbind, M_bind. destruct (store_New _ p) as [[[]|e] p']; [|done].
  by apply Hk.
Qed.

Lemma starts_migrations {B} (k : M Process (option B)) p b :
  (forall p', starts k p' = b) ->
  starts (run_migrations k) p = is_ok (Migrate migrationFS (p_pg p)).1 && b.
Proof.
  intros Hk. unfold starts, run_migrations, mbind, M_bind, on_pg, zoom.
  destruct (Migrate migrationFS (p_pg p)) as [[[]|e] g]; [|done]. by apply Hk.
Qed.

Lemma redisx_New_spec cfg p : is_ok (redisx_New cfg p).1 = redis_ready cfg.
Proof.
  unfold redisx_New, redis_ready, mbind, M_bind. cbn -[redis_Ping].
  by destruct (redis_Ping _).
Qed.

(** A property of what a successful start yields. *)
Definition yields {B} (m : M Process (option B)) (P : B -> Prop) : Prop :=
  forall p st, (m p).1 = Some st -> P st.

Lemma yields_tracer {B} cfg (k : M Process (option B)) P : yields k P -> yields (open_tracer cfg k) P.
Proof.
  intros Hk p st. unfold open_tracer, mbind, M_bind, on_otel, zoom.
  destruct (InitTracer _ (p_otel p)) as [[s|e] g]; [|done]. apply Hk.
Qed.

Lemma yields_store {B} cfg (k : M Process (option B)) P : yields k P -> yields (open_store cfg k) P.
Proof.
  intros Hk p st. unfold open_store, mbind, M_bind. destruct (store_New _ p) as [[[]|e] p']; [|done].
  apply Hk.
Qed.

Lemma yields_migrations {B} (k : M Process (option B)) P : yields k P -> yields (run_migrations k) P.
Proof.
  intros Hk p st. unfold run_migrations, mbind, M_bind, on_pg, zoom.
  destruct (Migrate migrationFS (p_pg p)) as [[[]|e] g]; [|done]. apply Hk.
Qed.
End starts.

(** Every algorithm that a name selects obeys the laws. *)
Lemma New_lawful lower name alg : New lower name = Ok alg -> LawfulAlgorithm alg.
Proof. unfold New. repeat case_match; intros; simplify_eq; apply _. Qed.

(** C36: What each service needs to start.  The scheduler starts exactly when the
    tracer, the database, the migrations, Redis and the configured algorithm are
    all in order; the gateway needs a valid configuration instead of the
    algorithm and starts without Redis, with log streaming off; the metrics
    service needs only the database, and a node agent only its connection.  The
    algorithm of a started scheduler obeys the laws that the engine's theorems
    ask for. *)
Theorem starts_exactly_when `{Libraries} env p :
  let sc := Load "scheduler" env in
  let ac := Load "api-gateway" env in
  let mc := Load "metrics" env in
  let migrated := is_ok (Migrate migrationFS (p_pg p)).1 in
  starts (scheduler_main env) p
  = tracer_ready sc && (store_ready (c_Postgres sc) && (migrated && (redis_ready (c_Redis sc)
      && is_ok (New unicode_lower_trim (sc_Algorithm (c_Scheduler sc))))))
  /\ starts (api_main env) p
     = is_ok (Validate ac) && (tracer_ready ac && (store_ready (c_Postgres ac) && migrated))
  /\ (forall st, (api_main env p).1 = Some st -> st_redis st = redis_ready (c_Redis ac))
  /\ (forall st, (scheduler_main env p).1 = Some st ->
        exists alg, st_algorithm st = Some alg /\ LawfulAlgorithm alg)
  /\ starts (metrics_main env) p = store_ready (c_Postgres mc)
  /\ starts (agent_main env) p
     = is_ok (grpc_NewClient (gc_SchedulerAddr (c_GRPC (Load "node-agent" env)))).
Proof.
  intros sc ac mc migrated. split_and!.
  - apply starts_tracer. intros p1 E1. apply starts_store. intros p2 E2. unfold migrated.
    rewrite <- E1, <- E2. apply starts_migrations. intros p3.
    rewrite <- (redisx_New_spec _ p3). unfold starts, mbind, M_bind. fold sc.
    destruct (redisx_New _ p3) as [[[]|e] p4]; [|done]. simpl. by destruct (New _ _).
  - unfold api_main. rewrite starts_or_exit. fold ac. destruct (Validate ac); [|done]. simpl.
    rewrite <- (andb_true_r migrated).
    apply starts_tracer. intros p1 E1. apply starts_store. intros p2 E2. unfold migrated.
    rewrite <- E1, <- E2. apply starts_migrations. intros p3. unfold starts, mbind, M_bind.
    destruct (redisx_New _ p3) as [[[]|e] p4]; done.
  - intros st. unfold api_main. fold ac. destruct (Validate ac); [|done].
    apply (yields_tracer ac _ (fun st => st_redis st = redis_ready (c_Redis ac))).
    apply yields_store, yields_migrations. intros p1 st'. rewrite <- (redisx_New_spec _ p1).
    unfold mbind, M_bind. destruct (redisx_New _ p1) as [[[]|e] p2]; simpl; by intros [= <-].
  - intros st. apply (yields_tracer sc _ (fun st => exists alg, st_algorithm st = Some alg /\ LawfulAlgorithm alg)).
    apply yields_store, yields_migrations. intros p1 st'. unfold mbind, M_bind. fold sc.
    destruct (redisx_New _ p1) as [[[]|e] p2]; [|done]. unfold or_exit.
    destruct (New _ _) as [alg|] eqn:E; [|done]. intros [= <-]. exists alg.
    split; [done|by eapply New_lawful].
  - rewrite <- (andb_true_r (store_ready _)). by apply starts_store.
  - unfold agent_main, starts, mbind, M_bind, agent_New. simpl. by destruct (grpc_NewClient _).
Qed.

(** ** Releases *)

Definition delta (r : Resource) (e : Eff) : Z :=
  match e with
  | EOpen r' => if decide (r = r') then 1 else 0
  | EClose r' => if decide (r = r') then -1 else 0
  | ELog _ _ => 0
  end.

(** How often a resource is open. *)
Definition held (r : Resource) (p : Process) : Z := zsum (delta r) (p_trace p).
Definition count_res (r : Resource) (l : list Resource) : Z := Z.of_nat (length (filter (fun x => r = x) l)).

(** What is open is what will be released on a return. *)
Definition balanced (d : list Resource) (p : Process) : Prop :=
  p_defers p = d /\ forall r, held r p = count_res r d.

(** The last thing the program did was to log an error. *)
Definition ended_with_error (p : Process) : Prop :=
  exists msg, last (p_trace p) = Some (ELog LevelError msg).

Lemma held_snoc r tr e d g q : held r (mkProc (tr ++ [e]) d g q) = zsum (delta r) tr + delta r e.
Proof. unfold held. simpl. rewrite zsum_app. unfold zsum at 2. simpl. lia. Qed.

Lemma count_res_cons r x l : count_res r (x :: l) = (if decide (r = x) then 1 else 0) + count_res r l.
Proof. unfold count_res. rewrite filter_cons. destruct (decide (r = x)); simpl; lia. Qed.

Section releases.
Context `{Libraries}.

(** The postconditions of a start: [d] is deferred when it goes on. *)
Definition start_post {B} (Q : option B -> Process -> Prop) : Prop :=
  forall d p, balanced d p -> ended_with_error p -> Q None p.

Lemma balanced_log d l msg : hoare (balanced d) (eff (ELog l msg)) (fun _ => balanced d).
Proof.
  intros p [Hd Hb]. split; [done|]. intros r. simpl. rewrite held_snoc. simpl. rewrite Z.add_0_r. apply Hb.
Qed.

(** Open, and defer the release. *)
Lemma balanced_open d r : hoare (balanced d) (eff (EOpen r);; defer_close r) (fun _ => balanced (r :: d)).
Proof.
  intros p [Hd Hb]. split; [simpl; by rewrite Hd|]. intros x. simpl. rewrite held_snoc, count_res_cons.
  unfold held in Hb. rewrite Hb. simpl. destruct (decide (x = r)); lia.
Qed.

Lemma balanced_open_close d r : hoare (balanced d) (eff (EOpen r);; eff (EClose r)) (fun _ => balanced d).
Proof.
  intros p [Hd Hb]. split; [done|]. intros x. simpl. rewrite held_snoc. unfold held in Hb.
  rewrite zsum_app, Hb. unfold zsum. simpl. destruct (decide (x = r)); lia.
Qed.

Lemma exit_post {B} d msg p (Q : option B -> Process -> Prop) :
  start_post Q -> balanced d p -> Q None (eff (ELog LevelError msg) p).2.
Proof.
  intros HQ Hp. apply (HQ d); [by apply balanced_log|]. exists msg. simpl. by rewrite last_snoc.
Qed.

Lemma hoare_or_exit {A B} d msg (r : res A) (k : A -> M Process (option B)) Q :
  start_post Q -> (forall a, r = Ok a -> hoare (balanced d) (k a) Q) -> hoare (balanced d) (or_exit msg r k) Q.
Proof.
  intros HQ Hk. destruct r as [a|e]; [by apply Hk|]. intros p Hp.
  exact (exit_post d msg p Q HQ Hp).
Qed.

(** The continuation runs after an open and its defer. *)
Lemma hoare_opened {B} d r (k : M Process (option B)) Q p :
  hoare (balanced (r :: d)) k Q -> balanced d p ->
  let p' := ((eff (EOpen r);; defer_close r) p).2 in Q (k p').1 (k p').2.
Proof. intros Hk Hp. by apply Hk, balanced_open. Qed.

Lemma hoare_tracer {B} d cfg (k : M Process (option B)) Q :
  start_post Q -> hoare (balanced (RTracer :: d)) k Q -> hoare (balanced d) (open_tracer cfg k) Q.
Proof.
  intros HQ Hk p Hp. unfold open_tracer, on_otel, zoom, mbind, M_bind.
  destruct (InitTracer _ (p_otel p)) as [[s|e] g].
  - by apply (hoare_opened d RTracer k Q (mkProc (p_trace p) (p_defers p) g (p_pg p))).
  - exact (exit_post d "init tracer" (mkProc (p_trace p) (p_defers p) g (p_pg p)) Q HQ Hp).
Qed.

Lemma hoare_store {B} d cfg (k : M Process (option B)) Q :
  start_post Q -> hoare (balanced (RPool :: d)) k Q -> hoare (balanced d) (open_store cfg k) Q.
Proof.
  intros HQ Hk p Hp. unfold open_store, store_New.
  destruct (pgx_ParseConfig _) as [c|e]; [|exact (exit_post d "connect postgres" p Q HQ Hp)].
  destruct (pgx_NewWithConfig _) as [|e]; [|exact (exit_post d "connect postgres" p Q HQ Hp)].
  destruct (pgx_Ping _) as [|e]; [by apply (hoare_opened d RPool k Q p)|].
  exact (exit_post d "connect postgres" ((eff (EOpen RPool);; eff (EClose RPool)) p).2 Q HQ
           (balanced_open_close d RPool p Hp)).
Qed.

Lemma hoare_migrations {B} d (k : M Process (option B)) Q :
  start_post Q -> hoare (balanced d) k Q -> hoare (balanced d) (run_migrations k) Q.
Proof.
  intros HQ Hk p Hp. unfold run_migrations, on_pg, zoom, mbind, M_bind.
  destruct (Migrate migrationFS (p_pg p)) as [[[]|e] g]; [by apply Hk|].
  exact (exit_post d "run migrations" (mkProc (p_trace p) (p_defers p) (p_otel p) g) Q HQ Hp).
Qed.

(** What each program has deferred when its group starts. *)
Definition starts_with {B} (d : list Resource) (o : option B) (p : Process) : Prop :=
  match o with
  | Some _ => balanced d p
  | None => ended_with_error p /\ exists d', balanced d' p
  end.

Lemma starts_with_post {B} d : start_post (B := B) (starts_with d).
Proof. intros d' p Hb He. split; [done|by exists d']. Qed.

Lemma scheduler_releases env :
  hoare (balanced []) (scheduler_main env) (starts_with [RRedis; RPool; RTracer]).
Proof.
  apply hoare_tracer, hoare_store, hoare_migrations; try apply starts_with_post.
  intros p Hp. unfold redisx_New. destruct (redis_Ping _) as [|e].
  - apply (hoare_opened [RPool; RTracer] RRedis (or_exit _ _ _) _ p); [|done].
    apply hoare_or_exit; [apply starts_with_post|]. intros alg _. by apply hoare_ret.
  - exact (exit_post [RPool; RTracer] "connect redis (required for leader election)"
             ((eff (EOpen RRedis);; eff (EClose RRedis)) p).2 _ (starts_with_post _)
             (balanced_open_close _ RRedis p Hp)).
Qed.

Lemma metrics_releases env : hoare (balanced []) (metrics_main env) (starts_with [RPool]).
Proof. apply hoare_store; [apply starts_with_post|]. by apply hoare_ret. Qed.

Lemma agent_releases env : hoare (balanced []) (agent_main env) (starts_with [RConn]).
Proof.
  intros p Hp. unfold agent_main, agent_New. destruct (grpc_NewClient _) as [|e].
  - by apply (hoare_opened [] RConn (mret _) (starts_with [RConn]) p); [apply hoare_ret|].
  - exact (exit_post [] "create agent" p _ (starts_with_post _) Hp).
Qed.

Lemma run_defers_held l p r : held r (run_defers l p).2 = held r p - count_res r l.
Proof.
  revert p. induction l as [|x l IH]; intros p; [unfold count_res; simpl; lia|].
  cbn [run_defers]. unfold mbind, M_bind. simpl. rewrite IH, held_snoc, count_res_cons. unfold held.
  simpl. destruct (decide (r = x)); lia.
Qed.

(** How a program whose start defers [d] ends: with status 0 and everything
    released when its group returned without an error, and otherwise with status
    1 after an error; the deferred releases did not run then. *)
Definition exit_ok (start : M Process (option Started)) (group : Started -> option error)
    (d : list Resource) (r : Z * Process) (p : Process) : Prop :=
  match (start p).1 with
  | None => r.1 = 1 /\ ended_with_error r.2
  | Some st =>
      match group st with
      | None => r.1 = 0 /\ forall x, held x r.2 = 0
      | Some _ => r.1 = 1 /\ ended_with_error r.2 /\ forall x, held x r.2 = count_res x d
      end
  end.

Lemma main_of_exit d (start : M Process (option Started)) failed stopped group p :
  hoare (balanced []) start (starts_with d) -> balanced [] p ->
  exit_ok start group d (main_of start failed stopped group p) p.
Proof.
  intros Hs Hp. specialize (Hs p Hp). unfold exit_ok, main_of, mbind, M_bind.
  destruct (start p) as [[st|] p1]; simpl in *; [|by destruct Hs].
  destruct Hs as [Hd Hb]. unfold finish. destruct (group st) as [e|].
  - unfold mbind, M_bind. simpl. split_and!; [done|exists failed; simpl; by rewrite last_snoc|].
    intros r. rewrite held_snoc. simpl. rewrite Z.add_0_r. apply Hb.
  - unfold mbind, M_bind. cbn [eff modify get p_defers].
    destruct (run_defers (p_defers p1) _) as [[] p2] eqn:E. split; [done|]. intros r.
    apply (f_equal (fun x => held r x.2)) in E. cbn [snd] in E. change (held r p2 = 0).
    rewrite <- E, run_defers_held, held_snoc.
    rewrite Hd. simpl. unfold held in Hb. rewrite Hb. lia.
Qed.
End releases.

(** C25: What a service leaves behind. A scheduler, metrics service or agent
    whose run group returns without an error exits with status 0 and has
    released everything it opened, once. Otherwise (it could not start, or the
    group returned an error) the status is 1, the last thing it did was to log
    an error, and, because [os.Exit] skips deferred calls, a service whose run
    group failed has released nothing: the scheduler's spans are not flushed
    and its connections are dropped. *)
Theorem exits_and_releases `{Libraries} env p group :
  balanced [] p ->
  exit_ok (scheduler_main env) group [RRedis; RPool; RTracer]
    (main_of (scheduler_main env) "scheduler exited with error" "scheduler stopped cleanly" group p) p
  /\ exit_ok (metrics_main env) group [RPool]
    (main_of (metrics_main env) "metrics service exited with error" "metrics service stopped cleanly" group p) p
  /\ exit_ok (agent_main env) group [RConn]
    (main_of (agent_main env) "node agent exited with error" "node agent stopped cleanly" group p) p.
Proof.
  intros Hp. split_and!; apply main_of_exit;
    first [done|apply scheduler_releases|apply metrics_releases|apply agent_releases].
Qed.

Definition no_otel : Otel := {|
  otlptracegrpc_New _ := Err (ErrMsg "unreachable"); resource_New _ _ := Ok tt |}.

(** A world where everything answers. *)
Definition good_world : Libraries := {|
  w_otel := no_otel;
  pgx_ParseConfig dsn := Ok (mkPool dsn 4 0 Hour);
  pgx_NewWithConfig _ := Ok tt;
  pgx_Ping _ := Ok tt;
  redis_Ping _ := Ok tt;
  grpc_NewClient _ := Ok tt;
  os_Hostname := "gpu-1";
  unicode_lower := id;
  unicode_lower_trim := id
|}.

Definition fresh_process : Process :=
  mkProc [] [] (mkGlobals None false) (mkPg empty_schema 0 (fun _ => None)).

Lemma exits_and_releases_witness :
  exit_ok (@scheduler_main good_world no_env) (fun _ => Some (ErrMsg "listen :50051: in use"))
    [RRedis; RPool; RTracer]
    (main_of (@scheduler_main good_world no_env) "scheduler exited with error" "scheduler stopped cleanly"
       (fun _ => Some (ErrMsg "listen :50051: in use")) fresh_process) fresh_process.
Proof.
  refine (proj1 (@exits_and_releases good_world no_env fresh_process
              (fun _ => Some (ErrMsg "listen :50051: in use")) _)).
  split; [reflexivity|]. intros r. reflexivity.
Defined.

(** There the group's error leaves the tracer unflushed. *)
Example error_exit_skips_flush :
  let r := main_of (@scheduler_main good_world no_env) "scheduler exited with error" "scheduler stopped cleanly"
             (fun _ => Some (ErrMsg "listen :50051: in use")) fresh_process in
  r.1 = 1 /\ held RTracer r.2 = 1.
Proof. vm_compute. done. Qed.

(** The gateway does not release its Redis client, even on a clean exit. *)
Example gateway_keeps_redis :
  let r := main_of (@api_main good_world no_env) "service exited with error" "api gateway stopped cleanly"
             (fun _ => None) fresh_process in
  r.1 = 0 /\ held RRedis r.2 = 1 /\ held RPool r.2 = 0 /\ held RTracer r.2 = 0.
Proof. vm_compute. done. Qed.

(** ** Tickers *)

Lemma quot3_nonpos z : Z.quot z 3 <= 0 <-> z < 3.
Proof.
  split; intros H.
  - destruct (decide (z < 3)) as [|Hge]; [done|].
    pose proof (Z.quot_le_mono 3 z 3 ltac:(lia) ltac:(lia)) as Hq. change (3 ÷ 3) with 1 in Hq. lia.
  - pose proof (Z.quot_le_mono z 2 3 ltac:(lia) ltac:(lia)) as Hq. change (2 ÷ 3) with 0 in Hq. lia.
Qed.

(** The settings with which an elected replica crashes. *)
Definition crashing (sched : SchedulerConfig) : Prop :=
  -1 <= sc_LeaderTTL sched /\ (sc_Interval sched <= 0 \/ sc_LeaderTTL sched < 3).

Lemma ticker_crash sched :
  can_acquire (sc_LeaderTTL sched)
    && (ticker_panics (Z.quot (sc_LeaderTTL sched) 3) || ticker_panics (sc_Interval sched)) = true
  <-> crashing sched.
Proof.
  unfold can_acquire, ticker_panics, crashing.
  rewrite andb_true_iff, orb_true_iff, !Z.leb_le, quot3_nonpos. tauto.
Qed.

Lemma task_next_panic sched c t ev : task_next sched c t ev = Panic -> crashing sched.
Proof.
  rewrite <- ticker_crash. task_steps t ev E.
  match goal with H : negb _ = false |- _ => apply negb_false_iff in H; rewrite H end. done.
Qed.

Lemma run_panic sched evs g : group_run sched g evs = GPanic -> crashing sched.
Proof.
  revert g. induction evs as [|ev evs IH]; intros g; simpl; [done|].
  destruct (group_next sched g ev) as [| |g'] eqn:E; [done| |apply IH]. intros _.
  destruct ev as [|i e]; simpl in E; [done|]. destruct (g_tasks g !! i) as [t|]; [|done].
  destruct (task_next sched (g_cancelled g) t e) as [| |t'] eqn:En; [done| |by destruct t'].
  by eapply task_next_panic.
Qed.

(** Without an election there is no leader. *)
Lemma never_leads sched c t ev t' :
  can_acquire (sc_LeaderTTL sched) = false -> t <> TElector Leading ->
  task_next sched c t ev = Go t' -> t' <> TElector Leading.
Proof. intros Hca Hne. task_steps t ev E; try done; by rewrite Hca in *. Qed.

Lemma run_never_leads sched ts evs g :
  can_acquire (sc_LeaderTTL sched) = false -> Forall (fun t => t <> TElector Leading) ts ->
  group_run sched (start_group ts) evs = GGo g -> Forall (fun t => t <> TElector Leading) (g_tasks g).
Proof.
  intros Hca Hts. apply (run_inv sched (fun g => Forall (fun t => t <> TElector Leading) (g_tasks g))
    (fun _ => True)); [|done|by apply Forall_true].
  intros g1 ev g2 Hg _ [[_ ->]|(j & e & u & u' & _ & Hj & Hn & _ & -> & _)]%next_inv; [done|].
  apply Forall_insert; [done|]. eapply never_leads; [done| |exact Hn].
  exact (Forall_lookup_1 _ _ _ _ Hg Hj).
Qed.

(** C37: A scheduler can crash in [time.NewTicker], at the moment it wins the
    election, exactly when the lease is one that Redis grants (-1 ns or more) and
    the scheduling interval is not positive or the lease is shorter than three
    nanoseconds.  A lease below -1 ns is refused by Redis, so that the replica
    never leads.  Loading and validation accept such settings
    ([SCHEDULER_INTERVAL=0s], [LEADER_TTL=-5s]); with both variables unset or
    malformed the scheduler cannot crash this way. *)
Theorem scheduler_ticker_panics listen env :
  (forall sched, (exists evs, group_run sched (start_group (scheduler_group listen)) evs = GPanic)
     <-> -1 <= sc_LeaderTTL sched /\ (sc_Interval sched <= 0 \/ sc_LeaderTTL sched < 3))
  /\ (forall sched evs g, sc_LeaderTTL sched < -1 ->
        group_run sched (start_group (scheduler_group listen)) evs = GGo g ->
        TElector Leading ∉ g_tasks g)
  /\ sc_Interval (c_Scheduler (Load "scheduler" (setenv "SCHEDULER_INTERVAL" "0s" env))) = 0
  /\ is_ok (Validate (Load "scheduler" (setenv "SCHEDULER_INTERVAL" "0s" no_env))) = true
  /\ sc_LeaderTTL (c_Scheduler (Load "scheduler" (setenv "LEADER_TTL" "-5s" env))) = -5 * Second
  /\ is_ok (Validate (Load "scheduler" (setenv "LEADER_TTL" "-5s" no_env))) = true
  /\ (effective env "SCHEDULER_INTERVAL" = None -> effective env "LEADER_TTL" = None ->
      forall evs, group_run (c_Scheduler (Load "scheduler" env)) (start_group (scheduler_group listen)) evs
                  <> GPanic).
Proof.
  split_and!.
  - intros sched. split; [intros [evs Hr]; by eapply run_panic|].
    intros Hbad%ticker_crash%andb_true_iff. destruct Hbad as [Hc Ht].
    exists [GTask 2 (EvAcquire true)]. simpl. by rewrite Hc, Ht.
  - intros sched evs g Hneg Hr Hin.
    assert (Forall (fun t => t <> TElector Leading) (g_tasks g)) as Hall.
    { apply (run_never_leads sched (scheduler_group listen) evs g); [|by repeat constructor|exact Hr].
      apply Z.leb_gt. lia. }
    rewrite Forall_forall in Hall. by apply (Hall _ Hin).
  - reflexivity.
  - reflexivity.
  - reflexivity.
  - reflexivity.
  - intros Hi Hl evs Hr. apply run_panic in Hr as [_ Hr].
    assert (c_Scheduler (Load "scheduler" env) = c_Scheduler (Load "scheduler" (effective env))) as E
      by (by rewrite <- load_effective).
    rewrite E in Hr. simpl in Hr. unfold getDuration, get_parsed, LookupEnv in Hr.
    rewrite Hi, Hl in Hr. vm_compute in Hr. destruct Hr as [Hr|Hr]; [by apply Hr|done].
Qed.

Lemma scheduler_ticker_panics_witness :
  group_run (c_Scheduler (Load "scheduler" no_env)) (start_group (scheduler_group ":50051"))
    [GTask 2 (EvAcquire true)] <> GPanic.
Proof.
  exact (proj2 (proj2 (proj2 (proj2 (proj2 (proj2 (scheduler_ticker_panics ":50051" no_env))))))
           eq_refl eq_refl _).
Defined.
