(* ===== verification/Statements.v ===== *)
(** * Everything the program writes to the database

    [stmt] enumerates the SQL statements that change a table, with the
    arguments the program can pass to them.  Whatever the services do, and
    however their statements fail, the tables evolve by these steps; the
    statements of concurrent handlers, passes and replicas interleave freely,
    so an invariant of [stmt] holds without any assumption on atomicity.

    [runs m] says that the computation [m] of some component is a sequence of
    such statements.  The file shows it for every repository method. *)

From S2P Require Import Prelude Float64 Models Store.

#[local] Open Scope string_scope.
#[local] Open Scope list_scope.
#[local] Open Scope Z_scope.

(** ** The statements *)

(** A job as [handleSubmitJob] builds it. *)
Definition submitted (j : Job) : Prop :=
  j_Status j = JobStatusQueued /\ j_RetryCount j = 0 /\ 0 <= j_Priority j <= 10
  /\ req_wf (job_request j) /\ j_UserID j <> "".

(** The statuses that [UpdateStatus], [Requeue] and [SetStatus] are called with. *)
Definition update_statuses : list JobStatus :=
  [JobStatusQueued; JobStatusRunning; JobStatusCompleted; JobStatusFailed; JobStatusCancelled].
Definition requeue_statuses : list JobStatus := [JobStatusQueued; JobStatusPreempted].
Definition admin_statuses : list NodeStatus :=
  [NodeStatusReady; NodeStatusCordoned; NodeStatusDraining].

Section statements.
Context `{PgEnv}.

Inductive stmt (t : Tables) : Tables -> Prop :=
| st_create j : submitted j -> job_ints_ok j = true -> tb_jobs t !! j_JobID j = None ->
    stmt t (set_jobs (<[j_JobID j := new_row j]> (tb_jobs t)) t)
| st_update_status now id st : st ∈ update_statuses ->
    stmt t (set_jobs (alter (sql_update_status now st) id (tb_jobs t)) t)
| st_schedule id nodeID : is_Some (tb_nodes t !! nodeID) ->
    stmt t (set_jobs (alter (sql_schedule nodeID) id (tb_jobs t)) t)
| st_requeue id st r : st ∈ requeue_statuses ->
    tb_jobs t !! id = Some r -> in_int32 (j_RetryCount (row_job r) + 1) ->
    stmt t (set_jobs (alter (sql_requeue st) id (tb_jobs t)) t)
| st_register now n : n_Status n = NodeStatusReady -> node_ints_ok n = true ->
    tb_nodes t !! n_NodeID n = None ->
    stmt t (set_nodes (<[n_NodeID n := sql_register now n]> (tb_nodes t)) t)
| st_reregister now n old : node_ints_ok n = true -> tb_nodes t !! n_NodeID n = Some old ->
    stmt t (set_nodes (<[n_NodeID n := sql_reregister now n old]> (tb_nodes t)) t)
| st_availability id gpu cpu mem : in_int32 gpu -> in_int32 cpu -> in_int32 mem ->
    stmt t (set_nodes (alter (set_available gpu cpu mem) id (tb_nodes t)) t)
| st_heartbeat now id n : tb_nodes t !! id = Some n ->
    stmt t (set_nodes (<[id := sql_heartbeat now n]> (tb_nodes t)) t)
| st_admin id st : st ∈ admin_statuses ->
    stmt t (set_nodes (alter (fun n => set_liveness st (n_LastHeartbeat n) n) id (tb_nodes t)) t)
| st_mark_stale now ttl :
    stmt t (set_nodes ((fun n => if is_stale now ttl n then mark_down n else n) <$> tb_nodes t) t)
| st_event e : tb_events t !! ev_EventID e = None ->
    stmt t (set_events (<[ev_EventID e := event_row e]> (tb_events t)) t).

(** ** Computations as sequences of statements *)

Section runs.
Context {S : Type} (tbl : S -> Tables).

Definition runs {A} (m : M S A) : Prop := forall s, rtc stmt (tbl s) (tbl (m s).2).

Lemma runs_ret {A} (a : A) : runs (mret a).
Proof. intros s. apply rtc_refl. Qed.

Lemma runs_same {A} (m : M S A) : (forall s, tbl (m s).2 = tbl s) -> runs m.
Proof. intros Hm s. rewrite Hm. apply rtc_refl. Qed.

Lemma runs_bind {A B} (m : M S A) (k : A -> M S B) :
  runs m -> (forall a, runs (k a)) -> runs (mbind k m).
Proof.
  intros Hm Hk s. unfold mbind, M_bind. specialize (Hm s). destruct (m s) as [a s1].
  by etrans; [exact Hm|apply Hk].
Qed.

Lemma runs_get_bind {B} (k : S -> M S B) : (forall s, runs (k s)) -> runs (mbind k get).
Proof. intros Hk. apply runs_bind; [by apply runs_same|done]. Qed.

Lemma runs_forM {A} (l : list A) (f : A -> M S unit) : (forall a, a ∈ l -> runs (f a)) -> runs (forM l f).
Proof.
  induction l as [|a l IH]; intros Hf; simpl; [apply runs_ret|]. apply runs_bind.
  - apply Hf. by left.
  - intros _. apply IH. intros a' Ha. apply Hf. by right.
Qed.
End runs.

Lemma runs_zoom {S T A} (tbl : S -> Tables) (tbl' : T -> Tables) gt st (m : M S A) :
  (forall t, tbl' t = tbl (gt t)) -> (forall s t, gt (st s t) = s) ->
  runs tbl m -> runs tbl' (zoom gt st m).
Proof.
  intros Ht Hg Hm t. unfold zoom. specialize (Hm (gt t)). destruct (m (gt t)) as [a s].
  simpl in *. by rewrite !Ht, Hg.
Qed.

(** ** The repositories *)

Lemma runs_exec {A} (body : Time -> Tables -> res A * Tables) :
  (forall now t, (body now t).2 = t \/ stmt t (body now t).2) -> runs db_tables (exec body).
Proof.
  intros Hb db. unfold exec. specialize (Hb (db_clock db (db_stmt db)) (db_tables db)).
  destruct (body _ (db_tables db)) as [r t]. simpl in Hb.
  destruct (db_outcome db (db_stmt db)); simpl; try apply rtc_refl;
    (destruct Hb as [->|Hb]; [apply rtc_refl|by apply rtc_once]).
Qed.

Lemma runs_prefix {A} p (m : M Db (res A)) : runs db_tables m -> runs db_tables (with_prefix p m).
Proof. intros Hm db. unfold with_prefix. specialize (Hm db). by destruct (m db). Qed.

Lemma runs_query {A} (f : Time -> Tables -> res A) : runs db_tables (exec (fun now t => (f now t, t))).
Proof. apply runs_exec. by left. Qed.

Lemma runs_Create j : submitted j -> runs db_tables (job_Create j).
Proof.
  intros Hj. apply runs_prefix, runs_exec. intros _ t.
  destruct (job_ints_ok j) eqn:Ei; simpl; [|by left].
  destruct (tb_jobs t !! j_JobID j) eqn:E; simpl; [by left|]. right. by apply st_create.
Qed.

Lemma runs_job_Get id : runs db_tables (job_Get id).
Proof. apply runs_exec. intros _ t. left. by destruct (tb_jobs t !! id). Qed.

Lemma runs_job_List f : runs db_tables (job_List f).
Proof. apply runs_prefix, runs_query. Qed.

Lemma runs_ListScheduledForNode id : runs db_tables (job_ListScheduledForNode id).
Proof. apply runs_prefix, runs_query. Qed.

Lemma runs_UpdateStatus id st : st ∈ update_statuses -> runs db_tables (job_UpdateStatus id st).
Proof. intros Hst. apply runs_exec. intros now t. right. by apply st_update_status. Qed.

Lemma runs_Schedule id nodeID : runs db_tables (job_Schedule id nodeID).
Proof.
  apply runs_exec. intros _ t. destruct (tb_jobs t !! id) eqn:Ej, (tb_nodes t !! nodeID) eqn:En; simpl.
  1,3: right; apply st_schedule; by rewrite En.
  - by left.
  - left. destruct t as [js ns es]. unfold set_jobs. simpl in *. f_equal.
    apply map_eq. intros k. rewrite lookup_alter. case_decide; [subst; by rewrite Ej|done].
Qed.

Lemma runs_Requeue id st : st ∈ requeue_statuses -> runs db_tables (job_Requeue id st).
Proof.
  intros Hst. apply runs_exec. intros _ t. destruct (tb_jobs t !! id) as [r|] eqn:Ej; simpl; [|by left].
  case_bool_decide; simpl; [|by left]. right. by eapply st_requeue.
Qed.

Lemma runs_CountByStatus st : runs db_tables (job_CountByStatus st).
Proof. apply runs_query. Qed.

Lemma runs_TeamGPUUsage : runs db_tables job_TeamGPUUsage.
Proof. apply runs_query. Qed.

Lemma runs_Upsert n : n_Status n = NodeStatusReady -> runs db_tables (node_Upsert n).
Proof.
  intros Hn. apply runs_exec. intros now t. destruct (node_ints_ok n) eqn:Ei; simpl; [|by left].
  right. destruct (tb_nodes t !! n_NodeID n) eqn:E; [by apply st_reregister|by apply st_register].
Qed.

Lemma runs_node_Get id : runs db_tables (node_Get id).
Proof. apply runs_exec. intros _ t. left. by destruct (tb_nodes t !! id). Qed.

Lemma runs_node_List : runs db_tables node_List.
Proof. apply runs_prefix, runs_query. Qed.

Lemma runs_UpdateAvailability id gpu cpu mem : runs db_tables (node_UpdateAvailability id gpu cpu mem).
Proof.
  apply runs_exec. intros _ t. simpl. repeat case_bool_decide; simpl; try by left.
  right. by apply st_availability.
Qed.

Lemma runs_node_Heartbeat id : runs db_tables (node_Heartbeat id).
Proof.
  apply runs_exec. intros now t. destruct (tb_nodes t !! id) eqn:E; simpl; [|by left].
  right. by apply st_heartbeat.
Qed.

Lemma runs_SetStatus id st : st ∈ admin_statuses -> runs db_tables (node_SetStatus id st).
Proof. intros Hst. apply runs_exec. intros _ t. right. by apply st_admin. Qed.

Lemma runs_MarkStaleDown ttl : runs db_tables (node_MarkStaleDown ttl).
Proof. apply runs_exec. intros now t. right. apply st_mark_stale. Qed.

Lemma runs_event_Record e : runs db_tables (event_Record e).
Proof.
  apply runs_prefix, runs_exec. intros _ t. destruct (tb_events t !! ev_EventID e) eqn:E; simpl; [by left|].
  right. by apply st_event.
Qed.

Lemma runs_event_List limit : runs db_tables (event_List limit).
Proof. apply runs_prefix, runs_query. Qed.
End statements.

Create HintDb runs.
#[export] Hint Resolve runs_ret runs_Create runs_job_Get runs_job_List runs_ListScheduledForNode
  runs_UpdateStatus runs_Schedule runs_Requeue runs_CountByStatus runs_TeamGPUUsage runs_Upsert
  runs_node_Get runs_node_List runs_UpdateAvailability runs_node_Heartbeat runs_SetStatus
  runs_MarkStaleDown runs_event_Record runs_event_List : runs.

(** Splits a computation along its binds and case distinctions. *)
Ltac run_steps_of :=
  repeat match goal with
  | |- forall _, _ => intros ?
  | |- runs _ (mbind _ get) => apply runs_get_bind
  | |- runs _ (mbind _ _) => apply runs_bind
  | |- runs _ (match ?x with _ => _ end) => destruct x eqn:?
  | |- runs _ _ => solve [eauto with runs]
  end.
