(* ===== verification/TableInvariants.v ===== *)
(** * Invariants of the tables

    What holds of the database in every state the program can reach, under
    any interleaving of statements and any failures: rows are stored under
    their keys, columns are in range, foreign keys resolve, and the status of a
    job agrees with its node and its timestamps.  And what never changes once
    it is written. *)

From S2P Require Import Prelude Float64 Models Store Statements.

#[local] Open Scope string_scope.
#[local] Open Scope list_scope.
#[local] Open Scope Z_scope.

(** ** Well-formed tables *)

Definition node_statuses : list NodeStatus :=
  [NodeStatusReady; NodeStatusDraining; NodeStatusCordoned; NodeStatusDown].

(** The columns of a job row. *)
Record job_row_ok (id : string) (r : JobRow) : Prop := {
  jr_key : j_JobID (row_job r) = id;
  jr_status : j_Status (row_job r) ∈ job_statuses;
  jr_priority : 0 <= j_Priority (row_job r) <= 10;
  jr_request : req_wf (job_request (row_job r));
  jr_retries : 0 <= j_RetryCount (row_job r) <= 2147483647;
  jr_owner : j_UserID (row_job r) <> "";
  jr_scheduled : j_Status (row_job r) = JobStatusScheduled -> is_Some (row_node_id r);
  jr_started : j_Status (row_job r) = JobStatusRunning -> is_Some (j_StartedAt (row_job r));
  jr_completed : IsTerminal (j_Status (row_job r)) = true -> is_Some (j_CompletedAt (row_job r))
}.

Record node_row_ok (id : string) (n : Node) : Prop := {
  nr_key : n_NodeID n = id;
  nr_status : n_Status n ∈ node_statuses;
  nr_ints : node_ints_ok n = true
}.

Record tables_ok (t : Tables) : Prop := {
  tok_jobs : map_Forall job_row_ok (tb_jobs t);
  tok_nodes : map_Forall node_row_ok (tb_nodes t);
  tok_events : map_Forall (fun id e => ev_EventID e = id) (tb_events t);
  tok_fk : forall id r n, tb_jobs t !! id = Some r -> row_node_id r = Some n -> is_Some (tb_nodes t !! n)
}.

Definition empty_tables : Tables := mkTables ∅ ∅ ∅.

Lemma empty_ok : tables_ok empty_tables.
Proof. by split; try apply map_Forall_empty. Qed.

Lemma update_statuses_cases st : st ∈ update_statuses ->
  st = JobStatusQueued \/ st = JobStatusRunning \/ IsTerminal st = true.
Proof.
  unfold update_statuses. rewrite !elem_of_cons, elem_of_nil.
  intros [->|[->|[->|[->|[->|[]]]]]]; auto.
Qed.

(** Side conditions on concrete statuses. *)
Ltac status_solve := first [done | by repeat constructor | by eexists].

Section preservation.
Context `{PgEnv}.

Lemma new_row_ok j : submitted j -> job_row_ok (j_JobID j) (new_row j).
Proof. intros (Hs & Hr & Hp & Hq & Ho). split; simpl; rewrite ?Hs, ?Hr; try status_solve; try lia. Qed.

Lemma update_status_ok now st id r :
  st ∈ update_statuses -> job_row_ok id r -> job_row_ok id (sql_update_status now st r).
Proof.
  intros Hst [Hk Hs Hp Hq Hr Ho _ _ Hc]. split; simpl; try done.
  - by apply update_statuses_cases in Hst as [->|[->|[->|[->| ->]]%IsTerminal_iff]]; status_solve.
  - by apply update_statuses_cases in Hst as [->|[->|[->|[->| ->]]%IsTerminal_iff]].
  - intros ->. simpl. case_bool_decide as E; [by eexists|].
    by destruct (j_StartedAt (row_job r)); [eexists|].
  - intros ->. by eexists.
Qed.

Lemma schedule_ok nodeID id r : job_row_ok id r -> job_row_ok id (sql_schedule nodeID r).
Proof. intros [Hk Hs Hp Hq Hr Ho _ _ _]. split; simpl; status_solve. Qed.

Lemma requeue_ok st id r :
  st ∈ requeue_statuses -> in_int32 (j_RetryCount (row_job r) + 1) ->
  job_row_ok id r -> job_row_ok id (sql_requeue st r).
Proof.
  unfold requeue_statuses, in_int32. rewrite !elem_of_cons, elem_of_nil.
  intros Hst Hi [Hk Hs Hp Hq Hr Ho _ _ _].
  split; simpl; try done; try lia; by destruct Hst as [->|[->|[]]]; status_solve.
Qed.

Lemma jobs_alter f id t :
  tables_ok t -> (forall r, tb_jobs t !! id = Some r -> job_row_ok id (f r)) ->
  (forall r n, tb_jobs t !! id = Some r -> row_node_id (f r) = Some n -> is_Some (tb_nodes t !! n)) ->
  tables_ok (set_jobs (alter f id (tb_jobs t)) t).
Proof.
  intros [Hj Hn He Hf] Hr Hfk. split; simpl; try done.
  - intros k r. rewrite lookup_alter. case_decide as E; [subst k|by apply Hj].
    destruct (tb_jobs t !! id) eqn:E; [|done]. intros [= <-]. by apply Hr.
  - intros k r n. rewrite lookup_alter. case_decide as E; [subst k|by apply Hf].
    destruct (tb_jobs t !! id) eqn:E; [|done]. intros [= <-]. by apply Hfk.
Qed.

(** Changes of the node table that keep every key. *)
Lemma nodes_change ns t :
  tables_ok t -> map_Forall node_row_ok ns ->
  (forall id, is_Some (tb_nodes t !! id) -> is_Some (ns !! id)) -> tables_ok (set_nodes ns t).
Proof. intros [Hj Hn He Hf] Hns Hdom. split; simpl; try done. intros id r n Hr Hid. by eapply Hdom, Hf. Qed.

Lemma nodes_alter f id t :
  tables_ok t -> (forall n, node_row_ok id n -> node_row_ok id (f n)) ->
  tables_ok (set_nodes (alter f id (tb_nodes t)) t).
Proof.
  intros Ht Hf. apply nodes_change; [done| |].
  - intros k n. rewrite lookup_alter. case_decide as E; [subst k|by apply (tok_nodes _ Ht)].
    destruct (tb_nodes t !! id) eqn:E; [|done]. intros [= <-]. by apply Hf, (tok_nodes _ Ht).
  - intros k [n Hn]. rewrite lookup_alter. case_decide; [subst k; rewrite Hn|]; by eexists.
Qed.

Lemma nodes_insert id n t :
  tables_ok t -> node_row_ok id n -> tables_ok (set_nodes (<[id := n]> (tb_nodes t)) t).
Proof.
  intros Ht Hn. apply nodes_change; [done|by apply map_Forall_insert_2; [|apply (tok_nodes _ Ht)]|].
  intros k Hk. destruct (decide (k = id)) as [->|]; [rewrite lookup_insert_eq; by eexists|].
  by rewrite lookup_insert_ne.
Qed.

Lemma node_ints_parts n : node_ints_ok n = true <->
  in_int32 (n_GPUCapacity n) /\ in_int32 (n_GPUAvailable n) /\ in_int32 (n_CPUCapacity n)
  /\ in_int32 (n_CPUAvailable n) /\ in_int32 (n_MemoryCapacity n) /\ in_int32 (n_MemoryAvailable n).
Proof.
  unfold node_ints_ok. simpl. rewrite !andb_true_iff, !bool_decide_eq_true. tauto.
Qed.

Lemma liveness_ok st hb id n : st ∈ node_statuses ->
  node_row_ok id n -> node_row_ok id (set_liveness st hb n).
Proof. intros Hst [Hk _ Hi]. by split. Qed.

(** Every statement keeps the tables well formed. *)
Lemma stmt_keeps_ok t t' : stmt t t' -> tables_ok t -> tables_ok t'.
Proof.
  intros Hs Ht. destruct Hs as [j Hj Hints Hfree|now id st Hst|id nodeID Hn|id st r Hst Hr Hi
    |now n Hn Hi Hfree|now n old Hi Hold|id g c m Hg Hc Hm|now id n Hn|id st Hst|now ttl|e Hfree].
  - destruct Ht as [Hjobs Hn He Hf]. split; simpl; try done.
    + by apply map_Forall_insert_2; [apply new_row_ok|].
    + intros id r n. destruct (decide (id = j_JobID j)) as [->|];
        [rewrite lookup_insert_eq; by intros [= <-]|rewrite lookup_insert_ne by done; apply Hf].
  - apply jobs_alter; [done| |].
    + intros r Hr. by apply update_status_ok, (tok_jobs _ Ht).
    + intros r n Hr. apply (tok_fk _ Ht _ _ _ Hr).
  - apply jobs_alter; [done| |].
    + intros r Hr. by apply schedule_ok, (tok_jobs _ Ht).
    + by intros r n Hr [= <-].
  - apply jobs_alter; [done| |done]. intros r' Hr'. rewrite Hr in Hr'. injection Hr' as <-.
    by apply requeue_ok, (tok_jobs _ Ht).
  - apply nodes_insert; [done|]. split; simpl; [done|rewrite Hn; status_solve|done].
  - apply nodes_insert; [done|]. destruct (tok_nodes _ Ht _ _ Hold) as [Hk Hs Hints].
    rewrite node_ints_parts in Hi, Hints. split; simpl; [done|done|].
    rewrite node_ints_parts. simpl. tauto.
  - apply nodes_alter; [done|]. intros n [Hk Hs Hints]. split; simpl; [done|done|].
    rewrite node_ints_parts in *. simpl. tauto.
  - apply nodes_insert; [done|]. apply liveness_ok; [|by apply (tok_nodes _ Ht)].
    destruct (String.eqb _ _); [status_solve|]. by apply (tok_nodes _ Ht _ _ Hn).
  - apply nodes_alter; [done|]. intros n. apply liveness_ok.
    unfold admin_statuses in Hst. rewrite !elem_of_cons, elem_of_nil in Hst.
    by destruct Hst as [->|[->|[->|[]]]]; status_solve.
  - apply nodes_change; [done| |].
    + intros k n. rewrite lookup_fmap. destruct (tb_nodes t !! k) as [n0|] eqn:E; [|done].
      intros [= <-]. pose proof (tok_nodes _ Ht _ _ E). destruct (is_stale now ttl n0); [|done].
      apply liveness_ok; [status_solve|done].
    + intros k [n Hn]. rewrite lookup_fmap, Hn. by eexists.
  - destruct Ht as [Hj Hn He Hf]. split; simpl; try done. by apply map_Forall_insert_2.
Qed.

Lemma stmts_keep_ok t t' : rtc stmt t t' -> tables_ok t -> tables_ok t'.
Proof. induction 1 as [|t t1 t' Hs _ IH]; [done|]. intros Ht. by apply IH, (stmt_keeps_ok t). Qed.
End preservation.

(** ** History

    What a later state of the database keeps of an earlier one. *)

Record job_kept (r r' : JobRow) : Prop := {
  jk_frozen : frozen (row_job r') = frozen (row_job r);
  jk_retries : j_RetryCount (row_job r) <= j_RetryCount (row_job r');
  jk_completed : is_Some (j_CompletedAt (row_job r)) -> is_Some (j_CompletedAt (row_job r'))
}.

Record history (t t' : Tables) : Prop := {
  hi_jobs : forall id r, tb_jobs t !! id = Some r ->
    exists r', tb_jobs t' !! id = Some r' /\ job_kept r r';
  hi_nodes : forall id n, tb_nodes t !! id = Some n ->
    exists n', tb_nodes t' !! id = Some n' /\ n_NodeID n' = n_NodeID n /\ n_RegisteredAt n' = n_RegisteredAt n;
  hi_events : tb_events t ⊆ tb_events t'
}.

#[global] Instance job_kept_preorder : PreOrder job_kept.
Proof.
  split; [by split|]. intros r1 r2 r3 [F R C] [F' R' C']. split; [congruence|lia|auto].
Qed.

#[global] Instance history_preorder : PreOrder history.
Proof.
  split.
  - intros t. split; [|by eauto|done]. intros id r Hr. by exists r.
  - intros t1 t2 t3 [J N E] [J' N' E']. split.
    + intros id r Hr. destruct (J _ _ Hr) as (r2 & Hr2 & K). destruct (J' _ _ Hr2) as (r3 & Hr3 & K').
      exists r3. split; [done|by etrans].
    + intros id n Hn. destruct (N _ _ Hn) as (n2 & Hn2 & ? & ?).
      destruct (N' _ _ Hn2) as (n3 & Hn3 & ? & ?). exists n3. split_and!; [done|congruence..].
    + by transitivity (tb_events t2).
Qed.

Section histories.
Context `{PgEnv}.

Lemma history_alter_job f id t :
  (forall r, tb_jobs t !! id = Some r -> job_kept r (f r)) ->
  history t (set_jobs (alter f id (tb_jobs t)) t).
Proof.
  intros Hf. split; simpl; [|by eauto|done]. intros k r Hr. rewrite lookup_alter.
  case_decide; [|by exists r]. subst k. rewrite Hr. simpl. eauto.
Qed.

Lemma history_nodes ns t :
  (forall id n, tb_nodes t !! id = Some n ->
     exists n', ns !! id = Some n' /\ n_NodeID n' = n_NodeID n /\ n_RegisteredAt n' = n_RegisteredAt n) ->
  history t (set_nodes ns t).
Proof. intros Hn. split; simpl; [|done|done]. intros id r Hr. by exists r. Qed.

Lemma history_insert_node id n n' t :
  tb_nodes t !! id = Some n -> n_NodeID n' = n_NodeID n -> n_RegisteredAt n' = n_RegisteredAt n ->
  history t (set_nodes (<[id := n']> (tb_nodes t)) t).
Proof.
  intros Hn Hk Hr. apply history_nodes. intros k m Hm.
  destruct (decide (k = id)) as [->|]; [rewrite lookup_insert_eq|rewrite lookup_insert_ne by done; by eauto].
  exists n'. naive_solver.
Qed.

Lemma history_alter_node f id t :
  (forall n, n_NodeID (f n) = n_NodeID n /\ n_RegisteredAt (f n) = n_RegisteredAt n) ->
  history t (set_nodes (alter f id (tb_nodes t)) t).
Proof.
  intros Hf. apply history_nodes. intros k n Hn. rewrite lookup_alter.
  case_decide; [|by eauto]. subst k. rewrite Hn. exists (f n). by destruct (Hf n).
Qed.

(** Every statement extends the history. *)
Lemma stmt_history t t' : stmt t t' -> history t t'.
Proof.
  intros Hs. destruct Hs as [j Hj Hints Hfree|now id st Hst|id nodeID Hn|id st r Hst Hr Hi
    |now n Hn Hi Hfree|now n old Hi Hold|id g c m Hg Hc Hm|now id n Hn|id st Hst|now ttl|e Hfree].
  - split; simpl; [|by eauto|done]. intros id r Hr.
    rewrite lookup_insert_ne by congruence. by exists r.
  - apply history_alter_job. intros r _. split; [done|simpl; lia|]. simpl.
    intros Hc. by destruct (IsTerminal st).
  - apply history_alter_job. intros r _. split; [done|simpl; lia|done].
  - apply history_alter_job. intros r' _. split; [done|simpl; lia|done].
  - apply history_nodes. intros k m Hm. rewrite lookup_insert_ne by congruence. by eauto.
  - by apply (history_insert_node _ old).
  - by apply history_alter_node.
  - by apply (history_insert_node _ n).
  - by apply history_alter_node.
  - apply history_nodes. intros k n Hn. rewrite lookup_fmap, Hn. simpl.
    destruct (is_stale now ttl n); by eauto.
  - split; simpl; [intros id r Hr; by exists r|by eauto|]. by apply insert_subseteq.
Qed.

Lemma stmts_history t t' : rtc stmt t t' -> history t t'.
Proof. induction 1 as [|t t1 t' Hs _ IH]; [done|]. etrans; [by apply stmt_history|done]. Qed.
End histories.
