(* ===== verification/System.v ===== *)
(** * The whole system on one database

    The scheduler, the node service, the gateway and the metrics service share
    the tables and nothing else.  [sys_step] is one operation of any of them,
    with any request, any local state, any failure of the database; a
    scheduling pass, the only long operation, is interleaved with arbitrary
    statements of the other clients ([Shared]).

    Every operation refines a sequence of the statements of [Statements], so
    the invariants of [TableInvariants] hold in every reachable state. *)

From S2P Require Import Prelude Float64 Models Config Algorithms Preemption Fragmentation Store Interfaces Engine GoStd Redis NodeServer RateLimit Api Services Statements TableInvariants.
From S2P Require Import Scenarios EngineLogic EngineFrame Ledger StoreTheorems NodeServerTheorems ApiTheorems.

#[local] Open Scope string_scope.
#[local] Open Scope list_scope.
#[local] Open Scope Z_scope.

(** ** A store whose tables other clients use too *)

Section shared.
Context `{PgEnv}.

(** [sh_others k] is what the other clients do before the [k]-th statement. *)
Record Shared := mkShared {
  sh_db : Db;
  sh_turn : nat;
  sh_others : nat -> Tables -> Tables;
  sh_polite : forall k t, rtc stmt t (sh_others k t)
}.

Definition shared_tables (s : Shared) : Tables := db_tables (sh_db s).

Definition set_tables (t : Tables) (db : Db) : Db := mkDb t (db_stmt db) (db_clock db) (db_outcome db).

(** A repository method is one statement; the others come first. *)
Definition shared {A} (m : M Db A) : M Shared A := fun s =>
  let '(a, db) := m (set_tables (sh_others s (sh_turn s) (shared_tables s)) (sh_db s)) in
  (a, mkShared db (S (sh_turn s)) (sh_others s) (sh_polite s)).

#[export] Instance Shared_JobStore : JobStore Shared := {|
  ListByStatuses sts := shared (job_ListByStatuses sts);
  Schedule id n := shared (job_Schedule id n);
  Requeue id st := shared (job_Requeue id st);
  UpdateStatus id st := shared (job_UpdateStatus id st);
  TeamGPUUsage := shared job_TeamGPUUsage;
  CountByStatus st := shared (job_CountByStatus st)
|}.

#[export] Instance Shared_NodeStore : NodeStore Shared := {|
  ListNodes := shared node_List;
  UpdateAvailability id g c m := shared (node_UpdateAvailability id g c m);
  MarkStaleDown ttl := shared (node_MarkStaleDown ttl)
|}.

#[export] Instance Shared_EventStore : EventStore Shared := {| RecordEvent e := shared (event_Record e) |}.

Lemma runs_shared {A} (m : M Db A) : runs db_tables m -> runs shared_tables (shared m).
Proof.
  intros Hm s. unfold shared, shared_tables.
  specialize (Hm (set_tables (sh_others s (sh_turn s) (db_tables (sh_db s))) (sh_db s))).
  destruct (m _) as [a db]. simpl in *. etrans; [apply sh_polite|exact Hm].
Qed.
End shared.

(** ** The engine issues only statements *)

(** The store methods of the engine, as statements. *)
Class RunsStore `{PgEnv} {St} (tbl : St -> Tables) `{JobStore St, NodeStore St, EventStore St} : Prop := {
  rs_list sts : runs tbl (ListByStatuses sts);
  rs_schedule id n : runs tbl (Schedule id n);
  rs_requeue id st : st ∈ requeue_statuses -> runs tbl (Requeue id st);
  rs_update id st : st ∈ update_statuses -> runs tbl (UpdateStatus id st);
  rs_usage : runs tbl TeamGPUUsage;
  rs_nodes : runs tbl ListNodes;
  rs_avail id g c m : runs tbl (UpdateAvailability id g c m);
  rs_stale ttl : runs tbl (MarkStaleDown ttl);
  rs_event e : runs tbl (RecordEvent e)
}.

#[export] Instance Db_runs `{PgEnv} : RunsStore db_tables.
Proof. split; intros; simpl; unfold job_ListByStatuses; eauto with runs. Qed.

#[export] Instance Shared_runs `{PgEnv} : RunsStore shared_tables.
Proof. split; intros; simpl; apply runs_shared; unfold job_ListByStatuses; eauto with runs. Qed.

#[export] Hint Resolve rs_list rs_schedule rs_requeue rs_update rs_usage rs_nodes rs_avail rs_stale
  rs_event : runs.

Section engine_runs.
Context `{PgEnv} `{GoArch} {St : Type} (tbl : St -> Tables) `{RunsStore St tbl}.
Context (alg : Algorithm) (cfg : SchedulerConfig).

Definition env_tables (e : Env St) : Tables := tbl (env_store e).
Definition tick_tables (t : TickState St) : Tables := env_tables (ts_env t).

Lemma runs_on_store {A} (m : M St A) : runs tbl m -> runs env_tables (on_store m).
Proof. by apply runs_zoom. Qed.

Lemma runs_on_env {A} (m : M (Env St) A) : runs env_tables m -> runs tick_tables (on_env m).
Proof. by apply runs_zoom. Qed.

Lemma runs_time_Now : runs env_tables time_Now.
Proof. by apply runs_same. Qed.
Lemma runs_new_uuid : runs env_tables new_uuid.
Proof. by apply runs_same. Qed.
Lemma runs_emit ops : runs env_tables (emit ops).
Proof. by apply runs_same. Qed.
Lemma runs_on_node_at f i : runs tick_tables (on_node_at f i).
Proof. by apply runs_same. Qed.
Lemma runs_set_running f : runs tick_tables
  (modify (fun t => mkTick (ts_env t) (ts_nodes t) (f (ts_running t)))).
Proof. by apply runs_same. Qed.

#[local] Hint Resolve runs_on_store runs_on_env runs_time_Now runs_new_uuid runs_emit runs_on_node_at
  runs_set_running : runs.

Lemma runs_recordEvent job nodeID reason ok start :
  runs env_tables (recordEvent alg job nodeID reason ok start).
Proof. unfold recordEvent. run_steps_of. Qed.
#[local] Hint Resolve runs_recordEvent : runs.

Lemma runs_commitPlacement job i reason start : runs tick_tables (commitPlacement alg job i reason start).
Proof. unfold commitPlacement. run_steps_of. Qed.

Lemma runs_evict i v : runs tick_tables (evict i v).
Proof.
  unfold evict. run_steps_of; apply runs_on_env, runs_on_store; [apply rs_requeue|apply rs_update];
    by repeat constructor.
Qed.

Lemma runs_applyPreemption plan : runs tick_tables (applyPreemption plan).
Proof.
  unfold applyPreemption. apply runs_bind; [apply runs_forM; intros v _; apply runs_evict|].
  run_steps_of.
Qed.

Lemma runs_leave_queued job reason start : runs tick_tables (leave_queued alg job reason start).
Proof. unfold leave_queued. run_steps_of. Qed.
#[local] Hint Resolve runs_commitPlacement runs_applyPreemption runs_leave_queued : runs.

Lemma runs_placeOne job now : runs tick_tables (placeOne alg cfg job now).
Proof. unfold placeOne. run_steps_of. Qed.

Lemma runs_reconcile_job dead job : runs env_tables (reconcile_job dead job).
Proof.
  unfold reconcile_job. run_steps_of; apply runs_on_store; [apply rs_update|apply rs_requeue];
    by repeat constructor.
Qed.

Lemma runs_reconcileDeadNodes : runs env_tables (reconcileDeadNodes cfg).
Proof. unfold reconcileDeadNodes. run_steps_of. apply runs_forM. intros j _. apply runs_reconcile_job. Qed.

Lemma runs_place_all ordered now nodes running : runs env_tables (place_all alg cfg ordered now nodes running).
Proof.
  intros e. unfold place_all.
  pose proof (runs_forM tick_tables ordered (fun job => placeOne alg cfg job now)
    (fun job _ => runs_placeOne job now) (mkTick e nodes running)) as Hr.
  destruct (forM _ _ _) as [u t]. exact Hr.
Qed.

Lemma runs_teamShares nodes : runs env_tables (teamShares nodes).
Proof. unfold teamShares. run_steps_of. Qed.
#[local] Hint Resolve runs_reconcileDeadNodes runs_place_all runs_teamShares : runs.

Lemma runs_Tick : runs env_tables (Tick alg cfg).
Proof. unfold Tick, publishGauges. run_steps_of. Qed.
End engine_runs.

(** ** The services issue only statements *)

Section service_runs.
Context `{PgEnv} {R : Type} `{RedisLists R}.

Definition srv_tables (s : NodeServer R) : Tables := db_tables (ns_db s).

Lemma runs_on_db {A} (m : M Db A) : runs db_tables m -> runs srv_tables (on_db m).
Proof. by apply runs_zoom. Qed.
Lemma runs_srv_emit ops : runs srv_tables (srv_emit ops).
Proof. by apply runs_same. Qed.
#[local] Hint Resolve runs_on_db runs_srv_emit : runs.

Lemma runs_release_to_node job : runs db_tables (release_to_node job).
Proof. unfold release_to_node. run_steps_of. Qed.
#[local] Hint Resolve runs_release_to_node : runs.

Lemma runs_releaseAndFinalize job st : st ∈ update_statuses -> runs db_tables (releaseAndFinalize job st).
Proof. intros Hst. unfold releaseAndFinalize. run_steps_of. Qed.

Lemma runs_Register req : runs srv_tables (Register req).
Proof. unfold Register. run_steps_of. by apply runs_on_db, runs_prefix, runs_Upsert. Qed.

Lemma runs_Heartbeat id : runs srv_tables (Heartbeat id).
Proof. unfold Heartbeat. run_steps_of. Qed.

Lemma runs_GetAssignments id : runs srv_tables (GetAssignments id).
Proof. unfold GetAssignments. run_steps_of. Qed.

Lemma finish_statuses st :
  String.eqb st JobStatusCompleted || String.eqb st JobStatusFailed = true -> st ∈ update_statuses.
Proof. intros [->%String.eqb_eq| ->%String.eqb_eq]%orb_true_iff; by repeat constructor. Qed.

Lemma runs_UpdateJobStatus req : runs srv_tables (UpdateJobStatus req).
Proof.
  unfold UpdateJobStatus. run_steps_of.
  - apply runs_on_db, runs_UpdateStatus. by repeat constructor.
  - by apply runs_on_db, runs_releaseAndFinalize, finish_statuses.
Qed.

Lemma runs_StreamLogs lines fin : runs srv_tables (StreamLogs lines fin).
Proof.
  unfold StreamLogs. run_steps_of. apply runs_forM. intros l _. apply runs_same. intros s.
  unfold cache_line, srv_tables. destruct (ns_redis s); [|done]. by destruct (pipe_Exec _ _).
Qed.

(** The gateway. *)

Definition api_tbl (s : ApiState R) : Tables := db_tables (api_db s).

Lemma runs_with_db {A} (m : M Db A) : runs db_tables m -> runs api_tbl (with_db m).
Proof. by apply runs_zoom. Qed.
Lemma runs_api_now : runs api_tbl api_now.
Proof. by apply runs_same. Qed.
Lemma runs_api_uuid : runs api_tbl api_new_uuid.
Proof. by apply runs_same. Qed.
Lemma runs_api_emit ops : runs api_tbl (api_emit ops).
Proof. by apply runs_same. Qed.
Lemma runs_reply code b : runs api_tbl (reply code b).
Proof. apply runs_ret. Qed.
#[local] Hint Resolve runs_with_db runs_api_now runs_api_uuid runs_api_emit runs_reply : runs.

Context (cfg : Config) (jwt : JwtLib).

Lemma new_job_submitted id now req :
  validateSubmit req = Ok tt -> job_ints_ok (new_job cfg id now req) = true ->
  submitted (new_job cfg id now req).
Proof.
  intros (Hu & Hg & Hc & Hm & _)%validateSubmit_ok. unfold job_ints_ok. simpl.
  rewrite !andb_true_iff, !bool_decide_eq_true. unfold in_int32. intros Hi.
  split_and!; try done; simpl; try apply (clamp_range _ 0 10); unfold req_wf, amount_wf; simpl; lia.
Qed.

Lemma runs_create_new id now req :
  validateSubmit req = Ok tt -> runs db_tables (job_Create (new_job cfg id now req)).
Proof.
  intros Hv. destruct (job_ints_ok (new_job cfg id now req)) eqn:Hi;
    [by apply runs_Create, new_job_submitted|].
  apply runs_prefix, runs_exec. intros _ t. left. by rewrite Hi.
Qed.

Lemma runs_handleSubmitJob body : runs api_tbl (handleSubmitJob cfg body).
Proof.
  unfold handleSubmitJob. destruct body as [req|e]; [|apply runs_reply].
  destruct (validateSubmit req) as [[]|e] eqn:Hv; [|apply runs_reply].
  run_steps_of. by apply runs_with_db, runs_create_new.
Qed.

Lemma runs_handleCancelJob id : runs api_tbl (handleCancelJob id).
Proof.
  unfold handleCancelJob. run_steps_of. apply runs_with_db, runs_UpdateStatus. by repeat constructor.
Qed.

Lemma runs_handleJobLogs id limit : runs api_tbl (handleJobLogs id limit).
Proof.
  apply runs_same. intros s. unfold handleJobLogs. by destruct (FetchLogs _ _ _) as [[] ?].
Qed.

Lemma runs_setNodeStatus id st : st ∈ admin_statuses -> runs api_tbl (setNodeStatus id st).
Proof. intros Hst. unfold setNodeStatus. run_steps_of. Qed.

Lemma runs_count_or_zero st : runs api_tbl (count_or_zero st).
Proof. unfold count_or_zero. run_steps_of. Qed.
#[local] Hint Resolve runs_handleSubmitJob runs_handleCancelJob runs_handleJobLogs runs_setNodeStatus
  runs_count_or_zero : runs.

Lemma runs_handle route : runs api_tbl (handle cfg route).
Proof.
  destruct route; simpl; try (eauto with runs; fail);
    unfold handleHealth, handleReady, handleListJobs, handleGetJob, handleListNodes, handleUtilization,
      handleEvents; try (run_steps_of; fail).
  - run_steps_of. apply runs_with_db, runs_query.
  - apply runs_setNodeStatus. by repeat constructor.
  - apply runs_setNodeStatus. by repeat constructor.
  - apply runs_setNodeStatus. by repeat constructor.
Qed.

Lemma runs_rate_limit ip : runs api_tbl (rate_limit ip).
Proof. apply runs_same. intros s. unfold api_tbl. by rewrite rate_limit_db. Qed.
#[local] Hint Resolve runs_handle runs_rate_limit : runs.

Lemma runs_serve req : runs api_tbl (serve cfg jwt req).
Proof. unfold serve. run_steps_of. Qed.

(** The metrics service. *)

Lemma runs_count st : runs db_tables (count st).
Proof. unfold count. run_steps_of. Qed.
#[local] Hint Resolve runs_count : runs.

Lemma runs_status_gauges sts : runs db_tables (status_gauges sts).
Proof. induction sts as [|st sts IH]; simpl; run_steps_of. Qed.
#[local] Hint Resolve runs_status_gauges : runs.

Lemma runs_sample : runs db_tables sample.
Proof. unfold sample, updateRuntime. run_steps_of. Qed.
End service_runs.

(** ** One operation of the system *)

Section system.
Context `{PgEnv} `{GoArch} {R : Type} `{RedisLists R}.
Context (alg : Algorithm) (cfg : Config) (jwt : JwtLib).

(** The state is the tables; what an operation finds besides them (clocks,
    identifiers, limiter, Redis, outcomes of statements) is arbitrary. *)
Inductive sys_step : Tables -> Tables -> Prop :=
| sys_pass (e : Env Shared) :
    sys_step (env_tables shared_tables e) (env_tables shared_tables (Tick alg (c_Scheduler cfg) e).2)
| sys_register (s : NodeServer R) req : sys_step (srv_tables s) (srv_tables (Register req s).2)
| sys_heartbeat (s : NodeServer R) id : sys_step (srv_tables s) (srv_tables (Heartbeat id s).2)
| sys_assignments (s : NodeServer R) id : sys_step (srv_tables s) (srv_tables (GetAssignments id s).2)
| sys_report (s : NodeServer R) req : sys_step (srv_tables s) (srv_tables (UpdateJobStatus req s).2)
| sys_logs (s : NodeServer R) lines fin : sys_step (srv_tables s) (srv_tables (StreamLogs lines fin s).2)
| sys_request (s : ApiState R) req : sys_step (api_tbl s) (api_tbl (serve cfg jwt req s).2)
| sys_sample (db : Db) : sys_step (db_tables db) (db_tables (sample db).2).

Lemma sys_step_stmts t t' : sys_step t t' -> rtc stmt t t'.
Proof.
  intros Hs. destruct Hs as [e|s req|s id|s id|s req|s lines fin|s req|db].
  - apply (runs_Tick shared_tables alg (c_Scheduler cfg)).
  - apply runs_Register.
  - apply runs_Heartbeat.
  - apply runs_GetAssignments.
  - apply runs_UpdateJobStatus.
  - apply runs_StreamLogs.
  - apply runs_serve.
  - apply runs_sample.
Qed.

Lemma sys_steps_stmts t t' : rtc sys_step t t' -> rtc stmt t t'.
Proof.
  induction 1 as [|t t1 t' Hs _ IH]; [apply rtc_refl|].
  etrans; [by apply sys_step_stmts|exact IH].
Qed.

(** C12: Refinement to statements: each operation of the scheduler, the node
    service, the gateway and the metrics service, with any request, any failed
    or unacknowledged statements, and with a scheduling pass interleaved with
    whatever other clients write, changes the tables only by a sequence of the
    eleven statements of [stmt]. *)
Theorem system_refines_statements t t' : sys_step t t' -> rtc stmt t t'.
Proof. apply sys_step_stmts. Qed.

(** C13: The database is well typed in every reachable state: starting from the
    empty schema, after any operations of all services, rows are stored under
    their keys, columns are in range and statuses are among the declared ones,
    every job's node exists, a scheduled job has a node, a running job has a
    start and a finished job has an end. *)
Theorem system_tables_ok t : rtc sys_step empty_tables t -> tables_ok t.
Proof. intros Hs. eapply stmts_keep_ok; [by apply sys_steps_stmts|apply empty_ok]. Qed.

(** C14: Nothing is forgotten: whatever the services do, a job keeps its
    identity, owner, request and priority, its retry count does not decrease
    and its end is not erased; a node is not removed and keeps its registration
    time; a recorded scheduling event is never changed. *)
Theorem system_history t t' : rtc sys_step t t' -> history t t'.
Proof. intros Hs. by apply stmts_history, sys_steps_stmts. Qed.
End system.

(** ** Witnesses *)

Definition gateway_config : Config := sample_config false.

(** A node registers, a job is submitted, a pass runs. *)
Definition first_register : NodeServer (gmap string (list string * option Time)) := server_of empty_tables.

Definition registered_tables : Tables :=
  srv_tables (Register (mkRegister "n1" "n1" (Some (mkRes 8 64 512)) "A100" f64_zero false ∅)
                first_register).2.

Definition submit_request : Request :=
  mkRequest false (Some (RSubmit (Ok good_submit))) "10.0.0.1" "".

Lemma system_refines_statements_witness :
  rtc stmt empty_tables registered_tables.
Proof.
  apply (system_refines_statements BestFit gateway_config (jwt_hmac_only (fun _ => false))
    empty_tables registered_tables).
  exact (sys_register _ _ _ first_register
    (mkRegister "n1" "n1" (Some (mkRes 8 64 512)) "A100" f64_zero false ∅)).
Defined.

Definition submitted_tables : Tables :=
  api_tbl (serve gateway_config (jwt_hmac_only (fun _ => false)) submit_request
             (api_of registered_tables)).2.

Lemma system_tables_ok_witness : tables_ok submitted_tables.
Proof.
  apply (system_tables_ok (R := gmap string (list string * option Time)) BestFit gateway_config
    (jwt_hmac_only (fun _ => false))).
  eapply rtc_l; [exact (sys_register _ _ _ first_register
    (mkRegister "n1" "n1" (Some (mkRes 8 64 512)) "A100" f64_zero false ∅))|].
  apply rtc_once. exact (sys_request _ _ _ (api_of registered_tables) submit_request).
Defined.

Lemma system_history_witness : history registered_tables submitted_tables.
Proof.
  apply (system_history (R := gmap string (list string * option Time)) BestFit gateway_config
    (jwt_hmac_only (fun _ => false))).
  apply rtc_once. exact (sys_request _ _ _ (api_of registered_tables) submit_request).
Defined.
