(* ===== verification/SystemBooks.v ===== *)
(** * Resource accounting of the whole system

    The operations of all services, one at a time, on a database that carries
    out its statements, with well-behaved nodes: a node announces itself under
    a non-empty identifier and never with less hardware than before, and
    reports on a job while the job is active, or on its end when the job has
    no node any more.  Clients of the gateway may send anything.  Then no node
    is ever given more than it has. *)

From S2P Require Import Prelude Float64 Models Config Algorithms Preemption Fragmentation Store Interfaces Engine Scenarios EngineLogic EngineFrame Ledger EngineBooks EngineRefinement EngineSafety EngineTick EngineTheorems StoreTheorems GoStd Redis NodeServer NodeServerTheorems RateLimit Api ApiTheorems Services Statements TableInvariants System.

#[local] Open Scope string_scope.
#[local] Open Scope list_scope.
#[local] Open Scope Z_scope.

(** ** The invariant *)

Section books.
Context `{PgEnv}.

Definition tables_books (t : Tables) : Prop :=
  base_ok (a_jobs (view_tables t)) (a_nodes (view_tables t))
  /\ accounted (a_jobs (view_tables t)) (a_nodes (view_tables t)).

Definition booked (db : Db) : Prop := db_healthy db /\ tables_books (db_tables db).

(** ** Statements that keep the books *)

Lemma booked_exec {A} (body : Time -> Tables -> res A * Tables) (Q : res A -> Tables -> Prop) :
  (forall now t, tables_books t -> tables_books (body now t).2 /\ Q (body now t).1 (body now t).2) ->
  hoare booked (exec body) (fun r db => booked db /\ Q r (db_tables db)).
Proof.
  intros Hb db [Hh Ht]. rewrite exec_healthy by done.
  destruct (Hb (db_clock db (db_stmt db)) _ Ht) as [Ht' HQ]. split; [by split|done].
Qed.

Lemma booked_keep {A} (body : Time -> Tables -> res A * Tables) :
  (forall now t, tables_books t -> tables_books (body now t).2) ->
  hoare booked (exec body) (fun _ => booked).
Proof.
  intros Hb. eapply hoare_conseq; [apply (booked_exec body (fun _ _ => True))|done|by intros ? ? []].
  by auto.
Qed.

Lemma booked_prefix {A} p (m : M Db (res A)) :
  hoare booked m (fun _ => booked) -> hoare booked (with_prefix p m) (fun _ => booked).
Proof. intros Hm db Hdb. unfold with_prefix. specialize (Hm db Hdb). by destruct (m db). Qed.

Lemma booked_query {A} (f : Time -> Tables -> res A) :
  hoare booked (exec (fun now t => (f now t, t))) (fun _ => booked).
Proof. by apply booked_keep. Qed.

Lemma booked_job_Get id :
  hoare booked (job_Get id)
    (fun r db => booked db /\ forall j, r = Ok j -> a_jobs (db_view db) !! id = Some j).
Proof.
  apply (booked_exec _ (fun r t => forall j, r = Ok j -> a_jobs (view_tables t) !! id = Some j)).
  intros _ t Ht. destruct (tb_jobs t !! id) as [r|] eqn:E; simpl; split; try done.
  intros j [= <-]. by apply view_lookup.
Qed.

Lemma booked_node_Get id : hoare booked (node_Get id) (fun _ => booked).
Proof. apply booked_keep. intros _ t Ht. by destruct (tb_nodes t !! id). Qed.

(** A node whose offer grows no more than its capacity. *)
Lemma books_insert_node id n n' js ns :
  base_ok js ns -> accounted js ns -> ns !! id = Some n ->
  n_NodeID n' = id -> node_wf n' ->
  (forall d, offered d n' - offered d n <= capacity d n' - capacity d n) ->
  base_ok js (<[id := n']> ns) /\ accounted js (<[id := n']> ns).
Proof.
  intros [Hj Hb] Ha Hn Hk Hw Hd. destruct (Hb _ _ Hn) as [Hid _]. split.
  - split; [done|]. by apply map_Forall_insert_2.
  - apply map_Forall_insert_2; [|done]. intros d. specialize (Ha _ _ Hn d). specialize (Hd d).
    rewrite Hk. rewrite Hid in Ha. lia.
Qed.

Lemma books_liveness id st hb n t :
  tables_books t -> tb_nodes t !! id = Some n ->
  tables_books (set_nodes (<[id := set_liveness st hb n]> (tb_nodes t)) t).
Proof.
  intros [Hb Ha] Hn. destruct (proj2 Hb _ _ Hn) as [Hid Hw].
  apply (books_insert_node id n); try done. intros d. by destruct d; simpl; lia.
Qed.

Lemma booked_Heartbeat id : hoare booked (node_Heartbeat id) (fun _ => booked).
Proof.
  apply booked_keep. intros now t Ht. destruct (tb_nodes t !! id) as [n|] eqn:E; simpl; [|done].
  by apply books_liveness.
Qed.

Lemma booked_SetStatus id st : hoare booked (node_SetStatus id st) (fun _ => booked).
Proof.
  apply booked_keep. intros _ t Ht. simpl. destruct (tb_nodes t !! id) as [n|] eqn:E.
  - replace (alter _ id (tb_nodes t)) with (<[id := set_liveness st (n_LastHeartbeat n) n]> (tb_nodes t));
      [by apply books_liveness|].
    apply map_eq. intros k. rewrite lookup_alter, lookup_insert. case_decide; [|done]. subst. by rewrite E.
  - by rewrite alter_absent; [destruct t|].
Qed.

(** *** Jobs *)

(** Storing an idle job. *)
Lemma booked_Create j :
  job_ints_ok j = true -> req_wf (job_request j) -> IsActive (j_Status j) = false ->
  hoare booked (job_Create j) (fun _ => booked).
Proof.
  intros Hi Hr Hidle. apply booked_prefix, booked_keep. intros _ t [[Hj Hn] Ha]. rewrite Hi. simpl.
  destruct (tb_jobs t !! j_JobID j) eqn:E; simpl; [done|].
  unfold tables_books, view_tables. simpl. rewrite fmap_insert. split.
  - split; [|done]. apply map_Forall_insert_2; [|done]. split; [done|]. split; [done|].
    unfold job_ints_ok in Hi. simpl in Hi. apply andb_true_iff in Hi as [Hi _].
    by apply bool_decide_eq_true in Hi.
  - intros k n Hk d. specialize (Ha _ _ Hk d). unfold load in *.
    rewrite msum_insert_fresh by (by rewrite lookup_fmap, E). rewrite weight_idle by done. simpl in *. lia.
Qed.

Lemma sql_update_view now st id t :
  view_tables (set_jobs (alter (sql_update_status now st) id (tb_jobs t)) t)
  = on_job (moved_to now st) id (view_tables t).
Proof. by apply view_alter. Qed.

Lemma base_ok_moved now st id js ns : base_ok js ns -> base_ok (alter (moved_to now st) id js) ns.
Proof.
  intros [Hj Hn]. split; [|done]. intros k j. rewrite lookup_alter. case_decide as E; [|apply Hj].
  subst k. destruct (js !! id) as [j0|] eqn:E; [|done]. intros [= <-]. by apply (Hj id j0).
Qed.

(** A status change that cannot add load. *)
Lemma booked_UpdateStatus id st :
  hoare (fun db => booked db /\ (IsActive st = true ->
           forall j, a_jobs (db_view db) !! id = Some j -> IsActive (j_Status j) = true))
    (job_UpdateStatus id st) (fun _ => booked).
Proof.
  intros db [[Hh [Hb Ha]] Hact]. unfold job_UpdateStatus. rewrite exec_healthy by done.
  split; [done|]. simpl. unfold tables_books. rewrite sql_update_view.
  set (now := db_clock db _). split; [by apply base_ok_moved|].
  unfold db_view in *. destruct (a_jobs (view_tables (db_tables db)) !! id) as [j|] eqn:Ej.
  - eapply accounted_le; [|exact Ha]. intros d k.
    unfold on_job. cbn [a_jobs]. rewrite (load_alter _ _ _ _ _ _ Ej).
    pose proof (weight_nonneg d k j (proj1 (proj2 (proj1 Hb _ _ Ej)))) as Hw.
    destruct (IsActive st) eqn:Es.
    + specialize (Hact eq_refl j eq_refl).
      assert (weight d k (moved_to now st j) = weight d k j) as ->; [|lia].
      unfold weight, job_on. change (j_Status (moved_to now st j)) with st.
      change (j_NodeID (moved_to now st j)) with (j_NodeID j). by rewrite Es, Hact.
    + rewrite (weight_idle d k (moved_to now st j)) by exact Es. lia.
  - unfold on_job. cbn [a_jobs a_nodes]. by rewrite alter_absent.
Qed.

(** Finishing a job: its request goes back to its node if it is active. *)
Lemma booked_finalize j st :
  IsActive st = false -> (IsActive (j_Status j) = true \/ j_NodeID j = "") ->
  hoare (fun db => booked db /\ a_jobs (db_view db) !! j_JobID j = Some j)
    (releaseAndFinalize j st) (fun _ => booked).
Proof.
  intros Hst Hj db [[Hh [Hb Ha]] Hrow].
  destruct (decide (j_NodeID j = "")) as [En|Hne].
  { unfold releaseAndFinalize. rewrite En. simpl. apply booked_UpdateStatus. split; [by split|].
    by rewrite Hst. }
  destruct Hj as [Hact|]; [|done].
  assert (map_Forall (fun _ n => node_wf n) (tb_nodes (db_tables db))) as Hw.
  { intros k m Hm. by destruct (proj2 Hb _ _ Hm). }
  destruct (proj1 Hb _ _ Hrow) as [_ [Hreq _]].
  destruct (finalize_effect j st db Hh Hw Hreq Hne) as (_ & Hh' & now & Ht).
  split; [done|]. unfold tables_books. rewrite Ht, view_finished.
  unfold db_view in *. unfold released_tables.
  destruct (tb_nodes (db_tables db) !! j_NodeID j) as [n|] eqn:En.
  - destruct (left_node_books (moved_to now st) n j (a_jobs (view_tables (db_tables db)))
      (a_nodes (view_tables (db_tables db)))) as (Hb' & Ha' & _); done.
  - split; [by apply base_ok_moved|]. eapply accounted_le; [|exact Ha]. intros d k.
    apply load_idle_le. intros x Hx. split; [by destruct (proj1 Hb _ _ Hx) as [_ [? _]]|done].
Qed.
End books.

(** ** The node service *)

Section services.
Context `{PgEnv} {R : Type} `{RedisLists R}.

Definition srv_booked (s : NodeServer R) : Prop := booked (ns_db s).

Lemma srv_keep {A} (m : M Db A) : hoare booked m (fun _ => booked) ->
  hoare srv_booked (on_db m) (fun _ => srv_booked).
Proof. intros Hm. by eapply (hoare_zoom ns_db). Qed.

Lemma heartbeat_books id : hoare srv_booked (Heartbeat id) (fun _ => srv_booked).
Proof.
  unfold Heartbeat. apply hoare_bind_inv; [apply srv_keep, booked_Heartbeat|].
  intros [?|[|?]]; try by apply hoare_ret.
  apply hoare_bind_inv; [apply srv_keep, booked_node_Get|]. intros r. by apply hoare_ret.
Qed.

Lemma assignments_books id : hoare srv_booked (GetAssignments id) (fun _ => srv_booked).
Proof.
  unfold GetAssignments. apply hoare_bind_inv; [apply srv_keep, booked_prefix, booked_query|].
  intros r. by apply hoare_ret.
Qed.

(** A report on a job that is active, or on the end of one without a node. *)
Definition fair_report (req : JobStatusUpdate) (js : gmap string Job) : Prop :=
  forall j, js !! ju_JobId req = Some j ->
    IsActive (j_Status j) = true \/ (j_NodeID j = "" /\ ju_Status req <> JobStatusRunning).

Lemma report_books (s : NodeServer R) req :
  srv_booked s -> fair_report req (srv_jobs s) -> srv_booked (UpdateJobStatus req s).2.
Proof.
  intros Hs Hf. unfold UpdateJobStatus, on_db, zoom, mbind, M_bind.
  pose proof (booked_job_Get (ju_JobId req) (ns_db s) Hs) as Hget.
  assert (db_view (job_Get (ju_JobId req) (ns_db s)).2 = db_view (ns_db s)) as Ev.
  { unfold job_Get. rewrite exec_healthy by apply Hs. by destruct (tb_jobs _ !! _). }
  destruct (job_Get (ju_JobId req) (ns_db s)) as [[j|e] db1]; cbn [fst snd ns_db] in *; [|by destruct Hget].
  destruct Hget as [Hb Hj]. specialize (Hj j eq_refl). rewrite Ev in Hj.
  specialize (Hf j Hj). destruct (proj1 (proj1 (proj2 Hs)) _ _ Hj) as [Hid _].
  destruct (String.eqb_spec (ju_Status req) JobStatusRunning) as [Er|Hr].
  - pose proof (booked_UpdateStatus (j_JobID j) JobStatusRunning db1) as Hu.
    cbn [ns_db]. destruct (job_UpdateStatus _ _ db1) as [r db2]. apply Hu. split; [done|]. intros _ x Hx.
    rewrite Ev, Hid, Hj in Hx. injection Hx as <-. by destruct Hf as [?|[_ []]].
  - destruct (String.eqb (ju_Status req) JobStatusCompleted || String.eqb (ju_Status req) JobStatusFailed)
      eqn:Ef; [|done].
    assert (IsActive (ju_Status req) = false) as Hidle.
    { by apply orb_true_iff in Ef as [->%String.eqb_eq| ->%String.eqb_eq]. }
    pose proof (booked_finalize j (ju_Status req) Hidle) as Hfin. cbn [ns_db].
    destruct (releaseAndFinalize j (ju_Status req) db1) as [[]  db2] eqn:E; cbn [srv_emit modify snd];
      (assert (db2 = (releaseAndFinalize j (ju_Status req) db1).2) as Edb by by rewrite E);
      unfold srv_booked; simpl; rewrite Edb; apply Hfin; rewrite ?Ev, ?Hid; try done; tauto.
Qed.

(** A registration under an identifier, with no negative amount, and with at
    least the hardware a node of that identifier had before. *)
Definition fair_register (req : RegisterRequest) (ns : gmap string Node) : Prop :=
  rq_NodeId req <> "" /\ (forall d, 0 <= capacity d (register_node req))
  /\ forall n d, ns !! rq_NodeId req = Some n -> capacity d n <= capacity d (register_node req).

Lemma load_unknown_node d id (t : Tables) :
  tables_ok t -> id <> "" -> tb_nodes t !! id = None -> load d id (a_jobs (view_tables t)) = 0.
Proof.
  intros Ht Hne Hfree. unfold load, msum. apply zsum_zero, Forall_forall.
  intros [k j] Hin%elem_of_map_to_list. unfold view_tables in Hin. simpl in *.
  rewrite lookup_fmap in Hin. destruct (tb_jobs t !! k) as [r|] eqn:Er; [|done]. injection Hin as <-.
  unfold weight, job_on. destruct (String.eqb_spec (j_NodeID (scanJob r)) id) as [E|];
    [|by rewrite andb_false_r].
  destruct (row_node_id r) as [n|] eqn:En; simpl in E; rewrite En in E; simpl in E; [|done].
  subst n. destruct (tok_fk _ Ht _ _ _ Er En) as [m Hm]. congruence.
Qed.

Lemma register_books (s : NodeServer R) req :
  srv_booked s -> tables_ok (srv_tables s) -> fair_register req (srv_nodes s) ->
  srv_booked (Register req s).2.
Proof.
  intros [Hh [Hb Ha]] Hok (Hne & Hpos & Hmore).
  unfold Register, on_db, zoom, mbind, M_bind, with_prefix, node_Upsert, srv_booked.
  rewrite exec_healthy by done. destruct (node_ints_ok (register_node req)) eqn:Hi; simpl; [|done].
  split; [done|]. simpl. apply node_ints_parts in Hi as (Hg & _ & Hc & _ & Hm & _).
  unfold srv_tables in Hok. set (t := db_tables (ns_db s)) in *.
  assert (forall d, in_int32 (capacity d (register_node req))) as Hcap by by intros [].
  change (n_NodeID (register_node req)) with (rq_NodeId req).
  destruct (tb_nodes t !! rq_NodeId req) as [old|] eqn:Eo.
  - destruct (proj2 Hb _ _ Eo) as [Hid Hw]. rewrite node_wf_dim in Hw.
    apply (books_insert_node (rq_NodeId req) old); try done.
    + rewrite node_wf_dim. intros d. specialize (Hw d). specialize (Hcap d). specialize (Hmore old d Eo).
      unfold dim_wf, in_int32 in *. by destruct d; simpl in *; lia.
    + intros d. specialize (Hmore old d Eo). by destruct d; simpl in *; lia.
  - split.
    + split; [apply Hb|]. apply map_Forall_insert_2; [|apply Hb]. split; [done|].
      rewrite node_wf_dim. intros d. specialize (Hcap d). specialize (Hpos d).
      unfold dim_wf, in_int32 in *. by destruct d; simpl in *; lia.
    + apply map_Forall_insert_2; [|exact Ha]. intros d.
      change (n_NodeID _) with (rq_NodeId req) at 1. pose proof (load_unknown_node d _ t Hok Hne Eo) as Hl.
      simpl in *. rewrite Hl. by destruct d; simpl; lia.
Qed.
End services.

(** ** The gateway: whatever a client sends *)

Section gateway.
Context `{PgEnv} {R : Type} `{RedisLists R}.
Context (cfg : Config) (jwt : JwtLib).

Definition api_booked (s : ApiState R) : Prop := booked (api_db s).
Abbreviation keeps m := (hoare api_booked m (fun _ => api_booked)).

Lemma api_keep {A} (m : M Db A) : hoare booked m (fun _ => booked) -> keeps (with_db m).
Proof. intros Hm. by eapply (hoare_zoom api_db). Qed.

Lemma api_same {A} (m : M (ApiState R) A) : (forall s, api_db (m s).2 = api_db s) -> keeps m.
Proof. intros Hm s Hs. unfold api_booked. by rewrite Hm. Qed.

Lemma reply_books code b : keeps (reply code b).
Proof. by apply api_same. Qed.

Lemma query_books {A} (f : Time -> Tables -> res A) : keeps (with_db (exec (fun now t => (f now t, t)))).
Proof. apply api_keep, booked_query. Qed.

Lemma submit_books body : keeps (handleSubmitJob cfg body).
Proof.
  unfold handleSubmitJob. destruct body as [req|e]; [|apply reply_books].
  destruct (validateSubmit req) as [[]|e] eqn:Hv; [|apply reply_books].
  apply hoare_bind_inv; [by apply api_same|]. intros id.
  apply hoare_bind_inv; [by apply api_same|]. intros now. cbv zeta.
  apply hoare_bind_inv.
  - apply api_keep. destruct (job_ints_ok (new_job cfg id now req)) eqn:Hi.
    + apply booked_Create; [done| |done]. by apply (new_job_submitted cfg id now req Hv Hi).
    + apply booked_prefix, booked_keep. intros _ t Ht. by rewrite Hi.
  - intros [u|e]; [|apply reply_books]. apply hoare_bind_inv; [by apply api_same|].
    intros []. apply reply_books.
Qed.

Lemma cancel_books id : keeps (handleCancelJob id).
Proof.
  unfold handleCancelJob. eapply hoare_bind.
  { eapply (hoare_zoom api_db); [done|apply booked_job_Get]. }
  intros [j|[|msg]]; [|intros s [? _]; by apply reply_books..].
  destruct (IsTerminal (j_Status j)); [intros s [? _]; by apply reply_books|].
  intros s [Hs Hj]. specialize (Hj j eq_refl). destruct (proj1 (proj1 (proj2 Hs)) _ _ Hj) as [Hid _].
  pose proof (booked_finalize j JobStatusCancelled eq_refl) as Hfin.
  pose proof (booked_UpdateStatus (j_JobID j) JobStatusCancelled (api_db s)) as Hup.
  unfold mbind, M_bind, with_db, zoom, releaseAndFinalize in *.
  destruct (IsActive (j_Status j)) eqn:Ea; cbn [andb].
  - destruct (String.eqb_spec (j_NodeID j) "") as [En|Hne]; cbn [negb mret M_ret].
    + cbn [api_db]. destruct (job_UpdateStatus _ _ (api_db s)) as [[] db2]; by apply Hup.
    + specialize (Hfin (or_introl eq_refl) (api_db s)). cbv beta in Hfin.
      destruct (String.eqb_spec (j_NodeID j) "") as [|_]; [done|].
      unfold mbind, M_bind in Hfin. destruct (release_to_node j (api_db s)) as [[] db1]. cbn [api_db].
      destruct (job_UpdateStatus (j_JobID j) JobStatusCancelled db1) as [[] db2];
        apply Hfin; by rewrite Hid.
  - cbn [mret M_ret api_db]. destruct (job_UpdateStatus _ _ (api_db s)) as [[] db2]; by apply Hup.
Qed.

Lemma node_status_books id st : keeps (setNodeStatus id st).
Proof.
  unfold setNodeStatus. apply hoare_bind_inv; [apply api_keep, booked_node_Get|].
  intros [n|[|msg]]; try apply reply_books;
    (apply hoare_bind_inv; [apply api_keep, booked_SetStatus|]; intros [u|e]; apply reply_books).
Qed.

Lemma list_jobs_books f : keeps (with_db (job_List f)).
Proof. apply api_keep, booked_prefix, booked_query. Qed.

Lemma list_nodes_books : keeps (with_db node_List).
Proof. apply api_keep, booked_prefix, booked_query. Qed.

Lemma count_books st : keeps (count_or_zero st).
Proof. unfold count_or_zero. apply hoare_bind_inv; [apply query_books|]. intros r. by apply hoare_ret. Qed.

Lemma utilization_books : keeps handleUtilization.
Proof.
  unfold handleUtilization. apply hoare_bind_inv; [apply list_nodes_books|].
  intros [nodes|e]; [|apply reply_books].
  do 3 (apply hoare_bind_inv; [apply count_books|]; intros ?). apply reply_books.
Qed.

Lemma handle_books route : keeps (handle cfg route).
Proof.
  destruct route as [| |body|status user team limit|id|id|id limit| |id|id|id| |limit]; simpl.
  - apply hoare_bind_inv; [by apply api_same|]. intros t. apply reply_books.
  - apply hoare_bind_inv; [apply query_books|]. intros [|]; apply reply_books.
  - apply submit_books.
  - apply hoare_bind_inv; [apply list_jobs_books|]. intros [|]; apply reply_books.
  - apply hoare_bind_inv.
    + apply api_keep. eapply hoare_conseq; [apply booked_job_Get|done|by intros ? ? []].
    + intros [|[|]]; apply reply_books.
  - apply cancel_books.
  - apply api_same. intros s. unfold handleJobLogs. by destruct (FetchLogs _ _ _) as [[] ?].
  - apply hoare_bind_inv; [apply list_nodes_books|]. intros [|]; apply reply_books.
  - apply node_status_books.
  - apply node_status_books.
  - apply node_status_books.
  - apply utilization_books.
  - apply hoare_bind_inv; [apply api_keep, booked_prefix, booked_query|]. intros [|]; apply reply_books.
Qed.

Lemma serve_books req : keeps (serve cfg jwt req).
Proof.
  unfold serve. destruct (rq_options req); [apply reply_books|].
  apply hoare_bind_inv; [apply api_same, rate_limit_db|].
  intros [|]; cbn [negb]; [|apply reply_books]. destruct (rq_route req) as [route|]; [|apply reply_books].
  destruct (public route); [apply handle_books|].
  destruct (auth cfg jwt _); [by apply hoare_ret|apply handle_books].
Qed.
End gateway.

(** ** Fair executions *)

Section fair.
Context `{PgEnv} `{GoArch} {R : Type} `{RedisLists R}.
Context (alg : Algorithm) `{!LawfulAlgorithm alg} (cfg : Config) (jwt : JwtLib).

(** A pass may start: no retry counter is about to overflow, the table has at
    most 2^31 jobs, and at most one job is entitled to preempt. *)
Definition pass_room (clock : nat -> Time) (js : gmap string Job) : Prop :=
  retry_left 2 js /\ Z.of_nat (size js) <= 2147483648
  /\ forall k, (length (preemptors (c_Scheduler cfg) (clock k) (live_jobs js)) <= 1)%nat.

Inductive fair_step : Tables -> Tables -> Prop :=
| fair_pass (e : Env Db) :
    db_healthy (env_store e) -> pass_room (env_clock e) (env_jobs e) ->
    fair_step (db_tables (env_store e)) (db_tables (env_store (Tick alg (c_Scheduler cfg) e).2))
| fair_registers (s : NodeServer R) req :
    db_healthy (ns_db s) -> fair_register req (srv_nodes s) ->
    fair_step (srv_tables s) (srv_tables (Register req s).2)
| fair_heartbeat (s : NodeServer R) id :
    db_healthy (ns_db s) -> fair_step (srv_tables s) (srv_tables (Heartbeat id s).2)
| fair_assignments (s : NodeServer R) id :
    db_healthy (ns_db s) -> fair_step (srv_tables s) (srv_tables (GetAssignments id s).2)
| fair_reports (s : NodeServer R) req :
    db_healthy (ns_db s) -> fair_report req (srv_jobs s) ->
    fair_step (srv_tables s) (srv_tables (UpdateJobStatus req s).2)
| fair_request (s : ApiState R) req :
    db_healthy (api_db s) -> fair_step (api_tbl s) (api_tbl (serve cfg jwt req s).2).

Lemma fair_step_stmts t t' : fair_step t t' -> rtc stmt t t'.
Proof.
  intros Hs. destruct Hs as [e _ _|s req _ _|s id _|s id _|s req _ _|s req _].
  - apply (runs_Tick db_tables alg (c_Scheduler cfg)).
  - apply runs_Register.
  - apply runs_Heartbeat.
  - apply runs_GetAssignments.
  - apply runs_UpdateJobStatus.
  - apply runs_serve.
Qed.

Lemma fair_step_books t t' : fair_step t t' -> tables_ok t -> tables_books t -> tables_books t'.
Proof.
  intros Hs Hok Hb. destruct Hs as [e Hh (Hr & Hsz & Hone)|s req Hh Hf|s id Hh|s id Hh|s req Hh Hf|s req Hh].
  - destruct Hb as [Hb Ha].
    pose proof (tick_accounted alg (c_Scheduler cfg) e) as Ht.
    destruct Ht as (_ & Hb' & Ha'); [exact Hh|by split|exact Hone|by split].
  - by apply (register_books s req).
  - by apply (heartbeat_books id s).
  - by apply (assignments_books id s).
  - by apply (report_books s req).
  - by apply (serve_books cfg jwt req s).
Qed.

Lemma fair_books t t' : rtc fair_step t t' -> tables_ok t -> tables_books t -> tables_books t'.
Proof.
  induction 1 as [|t t1 t' Hs _ IH]; intros Hok Hb; [done|]. apply IH.
  - by eapply stmts_keep_ok; [apply fair_step_stmts|].
  - by eapply fair_step_books.
Qed.

Lemma empty_books : tables_books empty_tables.
Proof.
  assert (a_jobs (view_tables empty_tables) = ∅) as E by apply fmap_empty.
  unfold tables_books. rewrite E. split; [split|]; apply map_Forall_empty.
Qed.

(** C1: No overcommitment in the whole system: from the empty database, after
    any sequence of scheduling passes, registrations, heartbeats, polls,
    reports and arbitrary HTTP requests, in which the database is healthy,
    nodes behave and at most one job is entitled to preempt in a pass, the
    scheduled and running jobs of every node fit on it together, and what a
    node offers lies between zero and its capacity. *)
Theorem system_never_overcommits t :
  rtc fair_step empty_tables t ->
  forall id n d, tb_nodes t !! id = Some n ->
    0 <= offered d n /\ offered d n + load d id (a_jobs (view_tables t)) <= capacity d n.
Proof.
  intros Hs id n d Hn. destruct (fair_books _ _ Hs empty_ok empty_books) as [[_ Hb] Ha].
  destruct (Hb _ _ Hn) as [Hid Hw]. rewrite node_wf_dim in Hw. specialize (Hw d).
  specialize (Ha _ _ Hn d). rewrite Hid in Ha. unfold dim_wf in Hw. split; [lia|exact Ha].
Qed.
End fair.

(** ** Witness: a node registers, a job is submitted and scheduled *)

Definition scheduled_tables : Tables :=
  db_tables (env_store (Tick BestFit cfg_default (env_of (healthy_db submitted_tables 0))).2).

Section example.
Abbreviation step := (fair_step (R := gmap string (list string * option Time)) BestFit gateway_config
                    (jwt_hmac_only (fun _ => false))).

Lemma example_register : step empty_tables registered_tables.
Proof.
  refine (fair_registers _ _ _ first_register
    (mkRegister "n1" "n1" (Some (mkRes 8 64 512)) "A100" f64_zero false ∅) _ _); [done|].
  split_and!; [done|by intros []|done].
Qed.

Lemma example_submit : step registered_tables submitted_tables.
Proof. by refine (fair_request _ _ _ (api_of registered_tables) submit_request _). Qed.

Lemma example_pass : step submitted_tables scheduled_tables.
Proof.
  refine (fair_pass _ _ _ (env_of (healthy_db submitted_tables 0)) _ _); [done|]. split_and!.
  - by apply (bool_decide_unpack _); vm_compute.
  - vm_compute. discriminate.
  - intros k. vm_compute. repeat constructor.
Qed.

Lemma fair_example : rtc step empty_tables scheduled_tables.
Proof.
  eapply rtc_l; [exact example_register|]. eapply rtc_l; [exact example_submit|].
  apply rtc_once, example_pass.
Qed.
End example.

Lemma system_never_overcommits_witness :
  (j_NodeID <$> a_jobs (view_tables scheduled_tables) !! "job-0") = Some "n1"
  /\ forall n, tb_nodes scheduled_tables !! "n1" = Some n ->
       load DGPU "n1" (a_jobs (view_tables scheduled_tables)) <= capacity DGPU n.
Proof.
  split; [vm_compute; reflexivity|]. intros n Hn.
  destruct (system_never_overcommits BestFit gateway_config (jwt_hmac_only (fun _ => false))
    scheduled_tables fair_example "n1" n DGPU Hn) as [Hge Hle]. lia.
Defined.
