(* ===== verification/Races.v ===== *)
(** * What is not protected

    The accounting of [SystemBooks] holds when operations run one at a time on
    a healthy database.  Concrete executions show that both provisos are
    needed: the services read an availability and write it back in separate
    statements, without a transaction or a check, and the engine goes on when
    the write fails. *)

From S2P Require Import Prelude Float64 Models Config Algorithms Store Interfaces Engine Scenarios EngineLogic EngineFrame Ledger Redis NodeServer NodeServerTheorems.

#[local] Open Scope string_scope.
#[local] Open Scope list_scope.
#[local] Open Scope Z_scope.

(** ** A report and a pass at the same time *)

Section split.
Context `{PgEnv}.

(** What is left of [releaseAndFinalize] once its node has been read. *)
Definition release_after_read (job : Job) (status : JobStatus) (rn : res Node) : M Db (res unit) :=
  (match rn with
   | Err _ => mret tt
   | Ok node =>
       let node := Release node (job_request job) in
       _ ← node_UpdateAvailability (n_NodeID node) (n_GPUAvailable node) (n_CPUAvailable node)
             (n_MemoryAvailable node);
       mret tt
   end);;
  job_UpdateStatus (j_JobID job) status.

Lemma releaseAndFinalize_split job status db :
  j_NodeID job <> "" ->
  releaseAndFinalize job status db
  = (rn ← node_Get (j_NodeID job); release_after_read job status rn) db.
Proof.
  intros Hne. unfold releaseAndFinalize, release_to_node, release_after_read, mbind, M_bind.
  destruct (String.eqb_spec (j_NodeID job) "") as [|_]; [done|].
  destruct (node_Get (j_NodeID job) db) as [[n|e] db1]; [|done].
  by destruct (node_UpdateAvailability _ _ _ _ db1).
Qed.
End split.

(** Half of the node is in use; three jobs wait. *)
Definition race_job : Job := running_on "n1" (job_of "a" 4 8 64 5).
Definition race_tables : Tables :=
  tables_of [race_job; job_of "b" 4 8 64 5; job_of "c" 4 8 64 5; job_of "d" 4 8 64 5]
    [with_jobs [race_job] (node_of "n1" 8 64 512)].

Definition pass_on (db : Db) : Db := env_store (Tick FirstFit cfg_no_preemption (env_of db)).2.

Definition gpu_load (db : Db) : Z := load DGPU "n1" (a_jobs (db_view db)).
Definition gpu_free (db : Db) : option Z := n_GPUAvailable <$> a_nodes (db_view db) !! "n1".

(** The node service has read the node of the finished job when a pass runs. *)
Definition race_interleaved : Db :=
  let '(rn, db1) := node_Get "n1" (healthy_db race_tables 0) in
  (release_after_read race_job JobStatusCompleted rn (pass_on db1)).2.

(** The same operations one after the other. *)
Definition race_serial : Db :=
  (releaseAndFinalize race_job JobStatusCompleted (pass_on (healthy_db race_tables 0))).2.

(** C40: Lost update: when a pass runs between the read and the write of a
    completion report, the write brings back the availability from before the
    pass. With eight GPUs, four of them given to a waiting job by the pass, the
    node offers all eight, and the next pass gives them away once more: twelve
    GPUs are assigned. Run one after the other, the same operations leave four
    free, and the node is never given more than eight. *)
Theorem report_races_with_pass :
  accounted (a_jobs (view_tables race_tables)) (a_nodes (view_tables race_tables))
  /\ gpu_free race_serial = Some 4 /\ gpu_load race_serial = 4
  /\ gpu_load (pass_on race_serial) = 8
  /\ gpu_free race_interleaved = Some 8 /\ gpu_load race_interleaved = 4
  /\ gpu_load (pass_on race_interleaved) = 12.
Proof. by split; [apply (bool_decide_unpack _); vm_compute|vm_compute]. Qed.

(** ** A failed write *)

(** Statements of a pass on one node and one queued job: stale nodes, the three
    lists, team usage, the placement, and then the availability of the node. *)
Definition refuse_only (k i : nat) : Outcome := if Nat.eqb i k then Refused else Carried.

Definition refused_tables : Tables :=
  tables_of [job_of "a" 4 8 64 5] [node_of "n1" 4 8 64].

Definition submit_row (j : Job) (t : Tables) : Tables := set_jobs (<[j_JobID j := row_of j]> (tb_jobs t)) t.

(** The pass whose seventh statement is refused, then a second job arrives and
    the next pass runs without failures. *)
Definition after_refusal (fate : nat -> Outcome) : Db :=
  let db1 := pass_on (mkDb refused_tables 0 (fun _ => 0) fate) in
  pass_on (healthy_db (submit_row (job_of "b" 4 8 64 5) (db_tables db1)) 0).

(** One refused statement breaks the books: if the availability of a node
    cannot be written after a placement, the engine logs the error and keeps
    the placement, so the node goes on offering what it has given away. With
    the write refused once, the next pass assigns eight GPUs of a node that has
    four; without the refusal it does not. *)
Theorem failed_write_overcommits :
  accounted (a_jobs (view_tables refused_tables)) (a_nodes (view_tables refused_tables))
  /\ gpu_load (after_refusal (refuse_only 6)) = 8
  /\ gpu_load (after_refusal (fun _ => Carried)) = 4.
Proof. by split; [apply (bool_decide_unpack _); vm_compute|vm_compute]. Qed.

(** ** A victim that never comes back *)

(** A preempting pass whose seventh statement, the one that puts the victim
    back into the queue, is refused. *)
Definition stranding_env : Env Db :=
  env_of (mkDb (tables_of [victim; job_of "a" 4 8 64 9] [with_jobs [victim] (node_of "n1" 4 8 64)])
            0 (fun _ => 0) (refuse_only 6)).

Definition stranded_env : Env Db := (Tick Priority cfg_default stranding_env).2.

(** A preempted job can be lost: [Requeue] gives the victim the status
    preempted, and the engine ignores an error of the statement that then puts
    it back into the queue. After one refused statement the victim has the
    status preempted, and no number of later passes, whatever happens in them,
    schedules it again. *)
Theorem refused_requeue_strands_victim events :
  (j_Status <$> env_jobs stranded_env !! "victim") = Some JobStatusPreempted
  /\ env_jobs (Run Priority cfg_default events stranded_env).2 !! "victim"
     = env_jobs stranded_env !! "victim".
Proof.
  split; [vm_compute; reflexivity|].
  destruct (env_jobs stranded_env !! "victim") as [j|] eqn:E; [|by vm_compute in E].
  assert (Some (j_Status j) = Some JobStatusPreempted) as Hst.
  { change (Some (j_Status j)) with (j_Status <$> Some j). rewrite <- E. vm_compute. reflexivity. }
  apply (inj Some) in Hst.
  refine (run_leaves_others Priority cfg_default events stranded_env "victim" j _ E _ _);
    [|by rewrite Hst..].
  apply (bool_decide_unpack _). vm_compute. exact I.
Qed.
