(* ===== verification/AgentReports.v ===== *)
(** * Agents and the node service: [internal/agent/executor.go]

    The reports that an execution sends, delivered to the node service.  An
    execution that nobody interferes with ends its job and returns its resources
    exactly once; an execution is not told when its job is cancelled or
    preempted, and its last report then acts on a job it no longer owns. *)

From S2P Require Import Prelude Float64 Models Config Algorithms Store Interfaces StoreTheorems Engine Scenarios EngineLogic EngineFrame Ledger Redis NodeServer NodeServerTheorems RateLimit Api ApiTheorems Agent System SystemBooks Races.

#[local] Open Scope string_scope.
#[local] Open Scope list_scope.
#[local] Open Scope Z_scope.

(** ** Delivery *)

Section deliver.
Context `{PgEnv} {R : Type} `{RedisLists R}.

(** The request of [report]; the node service reads neither the message nor
    the exit code. *)
Definition report (c : AgentConfig) (jobID status : string) : JobStatusUpdate :=
  mkUpdate jobID (ag_NodeID c) status.

(** The reports of an execution, one after the other; a failed one is only
    logged. *)
Fixpoint deliver (c : AgentConfig) (rs : list (string * string)) : M (NodeServer R) (list (res unit)) :=
  match rs with
  | [] => mret []
  | (id, st) :: rs' =>
      r ← UpdateJobStatus (report c id st);
      l ← deliver c rs';
      mret (r :: l)
  end.

(** A job that starts. *)
Lemma report_running (s : NodeServer R) id nodeID j :
  db_healthy (ns_db s) -> srv_jobs s !! id = Some j -> j_JobID j = id ->
  let s' := (UpdateJobStatus (mkUpdate id nodeID JobStatusRunning) s).2 in
  (UpdateJobStatus (mkUpdate id nodeID JobStatusRunning) s).1 = Ok tt
  /\ db_healthy (ns_db s') /\ srv_nodes s' = srv_nodes s
  /\ exists now, srv_jobs s' = alter (moved_to now JobStatusRunning) id (srv_jobs s).
Proof.
  intros Hh Hj Hid. unfold UpdateJobStatus, on_db, zoom, mbind, M_bind.
  cbn [ju_Status ju_JobId]. rewrite (job_Get_healthy s id j Hh Hj). cbn [fst snd ns_db].
  change (String.eqb JobStatusRunning JobStatusRunning) with true. cbv beta iota.
  unfold job_UpdateStatus. rewrite exec_healthy by done. rewrite Hid.
  unfold srv_nodes, srv_jobs, db_view. cbn [ns_db fst snd].
  split_and!; [done|done|done|]. cbn [db_tables after_stmt].
  eexists. by rewrite sql_update_view.
Qed.

(** C30: An execution that is left alone ends its job.  For a job scheduled on a
    node, in balanced books, the reports of an agent's execution are all
    accepted; afterwards the job is completed or failed, its node has exactly
    the job's request back, and the books are balanced. *)
Theorem execution_ends_job `{RandSource} (s : NodeServer R) c job inp j n :
  srv_booked s ->
  srv_jobs s !! pj_JobId job = Some j -> j_Status j = JobStatusScheduled ->
  j_NodeID j <> "" -> srv_nodes s !! j_NodeID j = Some n ->
  existsb (fun k => bool_decide (ex_cancel inp = Some k)) [1; 2; 3; 4; 5] = false ->
  let '(rs, s') := deliver c (reports (execute c job inp)) s in
  rs = [Ok tt; Ok tt] /\ accounted (srv_jobs s') (srv_nodes s')
  /\ (exists j', srv_jobs s' !! pj_JobId job = Some j' /\ frozen j' = frozen j
        /\ j_Status j' ∈ [JobStatusCompleted; JobStatusFailed])
  /\ exists n', srv_nodes s' !! j_NodeID j = Some n'
       /\ forall d, offered d n' = offered d n + asked d (job_request j).
Proof.
  intros Hs Hj Hst Hne Hn Hc. pose proof (execution_reports c job inp) as He. cbv zeta in He.
  rewrite Hc in He. destruct He as [-> _].
  destruct (proj1 (proj1 (proj2 Hs)) _ _ Hj) as [Hid _].
  set (fin := if f64_lt _ _ then _ else _).
  assert (fin = JobStatusCompleted \/ fin = JobStatusFailed) as Hfin.
  { subst fin. destruct (f64_lt _ _); auto. }
  clearbody fin. unfold deliver, report, mbind, M_bind.
  destruct (report_running s (pj_JobId job) (ag_NodeID c) j (proj1 Hs) Hj Hid)
    as (Hok1 & Hh1 & En1 & now & Ej1).
  assert (srv_booked (UpdateJobStatus (mkUpdate (pj_JobId job) (ag_NodeID c) JobStatusRunning) s).2)
    as Hb1.
  { apply report_books; [done|]. intros x Hx. left. simpl in Hx. rewrite Hj in Hx.
    injection Hx as <-. by rewrite Hst. }
  destruct (UpdateJobStatus (mkUpdate _ _ JobStatusRunning) s) as [r1 s1]. simpl in Hok1, Hh1, En1, Ej1, Hb1.
  subst r1. set (j1 := moved_to now JobStatusRunning j).
  assert (srv_jobs s1 !! pj_JobId job = Some j1) as Hj1 by by rewrite Ej1, lookup_alter_eq, Hj.
  destruct (report_finished s1 (pj_JobId job) (ag_NodeID c) fin j1 n) as (Hok2 & _ & Ha2 & [now2 Hj2] & Hn2);
    [done|apply Hb1|apply Hb1|done|done|done|done|by rewrite En1|].
  destruct (UpdateJobStatus (mkUpdate _ _ fin) s1) as [r2 s2]. simpl in Hok2, Ha2, Hj2, Hn2. subst r2.
  split_and!; [done|done| |exact Hn2].
  exists (moved_to now2 fin j1). split_and!; [done|done|].
  change (j_Status (moved_to now2 fin j1)) with fin. rewrite !elem_of_cons. destruct Hfin; auto.
Qed.
End deliver.

Lemma execution_ends_job_witness :
  let t := tables_of [set_lifecycle JobStatusScheduled "n1" 0 None None (job_of "a" 4 8 64 5)]
             [with_jobs [job_of "a" 4 8 64 5] (node_of "n1" 8 64 512)] in
  let '(rs, s') := deliver agent_config
    (reports (@execute rand_low agent_config (assigned "a") (mkExec true None 0))) (server_of t) in
  rs = [Ok tt; Ok tt] /\ accounted (srv_jobs s') (srv_nodes s').
Proof.
  intros t.
  pose proof (@execution_ends_job _ rand_low (server_of t) agent_config (assigned "a") (mkExec true None 0)
    (set_lifecycle JobStatusScheduled "n1" 0 None None (job_of "a" 4 8 64 5))
    (with_jobs [job_of "a" 4 8 64 5] (node_of "n1" 8 64 512))) as He.
  destruct (deliver _ _ _) as [rs s']. destruct He as (H1 & H2 & _); [| | | | | |by split].
  - split; [by intros k|]. split; by apply (bool_decide_unpack _); vm_compute.
  - vm_compute. reflexivity.
  - reflexivity.
  - discriminate.
  - vm_compute. reflexivity.
  - reflexivity.
Defined.

(** ** A cancelled job that goes on running *)

Definition stale_start : Tables :=
  tables_of [job_of "a" 4 8 64 5; job_of "b" 4 8 64 5; job_of "c" 4 8 64 5; job_of "d" 4 8 64 5]
    [node_of "n1" 8 64 512].

Definition pass_tables (t : Tables) : Tables := db_tables (pass_on (healthy_db t 0)).

(** The first job that the node's agent is assigned after a pass. *)
Definition stale_assigned : option PbJob :=
  match (GetAssignments "n1" (server_of (pass_tables stale_start))).1 with Ok l => head l | Err _ => None end.

Definition stale_id : string := match stale_assigned with Some job => pj_JobId job | None => "" end.

(** The reports of its execution. *)
Definition stale_reports : list (string * string) :=
  match stale_assigned with
  | Some job => reports (@execute rand_low agent_config job (mkExec true None 0))
  | None => []
  end.

Definition deliver_to (rs : list (string * string)) (t : Tables) : Tables :=
  srv_tables (deliver agent_config rs (server_of t)).2.

Definition cancel_in (id : string) (t : Tables) : Tables :=
  api_tbl (serve gateway_config (jwt_hmac_only (fun _ => false))
             (mkRequest false (Some (RCancelJob id)) "10.0.0.1" "") (api_of t)).2.

(** A pass, the agent reports that the job runs, its user cancels it, and
    another pass fills the place. *)
Definition stale_cancelled : Tables :=
  cancel_in stale_id (deliver_to (take 1 stale_reports) (pass_tables stale_start)).
Definition stale_refilled : Tables := pass_tables stale_cancelled.

(** The execution ends. *)
Definition stale_finished : Tables := deliver_to (drop 1 stale_reports) stale_refilled.

Definition status_in (id : string) (t : Tables) : option JobStatus :=
  j_Status <$> a_jobs (view_tables t) !! id.
Definition gpu_load_in (t : Tables) : Z := load DGPU "n1" (a_jobs (view_tables t)).

(** C31: Cancelling a running job overcommits its node, although every client is
    honest, operations run one at a time and no statement fails.  The agent is
    not told of the cancellation and goes on; when its execution ends, the
    report turns the cancelled job into a completed one and releases its
    resources a second time, and the next pass assigns them again: a node with
    eight GPUs has twelve assigned.  Without that report it has eight. *)
Theorem cancelled_execution_overcommits :
  accounted (a_jobs (view_tables stale_start)) (a_nodes (view_tables stale_start))
  /\ stale_reports = [(stale_id, JobStatusRunning); (stale_id, JobStatusCompleted)]
  /\ status_in stale_id stale_cancelled = Some JobStatusCancelled
  /\ status_in stale_id stale_finished = Some JobStatusCompleted
  /\ gpu_load_in (pass_tables stale_refilled) = 8
  /\ gpu_load_in (pass_tables stale_finished) = 12.
Proof. by split; [apply (bool_decide_unpack _); vm_compute|vm_compute]. Qed.
